(* ===== verification/_CoqProject ===== *)
-Q . S2P
Prelude.v
GoStd.v
Json.v
Sha256.v
Errors.v
Models.v
Database.v
RefDb.v
OrderRepository.v
Repositories.v
Frame.v
Ledger.v
LedgerSpec.v
Idempotency.v
OrderService.v
OrderServiceSpec.v
Config.v
Gateway.v
Notification.v
Fulfillment.v
NotificationSpec.v
FulfillmentSpec.v
Pipeline.v
PipelineSpec.v
Requests.v
RequestsSpec.v
Hub.v
HubSpec.v
Pumps.v
PumpsSpec.v
Pool.v
PoolSpec.v
PoolLiveness.v
Works.v
WorksSpec.v
Sweeper.v
Auth.v
Connections.v
Lifecycle.v
Server.v
ProductService.v
ProductServiceSpec.v
UserService.v
Http.v
Handlers.v
AuthSpec.v
Routes.v
UserServiceSpec.v
SiteDemo.v
HttpFrame.v
HttpSpec.v
SubscribeSpec.v
Delivery.v
DeliverySpec.v
MetricsSpec.v
SitePipeline.v
Books.v
