(* ===== verification/Prelude.v ===== *)
(** * Order processing system: a verification library

    The program is an HTTP service that takes orders for a shop. A request places an order
    in PostgreSQL (stock reserved, order, items and a pending payment stored in one
    transaction), guarded by an idempotency reservation in Redis, and hands the order's id to
    a pool of workers. A worker charges the payment with bounded retries and takes the order
    to [confirmed] or [cancelled], the latter returning its stock; the customer's open
    WebSockets are told through a hub. A sweeper hands stale pending orders to the pool again.

    ** Parts, files and what is proved

    The source lives under [src/]; each file below names the part it models, and a [...Spec]
    file holds the properties of the part before it.

    - [GoStd] (64-bit integers, float64, times, strings), [Json] ([encoding/json] on strings),
      [Sha256], [Errors] ([internal/apperrors], wrapping), [Models] ([internal/models], [internal/dto]).
    - [Database]: the schema of [migrations/] and the statements and transactions of the ORM.
      [DbEngine] is any database; [LawfulDb] says what a statement and a transaction may do,
      faults included. [RefDb] is an engine that satisfies it and evaluates.
    - [OrderRepository], [Repositories] ([internal/repository]); [Ledger], [LedgerSpec]: no
      oversell, clean failures, each order leaves [pending] once with its payment (C1 to C4).
      [Frame]: transactions that never write to a table.
    - [Idempotency] ([internal/idempotency]), [OrderService], [OrderServiceSpec]
      ([internal/services/order.go]): a request end to end, its refusals, duplicates and
      the key (C10 to C12, C32).
    - [Gateway], [Notification], [NotificationSpec], [Fulfillment], [FulfillmentSpec]
      ([internal/payment], [internal/services/notification.go], [fulfillment.go]): what a
      subscriber reads from the wire, what [Send] records call by call, backoff and retries
      (C28 to C31).
    - [Pipeline], [PipelineSpec]: requests, workers, edits and crashes interleaved as a step
      relation; stock is conserved, confirmed means charged, terminal is final, one truthful
      announcement; [Fulfill] settles its order, and is one run of the pipeline (C5 to C9, C15);
      and a race its guards do not cover (C40).
    - [Requests], [RequestsSpec]: [CreateOrder] cut at its calls, any number of requests
      interleaved with each other, the rest of the program and the clock: no cart is ordered
      twice inside the reservation window, on the conditions that guarantee needs, and every
      interleaving is a run of the pipeline (C13, C14).
    - [Hub], [HubSpec] ([internal/ws]): no panic in the loop as long as [Stop] is called once,
      delivery (C38, C39), and the panic in [Send]. [Pumps], [PumpsSpec]: the loop, the write pumps and the replays as
      goroutines: each socket is sent what was queued for it, in order, and a closed client
      unwinds (C22, C23).
    - [Delivery], [DeliverySpec] ([internal/services/notification.go], [ws_handler.go]): [Send]
      and [Connect] cut at their calls around the hub: no gap between the replay of persisted
      notifications and the live pushes (C21).
    - [Pool], [PoolSpec], [PoolLiveness], [Sweeper] ([internal/workers]): exactly once,
      draining, a pool whose workers are not starved fulfils everything it accepted, and what
      a sweep hands it (C24, C27). [Works], [WorksSpec]: pool and pipeline joined, each worker
      stepping through [Fulfill]: every accepted order is settled for good, or left to the
      sweeper by a database error (C25).
    - [Config], [Connections], [Server] ([internal/config], [pkg/], [internal/server],
      [cmd/server]): start-up with its errors and panics. [Lifecycle]: handlers, sweeper,
      workers and the stop sequence of [Run] together; unless the HTTP drain times out nothing
      panics and only the replay of a hijacked connection can use the database while it is
      closed, which does happen; the sequence can always be completed (C26).
    - [Auth], [Http], [AuthSpec] ([internal/auth], [internal/api/middleware]): tokens live as
      long as they say, and nobody passes without one (C19, C33).
    - [ProductService], [ProductServiceSpec], [UserService], [UserServiceSpec]
      ([internal/services/product.go], [user.go]): login, pages, edits (C34, C36, C37).
    - [Handlers], [Routes] ([internal/api/handlers], [internal/api/routes]): one function
      [ServeHTTP] from a request and the state of the whole site to the answer and the next
      state. [HttpFrame] walks the handlers once for any relation on databases. [HttpSpec]:
      what an answer to an order says, who changes the catalogue (C17, C18), open
      registration; [SitePipeline]: every request is a run of the pipeline (C16); [Books]:
      after any requests and fulfilments every order is billed exactly once, for its total
      (C35); [SubscribeSpec]: who watches an order, and the replay it finds (C20); [MetricsSpec]: what is counted. [SiteDemo]
      is a running site for concrete requests.

    ** How the model is built

    Code that threads state is in the monad [M] below, over the state of whatever it calls.
    A Go interface is a class of operations in [M], the code that uses it is written against
    the class, and the implementation is an instance: repositories ([OrderRepository], ...),
    services ([OrderService], [ProductService], [UserService], built by [NewOrderService], ...),
    and the narrow interfaces a caller declares for what it needs of them ([OrderStore],
    [PaymentStore], [NotificationStore], [StaleLister], [Enqueuer], [orderOwnerLookup],
    [notificationLister]), each discharged by the repository or pool the server passes. A pair
    [(T, error)] is a [result]. Everything is executable, and the witnesses evaluate it.

    Goroutines are step relations: [Pipeline.step] (a transaction or a gateway call is one
    step), [Requests.front_step] and [Delivery.board_step] (a call is one step; the cuts are
    proved to compose to the sequential code), [Pumps.live_step] (one receive of a select),
    [Pool.pool_step], [Works.works_step] (the two of [Pool] and [Pipeline] at once),
    [Lifecycle.sys_step], [Hub.hub_step] (an event of the hub's loop).

    Libraries the source only calls are classes, their documented behaviour further classes
    of laws, each with an instance: the database ([LawfulDb], [RefDb]), Redis
    ([LawfulRedis]), the token library ([LawfulJwt]), the decoder of bodies
    ([LawfulBinder]), the configuration reader, drivers and migrations.

    Recursion is structural: the retry loop on [MaxRetries], the replay and sweep loops on
    their lists, the cut of a string into UTF-8 sequences on its bytes. The one fuel is that of
    the JSON reader in [Json], the length of its input, which [json_read_chars] shows to be
    enough.

    ** What is left out, and why

    - Isolation inside the database: a transaction is atomic, as row locks and conditional
      UPDATEs make it. Deadlocks and lost connections are errors any statement may return.
    - Context deadlines: a callee that times out returns an error, which any callee may.
    - The moments between [close(h.done)] and the hub's loop noticing it: a call the loop
      still serves then counts as before the [Stop], one that gives up as after it.
    - The framework's trailing-slash redirects, which answer before any handler; reading and
      writing of HTTP and WebSocket frames beyond the order of what is written; logging.
    - [migrations/fs.go]: a directive that embeds files.

    ** Where this goes next

    The edits of accounts and products load a row, change it and save it whole, as one request
    here; [SitePipeline] places each at one moment of the pipeline. Cutting those handlers at
    their calls too would show which of two crossing edits survives. *)

From Stdlib Require Import ZArith Lia.
From stdpp Require Import base tactics list gmap strings sorting.

Open Scope Z_scope.

(** ** Results: Go's [(T, error)] pairs

    A Go function that returns [(value, error)] returns a [result]: [Ok] carries
    the value of the nil-error case; with a non-nil error the value is the zero
    value, which no caller reads. *)
Inductive result (E A : Type) : Type :=
| Ok (a : A)
| Err (e : E).
Arguments Ok {E A} a.
Arguments Err {E A} e.

Definition result_bind {E A B} (r : result E A) (f : A → result E B) : result E B :=
  match r with Ok a => f a | Err e => Err e end.

Definition is_ok {E A} (r : result E A) : bool :=
  match r with Ok _ => true | Err _ => false end.

(** ** A state monad: code that threads the state [W] of what it calls *)
Definition M (W A : Type) : Type := W → A * W.

#[export] Instance M_ret {W} : MRet (M W) := λ A a w, (a, w).
#[export] Instance M_bind {W} : MBind (M W) :=
  λ A B f m w, let '(a, w') := m w in f a w'.

(** [ret x] inside [M] is [mret x]; [if err != nil { return err }] is [try]. *)
Definition try {W E A B} (m : M W (result E A)) (k : A → M W (result E B))
  : M W (result E B) :=
  r ← m; match r with Ok a => k a | Err e => mret (Err e) end.

Declare Scope go_scope.
Delimit Scope go_scope with go.
Notation "x <-? m ;; k" := (try m (λ x, k))
  (at level 100, m at next level, right associativity) : go_scope.
Open Scope go_scope.

(** Running a computation on one component of a larger state. *)
Definition on {W S A} (get : W → S) (set : S → W → W) (m : M S A) : M W A :=
  λ w, let '(a, s) := m (get w) in (a, set s w).

(** ** Sums over the rows of a table *)
Definition msum `{Countable K} {A} (f : A → Z) (m : gmap K A) : Z :=
  map_fold (λ _ x acc, f x + acc) 0 m.

(** ** Sums and folds over lists *)
Definition lsum {A} (f : A → Z) (l : list A) : Z := foldr (λ x acc, f x + acc) 0 l.

(** A list sorted by a key, strictly and weakly. *)
Definition strictly_by {A} (key : A → Z) : list A → Prop :=
  StronglySorted (λ x y, key x < key y).
Definition weakly_by {A} (key : A → Z) : list A → Prop :=
  StronglySorted (λ x y, key x ≤ key y).

(** Insertion sort by a key: what [sort.Slice] computes when keys are distinct. *)
Fixpoint insert_by {A} (key : A → Z) (x : A) (l : list A) : list A :=
  match l with
  | [] => [x]
  | y :: l' => if key x <=? key y then x :: l else y :: insert_by key x l'
  end.
Definition sort_by {A} (key : A → Z) (l : list A) : list A := foldr (insert_by key) [] l.

(** ** Tactics *)

(** Case analysis on the scrutinees that block a computation. *)
Ltac split_match :=
  match goal with
  | |- context [match ?x with _ => _ end] => destruct x eqn:?
  | H : context [match ?x with _ => _ end] |- _ => destruct x eqn:?
  end.

Ltac bool_to_prop :=
  cbv beta in *;
  repeat match goal with
  | H : (_ && _)%bool = true |- _ => apply andb_true_iff in H; destruct H
  | H : (_ || _)%bool = false |- _ => apply orb_false_iff in H; destruct H
  | H : negb _ = true |- _ => apply negb_true_iff in H
  | H : negb _ = false |- _ => apply negb_false_iff in H
  | H : (_ =? _) = true |- _ => apply Z.eqb_eq in H
  | H : (_ =? _) = false |- _ => apply Z.eqb_neq in H
  | H : (_ <=? _) = true |- _ => apply Z.leb_le in H
  | H : (_ <=? _) = false |- _ => apply Z.leb_gt in H
  | H : (_ <? _) = true |- _ => apply Z.ltb_lt in H
  | H : (_ <? _) = false |- _ => apply Z.ltb_ge in H
  | H : bool_decide _ = true |- _ => apply bool_decide_eq_true in H
  | H : bool_decide _ = false |- _ => apply bool_decide_eq_false in H
  end.

(** Closed equations, by evaluation. *)
Ltac evaluate := vm_compute; reflexivity.

(** ** Lemmas on [M] *)
Lemma M_bind_unfold {W A B} (m : M W A) (f : A → M W B) w a w' :
  m w = (a, w') → (m ≫= f) w = f a w'.
Proof. intros E. unfold mbind, M_bind. by rewrite E. Qed.

Lemma M_bind_inv {W A B} (m : M W A) (f : A → M W B) w b w2 :
  (m ≫= f) w = (b, w2) → ∃ a w1, m w = (a, w1) ∧ f a w1 = (b, w2).
Proof. unfold mbind, M_bind. destruct (m w) as [a w1]. eauto. Qed.

Lemma try_inv {W E A B} (m : M W (result E A)) (k : A → M W (result E B)) w r w2 :
  try m k w = (r, w2) →
  (∃ a w1, m w = (Ok a, w1) ∧ k a w1 = (r, w2))
  ∨ (∃ e, m w = (Err e, w2) ∧ r = Err e).
Proof.
  intros H. apply M_bind_inv in H as ([a|e] & w1 & Hm & Hk); [eauto|].
  right. exists e. injection Hk as <- <-. done.
Qed.

(** ** Lemmas on [msum] *)
Section msum.
  Context `{Countable K} {A : Type}.
  Implicit Types (m : gmap K A) (f g : A → Z).

Lemma msum_empty f : msum f (∅ : gmap K A) = 0.
Proof. apply map_fold_empty. Qed.

Lemma msum_insert_fresh f m k x :
  m !! k = None → msum f (<[k:=x]> m) = f x + msum f m.
Proof. intros Hk. unfold msum.
  rewrite (map_fold_insert_L (λ _ y acc, f y + acc) 0 k x m); [done| |done].
  intros. lia. Qed.

Lemma msum_delete f m k x :
  m !! k = Some x → msum f m = f x + msum f (delete k m).
Proof.
  intros Hk. rewrite <- (insert_delete_id m k x) at 1 by done.
  apply msum_insert_fresh, lookup_delete_eq.
Qed.

Lemma msum_insert f m k x y :
  m !! k = Some x → msum f (<[k:=y]> m) = msum f m - f x + f y.
Proof.
  intros Hk. rewrite <- insert_delete_eq, msum_insert_fresh by apply lookup_delete_eq.
  rewrite (msum_delete f m k x Hk). lia.
Qed.

Lemma msum_ext f g m :
  (∀ k x, m !! k = Some x → f x = g x) → msum f m = msum g m.
Proof.
  induction m as [|k x m Hk IH] using map_ind; intros Hfg; [done|].
  rewrite !msum_insert_fresh by done. rewrite (Hfg k x) by apply lookup_insert_eq.
  f_equal. apply IH. intros j y Hj. apply (Hfg j).
  rewrite lookup_insert_ne; congruence.
Qed.

Lemma msum_nonneg f m :
  (∀ k x, m !! k = Some x → 0 ≤ f x) → 0 ≤ msum f m.
Proof.
  induction m as [|k x m Hk IH] using map_ind; intros Hf; [done|].
  rewrite msum_insert_fresh by done.
  assert (0 ≤ f x) by (apply (Hf k), lookup_insert_eq).
  enough (0 ≤ msum f m) by lia. apply IH. intros j y Hj. apply (Hf j).
  rewrite lookup_insert_ne; congruence.
Qed.

Lemma msum_add f g m : msum (λ x, f x + g x) m = msum f m + msum g m.
Proof.
  induction m as [|k x m Hk IH] using map_ind; [done|].
  rewrite !msum_insert_fresh by done. lia.
Qed.

Lemma msum_scale c f m : msum (λ x, c * f x) m = c * msum f m.
Proof.
  induction m as [|k x m Hk IH] using map_ind; [by rewrite !msum_empty, Z.mul_0_r|].
  rewrite !msum_insert_fresh by done. lia.
Qed.

Lemma msum_zero f m : (∀ k x, m !! k = Some x → f x = 0) → msum f m = 0.
Proof.
  intros Hf. rewrite (msum_ext f (λ _, 0 * 0) m) by (intros; by apply (Hf k)).
  rewrite (msum_scale 0 (λ _, 0)). lia.
Qed.

Lemma msum_member_le f m k x :
  (∀ k x, m !! k = Some x → 0 ≤ f x) → m !! k = Some x → f x ≤ msum f m.
Proof.
  intros Hf Hk. rewrite (msum_delete f m k x Hk).
  enough (0 ≤ msum f (delete k m)) by lia. apply msum_nonneg.
  intros j y [_ Hj]%lookup_delete_Some. by apply (Hf j).
Qed.

Lemma msum_pos_member f m :
  0 < msum f m → ∃ k x, m !! k = Some x ∧ 0 < f x.
Proof.
  induction m as [|k x m Hk IH] using map_ind; [rewrite msum_empty; lia|].
  rewrite msum_insert_fresh by done. intros Hpos.
  destruct (Z_lt_le_dec 0 (f x)) as [Hx|Hx].
  - exists k, x. by rewrite lookup_insert_eq.
  - destruct IH as (j & y & Hj & Hy); [lia|]. exists j, y.
    split; [|done]. rewrite lookup_insert_ne; congruence.
Qed.

Lemma msum_two_members f m k1 k2 x1 x2 :
  (∀ k x, m !! k = Some x → 0 ≤ f x) →
  k1 ≠ k2 → m !! k1 = Some x1 → m !! k2 = Some x2 → f x1 + f x2 ≤ msum f m.
Proof.
  intros Hf Hne H1 H2. rewrite (msum_delete f m k1 x1 H1).
  enough (f x2 ≤ msum f (delete k1 m)) by lia.
  apply (msum_member_le f _ k2).
  - intros j y [_ Hj]%lookup_delete_Some. by apply (Hf j).
  - by rewrite lookup_delete_ne.
Qed.
End msum.

Lemma msum_fmap `{Countable K} {A B} (f : B → Z) (g : A → B) (m : gmap K A) :
  msum f (g <$> m) = msum (λ x, f (g x)) m.
Proof.
  induction m as [|k x m Hk IH] using map_ind; [done|].
  rewrite fmap_insert, !msum_insert_fresh; [by rewrite IH| done |].
  by rewrite lookup_fmap, Hk.
Qed.

(** ** Lemmas on [lsum] *)
Section lsum.
  Context {A : Type}.
  Implicit Types (l : list A) (f g : A → Z).

Lemma lsum_app f l1 l2 : lsum f (l1 ++ l2) = lsum f l1 + lsum f l2.
Proof. induction l1 as [|x l1 IH]; simpl; lia. Qed.

Lemma lsum_perm f l1 l2 : l1 ≡ₚ l2 → lsum f l1 = lsum f l2.
Proof. induction 1; simpl; lia. Qed.

Lemma lsum_ext f g l : (∀ x, x ∈ l → f x = g x) → lsum f l = lsum g l.
Proof.
  induction l as [|x l IH]; intros Hfg; [done|]. simpl.
  rewrite (Hfg x) by left. f_equal. apply IH. intros y Hy. apply Hfg. by right.
Qed.

Lemma lsum_nonneg f l : (∀ x, x ∈ l → 0 ≤ f x) → 0 ≤ lsum f l.
Proof.
  induction l as [|x l IH]; intros Hf; [done|]. simpl.
  assert (0 ≤ f x) by (apply Hf; left).
  enough (0 ≤ lsum f l) by lia. apply IH. intros y Hy. apply Hf. by right.
Qed.

Lemma lsum_filter_if f (P : A → Prop) `{∀ x, Decision (P x)} l :
  lsum f (filter P l) = lsum (λ x, if decide (P x) then f x else 0) l.
Proof.
  induction l as [|x l IH]; [done|]. rewrite filter_cons. simpl.
  destruct (decide (P x)); simpl; lia.
Qed.
End lsum.

Lemma lsum_fmap {A B} (f : B → Z) (g : A → B) (l : list A) :
  lsum f (g <$> l) = lsum (λ x, f (g x)) l.
Proof. induction l as [|x l IH]; [done|]. cbn. unfold lsum in IH |- *. cbn in *. by rewrite <- IH. Qed.

Lemma msum_to_list `{Countable K} {A} (f : A → Z) (m : gmap K A) :
  msum f m = lsum f (map_to_list m).*2.
Proof.
  induction m as [|k x m Hk IH] using map_ind; [done|].
  rewrite msum_insert_fresh by done.
  rewrite IH, (lsum_perm f (map_to_list (<[k:=x]> m)).*2 ((k, x) :: map_to_list m).*2); [done|].
  by rewrite map_to_list_insert.
Qed.

(** ** Lemmas on [sort_by] *)
Section sorting.
  Context {A : Type} (key : A → Z).

Lemma insert_by_perm x l : insert_by key x l ≡ₚ x :: l.
Proof.
  induction l as [|y l IH]; simpl; [done|]. destruct (_ <=? _); [done|].
  rewrite IH. constructor.
Qed.

Lemma sort_by_perm l : sort_by key l ≡ₚ l.
Proof. induction l as [|x l IH]; simpl; [done|]. by rewrite insert_by_perm, IH. Qed.

Lemma insert_by_sorted x l : weakly_by key l → weakly_by key (insert_by key x l).
Proof.
  induction l as [|y l IH]; simpl; intros Hl; [repeat constructor|].
  destruct (key x <=? key y) eqn:Hxy; bool_to_prop.
  - constructor; [done|]. inversion Hl as [|? ? Hs Hall]; subst.
    constructor; [done|]. eapply Forall_impl; [done|]. simpl. lia.
  - inversion Hl as [|? ? Hs Hall]; subst. constructor; [by apply IH|].
    rewrite insert_by_perm. constructor; [lia|done].
Qed.

Lemma sort_by_weakly l : weakly_by key (sort_by key l).
Proof. induction l; simpl; [constructor|]. by apply insert_by_sorted. Qed.

Lemma weakly_strictly l : NoDup (key <$> l) → weakly_by key l → strictly_by key l.
Proof.
  induction l as [|x l IH]; simpl; intros Hnd Hs; [constructor|].
  inversion Hs as [|? ? Hs' Hall]; inversion Hnd as [|? ? Hx Hnd']; subst.
  constructor; [by apply IH|]. rewrite Forall_forall in Hall |- *. intros y Hy.
  specialize (Hall y Hy). assert (key x ≠ key y); [|lia].
  intros E. apply Hx. rewrite E. apply list_elem_of_fmap. eauto.
Qed.

Lemma sort_by_strictly l : NoDup (key <$> l) → strictly_by key (sort_by key l).
Proof.
  intros Hnd. apply weakly_strictly, sort_by_weakly. by rewrite sort_by_perm.
Qed.

(** Two strictly sorted permutations of each other are equal: with distinct keys
    any sorting algorithm returns the same slice. *)
Lemma strictly_unique l1 l2 :
  strictly_by key l1 → strictly_by key l2 → l1 ≡ₚ l2 → l1 = l2.
Proof.
  revert l2. induction l1 as [|x l1 IH]; intros l2 H1 H2 Hp.
  { by apply Permutation_nil_l in Hp. }
  destruct l2 as [|y l2]; [by apply Permutation_nil_r in Hp|].
  inversion H1 as [|? ? Hs1 Ha1]; inversion H2 as [|? ? Hs2 Ha2]; subst.
  rewrite Forall_forall in Ha1, Ha2.
  assert (x = y) as ->.
  { assert (x ∈ y :: l2) as Hx by (rewrite <- Hp; left).
    assert (y ∈ x :: l1) as Hy by (rewrite Hp; left).
    apply elem_of_cons in Hx as [->|Hx]; [done|].
    apply elem_of_cons in Hy as [->|Hy]; [done|].
    specialize (Ha1 _ Hy). specialize (Ha2 _ Hx). lia. }
  f_equal. apply IH; [done..|]. by apply Permutation_cons_inv in Hp.
Qed.
End sorting.

Lemma sort_by_unique_perm {A} (key : A → Z) l1 l2 :
  l1 ≡ₚ l2 → NoDup (key <$> l1) → sort_by key l1 = sort_by key l2.
Proof.
  intros Hp Hnd. apply (strictly_unique key).
  - by apply sort_by_strictly.
  - apply sort_by_strictly. by rewrite <- Hp.
  - by rewrite !sort_by_perm.
Qed.

Create HintDb go.
Create Rewrite HintDb go.
#[export] Hint Resolve msum_nonneg lsum_nonneg sort_by_perm sort_by_weakly : go.
#[export] Hint Rewrite @msum_empty @msum_fmap : go.
