(* ===== verification/GoStd.v ===== *)
(** * The parts of the Go language and standard library the program uses

    Machine integers ([int] and [time.Duration] are 64-bit, wrapping),
    [float64] arithmetic (IEEE 754 binary64, round to nearest even, each operation
    rounded on its own), [strconv.Itoa]/[Atoi] and the [strings] functions the
    middleware calls. Strings are sequences of bytes, as in Go. *)

From Stdlib Require Import ZArith Lia SpecFloat DecimalString DecimalZ DecimalPos Ascii.
From Stdlib Require Decimal.
From stdpp Require Import base tactics list strings.
From S2P Require Import Prelude.

Open Scope Z_scope.

(** ** 64-bit integers *)
Definition min_int : Z := - 2 ^ 63.
Definition max_int : Z := 2 ^ 63 - 1.
Definition in_int (z : Z) : bool := (min_int <=? z) && (z <=? max_int).

(** The value an out-of-range result wraps to. *)
Definition wrap64 (z : Z) : Z := (z + 2 ^ 63) mod 2 ^ 64 - 2 ^ 63.

(** [x << n] for a non-negative shift count: bits shifted out are lost, and a count
    of 64 or more gives 0. *)
Definition shl64 (x n : Z) : Z := if 64 <=? n then 0 else wrap64 (Z.shiftl x n).

(** A 32-bit column value ([INTEGER] in the schema). *)
Definition in_int32 (z : Z) : bool := (- 2 ^ 31 <=? z) && (z <=? 2 ^ 31 - 1).

(** [time.Duration] constants, in nanoseconds. *)
Definition Millisecond : Z := 1000000.
Definition Second : Z := 1000 * Millisecond.
Definition Minute : Z := 60 * Second.

(** Instants: nanoseconds since the zero [time.Time]. *)
Abbreviation Time := Z (only parsing).

(** The runtime panics the program can meet. *)
Inductive go_panic : Type :=
| SendOnClosed | CloseOfClosed | NilChannel
| MakeChanSize       (* [make(chan T, n)], n negative *)
| TickerInterval.    (* [time.NewTicker(d)], d not positive *)
Abbreviation go := (result go_panic).

(** ** float64 *)
Definition float64 : Type := spec_float.
Definition f64_prec : Z := 53.
Definition f64_emax : Z := 1024.
Definition f64_zero : float64 := S754_zero false.
Definition f64_add (x y : float64) : float64 := SFadd f64_prec f64_emax x y.
Definition f64_mul (x y : float64) : float64 := SFmul f64_prec f64_emax x y.
(** The conversion [float64(n)] of an [int]. *)
Definition f64_of_int (n : Z) : float64 := binary_normalize f64_prec f64_emax n 0 false.
Definition f64_div (x y : float64) : float64 := SFdiv f64_prec f64_emax x y.
(** The conversion [int64(x)] of a finite number in range: truncation toward zero. *)
Definition f64_trunc (x : float64) : Z :=
  match x with
  | S754_finite s m e => let v := Z.shiftl (Z.pos m) e in if s then - v else v
  | _ => 0
  end.
Definition f64_lt (x y : float64) : bool := SFltb x y.
(** [x >= 0]: false on negative numbers and on NaN. *)
Definition f64_ge0 (x : float64) : bool := SFleb f64_zero x.
Definition f64_finite (x : float64) : bool :=
  match x with S754_zero _ | S754_finite _ _ _ => true | _ => false end.

(** ** time *)

(** [t.Sub(u)] saturates. *)
Definition Time_Sub (t u : Time) : Z := Z.max min_int (Z.min max_int (t - u)).
(** [d.Seconds()] *)
Definition Duration_Seconds (d : Z) : float64 :=
  f64_add (f64_of_int (Z.quot d Second))
    (f64_div (f64_of_int (Z.rem d Second)) (f64_of_int 1000000000)).

(** ** strconv *)
Definition Itoa (z : Z) : string := NilZero.string_of_int (Z.to_int z).

Definition digit_val (c : ascii) : option Z :=
  let n := Z.of_N (N_of_ascii c) in
  if (48 <=? n) && (n <=? 57) then Some (n - 48) else None.

Fixpoint atoi_digits (s : string) (acc : Z) : option Z :=
  match s with
  | EmptyString => Some acc
  | String c s' => match digit_val c with
                   | Some d => atoi_digits s' (10 * acc + d)
                   | None => None
                   end
  end.

(** [None] is the non-nil error (syntax or range). *)
Definition Atoi (s : string) : option Z :=
  let '(neg, rest) := match s with
                      | String "-" r => (true, r)
                      | String "+" r => (false, r)
                      | _ => (false, s)
                      end in
  match rest with
  | EmptyString => None
  | _ => match atoi_digits rest 0 with
         | Some n => let v := if neg then - n else n in
                     if in_int v then Some v else None
         | None => None
         end
  end.

(** ** strings *)

(** [strings.Cut(s, sep)] for a one-byte separator: [None] when it is absent. *)
Fixpoint Cut (s : string) (sep : ascii) : option (string * string) :=
  match s with
  | EmptyString => None
  | String c s' => if Ascii.eqb c sep then Some (EmptyString, s')
                   else match Cut s' sep with
                        | Some (a, b) => Some (String c a, b)
                        | None => None
                        end
  end.

(** [strings.EqualFold(s, t)] for an ASCII [t] without [k] and [s], the only ASCII letters
    that other characters fold to. *)
Definition to_lower (c : ascii) : ascii :=
  let n := N_of_ascii c in if ((65 <=? n) && (n <=? 90))%N then ascii_of_N (n + 32) else c.
Fixpoint EqualFold (s t : string) : bool :=
  match s, t with
  | EmptyString, EmptyString => true
  | String c s', String d t' => Ascii.eqb (to_lower c) (to_lower d) && EqualFold s' t'
  | _, _ => false
  end.

(** The UTF-8 encodings of the characters [unicode.IsSpace] accepts. *)
Definition space_encodings : list (list ascii) :=
  Eval vm_compute in
  map (map (λ z, ascii_of_N (Z.to_N z)))
    ([[9]; [10]; [11]; [12]; [13]; [32]; [194; 133]; [194; 160]; [225; 154; 128]]
     ++ map (λ i, [226; 128; i]) (seqZ 128 11)
     ++ [[226; 128; 168]; [226; 128; 169]; [226; 128; 175]; [226; 129; 159];
         [227; 128; 128]]).

Fixpoint drop_prefix (p l : list ascii) : option (list ascii) :=
  match p, l with
  | [], _ => Some l
  | c :: p', d :: l' => if Ascii.eqb c d then drop_prefix p' l' else None
  | _ :: _, [] => None
  end.
Fixpoint drop_any (ps : list (list ascii)) (l : list ascii) : option (list ascii) :=
  match ps with
  | [] => None
  | p :: ps' => match drop_prefix p l with Some l' => Some l' | None => drop_any ps' l end
  end.
(** At most [n] of the prefixes; the length of the text is enough. *)
Fixpoint trim_left (ps : list (list ascii)) (n : nat) (l : list ascii) : list ascii :=
  match n with
  | O => l
  | S n' => match drop_any ps l with Some l' => trim_left ps n' l' | None => l end
  end.
(** [strings.TrimSpace] *)
Definition TrimSpace (s : string) : string :=
  let l := String.list_ascii_of_string s in
  let l := trim_left space_encodings (length l) l in
  let l := rev (trim_left (map (@rev ascii) space_encodings) (length l) (rev l)) in
  String.string_of_list_ascii l.

(** The character [c] does not occur in [s]. *)
Fixpoint lacks (c : ascii) (s : string) : bool :=
  match s with
  | EmptyString => true
  | String d s' => negb (Ascii.eqb d c) && lacks c s'
  end.

(** ** Lemmas: machine integers *)
Lemma in_int_iff z : in_int z = true ↔ min_int ≤ z ≤ max_int.
Proof. unfold in_int. rewrite andb_true_iff, !Z.leb_le. done. Qed.

Lemma wrap64_range z : min_int ≤ wrap64 z ≤ max_int.
Proof.
  unfold wrap64, min_int, max_int.
  pose proof (Z.mod_pos_bound (z + 2 ^ 63) (2 ^ 64) ltac:(lia)). lia.
Qed.

Lemma wrap64_id z : min_int ≤ z ≤ max_int → wrap64 z = z.
Proof.
  unfold wrap64, min_int, max_int. intros Hz. rewrite Z.mod_small by lia. lia.
Qed.

(** A wrapped value differs from the true one by a multiple of [2 ^ 64]. *)
Lemma wrap64_mod z : ∃ k, wrap64 z = z + k * 2 ^ 64.
Proof.
  unfold wrap64. exists (- ((z + 2 ^ 63) / 2 ^ 64)).
  pose proof (Z.div_mod (z + 2 ^ 63) (2 ^ 64) ltac:(lia)). lia.
Qed.

Lemma shl64_range x n : min_int ≤ shl64 x n ≤ max_int.
Proof.
  unfold shl64. destruct (64 <=? n); [unfold min_int, max_int; lia|apply wrap64_range].
Qed.

Lemma shl64_small x n :
  0 ≤ n → 0 ≤ x → x * 2 ^ n ≤ max_int → shl64 x n = x * 2 ^ n.
Proof.
  intros Hn Hx Hb. unfold shl64, max_int in *.
  destruct (64 <=? n) eqn:E; bool_to_prop.
  - destruct (Z.eq_dec x 0) as [->|Hne]; [lia|].
    assert (2 ^ 64 ≤ 2 ^ n) by (apply Z.pow_le_mono_r; lia). nia.
  - rewrite Z.shiftl_mul_pow2 by done. apply wrap64_id. unfold min_int, max_int. nia.
Qed.

(** ** Lemmas: strconv *)
Lemma digit_val_digit c d : digit_val c = Some d → 0 ≤ d ≤ 9.
Proof.
  unfold digit_val. destruct (_ && _) eqn:E; [|done]. bool_to_prop.
  intros [= <-]. lia.
Qed.

Ltac eval_ascii :=
  repeat match goal with
  | |- context [N_of_ascii ?c] =>
      let n := eval vm_compute in (N_of_ascii c) in change (N_of_ascii c) with n
  end.

Lemma atoi_digits_acc u p :
  atoi_digits (NilEmpty.string_of_uint u) (Z.pos p) = Some (Z.pos (Pos.of_uint_acc u p)).
Proof.
  revert p. induction u; intros p; [done|..];
    (etransitivity; [|apply IHu]; cbn; f_equal;
     eval_ascii; lia).
Qed.

Lemma atoi_digits_uint u :
  atoi_digits (NilEmpty.string_of_uint u) 0 = Some (Z.of_N (Pos.of_uint u)).
Proof. induction u; [done|..]; solve [apply IHu | apply atoi_digits_acc]. Qed.

Lemma string_of_uint_nonempty u :
  u ≠ Decimal.Nil → ∃ c s, NilEmpty.string_of_uint u = String c s ∧ c ≠ "-"%char ∧ c ≠ "+"%char.
Proof. destruct u; intros Hu; [done|..]; cbn; eauto 10. Qed.

Lemma Pos_to_uint_nonnil p : Pos.to_uint p ≠ Decimal.Nil.
Proof.
  intros E. pose proof (DecimalPos.Unsigned.of_to p) as H. by rewrite E in H.
Qed.

Lemma Itoa_nonneg z :
  0 ≤ z → ∃ u, u ≠ Decimal.Nil ∧ Itoa z = NilEmpty.string_of_uint u ∧ Z.of_N (Pos.of_uint u) = z.
Proof.
  intros Hz. destruct z as [|p|p]; [|exists (Pos.to_uint p)|lia].
  - exists (Decimal.D0 Decimal.Nil). done.
  - pose proof (Pos_to_uint_nonnil p). repeat split; [done| |].
    + unfold Itoa. cbn. by destruct (Pos.to_uint p).
    + by rewrite DecimalPos.Unsigned.of_to.
Qed.

Lemma Itoa_neg p :
  Itoa (Z.neg p) = String "-" (NilEmpty.string_of_uint (Pos.to_uint p)).
Proof.
  unfold Itoa. cbn. pose proof (Pos_to_uint_nonnil p). by destruct (Pos.to_uint p).
Qed.

(** Printing and parsing an [int] round-trips. *)
Lemma Atoi_Itoa z : in_int z = true → Atoi (Itoa z) = Some z.
Proof.
  intros Hz. destruct (Z_lt_le_dec z 0) as [Hneg|Hpos].
  - destruct z as [|p|p]; [lia..|]. rewrite Itoa_neg. unfold Atoi.
    destruct (string_of_uint_nonempty _ (Pos_to_uint_nonnil p)) as (c & s & E & _).
    pose proof (atoi_digits_uint (Pos.to_uint p)) as Hd.
    rewrite E in Hd |- *. rewrite Hd, DecimalPos.Unsigned.of_to.
    change (- Z.of_N (N.pos p)) with (Z.neg p). by rewrite Hz.
  - destruct (Itoa_nonneg z Hpos) as (u & Hu & E & Hv). rewrite E. unfold Atoi.
    pose proof (atoi_digits_uint u) as Hd. rewrite Hv in Hd.
    destruct (string_of_uint_nonempty u Hu) as (c & s & Es & Hm & Hp).
    rewrite Es in Hd |- *.
    replace (match c with _ => _ end) with (false, String c s).
    2: { destruct c as [[] [] [] [] [] [] [] []]; try done; congruence. }
    rewrite Hd. by rewrite Hz.
Qed.

(** The decimal digits contain no separator. *)
Lemma lacks_digits c u : digit_val c = None → lacks c (NilEmpty.string_of_uint u) = true.
Proof.
  intros Hc. assert (∀ d, is_Some (digit_val d) → Ascii.eqb d c = false) as Hd.
  { intros d [v Hv]. apply Ascii.eqb_neq. congruence. }
  induction u; [done|..]; cbn [NilEmpty.string_of_uint lacks];
    rewrite IHu, Hd by (by eexists); done.
Qed.

Lemma lacks_Itoa c z :
  digit_val c = None → c ≠ "-"%char → lacks c (Itoa z) = true.
Proof.
  intros Hc Hm. destruct (Z_lt_le_dec z 0) as [Hneg|Hpos].
  - destruct z as [|p|p]; [lia..|]. rewrite Itoa_neg. cbn [lacks].
    rewrite lacks_digits by done. apply not_eq_sym, Ascii.eqb_neq in Hm. by rewrite Hm.
  - destruct (Itoa_nonneg z Hpos) as (u & _ & -> & _). by apply lacks_digits.
Qed.

(** Distinct integers print differently, whatever their size. *)
Lemma Itoa_inj a b : Itoa a = Itoa b → a = b.
Proof.
  assert (∀ p z, 0 ≤ z → Itoa (Z.neg p) ≠ Itoa z) as Hmixed.
  { intros p z Hz. destruct (Itoa_nonneg z Hz) as (u & Hu & -> & _).
    destruct (string_of_uint_nonempty u Hu) as (c & s & -> & Hm & _).
    rewrite Itoa_neg. intros [= ? _]. congruence. }
  assert (∀ u v, NilEmpty.string_of_uint u = NilEmpty.string_of_uint v →
                 Pos.of_uint u = Pos.of_uint v) as Huint.
  { intros u v E. pose proof (atoi_digits_uint u) as Hu. rewrite E, atoi_digits_uint in Hu.
    injection Hu. lia. }
  intros E. destruct (Z_lt_le_dec a 0), (Z_lt_le_dec b 0).
  - destruct a as [|p|p], b as [|q|q]; try lia. rewrite !Itoa_neg in E.
    injection E as E. apply Huint in E. rewrite !DecimalPos.Unsigned.of_to in E.
    injection E as ->. done.
  - destruct a as [|p|p]; try lia. by apply Hmixed in E.
  - destruct b as [|p|p]; try lia. symmetry in E. by apply Hmixed in E.
  - destruct (Itoa_nonneg a) as (u & _ & Eu & Hu), (Itoa_nonneg b) as (v & _ & Ev & Hv); [lia..|].
    rewrite Eu, Ev in E. apply Huint in E. congruence.
Qed.

(** ** Lemmas: strings *)
Lemma append_nil (b : string) : ("" +:+ b)%string = b.
Proof. done. Qed.

Lemma append_cons c (a b : string) : (String c a +:+ b)%string = String c (a +:+ b)%string.
Proof. done. Qed.

Lemma append_nil_r (a : string) : (a +:+ "")%string = a.
Proof. induction a as [|x a IH]; [done|]. rewrite append_cons. f_equal. apply IH. Qed.

Lemma length_append (a b : string) :
  String.length (a +:+ b) = (String.length a + String.length b)%nat.
Proof. induction a as [|x a IH]; [done|]. rewrite append_cons. cbn. by rewrite IH. Qed.

Lemma append_assoc (a b c : string) : ((a +:+ b) +:+ c = a +:+ (b +:+ c))%string.
Proof. induction a as [|x a IH]; [done|]. rewrite !append_cons. f_equal. apply IH. Qed.

Lemma append_inj_l (a b c : string) : (a +:+ b = a +:+ c)%string → b = c.
Proof. induction a as [|x a IH]; [done|]. rewrite !append_cons. intros [= E]. by apply IH. Qed.

(** A prefix without the separator is recovered from the string. *)
Lemma separator_inj c (a1 a2 b1 b2 : string) :
  lacks c a1 = true → lacks c a2 = true →
  (a1 +:+ String c b1 = a2 +:+ String c b2)%string → a1 = a2 ∧ b1 = b2.
Proof.
  revert a2. induction a1 as [|x a1 IH]; intros [|y a2] H1 H2 E;
    rewrite ?append_nil, ?append_cons in E; cbn in H1, H2.
  - by injection E.
  - injection E as -> _. by rewrite Ascii.eqb_refl in H2.
  - injection E as -> _. by rewrite Ascii.eqb_refl in H1.
  - bool_to_prop. injection E as -> E.
    destruct (IH a2) as [-> ->]; auto.
Qed.

(** A separator-free string does not continue with the separator. *)
Lemma separator_absent c (a1 a2 b : string) :
  lacks c a1 = true → a1 ≠ (a2 +:+ String c b)%string.
Proof.
  revert a1. induction a2 as [|x a2 IH]; intros [|y a1] H1 E;
    rewrite ?append_nil, ?append_cons in E; cbn in H1; try done.
  - injection E as -> _. by rewrite Ascii.eqb_refl in H1.
  - bool_to_prop. injection E as -> E. by apply (IH a1).
Qed.

Lemma Cut_spec s sep a b :
  Cut s sep = Some (a, b) → s = (a +:+ String sep b)%string ∧ lacks sep a = true.
Proof.
  revert a b. induction s as [|c s IH]; intros a b; cbn; [done|].
  destruct (Ascii.eqb c sep) eqn:E.
  - apply Ascii.eqb_eq in E as ->. by intros [= <- <-].
  - destruct (Cut s sep) as [[a' b']|] eqn:Ec; [|done]. intros [= <- <-].
    destruct (IH a' b' eq_refl) as [-> Hl]. cbn. by rewrite E, Hl.
Qed.

(** ** Lemmas: float64 signs

    Sums and products of non-negative numbers are non-negative, rounding and
    overflow to infinity included. *)
Section float_signs.

(** Non-negative: not NaN, and no sign bit unless zero. *)
Definition f64_nonneg (x : float64) : Prop :=
  match x with
  | S754_zero _ => True
  | S754_infinity s => s = false
  | S754_finite s _ _ => s = false
  | S754_nan => False
  end.

Lemma f64_nonneg_ge0 x : f64_nonneg x ↔ f64_ge0 x = true.
Proof. destruct x as [s|s| |s m e]; cbn; try (by destruct s); naive_solver. Qed.

Lemma shr_1_nonneg r : 0 ≤ shr_m r → 0 ≤ shr_m (shr_1 r).
Proof. destruct r as [[|[]|] ? ?]; cbn; lia. Qed.

Lemma shr_nonneg r e n : 0 ≤ shr_m r → 0 ≤ shr_m (fst (shr r e n)).
Proof.
  intros Hr. unfold shr. destruct n as [|p|p]; cbn; [done| |done].
  revert r Hr. induction p as [p IH|p IH|]; intros r Hr; cbn;
    auto using shr_1_nonneg.
Qed.

Lemma shr_fexp_nonneg m e l : 0 ≤ m → 0 ≤ shr_m (fst (shr_fexp f64_prec f64_emax m e l)).
Proof.
  intros Hm. unfold shr_fexp. apply shr_nonneg.
  unfold shr_record_of_loc. destruct l as [|[]]; cbn; lia.
Qed.

Lemma round_nearest_even_nonneg m l : 0 ≤ m → 0 ≤ round_nearest_even m l.
Proof. intros Hm. unfold round_nearest_even. destruct l as [|[]]; repeat case_match; lia. Qed.

(** Rounding keeps the sign and never yields NaN. *)
Lemma binary_round_aux_nonneg m e l :
  0 ≤ m → f64_nonneg (binary_round_aux f64_prec f64_emax false m e l).
Proof.
  intros Hm. unfold binary_round_aux.
  destruct (shr_fexp _ _ m e l) as [r1 e1] eqn:E1.
  assert (0 ≤ shr_m r1) as H1.
  { pose proof (shr_fexp_nonneg m e l Hm) as H. by rewrite E1 in H. }
  destruct (shr_fexp _ _ _ e1 _) as [r2 e2] eqn:E2.
  assert (0 ≤ shr_m r2) as H2.
  { pose proof (shr_fexp_nonneg _ e1 loc_Exact
      (round_nearest_even_nonneg _ (loc_of_shr_record r1) H1)) as H. by rewrite E2 in H. }
  destruct (shr_m r2); [done| |lia]. by destruct (_ <=? _).
Qed.

Lemma binary_normalize_nonneg m e :
  0 ≤ m → f64_nonneg (binary_normalize f64_prec f64_emax m e false).
Proof.
  intros Hm. unfold binary_normalize. destruct m as [|p|p]; [done| |lia].
  unfold binary_round. destruct (shl_align _ _ _). by apply binary_round_aux_nonneg.
Qed.

Lemma f64_of_int_nonneg n : 0 ≤ n → f64_nonneg (f64_of_int n).
Proof. apply binary_normalize_nonneg. Qed.

Lemma f64_add_nonneg x y : f64_nonneg x → f64_nonneg y → f64_nonneg (f64_add x y).
Proof.
  destruct x as [sx|sx| |sx mx ex], y as [sy|sy| |sy my ey]; cbn; try done;
    intros; subst; try done; try (by destruct sx, sy).
  apply binary_normalize_nonneg. cbn. lia.
Qed.

(** A product with an infinite factor can be NaN ([0 * inf]), so the factors are finite. *)
Lemma f64_mul_nonneg x y :
  f64_nonneg x → f64_nonneg y → f64_finite x = true → f64_finite y = true →
  f64_nonneg (f64_mul x y).
Proof.
  destruct x as [sx|sx| |sx mx ex], y as [sy|sy| |sy my ey]; cbn; try done;
    intros; subst; try done.
  apply binary_round_aux_nonneg. lia.
Qed.
End float_signs.

#[export] Hint Resolve f64_of_int_nonneg f64_add_nonneg f64_mul_nonneg : go.
