(* ===== verification/Json.v ===== *)
(** * JSON strings, as [encoding/json] writes them

    [json.Marshal] of a Go string, byte by byte: UTF-8 sequences are copied, bytes that are
    no UTF-8 become U+FFFD, quotes, controls, HTML's special characters and the two Unicode
    line separators are escaped. A decoder for the same notation shows what is kept. *)

From Stdlib Require Import ZArith Lia Ascii.
From stdpp Require Import base tactics list strings.
From S2P Require Import Prelude GoStd.

Open Scope N_scope.

(** ** UTF-8 ([unicode/utf8]) *)
Definition in_range (lo hi : N) (c : ascii) : bool :=
  (lo <=? N_of_ascii c) && (N_of_ascii c <=? hi).
Definition tail_byte : ascii → bool := in_range 128 191.
Definition plain_byte : ascii → bool := in_range 0 127.

(** The well-formed sequences of two, three and four bytes: no overlong forms, no
    surrogates, nothing above U+10FFFF. *)
Definition utf8_2 (a b : ascii) : bool := in_range 194 223 a && tail_byte b.
Definition utf8_3 (a b c : ascii) : bool :=
  in_range 224 239 a
  && in_range (if N_of_ascii a =? 224 then 160 else 128)
       (if N_of_ascii a =? 237 then 159 else 191) b
  && tail_byte c.
Definition utf8_4 (a b c d : ascii) : bool :=
  in_range 240 244 a
  && in_range (if N_of_ascii a =? 240 then 144 else 128)
       (if N_of_ascii a =? 244 then 143 else 191) b
  && tail_byte c && tail_byte d.

(** What the loop of the encoder meets: an ASCII byte, a longer sequence, a byte that
    starts none ([utf8.RuneError] of size 1). *)
Inductive utf8_unit : Type := Plain (c : ascii) | Rune (bytes : string) | Invalid.

Fixpoint utf8_units (s : string) : list utf8_unit :=
  match s with
  | EmptyString => []
  | String a s1 =>
      if plain_byte a then Plain a :: utf8_units s1
      else
        match s1 with
        | String b s2 =>
            if utf8_2 a b then Rune (String a (String b "")) :: utf8_units s2
            else
              match s2 with
              | String c s3 =>
                  if utf8_3 a b c then Rune (String a (String b (String c ""))) :: utf8_units s3
                  else
                    match s3 with
                    | String d s4 =>
                        if utf8_4 a b c d
                        then Rune (String a (String b (String c (String d "")))) :: utf8_units s4
                        else Invalid :: utf8_units s1
                    | EmptyString => Invalid :: utf8_units s1
                    end
              | EmptyString => Invalid :: utf8_units s1
              end
        | EmptyString => Invalid :: utf8_units s1
        end
  end.

Definition chr (n : N) : ascii := ascii_of_N n.
Definition bytes (ns : list N) : string := foldr (λ n, String (chr n)) "" ns.

(** U+FFFD, U+2028 and U+2029. *)
Definition replacement : string := Eval compute in bytes [239; 191; 189].
Definition line_separator : string := Eval compute in bytes [226; 128; 168].
Definition paragraph_separator : string := Eval compute in bytes [226; 128; 169].

Definition unit_text (u : utf8_unit) : string :=
  match u with Plain c => String c "" | Rune s => s | Invalid => replacement end.
Definition is_valid (u : utf8_unit) : bool := match u with Invalid => false | _ => true end.

Fixpoint concat_map {A} (f : A → string) (l : list A) : string :=
  match l with [] => "" | x :: l => f x +:+ concat_map f l end.

(** The text with U+FFFD for every byte that is no UTF-8; and whether there is none. *)
Definition to_utf8 (s : string) : string := concat_map unit_text (utf8_units s).
Definition valid_utf8 (s : string) : bool := forallb is_valid (utf8_units s).

(** ** Encoding *)
Definition dquote : ascii := ascii_of_nat 34.
Definition hex_lower (n : N) : ascii := chr (if n <? 10 then 48 + n else 87 + n).

(** An ASCII byte, with the HTML-safe default of [json.Marshal]. *)
Definition json_char (c : ascii) : string :=
  let n := N_of_ascii c in
  if bool_decide (c = dquote) || bool_decide (c = "\"%char) then String "\" (String c "")
  else if n =? 8 then "\b" else if n =? 9 then "\t"
  else if n =? 10 then "\n" else if n =? 12 then "\f"
  else if n =? 13 then "\r"
  else if (n <? 32) || (n =? 38) || (n =? 60) || (n =? 62) then
    "\u00" +:+ String (hex_lower (n / 16)) (String (hex_lower (n mod 16)) "")
  else String c "".

Definition json_unit (u : utf8_unit) : string :=
  match u with
  | Plain c => json_char c
  | Rune s =>
      if bool_decide (s = line_separator) then "\u2028"
      else if bool_decide (s = paragraph_separator) then "\u2029" else s
  | Invalid => "\ufffd"
  end.

(** The body of a string with its closing quote, and the whole. *)
Definition json_chars (s : string) : string :=
  concat_map json_unit (utf8_units s) +:+ String dquote "".
Definition json_string (s : string) : string := String dquote (json_chars s).

(** ** Decoding *)
Definition from_hex (c : ascii) : option N :=
  if in_range 48 57 c then Some (N_of_ascii c - 48)
  else if in_range 97 102 c then Some (N_of_ascii c - 87) else None.

(** The UTF-8 of a code point below U+10000. *)
Definition utf8_encode (n : N) : string :=
  if n <? 128 then bytes [n]
  else if n <? 2048 then bytes [192 + n / 64; 128 + n mod 64]
  else bytes [224 + n / 4096; 128 + n / 64 mod 64; 128 + n mod 64].

(** The next bytes of a string body: [None] at the closing quote or on bad input. *)
Definition json_next (s : string) : option (string * string) :=
  match s with
  | String c s' =>
      if bool_decide (c = dquote) then None
      else if bool_decide (c = "\"%char) then
        match s' with
        | String "b" r => Some (bytes [8], r)
        | String "t" r => Some (bytes [9], r)
        | String "n" r => Some (bytes [10], r)
        | String "f" r => Some (bytes [12], r)
        | String "r" r => Some (bytes [13], r)
        | String "u" (String h1 (String h2 (String h3 (String h4 r)))) =>
            match from_hex h1, from_hex h2, from_hex h3, from_hex h4 with
            | Some a, Some b, Some c, Some d =>
                Some (utf8_encode (((a * 16 + b) * 16 + c) * 16 + d), r)
            | _, _, _, _ => None
            end
        | String e r => Some (String e "", r)
        | EmptyString => None
        end
      else Some (String c "", s')
  | EmptyString => None
  end.

(** The contents of a string whose opening quote was read, and what follows it. Every round
    reads at least a byte. *)
Fixpoint json_read (fuel : nat) (s : string) : option (string * string) :=
  match fuel with
  | O => None
  | S fuel' =>
      match json_next s with
      | Some (t, r) =>
          match json_read fuel' r with
          | Some (body, rest) => Some (t +:+ body, rest)
          | None => None
          end
      | None => match s with
                | String _ rest => Some (EmptyString, rest)
                | EmptyString => None
                end
      end
  end.

(** ** How the text is cut *)

(** A unit is an ASCII byte, or bytes above ASCII that the encoder copies or replaces. *)
Fixpoint all_bytes (p : ascii → bool) (s : string) : bool :=
  match s with EmptyString => true | String c s => p c && all_bytes p s end.
Definition unit_ok (u : utf8_unit) : bool :=
  match u with
  | Plain c => plain_byte c
  | Rune s => all_bytes (λ c, negb (plain_byte c)) s
  | Invalid => true
  end.

Lemma in_range_above lo hi c : 128 <= lo → in_range lo hi c = true → plain_byte c = false.
Proof.
  unfold plain_byte, in_range. rewrite andb_true_iff, andb_false_iff, !N.leb_le, !N.leb_gt. lia.
Qed.

Lemma tail_above c : tail_byte c = true → plain_byte c = false.
Proof. by apply in_range_above. Qed.

Lemma utf8_2_above a b : utf8_2 a b = true → unit_ok (Rune (String a (String b ""))) = true.
Proof.
  unfold utf8_2. intros [Ha Hb]%andb_true_iff. cbn.
  apply in_range_above in Ha; [|done]. by rewrite Ha, (tail_above b Hb).
Qed.

Lemma utf8_3_above a b c :
  utf8_3 a b c = true → unit_ok (Rune (String a (String b (String c "")))) = true.
Proof.
  unfold utf8_3. rewrite !andb_true_iff. intros [[Ha Hb] Hc]. cbn.
  apply in_range_above in Ha; [|done]. apply in_range_above in Hb; [|by destruct (_ =? 224)].
  by rewrite Ha, Hb, (tail_above c Hc).
Qed.

Lemma utf8_4_above a b c d :
  utf8_4 a b c d = true →
  unit_ok (Rune (String a (String b (String c (String d ""))))) = true.
Proof.
  unfold utf8_4. rewrite !andb_true_iff. intros [[[Ha Hb] Hc] Hd]. cbn.
  apply in_range_above in Ha; [|done]. apply in_range_above in Hb; [|by destruct (_ =? 240)].
  by rewrite Ha, Hb, (tail_above c Hc), (tail_above d Hd).
Qed.

(** One round: a unit, the bytes it stands for, and the rest. *)
Lemma utf8_units_cons a s :
  ∃ u t r, utf8_units (String a s) = u :: utf8_units r ∧ String a s = t +:+ r
    ∧ (String.length r < String.length (String a s))%nat ∧ unit_ok u = true
    ∧ (is_valid u = true → unit_text u = t).
Proof.
  assert (∀ u t r, String a s = t +:+ r → (String.length r < String.length (String a s))%nat →
            unit_ok u = true → (is_valid u = true → unit_text u = t) →
            utf8_units (String a s) = u :: utf8_units r →
            ∃ u t r, utf8_units (String a s) = u :: utf8_units r ∧ String a s = t +:+ r
              ∧ (String.length r < String.length (String a s))%nat ∧ unit_ok u = true
              ∧ (is_valid u = true → unit_text u = t)) as Hcut by (intros u t r; eauto 10).
  destruct (plain_byte a) eqn:Ea.
  { apply (Hcut (Plain a) (String a "") s); try done; [cbn; lia|cbn [utf8_units]; by rewrite Ea]. }
  destruct s as [|b s2].
  { apply (Hcut Invalid (String a "") ""); try done; [cbn; lia|cbn [utf8_units]; by rewrite Ea]. }
  destruct (utf8_2 a b) eqn:E2.
  { apply (Hcut (Rune (String a (String b ""))) (String a (String b "")) s2); try done;
      [cbn; lia|by apply utf8_2_above|cbn [utf8_units]; by rewrite Ea, E2]. }
  destruct s2 as [|c s3].
  { apply (Hcut Invalid (String a "") (String b "")); try done;
      [cbn; lia|cbn [utf8_units]; by rewrite Ea, E2]. }
  destruct (utf8_3 a b c) eqn:E3.
  { apply (Hcut (Rune (String a (String b (String c "")))) (String a (String b (String c ""))) s3);
      try done; [cbn; lia|by apply utf8_3_above|cbn [utf8_units]; by rewrite Ea, E2, E3]. }
  destruct s3 as [|d s4].
  { apply (Hcut Invalid (String a "") (String b (String c ""))); try done;
      [cbn; lia|cbn [utf8_units]; by rewrite Ea, E2, E3]. }
  destruct (utf8_4 a b c d) eqn:E4.
  { apply (Hcut (Rune (String a (String b (String c (String d "")))))
      (String a (String b (String c (String d "")))) s4); try done;
      [cbn; lia|by apply utf8_4_above|cbn [utf8_units]; by rewrite Ea, E2, E3, E4]. }
  apply (Hcut Invalid (String a "") (String b (String c (String d s4)))); try done;
    [cbn; lia|cbn [utf8_units]; by rewrite Ea, E2, E3, E4].
Qed.

(** Induction along the cut. *)
Lemma utf8_units_ind (P : string → list utf8_unit → Prop) :
  P "" [] →
  (∀ u t r, unit_ok u = true → (is_valid u = true → unit_text u = t) →
     P r (utf8_units r) → P (t +:+ r) (u :: utf8_units r)) →
  ∀ s, P s (utf8_units s).
Proof.
  intros Hnil Hcons. assert (∀ n s, (String.length s < n)%nat → P s (utf8_units s)) as Hn.
  { induction n as [|n IH]; intros s Hs; [lia|]. destruct s as [|a s]; [done|].
    destruct (utf8_units_cons a s) as (u & t & r & Eu & Es & Hl & Hok & Ht).
    rewrite Eu, Es. apply Hcons; [done..|]. apply IH. lia. }
  intros s. apply (Hn (S (String.length s))). lia.
Qed.

Lemma utf8_units_ok s : forallb unit_ok (utf8_units s) = true.
Proof.
  apply (utf8_units_ind (λ _ us, forallb unit_ok us = true)); [done|]. intros u t r Hu _ IH.
  cbn. by rewrite Hu.
Qed.

(** Valid text is left as it is. *)
Lemma to_utf8_valid s : valid_utf8 s = true → to_utf8 s = s.
Proof.
  unfold valid_utf8, to_utf8.
  apply (utf8_units_ind (λ s us, forallb is_valid us = true → concat_map unit_text us = s)); [done|].
  intros u t r _ Ht IH. cbn. intros [Hu Hr]%andb_true_iff. by rewrite (Ht Hu), (IH Hr).
Qed.

(** ASCII text is valid. *)
Lemma ascii_valid s : all_bytes plain_byte s = true → valid_utf8 s = true.
Proof.
  unfold valid_utf8. induction s as [|c s IH]; [done|]. cbn. intros [-> Hs]%andb_true_iff.
  cbn. auto.
Qed.

Lemma all_bytes_app p a b : all_bytes p (a +:+ b) = all_bytes p a && all_bytes p b.
Proof. induction a as [|x a IH]; [done|]. rewrite append_cons. cbn. by rewrite IH, andb_assoc. Qed.

(** ** What is read back *)
Definition prepend (t : string) (r : option (string * string)) : option (string * string) :=
  match r with Some (body, rest) => Some (t +:+ body, rest) | None => None end.

Lemma json_read_next t r s fuel :
  json_next s = Some (t, r) → json_read (S fuel) s = prepend t (json_read fuel r).
Proof. intros E. cbn. by rewrite E. Qed.

Lemma json_next_char c r :
  plain_byte c = true → json_next (json_char c +:+ r) = Some (String c "", r).
Proof. destruct c as [[] [] [] [] [] [] [] []]; (discriminate || reflexivity). Qed.

Lemma json_next_high c r :
  plain_byte c = false → json_next (String c r) = Some (String c "", r).
Proof. destruct c as [[] [] [] [] [] [] [] []]; (discriminate || reflexivity). Qed.

(** Bytes above ASCII are read one by one. *)
Lemma json_read_high t r fuel :
  all_bytes (λ c, negb (plain_byte c)) t = true →
  json_read (String.length t + fuel) (t +:+ r) = prepend t (json_read fuel r).
Proof.
  induction t as [|c t IH]; cbn [all_bytes String.length].
  - intros _. rewrite append_nil, Nat.add_0_l. by destruct (json_read fuel r) as [[]|].
  - intros [Hc%negb_true_iff Ht]%andb_true_iff. rewrite append_cons.
    change (S (String.length t) + fuel)%nat with (S (String.length t + fuel)).
    rewrite (json_read_next _ _ _ _ (json_next_high c _ Hc)), IH by done.
    destruct (json_read fuel r) as [[]|]; [|done]. cbn. by rewrite append_cons.
Qed.

Lemma json_char_length c : (1 ≤ String.length (json_char c))%nat.
Proof. destruct c as [[] [] [] [] [] [] [] []]; vm_compute; lia. Qed.

(** A unit is read as its text, in no more rounds than it has bytes. *)
Lemma json_read_unit u r n :
  unit_ok u = true →
  ∃ k, json_read (String.length (json_unit u) + n) (json_unit u +:+ r)
       = prepend (unit_text u) (json_read (k + n) r).
Proof.
  intros Hu. destruct u as [c|s|]; cbn [json_unit unit_text unit_ok] in *.
  - pose proof (json_char_length c). destruct (String.length (json_char c)) as [|k]; [lia|].
    exists k. apply (json_read_next _ r). by apply json_next_char.
  - case_bool_decide as E1; [subst s; by exists 5%nat; apply json_read_next|].
    case_bool_decide as E2; [subst s; by exists 5%nat; apply json_read_next|].
    exists O. by apply json_read_high.
  - by exists 5%nat; apply json_read_next.
Qed.

Lemma json_read_units us rest n :
  forallb unit_ok us = true →
  json_read (S (String.length (concat_map json_unit us) + n))
    (concat_map json_unit us +:+ String dquote rest)
  = Some (concat_map unit_text us, rest).
Proof.
  revert n. induction us as [|u us IH]; intros n; [done|]. cbn [concat_map forallb].
  intros [Hu Hus]%andb_true_iff. rewrite append_assoc.
  destruct (json_read_unit u (concat_map json_unit us +:+ String dquote rest)
    (S (String.length (concat_map json_unit us) + n)) Hu) as [k Hk].
  rewrite length_append.
  replace (S (_ + _ + n)) with (String.length (json_unit u)
    + S (String.length (concat_map json_unit us) + n))%nat by lia.
  rewrite Hk.
  replace (k + S _)%nat with (S (String.length (concat_map json_unit us) + (k + n))) by lia.
  by rewrite IH.
Qed.

(** A string that was written is read back, with U+FFFD for what is no UTF-8. *)
Lemma json_read_chars s rest :
  json_read (S (String.length (json_chars s +:+ rest))) (json_chars s +:+ rest)
  = Some (to_utf8 s, rest).
Proof.
  unfold json_chars, to_utf8. rewrite append_assoc, length_append.
  apply json_read_units, utf8_units_ok.
Qed.
