(* ===== verification/Errors.v ===== *)
(** * The program's error values ([internal/apperrors])

    The sentinel and typed errors of the package, the two [gorm] sentinels the code
    tests for, [errors.New]-style opaque errors, and the wrapping done by
    [fmt.Errorf] with [%w]; [errors.Is] and [errors.As] walk the wrap chain. *)

From Stdlib Require Import ZArith.
From stdpp Require Import base tactics strings.
From S2P Require Import Prelude GoStd.

Inductive error : Type :=
| ErrUserNotFound
| ErrOrderNotFound
| ErrDuplicateOrder
| ErrDuplicateLineItem
| ErrInvalidCredentials
| ErrNoPendingPayment
| ProductNotFoundError (ProductID : Z)
| InsufficientStockError (ProductID : Z)
| ErrRecordNotFound       (* gorm.ErrRecordNotFound *)
| ErrForeignKeyViolated   (* gorm.ErrForeignKeyViolated *)
| OtherError (msg : string)
| Wrapf (prefix : string) (cause : error).

#[export] Instance error_eq_dec : EqDecision error.
Proof. solve_decision. Defined.

(** A call that returns [(A, error)]. *)
Abbreviation res := (result error).

Fixpoint errors_Is (err target : error) : bool :=
  bool_decide (err = target)
  || match err with Wrapf _ cause => errors_Is cause target | _ => false end.

Fixpoint errors_As_ProductNotFound (err : error) : option Z :=
  match err with
  | ProductNotFoundError p => Some p
  | Wrapf _ cause => errors_As_ProductNotFound cause
  | _ => None
  end.

Fixpoint errors_As_InsufficientStock (err : error) : option Z :=
  match err with
  | InsufficientStockError p => Some p
  | Wrapf _ cause => errors_As_InsufficientStock cause
  | _ => None
  end.

(** The [Error] method. The text of the two [gorm] sentinels is the library's. *)
Fixpoint Error (gorm_text : error → string) (err : error) : string :=
  match err with
  | ErrUserNotFound => "user not found"
  | ErrOrderNotFound => "order not found"
  | ErrDuplicateOrder => "duplicate order"
  | ErrDuplicateLineItem => "duplicate line item"
  | ErrInvalidCredentials => "invalid email or password"
  | ErrNoPendingPayment => "no pending payment for order"
  | ProductNotFoundError p => "product " +:+ Itoa p +:+ " not found"
  | InsufficientStockError p => "insufficient stock for product " +:+ Itoa p
  | ErrRecordNotFound | ErrForeignKeyViolated => gorm_text err
  | OtherError msg => msg
  | Wrapf prefix cause => prefix +:+ ": " +:+ Error gorm_text cause
  end.

(** An error no branch of the code recognises: it only reaches a log or a 500. *)
Fixpoint opaque (err : error) : bool :=
  match err with
  | OtherError _ => true
  | Wrapf _ cause => opaque cause
  | _ => false
  end.

Lemma errors_Is_refl e : errors_Is e e = true.
Proof. destruct e; cbn; by rewrite bool_decide_eq_true_2. Qed.

Lemma opaque_not_Is e target :
  opaque e = true → opaque target = false → errors_Is e target = false.
Proof.
  induction e; cbn; try done; intros He Ht; apply orb_false_iff; split; auto;
    apply bool_decide_eq_false; intros <-; cbn in Ht; congruence.
Qed.

Lemma opaque_not_product e : opaque e = true → errors_As_ProductNotFound e = None.
Proof. induction e; cbn; auto; done. Qed.

Lemma opaque_not_stock e : opaque e = true → errors_As_InsufficientStock e = None.
Proof. induction e; cbn; auto; done. Qed.

#[export] Hint Resolve errors_Is_refl opaque_not_Is opaque_not_product opaque_not_stock : go.
