(* ===== verification/Models.v ===== *)
(** * The persistent models ([internal/models]) and their request and response
    shapes ([internal/dto])

    One record per struct with the struct's scalar fields. An association field
    that no code path populates ([Order.User], [OrderItem.Product],
    [Inventory.Product], [Payment.Order], [Notification.Order]) is left out;
    [Order.Items] and [Product.Inventory] are kept. A status type whose values are
    only the declared constants is an inductive type; [UserRole] also carries
    whatever string a request holds, so it stays a string. *)

From Stdlib Require Import ZArith.
From stdpp Require Import base strings.
From S2P Require Import Prelude GoStd.

Inductive OrderStatus : Type :=
| OrderStatusPending | OrderStatusConfirmed | OrderStatusShipped
| OrderStatusDelivered | OrderStatusCancelled.

Definition OrderStatus_string (s : OrderStatus) : string :=
  match s with
  | OrderStatusPending => "pending"
  | OrderStatusConfirmed => "confirmed"
  | OrderStatusShipped => "shipped"
  | OrderStatusDelivered => "delivered"
  | OrderStatusCancelled => "cancelled"
  end.

Inductive PaymentStatus : Type :=
| PaymentStatusPending | PaymentStatusPaid | PaymentStatusFailed | PaymentStatusRefunded.

Definition PaymentStatus_string (s : PaymentStatus) : string :=
  match s with
  | PaymentStatusPending => "pending"
  | PaymentStatusPaid => "paid"
  | PaymentStatusFailed => "failed"
  | PaymentStatusRefunded => "refunded"
  end.

Inductive NotificationStatus : Type :=
| NotificationStatusPending | NotificationStatusSent | NotificationStatusFailed.

Definition NotificationStatus_string (s : NotificationStatus) : string :=
  match s with
  | NotificationStatusPending => "pending"
  | NotificationStatusSent => "sent"
  | NotificationStatusFailed => "failed"
  end.

Definition UserRole : Type := string.
Definition UserRoleCustomer : UserRole := "customer".
Definition UserRoleAdmin : UserRole := "admin".

#[export] Instance OrderStatus_eq_dec : EqDecision OrderStatus.
Proof. solve_decision. Defined.
#[export] Instance PaymentStatus_eq_dec : EqDecision PaymentStatus.
Proof. solve_decision. Defined.
#[export] Instance NotificationStatus_eq_dec : EqDecision NotificationStatus.
Proof. solve_decision. Defined.

Record User : Type := mkUser {
  User_ID : Z;
  User_Name : string;
  User_Email : string;
  User_Password : string;
  User_Role : UserRole;
  User_CreatedAt : Time;
  User_UpdatedAt : Time;
}.

Record Inventory : Type := mkInventory {
  Inventory_ID : Z;
  Inventory_ProductID : Z;
  Inventory_Quantity : Z;
  Inventory_UpdatedAt : Time;
}.

Record Product : Type := mkProduct {
  Product_ID : Z;
  Product_Name : string;
  Product_Image : option string;
  Product_Description : option string;
  Product_Price : float64;
  Product_Inventory : option Inventory;
  Product_CreatedAt : Time;
  Product_UpdatedAt : Time;
}.

Record OrderItem : Type := mkOrderItem {
  OrderItem_ID : Z;
  OrderItem_OrderID : Z;
  OrderItem_ProductID : Z;
  OrderItem_Quantity : Z;
  OrderItem_PriceAtPurchase : float64;
}.

Record Order : Type := mkOrder {
  Order_ID : Z;
  Order_UserID : Z;
  Order_Status : OrderStatus;
  Order_TotalPrice : float64;
  Order_Items : list OrderItem;
  Order_CreatedAt : Time;
  Order_UpdatedAt : Time;
}.

Record Payment : Type := mkPayment {
  Payment_ID : Z;
  Payment_OrderID : Z;
  Payment_IdempotencyKey : string;
  Payment_Status : PaymentStatus;
  Payment_Amount : float64;
  Payment_ProviderTxnID : option string;
  Payment_CreatedAt : Time;
  Payment_UpdatedAt : Time;
}.

Record Notification : Type := mkNotification {
  Notification_ID : Z;
  Notification_OrderID : Z;
  Notification_Message : string;
  Notification_Status : NotificationStatus;
  Notification_CreatedAt : Time;
  Notification_SentAt : option Time;
}.

(** Declared and migrated, used by no code path. *)
Record AuditLog : Type := mkAuditLog {
  AuditLog_ID : Z;
  AuditLog_ActorID : option Z;
  AuditLog_Actor : option User;
  AuditLog_Action : string;
  AuditLog_EntityType : string;
  AuditLog_EntityID : Z;
  AuditLog_OldValue : option string;   (* JSON text, nil when absent *)
  AuditLog_NewValue : option string;
  AuditLog_CreatedAt : Time;
}.

(** ** Requests and responses *)
Record OrderItemRequest : Type := mkOrderItemRequest {
  OrderItemRequest_ProductID : Z;
  OrderItemRequest_Quantity : Z;
}.

Record CreateOrderRequest : Type := mkCreateOrderRequest {
  CreateOrderRequest_Items : list OrderItemRequest;
}.

Record OrderItemResponse : Type := mkOrderItemResponse {
  OrderItemResponse_ProductID : Z;
  OrderItemResponse_Quantity : Z;
  OrderItemResponse_PriceAtPurchase : float64;
}.

Record OrderResponse : Type := mkOrderResponse {
  OrderResponse_ID : Z;
  OrderResponse_UserID : Z;
  OrderResponse_Status : OrderStatus;
  OrderResponse_TotalPrice : float64;
  OrderResponse_Items : list OrderItemResponse;
  OrderResponse_CreatedAt : Time;
  OrderResponse_UpdatedAt : Time;
}.

Record NotificationEvent : Type := mkNotificationEvent {
  NotificationEvent_ID : Z;
  NotificationEvent_OrderID : Z;
  NotificationEvent_Message : string;
}.

Record ProductResponse : Type := mkProductResponse {
  ProductResponse_ID : Z;
  ProductResponse_Name : string;
  ProductResponse_Image : option string;
  ProductResponse_Description : option string;
  ProductResponse_Price : float64;
  ProductResponse_Quantity : Z;
  ProductResponse_CreatedAt : Time;
  ProductResponse_UpdatedAt : Time;
}.

Record CreateProductRequest : Type := mkCreateProductRequest {
  CreateProductRequest_Name : string;
  CreateProductRequest_Image : option string;
  CreateProductRequest_Description : option string;
  CreateProductRequest_Price : float64;
  CreateProductRequest_Quantity : Z;
}.

Record UpdateProductRequest : Type := mkUpdateProductRequest {
  UpdateProductRequest_Name : string;
  UpdateProductRequest_Image : option string;
  UpdateProductRequest_Description : option string;
  UpdateProductRequest_Price : float64;
  UpdateProductRequest_Quantity : Z;
}.

Record ListProductsRequest : Type := mkListProductsRequest {
  ListProductsRequest_Page : Z;
  ListProductsRequest_PageSize : Z;
}.

Record ListProductsResponse : Type := mkListProductsResponse {
  ListProductsResponse_Items : list ProductResponse;
  ListProductsResponse_Total : Z;
  ListProductsResponse_Page : Z;
  ListProductsResponse_PageSize : Z;
}.

Record InventoryResponse : Type := mkInventoryResponse {
  InventoryResponse_ProductID : Z;
  InventoryResponse_Quantity : Z;
  InventoryResponse_UpdatedAt : Time;
}.

Record CreateUserRequest : Type := mkCreateUserRequest {
  CreateUserRequest_Name : string;
  CreateUserRequest_Email : string;
  CreateUserRequest_Password : string;
  CreateUserRequest_Role : UserRole;
}.

Record UpdateUserRequest : Type := mkUpdateUserRequest {
  UpdateUserRequest_Name : string;
  UpdateUserRequest_Email : string;
  UpdateUserRequest_Role : UserRole;
}.

Record LoginRequest : Type := mkLoginRequest {
  LoginRequest_Email : string;
  LoginRequest_Password : string;
}.

Record LoginResponse : Type := mkLoginResponse {
  LoginResponse_AccessToken : string;
  LoginResponse_TokenType : string;
  LoginResponse_ExpiresIn : Z;
}.

Record UserResponse : Type := mkUserResponse {
  UserResponse_ID : Z;
  UserResponse_Name : string;
  UserResponse_Email : string;
  UserResponse_Role : UserRole;
  UserResponse_CreatedAt : Time;
  UserResponse_UpdatedAt : Time;
}.

(** ** Field updates *)
Definition Inventory_set_Quantity (q now : Z) (r : Inventory) : Inventory :=
  mkInventory (Inventory_ID r) (Inventory_ProductID r) q now.

Definition Order_set_Status (s : OrderStatus) (now : Time) (r : Order) : Order :=
  mkOrder (Order_ID r) (Order_UserID r) s (Order_TotalPrice r) (Order_Items r)
    (Order_CreatedAt r) now.

Definition Order_set_Items (items : list OrderItem) (r : Order) : Order :=
  mkOrder (Order_ID r) (Order_UserID r) (Order_Status r) (Order_TotalPrice r) items
    (Order_CreatedAt r) (Order_UpdatedAt r).

Definition OrderItem_set_OrderID (id : Z) (r : OrderItem) : OrderItem :=
  mkOrderItem (OrderItem_ID r) id (OrderItem_ProductID r) (OrderItem_Quantity r)
    (OrderItem_PriceAtPurchase r).

Definition Payment_set_OrderID (id : Z) (r : Payment) : Payment :=
  mkPayment (Payment_ID r) id (Payment_IdempotencyKey r) (Payment_Status r)
    (Payment_Amount r) (Payment_ProviderTxnID r) (Payment_CreatedAt r) (Payment_UpdatedAt r).

Definition Payment_set_Status (s : PaymentStatus) (txn : option string) (now : Time)
  (r : Payment) : Payment :=
  mkPayment (Payment_ID r) (Payment_OrderID r) (Payment_IdempotencyKey r) s
    (Payment_Amount r) txn (Payment_CreatedAt r) now.

Definition Notification_set_Status (s : NotificationStatus) (sent : option Time)
  (r : Notification) : Notification :=
  mkNotification (Notification_ID r) (Notification_OrderID r) (Notification_Message r) s
    (Notification_CreatedAt r) sent.
