(* ===== verification/Database.v ===== *)
(** * The database as the repositories use it

    The schema ([migrations/*.up.sql]): the tables, their CHECK, UNIQUE and
    REFERENCES constraints. The statements the repositories issue ([stmt]) and
    the transaction bodies they build from them ([db]). The database engine and the
    ORM are not part of the program: they are the class [DbEngine], and [LawfulDb]
    states what the code relies on, statement by statement ([sem]). Every statement
    may fail with an opaque error at any time, and a COMMIT that reports an error may
    or may not have taken effect. *)

From Stdlib Require Import ZArith Lia.
From stdpp Require Import base tactics list gmap strings.
From S2P Require Import Prelude GoStd Errors Models.

Open Scope Z_scope.

(** ** The tables *)
Record Tables : Type := mkTables {
  Tables_users : gmap Z User;
  Tables_products : gmap Z Product;
  Tables_inventory : gmap Z Inventory;
  Tables_orders : gmap Z Order;
  Tables_order_items : gmap Z OrderItem;
  Tables_payments : gmap Z Payment;
  Tables_notifications : gmap Z Notification;
}.

Definition empty_tables : Tables := mkTables ∅ ∅ ∅ ∅ ∅ ∅ ∅.

Inductive table : Type → Type :=
| users : table User
| products : table Product
| inventory : table Inventory
| orders : table Order
| order_items : table OrderItem
| payments : table Payment
| notifications : table Notification.

Definition rows {R} (t : table R) (T : Tables) : gmap Z R :=
  match t in table R return gmap Z R with
  | users => Tables_users T
  | products => Tables_products T
  | inventory => Tables_inventory T
  | orders => Tables_orders T
  | order_items => Tables_order_items T
  | payments => Tables_payments T
  | notifications => Tables_notifications T
  end.

Definition set_rows {R} (t : table R) (m : gmap Z R) (T : Tables) : Tables :=
  let '(mkTables u p i o l y n) := T in
  match t in table R return gmap Z R → Tables with
  | users => λ m, mkTables m p i o l y n
  | products => λ m, mkTables u m i o l y n
  | inventory => λ m, mkTables u p m o l y n
  | orders => λ m, mkTables u p i m l y n
  | order_items => λ m, mkTables u p i o m y n
  | payments => λ m, mkTables u p i o l m n
  | notifications => λ m, mkTables u p i o l y m
  end m.

(** ** Rows: primary keys, timestamps, stored form, constraints *)
Definition row_id {R} (t : table R) : R → Z :=
  match t with
  | users => User_ID
  | products => Product_ID
  | inventory => Inventory_ID
  | orders => Order_ID
  | order_items => OrderItem_ID
  | payments => Payment_ID
  | notifications => Notification_ID
  end.

Definition row_set_id {R} (t : table R) : Z → R → R :=
  match t with
  | users => λ id r, mkUser id (User_Name r) (User_Email r) (User_Password r) (User_Role r)
                       (User_CreatedAt r) (User_UpdatedAt r)
  | products => λ id r, mkProduct id (Product_Name r) (Product_Image r)
                       (Product_Description r) (Product_Price r) (Product_Inventory r)
                       (Product_CreatedAt r) (Product_UpdatedAt r)
  | inventory => λ id r, mkInventory id (Inventory_ProductID r) (Inventory_Quantity r)
                       (Inventory_UpdatedAt r)
  | orders => λ id r, mkOrder id (Order_UserID r) (Order_Status r) (Order_TotalPrice r)
                       (Order_Items r) (Order_CreatedAt r) (Order_UpdatedAt r)
  | order_items => λ id r, mkOrderItem id (OrderItem_OrderID r) (OrderItem_ProductID r)
                       (OrderItem_Quantity r) (OrderItem_PriceAtPurchase r)
  | payments => λ id r, mkPayment id (Payment_OrderID r) (Payment_IdempotencyKey r)
                       (Payment_Status r) (Payment_Amount r) (Payment_ProviderTxnID r)
                       (Payment_CreatedAt r) (Payment_UpdatedAt r)
  | notifications => λ id r, mkNotification id (Notification_OrderID r)
                       (Notification_Message r) (Notification_Status r)
                       (Notification_CreatedAt r) (Notification_SentAt r)
  end.

(** [autoCreateTime] and [autoUpdateTime] on INSERT: zero instants become [now]. *)
Definition or_now (now t : Time) : Time := if t =? 0 then now else t.

Definition row_stamp_created {R} (t : table R) : Time → R → R :=
  match t with
  | users => λ now r, mkUser (User_ID r) (User_Name r) (User_Email r) (User_Password r)
                        (User_Role r) (or_now now (User_CreatedAt r)) (or_now now (User_UpdatedAt r))
  | products => λ now r, mkProduct (Product_ID r) (Product_Name r) (Product_Image r)
                        (Product_Description r) (Product_Price r) (Product_Inventory r)
                        (or_now now (Product_CreatedAt r)) (or_now now (Product_UpdatedAt r))
  | inventory => λ now r, mkInventory (Inventory_ID r) (Inventory_ProductID r)
                        (Inventory_Quantity r) (or_now now (Inventory_UpdatedAt r))
  | orders => λ now r, mkOrder (Order_ID r) (Order_UserID r) (Order_Status r)
                        (Order_TotalPrice r) (Order_Items r)
                        (or_now now (Order_CreatedAt r)) (or_now now (Order_UpdatedAt r))
  | order_items => λ _ r, r
  | payments => λ now r, mkPayment (Payment_ID r) (Payment_OrderID r)
                        (Payment_IdempotencyKey r) (Payment_Status r) (Payment_Amount r)
                        (Payment_ProviderTxnID r)
                        (or_now now (Payment_CreatedAt r)) (or_now now (Payment_UpdatedAt r))
  | notifications => λ now r, mkNotification (Notification_ID r) (Notification_OrderID r)
                        (Notification_Message r) (Notification_Status r)
                        (or_now now (Notification_CreatedAt r)) (Notification_SentAt r)
  end.

(** [autoUpdateTime] on a [Save]. *)
Definition row_stamp_updated {R} (t : table R) : Time → R → R :=
  match t with
  | users => λ now r, mkUser (User_ID r) (User_Name r) (User_Email r) (User_Password r)
                        (User_Role r) (User_CreatedAt r) now
  | products => λ now r, mkProduct (Product_ID r) (Product_Name r) (Product_Image r)
                        (Product_Description r) (Product_Price r) (Product_Inventory r)
                        (Product_CreatedAt r) now
  | inventory => λ now r, mkInventory (Inventory_ID r) (Inventory_ProductID r)
                        (Inventory_Quantity r) now
  | orders => λ now r, mkOrder (Order_ID r) (Order_UserID r) (Order_Status r)
                        (Order_TotalPrice r) (Order_Items r) (Order_CreatedAt r) now
  | order_items => λ _ r, r
  | payments => λ now r, mkPayment (Payment_ID r) (Payment_OrderID r)
                        (Payment_IdempotencyKey r) (Payment_Status r) (Payment_Amount r)
                        (Payment_ProviderTxnID r) (Payment_CreatedAt r) now
  | notifications => λ _ r, r
  end.

(** What a [float64] becomes when stored in a NUMERIC(12,2) column and read back;
    [None] when it does not fit. The conversion is the driver's and the server's. *)
Class Numeric : Type := numeric_12_2 : float64 → option float64.

(** The row as stored: prices converted, associations not part of the row. *)
Definition row_stored `{Numeric} {R} (t : table R) : R → option R :=
  match t with
  | users => Some
  | products => λ r,
      match numeric_12_2 (Product_Price r) with
      | Some p => Some (mkProduct (Product_ID r) (Product_Name r) (Product_Image r)
                          (Product_Description r) p None (Product_CreatedAt r)
                          (Product_UpdatedAt r))
      | None => None
      end
  | inventory => Some
  | orders => λ r,
      match numeric_12_2 (Order_TotalPrice r) with
      | Some p => Some (mkOrder (Order_ID r) (Order_UserID r) (Order_Status r) p []
                          (Order_CreatedAt r) (Order_UpdatedAt r))
      | None => None
      end
  | order_items => λ r,
      match numeric_12_2 (OrderItem_PriceAtPurchase r) with
      | Some p => Some (mkOrderItem (OrderItem_ID r) (OrderItem_OrderID r)
                          (OrderItem_ProductID r) (OrderItem_Quantity r) p)
      | None => None
      end
  | payments => λ r,
      match numeric_12_2 (Payment_Amount r) with
      | Some p => Some (mkPayment (Payment_ID r) (Payment_OrderID r)
                          (Payment_IdempotencyKey r) (Payment_Status r) p
                          (Payment_ProviderTxnID r) (Payment_CreatedAt r)
                          (Payment_UpdatedAt r))
      | None => None
      end
  | notifications => Some
  end.

(** Column types and CHECK constraints. *)
Definition row_ok {R} (t : table R) : R → bool :=
  match t with
  | users => λ r, bool_decide (User_Role r = UserRoleCustomer)
                  || bool_decide (User_Role r = UserRoleAdmin)
  | products => λ r, f64_ge0 (Product_Price r)
  | inventory => λ r, in_int32 (Inventory_ProductID r) && in_int32 (Inventory_Quantity r)
                      && (0 <=? Inventory_Quantity r)
  | orders => λ r, in_int32 (Order_UserID r) && f64_ge0 (Order_TotalPrice r)
  | order_items => λ r, in_int32 (OrderItem_OrderID r) && in_int32 (OrderItem_ProductID r)
                        && in_int32 (OrderItem_Quantity r) && (0 <? OrderItem_Quantity r)
                        && f64_ge0 (OrderItem_PriceAtPurchase r)
  | payments => λ r, in_int32 (Payment_OrderID r) && f64_ge0 (Payment_Amount r)
  | notifications => λ r, in_int32 (Notification_OrderID r)
  end.

(** UNIQUE constraints: two distinct rows may coexist. *)
Definition row_unique {R} (t : table R) : R → R → bool :=
  match t with
  | users => λ r s, negb (bool_decide (User_Email r = User_Email s))
  | products => λ _ _, true
  | inventory => λ r s, negb (Inventory_ProductID r =? Inventory_ProductID s)
  | orders => λ _ _, true
  | order_items => λ r s, negb ((OrderItem_OrderID r =? OrderItem_OrderID s)
                                && (OrderItem_ProductID r =? OrderItem_ProductID s))
  | payments => λ r s,
      negb (bool_decide (Payment_IdempotencyKey r = Payment_IdempotencyKey s))
  | notifications => λ _ _, true
  end.

Definition exists_row {R} (t : table R) (T : Tables) (id : Z) : bool :=
  match rows t T !! id with Some _ => true | None => false end.

(** REFERENCES constraints. *)
Definition row_refs {R} (t : table R) (T : Tables) : R → bool :=
  match t with
  | users => λ _, true
  | products => λ _, true
  | inventory => λ r, exists_row products T (Inventory_ProductID r)
  | orders => λ r, exists_row users T (Order_UserID r)
  | order_items => λ r, exists_row orders T (OrderItem_OrderID r)
                        && exists_row products T (OrderItem_ProductID r)
  | payments => λ r, exists_row orders T (Payment_OrderID r)
  | notifications => λ r, exists_row orders T (Notification_OrderID r)
  end.

(** Table [t] satisfies its constraints. *)
Definition constraints {R} (t : table R) (T : Tables) : Prop :=
  (∀ k r, rows t T !! k = Some r →
     row_id t r = k ∧ row_ok t r = true ∧ row_refs t T r = true)
  ∧ (∀ k1 k2 r1 r2, rows t T !! k1 = Some r1 → rows t T !! k2 = Some r2 →
       k1 ≠ k2 → row_unique t r1 r2 = true).

(** ** Statements *)
Inductive stmt : Type → Type :=
| Exec {R} (t : table R) (set_ : Time → R → R) (where_ : R → bool) : stmt Z
| Create {R} (t : table R) (row : R) : stmt R
| CreateAll {R} (t : table R) (batch : list R) : stmt (list R)
| Save {R} (t : table R) (row : R) : stmt R
| First {R} (t : table R) (where_ : R → bool) : stmt R
| Find {R} (t : table R) (where_ : R → bool) (order : option (R → Z)) (limit offset : Z)
  : stmt (list R)
| Count {R} (t : table R) : stmt Z.

(** Rows an UPDATE or SELECT matches. *)
Definition countb {R} (p : R → bool) (m : gmap Z R) : Z :=
  msum (λ r, if p r then 1 else 0) m.
Definition update_where {R} (p : R → bool) (f : R → R) (m : gmap Z R) : gmap Z R :=
  (λ r, if p r then f r else r) <$> m.
Definition matching {R} (p : R → bool) (m : gmap Z R) : list R :=
  filter (λ r, p r = true) (map_to_list m).*2.

Definition insert_rows {R} (t : table R) (l : list R) (m : gmap Z R) : gmap Z R :=
  foldr (λ r acc, <[row_id t r := r]> acc) m l.

Arguments countb : simpl never.
Arguments update_where : simpl never.
Arguments matching : simpl never.
Arguments insert_rows : simpl never.

(** LIMIT and OFFSET as the ORM emits them: a negative limit and a non-positive
    offset are left out of the query. *)
Definition limit_rows {R} (limit : Z) (l : list R) : list R :=
  if limit <? 0 then l else take (Z.to_nat limit) l.
Definition offset_rows {R} (offset : Z) (l : list R) : list R :=
  if 0 <? offset then drop (Z.to_nat offset) l else l.

(** ** Programs over statements

    The body of a transaction: [Do s k] issues [s] and continues with the
    [(value, error)] pair it returns; [Ret] returns from the function. *)
Inductive db (A : Type) : Type :=
| Ret (r : res A)
| Do {B : Type} (s : stmt B) (k : res B → db A).
Arguments Ret {A} r.
Arguments Do {A B} s k.

Fixpoint db_bind_ {A B} (f : A → db B) (p : db A) : db B :=
  match p with
  | Ret (Ok a) => f a
  | Ret (Err e) => Ret (Err e)
  | Do s k => Do s (λ r, db_bind_ f (k r))
  end.

#[export] Instance db_ret : MRet db := λ A a, Ret (Ok a).
#[export] Instance db_bind : MBind db := λ A B f p, db_bind_ f p.

(** [return err] *)
Definition fail {A} (e : error) : db A := Ret (Err e).
(** A statement whose error the code returns unchanged. *)
Definition perform {B} (s : stmt B) : db B := Do s Ret.
(** A statement whose error the code inspects. *)
Definition attempt {B} (s : stmt B) : db (res B) := Do s (λ r, Ret (Ok r)).

(** A loop whose body may return early with an error. *)
Fixpoint for_each {A} (body : A → db unit) (l : list A) : db unit :=
  match l with
  | [] => mret ()
  | x :: l' => _ ← body x; for_each body l'
  end.

(** ** What a statement promises *)
Section semantics.
Context `{Numeric}.

Definition sem_create_all {R} (t : table R) (batch : list R) (T : Tables)
  (r : res (list R)) (T' : Tables) : Prop :=
  match r with
  | Ok created =>
      ∃ now ids stored,
        batch ≠ [] ∧ Forall (λ row, row_id t row = 0) batch
        ∧ length ids = length batch ∧ NoDup ids
        ∧ Forall (λ id, 0 < id ∧ rows t T !! id = None) ids
        ∧ created = zip_with (row_set_id t) ids (row_stamp_created t now <$> batch)
        ∧ mapM (row_stored t) created = Some stored
        ∧ T' = set_rows t (insert_rows t stored (rows t T)) T
        ∧ constraints t T'
  | Err e =>
      T' = T
      ∧ (opaque e = true
         ∨ (e = ErrForeignKeyViolated ∧ ∃ row, row ∈ batch ∧ row_refs t T row = false))
  end.

(** [sem s T r T']: issued on tables [T], statement [s] may return [r] and leave [T'].
    Identities and timestamps are the server's to choose, and so is the order of rows
    a query does not sort. A [Save] of a row that is not there inserts it; [Create] is
    only issued for rows whose primary key is still zero. *)
Definition sem {B} (s : stmt B) (T : Tables) : res B → Tables → Prop :=
  match s in stmt B return res B → Tables → Prop with
  | Exec t set_ where_ => λ r T',
      match r with
      | Ok n => ∃ now, n = countb where_ (rows t T)
                ∧ T' = set_rows t (update_where where_ (set_ now) (rows t T)) T
                ∧ constraints t T'
      | Err e => T' = T ∧ opaque e = true
      end
  | Create t row => λ r T',
      match r with
      | Ok row' => sem_create_all t [row] T (Ok [row']) T'
      | Err e => sem_create_all t [row] T (Err e) T'
      end
  | CreateAll t batch => sem_create_all t batch T
  | Save t row => λ r T',
      match r with
      | Ok row' => ∃ now stored,
          row' = (if exists_row t T (row_id t row) then row_stamp_updated t now row
                  else row_stamp_created t now row)
          ∧ row_stored t row' = Some stored
          ∧ T' = set_rows t (<[row_id t row := stored]> (rows t T)) T ∧ constraints t T'
      | Err e => T' = T ∧ opaque e = true
      end
  | First t where_ => λ r T',
      T' = T ∧
      match r with
      | Ok row => ∃ k, rows t T !! k = Some row ∧ where_ row = true
                  ∧ ∀ k' row', rows t T !! k' = Some row' → where_ row' = true → k ≤ k'
      | Err e => opaque e = true
                 ∨ (e = ErrRecordNotFound ∧ countb where_ (rows t T) = 0)
      end
  | Find t where_ order limit offset => λ r T',
      T' = T ∧
      match r with
      | Ok l => ∃ all, all ≡ₚ matching where_ (rows t T)
                ∧ (∀ key, order = Some key → weakly_by key all)
                ∧ l = limit_rows limit (offset_rows offset all)
      | Err e => opaque e = true
      end
  | Count t => λ r T',
      T' = T ∧
      match r with
      | Ok n => n = Z.of_nat (size (rows t T))
      | Err e => opaque e = true
      end
  end.

(** The executions of a program, given what its statements promise. *)
Fixpoint runs {A} (p : db A) (T : Tables) (r : res A) (T' : Tables) : Prop :=
  match p with
  | Ret r0 => r = r0 ∧ T' = T
  | Do s k => ∃ rb T1, sem s T rb T1 ∧ runs (k rb) T1 r T'
  end.
End semantics.

(** ** The engine *)
Class DbEngine (D : Type) : Type := {
  db_numeric :: Numeric;
  view : D → Tables;
  exec : ∀ {B}, stmt B → D → res B * D;
  begin_tx : D → option error * D;
  commit_tx : D → D → option error * D;
  rollback_tx : D → D → D;
}.

Class LawfulDb (D : Type) `{DbEngine D} : Prop := {
  exec_sem : ∀ {B} (s : stmt B) d r d', exec s d = (r, d') → sem s (view d) r (view d');
  begin_view : ∀ d e d', begin_tx d = (e, d') → view d' = view d;
  begin_error : ∀ d e d', begin_tx d = (Some e, d') → opaque e = true;
  commit_ok : ∀ d0 d d', commit_tx d0 d = (None, d') → view d' = view d;
  commit_error : ∀ d0 d e d', commit_tx d0 d = (Some e, d') →
    opaque e = true ∧ (view d' = view d0 ∨ view d' = view d);
  rollback_view : ∀ d0 d, view (rollback_tx d0 d) = view d0;
}.

Section engine.
Context `{DbEngine D}.

(** The statements of a program, one after the other, on an open connection. *)
Fixpoint run {A} (p : db A) : M D (res A) :=
  match p with
  | Ret r => mret r
  | Do s k => r ← exec s; run (k r)
  end.

(** [db.Transaction(func(tx) error { ... })]: BEGIN, the body, then COMMIT when the
    body returns nil and ROLLBACK when it returns an error. *)
Definition Transaction {A} (body : db A) : M D (res A) := λ d,
  match begin_tx d with
  | (Some e, d0) => (Err e, d0)
  | (None, d0) =>
      match run body d0 with
      | (Err e, d1) => (Err e, rollback_tx d0 d1)
      | (Ok a, d1) =>
          match commit_tx d0 d1 with
          | (None, d2) => (Ok a, d2)
          | (Some e, d2) => (Err e, d2)
          end
      end
  end.

(** A lone write runs in a transaction of its own; a lone read needs none. *)
Definition autocommit {B} (s : stmt B) : M D (res B) := Transaction (perform s).
End engine.

(** The outcomes of a transaction over [body]: committed; or failed with the tables as
    before (an error of the body, or one of BEGIN, COMMIT or the connection); or a
    COMMIT whose acknowledgement was lost, reported as an opaque error. *)
Definition tx_outcome `{Numeric} {A} (body : db A) (T : Tables) (r : res A) (T' : Tables)
  : Prop :=
  match r with
  | Ok a => runs body T (Ok a) T'
  | Err e => (T' = T ∧ (opaque e = true ∨ ∃ T1, runs body T (Err e) T1))
             ∨ (opaque e = true ∧ ∃ a, runs body T (Ok a) T')
  end.

(** ** Lemmas: programs *)
Section programs.
Context `{Numeric}.

Lemma runs_ret {A} (a : A) T r T' : runs (mret a) T r T' ↔ r = Ok a ∧ T' = T.
Proof. done. Qed.

Lemma runs_fail {A} e T (r : res A) T' : runs (fail e) T r T' ↔ r = Err e ∧ T' = T.
Proof. done. Qed.

Lemma runs_perform {B} (s : stmt B) T r T' : runs (perform s) T r T' ↔ sem s T r T'.
Proof. cbn. split; [by intros (rb & T1 & Hs & -> & ->)|eauto]. Qed.

Lemma runs_attempt {B} (s : stmt B) T r T' :
  runs (attempt s) T r T' ↔ ∃ rb, r = Ok rb ∧ sem s T rb T'.
Proof.
  cbn. split; [intros (rb & T1 & Hs & -> & ->); eauto|intros (rb & -> & Hs); eauto].
Qed.

Lemma runs_bind {A B} (p : db A) (f : A → db B) T r T' :
  runs (p ≫= f) T r T' ↔
  (∃ a T1, runs p T (Ok a) T1 ∧ runs (f a) T1 r T')
  ∨ (∃ e, runs p T (Err e) T' ∧ r = Err e).
Proof.
  revert T. induction p as [[a|e]|B' s k IH]; intros T; cbn.
  - split; [intros Hf; left; by exists a, T|].
    intros [(? & ? & [[= ->] ->] & ?)|(? & [? ?] & ?)]; done.
  - split; [intros [-> ->]; right; by exists e|].
    intros [(? & ? & [? _] & ?)|(? & [[= ->] ->] & ->)]; done.
  - split.
    + intros (rb & T1 & Hs & Hk). apply IH in Hk as [(a & T2 & Hp & Hf)|(e & Hp & ->)];
        [left; exists a, T2|right; exists e]; eauto 10.
    + intros [(a & T2 & (rb & T1 & Hs & Hp) & Hf)|(e & (rb & T1 & Hs & Hp) & ->)];
        exists rb, T1; (split; [done|]); apply IH; [left|right]; eauto 10.
Qed.

(** Invariants of the statements are invariants of the programs built from them. *)
Lemma runs_invariant {A} (p : db A) (I : Tables → Tables → Prop) T r T' :
  (∀ T, I T T) → (∀ T1 T2 T3, I T1 T2 → I T2 T3 → I T1 T3) →
  (∀ B (s : stmt B) T1 rb T2, sem s T1 rb T2 → I T1 T2) →
  runs p T r T' → I T T'.
Proof.
  intros Hrefl Htrans Hsem. revert T. induction p as [r0|B s k IH]; intros T; cbn.
  - intros [_ ->]. apply Hrefl.
  - intros (rb & T1 & Hs & Hk). eapply Htrans; [by eapply Hsem|by eapply IH].
Qed.
End programs.
Arguments runs : simpl never.

(** Decompose an execution into the executions of its statements. *)
Ltac step_runs H :=
  lazymatch type of H with
  | runs (_ ≫= _) _ _ _ => rewrite runs_bind in H
  | runs (mret _) _ _ _ => rewrite runs_ret in H
  | runs (fail _) _ _ _ => rewrite runs_fail in H
  | runs (perform _) _ _ _ => rewrite runs_perform in H
  | runs (attempt _) _ _ _ => rewrite runs_attempt in H
  end.

Section engine_lemmas.
Context `{LawfulDb D}.

Lemma run_runs {A} (p : db A) d r d' :
  run p d = (r, d') → runs p (view d) r (view d').
Proof.
  revert d. induction p as [r0|B s k IH]; intros d; cbn.
  - intros [= <- <-]. done.
  - intros (rb & d1 & Hs & Hk)%M_bind_inv. exists rb, (view d1).
    split; [by eapply exec_sem|by apply IH].
Qed.

Lemma Transaction_outcome {A} (body : db A) d r d' :
  Transaction body d = (r, d') → tx_outcome body (view d) r (view d').
Proof.
  unfold Transaction. destruct (begin_tx d) as [[e|] d0] eqn:Eb.
  { intros [= <- <-]. left. rewrite (begin_view _ _ _ Eb).
    split; [done|]. left. by eapply begin_error. }
  destruct (run body d0) as [[a|e] d1] eqn:Er; apply run_runs in Er;
    rewrite (begin_view _ _ _ Eb) in Er.
  - destruct (commit_tx d0 d1) as [[e|] d2] eqn:Ec; intros [= <- <-].
    + destruct (commit_error _ _ _ _ Ec) as [He [Hv|Hv]]; rewrite Hv.
      * left. rewrite (begin_view _ _ _ Eb). eauto.
      * right. eauto.
    + cbn. by rewrite (commit_ok _ _ _ Ec).
  - intros [= <- <-]. left. rewrite rollback_view, (begin_view _ _ _ Eb). eauto.
Qed.
End engine_lemmas.

(** A property of committed executions holds of every outcome, if it also holds of a
    transaction that changed nothing. *)
Lemma tx_outcome_invariant `{Numeric} {A} (body : db A) (I : Tables → Prop) T r T' :
  (∀ a T1, runs body T (Ok a) T1 → I T1) → I T → tx_outcome body T r T' → I T'.
Proof.
  intros Hok HT. destruct r as [a|e]; cbn; [by apply Hok|].
  intros [[-> _]|[_ (a & Hr)]]; [done|by eapply Hok].
Qed.

Lemma tx_outcome_ok `{Numeric} {A} (body : db A) T r T' :
  is_ok r = true → tx_outcome body T r T' → runs body T r T'.
Proof. by destruct r. Qed.

(** An error the code recognises comes from the body, and leaves the tables alone. *)
Lemma tx_outcome_recognised `{Numeric} {A} (body : db A) T e T' :
  opaque e = false → tx_outcome body T (Err e) T' → T' = T ∧ ∃ T1, runs body T (Err e) T1.
Proof.
  intros He [[-> [Ho|Hr]]|[Ho _]]; [congruence|done|congruence].
Qed.

(** ** Lemmas: tables and rows *)
Lemma rows_set_rows {R} (t : table R) m T : rows t (set_rows t m T) = m.
Proof. by destruct T, t. Qed.

Lemma row_id_set_id {R} (t : table R) id r : row_id t (row_set_id t id r) = id.
Proof. by destruct t. Qed.

Lemma row_id_stored `{Numeric} {R} (t : table R) r r' :
  row_stored t r = Some r' → row_id t r' = row_id t r.
Proof.
  destruct t; cbn; try (intros [= <-]; done);
    (destruct (numeric_12_2 _); [intros [= <-]; done|done]).
Qed.

Lemma lookup_update_where {R} (p : R → bool) f (m : gmap Z R) k :
  update_where p f m !! k = (λ r, if p r then f r else r) <$> m !! k.
Proof. unfold update_where. apply lookup_fmap. Qed.

Lemma msum_update_where {R} (f : R → Z) p g c (m : gmap Z R) :
  (∀ r, p r = true → f (g r) = f r + c) →
  msum f (update_where p g m) = msum f m + c * countb p m.
Proof.
  intros Hg. unfold update_where, countb. rewrite msum_fmap, <- msum_scale, <- msum_add.
  apply msum_ext. intros k r _. destruct (p r) eqn:E; [rewrite Hg by done|]; lia.
Qed.

Lemma msum_update_where_same {R} (f : R → Z) p g (m : gmap Z R) :
  (∀ r, p r = true → f (g r) = f r) → msum f (update_where p g m) = msum f m.
Proof. intros Hg. rewrite (msum_update_where f p g 0); [lia|]. intros. rewrite Hg; lia||done. Qed.

Lemma countb_nonneg {R} (p : R → bool) (m : gmap Z R) : 0 ≤ countb p m.
Proof. apply msum_nonneg. intros. by destruct (p x). Qed.

Lemma countb_zero {R} (p : R → bool) (m : gmap Z R) :
  countb p m = 0 ↔ ∀ k r, m !! k = Some r → p r = false.
Proof.
  split.
  - intros Hc k r Hk. apply not_true_iff_false. intros Hp.
    assert (1 ≤ countb p m); [|lia].
    transitivity (if p r then 1 else 0); [by rewrite Hp|].
    apply (msum_member_le (λ r, if p r then 1 else 0) m k); [|done].
    intros. by destruct (p x).
  - intros Hf. apply msum_zero. intros k r Hk. by rewrite (Hf k).
Qed.

Lemma countb_pos {R} (p : R → bool) (m : gmap Z R) :
  0 < countb p m → ∃ k r, m !! k = Some r ∧ p r = true.
Proof.
  intros Hc. apply msum_pos_member in Hc as (k & r & Hk & Hp). exists k, r.
  split; [done|]. by destruct (p r).
Qed.

(** A predicate that no two rows satisfy together matches at most one row. *)
Lemma countb_le_1 {R} (p : R → bool) (m : gmap Z R) :
  (∀ k1 k2 r1 r2, m !! k1 = Some r1 → m !! k2 = Some r2 →
     p r1 = true → p r2 = true → k1 = k2) → countb p m ≤ 1.
Proof.
  induction m as [|k r m Hk IH] using map_ind; intros Hu; [done|].
  unfold countb in *. rewrite msum_insert_fresh by done.
  destruct (p r) eqn:Ep.
  - enough (countb p m = 0) by (unfold countb in *; lia).
    apply countb_zero. intros j s Hj. apply not_true_iff_false. intros Hs.
    assert (j = k) as ->; [|congruence].
    apply (Hu j k s r); [|by rewrite lookup_insert_eq|done..].
    rewrite lookup_insert_ne; congruence.
  - apply IH. intros k1 k2 r1 r2 H1 H2. apply Hu; rewrite lookup_insert_ne; congruence.
Qed.

(** A predicate that exactly one row satisfies. *)
Lemma countb_1 {R} (p : R → bool) (m : gmap Z R) k r :
  m !! k = Some r → p r = true →
  (∀ j s, m !! j = Some s → p s = true → j = k) → countb p m = 1.
Proof.
  intros Hk Hp Hu.
  assert (countb p m ≤ 1).
  { apply countb_le_1. intros k1 k2 r1 r2 H1 H2 Hp1 Hp2.
    by rewrite (Hu k1 r1), (Hu k2 r2). }
  enough (countb p m ≠ 0) by (pose proof (countb_nonneg p m); lia).
  intros Hc. rewrite (proj1 (countb_zero p m) Hc k r Hk) in Hp. done.
Qed.

(** An UPDATE that matches one row, or none. *)
Lemma update_where_one {R} (p : R → bool) f (m : gmap Z R) k r :
  m !! k = Some r → p r = true → (∀ j s, m !! j = Some s → p s = true → j = k) →
  update_where p f m = <[k := f r]> m.
Proof.
  intros Hk Hp Hu. apply map_eq. intros j. rewrite lookup_update_where.
  destruct (decide (j = k)) as [->|Hne].
  - by rewrite lookup_insert_eq, Hk; cbn; rewrite Hp.
  - rewrite lookup_insert_ne by done. destruct (m !! j) as [s|] eqn:Ej; [|done]. cbn.
    destruct (p s) eqn:Es; [|done]. by destruct Hne; apply (Hu j s).
Qed.

Lemma update_where_none {R} (p : R → bool) f (m : gmap Z R) :
  countb p m = 0 → update_where p f m = m.
Proof.
  intros Hc. apply map_eq. intros j. rewrite lookup_update_where.
  destruct (m !! j) as [s|] eqn:Ej; [|done]. cbn.
  by rewrite (proj1 (countb_zero p m) Hc j s Ej).
Qed.

Lemma elem_of_matching {R} (p : R → bool) (m : gmap Z R) r :
  r ∈ matching p m ↔ p r = true ∧ ∃ k, m !! k = Some r.
Proof.
  unfold matching. rewrite list_elem_of_filter, list_elem_of_fmap.
  split; intros [Hp Hr]; (split; [done|]).
  - destruct Hr as ([k r'] & -> & Hr%elem_of_map_to_list). eauto.
  - destruct Hr as [k Hk]. exists (k, r). by rewrite elem_of_map_to_list.
Qed.

Lemma lsum_matching {R} (f : R → Z) (p : R → bool) (m : gmap Z R) :
  lsum f (matching p m) = msum (λ r, if p r then f r else 0) m.
Proof.
  unfold matching. rewrite lsum_filter_if, msum_to_list. apply lsum_ext.
  intros r _. by destruct (p r).
Qed.

(** Inserting a batch with fresh, distinct primary keys. *)
Definition fresh_batch {R} (t : table R) (l : list R) (m : gmap Z R) : Prop :=
  NoDup (row_id t <$> l) ∧ ∀ r, r ∈ l → m !! row_id t r = None.

Lemma insert_rows_cons {R} (t : table R) r l m :
  insert_rows t (r :: l) m = <[row_id t r := r]> (insert_rows t l m).
Proof. done. Qed.

Lemma lookup_insert_rows_fresh {R} (t : table R) l m k :
  k ∉ row_id t <$> l → insert_rows t l m !! k = m !! k.
Proof.
  induction l as [|r l IH]; [done|]. rewrite fmap_cons, not_elem_of_cons.
  intros [Hne Hk]. rewrite insert_rows_cons, lookup_insert_ne by congruence. by apply IH.
Qed.

Lemma fresh_batch_cons {R} (t : table R) r l m :
  fresh_batch t (r :: l) m →
  fresh_batch t l m ∧ insert_rows t l m !! row_id t r = None.
Proof.
  intros [Hnd Hf]. rewrite fmap_cons, NoDup_cons in Hnd. destruct Hnd as [Hr Hnd].
  split; [split; [done|]; intros s Hs; apply Hf; by right|].
  rewrite lookup_insert_rows_fresh by done. apply Hf. left.
Qed.

Lemma msum_insert_rows {R} (t : table R) (f : R → Z) l m :
  fresh_batch t l m → msum f (insert_rows t l m) = lsum f l + msum f m.
Proof.
  induction l as [|r l IH]; intros Hf; [done|].
  apply fresh_batch_cons in Hf as [Hl Hr].
  rewrite insert_rows_cons, msum_insert_fresh, IH by done. unfold lsum. cbn. lia.
Qed.

Lemma lookup_insert_rows {R} (t : table R) l m k r :
  fresh_batch t l m →
  insert_rows t l m !! k = Some r ↔ (m !! k = Some r) ∨ (r ∈ l ∧ k = row_id t r).
Proof.
  induction l as [|s l IH]; intros Hf.
  { cbn. split; [by left|]. intros [?|[[]%not_elem_of_nil _]]; done. }
  pose proof (proj2 Hf s ltac:(left)) as Hs.
  apply fresh_batch_cons in Hf as [Hl Hr]. rewrite insert_rows_cons, lookup_insert_Some, IH by done.
  split.
  - intros [[<- <-]|[Hne [?|[? ->]]]]; [|tauto|]; right; (split; [by constructor|done]).
  - intros [Hk|[[->|Hin]%elem_of_cons ->]].
    + right. split; [|by left]. intros <-. congruence.
    + by left.
    + destruct (decide (row_id t s = row_id t r)) as [E|E]; [|tauto].
      exfalso. rewrite E in Hr. apply not_elem_of_dom in Hr. apply Hr, elem_of_dom.
      exists r. apply IH; auto.
Qed.

Lemma fmap_row_id_set_id {R} (t : table R) ids l :
  length ids = length l → row_id t <$> zip_with (row_set_id t) ids l = ids.
Proof.
  revert l. induction ids as [|i ids IH]; intros [|r l] Hl; try done.
  cbn. rewrite row_id_set_id. f_equal. apply IH. by injection Hl.
Qed.

Lemma fmap_row_id_stored `{Numeric} {R} (t : table R) l l' :
  mapM (row_stored t) l = Some l' → row_id t <$> l' = row_id t <$> l.
Proof.
  intros Hm%mapM_Some. induction Hm as [|r r' l l' Hr Hm IH]; [done|].
  cbn. by rewrite IH, (row_id_stored t r r').
Qed.

(** The rows a batch INSERT adds are fresh. *)
Lemma created_fresh `{Numeric} {R} (t : table R) now ids batch stored T :
  length ids = length batch → NoDup ids →
  Forall (λ id, 0 < id ∧ rows t T !! id = None) ids →
  mapM (row_stored t) (zip_with (row_set_id t) ids (row_stamp_created t now <$> batch))
    = Some stored →
  fresh_batch t stored (rows t T).
Proof.
  intros Hlen Hnd Hf Hm. apply fmap_row_id_stored in Hm.
  rewrite fmap_row_id_set_id in Hm by (by rewrite length_fmap).
  split; [by rewrite Hm|]. intros r Hr. rewrite Forall_forall in Hf.
  apply Hf. rewrite <- Hm. apply list_elem_of_fmap. eauto.
Qed.

#[export] Hint Resolve countb_nonneg rows_set_rows row_id_set_id : go.
#[export] Hint Rewrite @rows_set_rows @row_id_set_id @lookup_update_where : go.

(** A successful single-row INSERT. *)
Lemma sem_create_ok `{Numeric} {R} (t : table R) row T row' T' :
  sem (Create t row) T (Ok row') T' →
  ∃ now id stored, row_id t row = 0 ∧ 0 < id ∧ rows t T !! id = None
    ∧ row' = row_set_id t id (row_stamp_created t now row)
    ∧ row_stored t row' = Some stored
    ∧ T' = set_rows t (<[id := stored]> (rows t T)) T ∧ constraints t T'.
Proof.
  intros (now & ids & stored & _ & Hz & Hlen & _ & Hf & Hc & Hm & -> & Hok).
  destruct ids as [|id [|]]; try done. injection Hc as ->.
  apply mapM_Some in Hm. inversion Hm as [|? s ? l Hs Hl]; subst. inversion Hl; subst.
  apply Forall_singleton in Hf as [Hpos Hnone].
  exists now, id, s. split_and!; try done.
  - by inversion Hz.
  - by rewrite insert_rows_cons, (row_id_stored t _ _ Hs), row_id_set_id.
Qed.

(** A successful batch INSERT. *)
Lemma sem_create_all_ok `{Numeric} {R} (t : table R) batch T created T' :
  sem (CreateAll t batch) T (Ok created) T' →
  ∃ now ids stored, batch ≠ [] ∧ length ids = length batch
    ∧ created = zip_with (row_set_id t) ids (row_stamp_created t now <$> batch)
    ∧ Forall2 (λ c s, row_stored t c = Some s) created stored
    ∧ fresh_batch t stored (rows t T)
    ∧ T' = set_rows t (insert_rows t stored (rows t T)) T ∧ constraints t T'.
Proof.
  intros (now & ids & stored & Hne & _ & Hlen & Hnd & Hf & -> & Hm & -> & Hok).
  exists now, ids, stored. split_and!; try done; [by apply mapM_Some|].
  by eapply created_fresh.
Qed.

(** ** Lemmas: constraints *)

(** No row of [T] disappears in [T']. *)
Definition grows (T T' : Tables) : Prop :=
  ∀ R (t : table R) id, exists_row t T id = true → exists_row t T' id = true.

#[export] Instance grows_preorder : PreOrder grows.
Proof. split; [by intros T R t id|intros T1 T2 T3 H1 H2 R t id H]. by apply H2, H1. Qed.

Lemma exists_row_iff {R} (t : table R) T id :
  exists_row t T id = true ↔ is_Some (rows t T !! id).
Proof.
  unfold exists_row. destruct (rows t T !! id) as [r|]; split; done.
Qed.

Lemma exists_row_Some {R} (t : table R) T id r :
  rows t T !! id = Some r → exists_row t T id = true.
Proof. intros Hr. apply exists_row_iff. by eexists. Qed.

Lemma grows_set_rows {R} (t : table R) m T :
  (∀ id, is_Some (rows t T !! id) → is_Some (m !! id)) → grows T (set_rows t m T).
Proof.
  intros Hm R2 t2 id. rewrite !exists_row_iff. specialize (Hm id).
  destruct T, t, t2; cbn in *; auto.
Qed.

Lemma row_refs_grows {R} (t : table R) T T' r :
  grows T T' → row_refs t T r = true → row_refs t T' r = true.
Proof.
  intros Hg. destruct t; cbn; try done; try apply Hg.
  rewrite !andb_true_iff. intros [H1 H2]. split; by apply Hg.
Qed.

Lemma constraints_frame {R} (t : table R) T T' :
  grows T T' → rows t T' = rows t T → constraints t T → constraints t T'.
Proof.
  intros Hg Heq [Hrow Huniq]. split; rewrite Heq; [|done].
  intros k r Hk. destruct (Hrow k r Hk) as (? & ? & ?). eauto using row_refs_grows.
Qed.

(** Every table satisfies its constraints. *)
Definition consistent (T : Tables) : Prop := ∀ R (t : table R), constraints t T.

Lemma consistent_set_rows {R} (t : table R) m T :
  consistent T → grows T (set_rows t m T) → constraints t (set_rows t m T) →
  consistent (set_rows t m T).
Proof.
  intros HT Hg Hc R2 t2. pose proof (HT R2 t2) as Ht2.
  destruct T, t, t2; 
    first [exact Hc | eapply constraints_frame; [exact Hg|reflexivity|exact Ht2]].
Qed.

(** An UPDATE whose condition pins the primary key. *)
Lemma update_by_id {R} (t : table R) T (where_ : R → bool) f id r :
  constraints t T → (∀ r, where_ r = true → row_id t r = id) →
  rows t T !! id = Some r →
  countb where_ (rows t T) = (if where_ r then 1 else 0)
  ∧ update_where where_ f (rows t T)
    = if where_ r then <[id := f r]> (rows t T) else rows t T.
Proof.
  intros [Hrow _] Hw Hr.
  assert (∀ j s, rows t T !! j = Some s → where_ s = true → j = id) as Hu.
  { intros j s Hj Hs. rewrite <- (Hw s Hs). symmetry. by apply (Hrow j s). }
  destruct (where_ r) eqn:E.
  - split; [by apply (countb_1 _ _ id r)|by apply update_where_one].
  - assert (countb where_ (rows t T) = 0) as Hz.
    { apply countb_zero. intros j s Hj. apply not_true_iff_false. intros Hs.
      rewrite (Hu j s Hj Hs) in Hj. congruence. }
    split; [done|by apply update_where_none].
Qed.

Section consistency.
Context `{Numeric}.

Lemma update_where_grows {R} (t : table R) p f T :
  grows T (set_rows t (update_where p f (rows t T)) T).
Proof.
  apply grows_set_rows. intros id. rewrite lookup_update_where. by intros [r ->]; eexists.
Qed.

Lemma insert_rows_grows {R} (t : table R) l T :
  grows T (set_rows t (insert_rows t l (rows t T)) T).
Proof.
  apply grows_set_rows. intros id Hid. induction l as [|r l IH]; [done|].
  rewrite insert_rows_cons. apply lookup_insert_is_Some'. by right.
Qed.

Lemma insert_grows {R} (t : table R) k r T :
  grows T (set_rows t (<[k:=r]> (rows t T)) T).
Proof. apply grows_set_rows. intros id Hid. apply lookup_insert_is_Some'. by right. Qed.

Lemma sem_create_all_step {R} (t : table R) batch T r T' :
  sem_create_all t batch T r T' → grows T T' ∧ (consistent T → consistent T').
Proof.
  destruct r as [created|e]; cbn; [|intros [-> _]; split; [reflexivity|done]].
  intros (now & ids & stored & _ & _ & _ & _ & _ & _ & _ & -> & Hc).
  split; [apply insert_rows_grows|]. intros HT.
  apply consistent_set_rows; auto using insert_rows_grows.
Qed.

(** No statement removes a row, and every statement keeps the constraints. *)
Lemma sem_step {B} (s : stmt B) T r T' :
  sem s T r T' → grows T T' ∧ (consistent T → consistent T').
Proof.
  destruct s; cbn [sem].
  - destruct r; [|intros [-> _]; split; [reflexivity|done]].
    intros (now & _ & -> & Hc). split; [apply update_where_grows|]. intros HT.
    apply consistent_set_rows; auto using update_where_grows.
  - destruct r; apply sem_create_all_step.
  - apply sem_create_all_step.
  - destruct r; [|intros [-> _]; split; [reflexivity|done]].
    intros (now & stored & _ & _ & -> & Hc). split; [apply insert_grows|]. intros HT.
    apply consistent_set_rows; auto using insert_grows.
  - intros [-> _]; split; [reflexivity|done].
  - intros [-> _]; split; [reflexivity|done].
  - intros [-> _]; split; [reflexivity|done].
Qed.

Lemma runs_step {A} (p : db A) T r T' :
  runs p T r T' → grows T T' ∧ (consistent T → consistent T').
Proof.
  apply (runs_invariant p (λ T T', grows T T' ∧ (consistent T → consistent T'))).
  - split; [reflexivity|done].
  - intros T1 T2 T3 [G1 C1] [G2 C2]. split; [by transitivity T2|auto].
  - intros. by eapply sem_step.
Qed.
End consistency.

#[export] Hint Resolve exists_row_Some update_where_grows insert_rows_grows insert_grows : go.

(** A lone UPDATE of one row by its primary key, run in its own transaction. *)
Lemma autocommit_update_by_id `{LawfulDb D} {R} (t : table R) set_ where_ id r d rb d' :
  consistent (view d) → (∀ r, where_ r = true → row_id t r = id) →
  rows t (view d) !! id = Some r → where_ r = true →
  autocommit (Exec t set_ where_) d = (rb, d') →
  (∃ now, view d' = set_rows t (<[id := set_ now r]> (rows t (view d))) (view d))
  ∨ (is_ok rb = false ∧ view d' = view d).
Proof.
  intros Hc Hw Hr Ht Ho. apply Transaction_outcome in Ho.
  assert (∀ n T', sem (Exec t set_ where_) (view d) (Ok n) T' →
            ∃ now, T' = set_rows t (<[id := set_ now r]> (rows t (view d))) (view d)) as Hup.
  { intros n T' (now & _ & -> & _). exists now.
    by rewrite (proj2 (update_by_id t _ where_ (set_ now) id r (Hc R t) Hw Hr)), Ht. }
  destruct rb as [n|e].
  - left. apply runs_perform in Ho. by eapply Hup.
  - destruct Ho as [[Hv _]|[_ (n & Ho)]]; [by right|left].
    apply runs_perform in Ho. by eapply Hup.
Qed.

(** A lone INSERT: a fresh row and nothing else, or nothing at all. *)
Lemma autocommit_create `{LawfulDb D} {R} (t : table R) row d rb d' :
  consistent (view d) →
  autocommit (Create t row) d = (rb, d') →
  (∃ now id stored, 0 < id ∧ rows t (view d) !! id = None
     ∧ row_stored t (row_set_id t id (row_stamp_created t now row)) = Some stored
     ∧ view d' = set_rows t (<[id := stored]> (rows t (view d))) (view d)
     ∧ consistent (view d')
     ∧ ∀ row', rb = Ok row' → row' = row_set_id t id (row_stamp_created t now row))
  ∨ (is_ok rb = false ∧ view d' = view d).
Proof.
  intros Hc Ho. apply Transaction_outcome in Ho.
  assert (∀ row', runs (perform (Create t row)) (view d) (Ok row') (view d') →
            ∃ now id stored, 0 < id ∧ rows t (view d) !! id = None
              ∧ row' = row_set_id t id (row_stamp_created t now row)
              ∧ row_stored t row' = Some stored
              ∧ view d' = set_rows t (<[id := stored]> (rows t (view d))) (view d)
              ∧ consistent (view d')) as Hin.
  { intros row' Hr. pose proof (proj2 (runs_step _ _ _ _ Hr) Hc).
    apply runs_perform, sem_create_ok in Hr as (now & id & s & _ & ? & ? & ? & ? & ? & _).
    by exists now, id, s. }
  destruct rb as [row'|e].
  - left. apply Hin in Ho as (now & id & s & ? & ? & -> & ? & ? & ?). exists now, id, s.
    split_and!; [done..|]. by intros row' [= <-].
  - destruct Ho as [[Hv _]|[_ (row' & Ho)]]; [by right|left].
    apply Hin in Ho as (now & id & s & ? & ? & -> & ? & ? & ?). by exists now, id, s.
Qed.
