(* ===== verification/RefDb.v ===== *)
(** * A reference engine

    An executable [DbEngine]: the tables in memory, a clock, a counter that hands out
    identities and a schedule of injected faults (one entry per statement or COMMIT).
    It satisfies [LawfulDb], so the assumptions of the theorems about the repositories
    are satisfiable, and concrete runs evaluate on it. *)

From Stdlib Require Import ZArith Lia.
From stdpp Require Import base tactics list gmap strings.
From S2P Require Import Prelude GoStd Errors Models Database.

Open Scope Z_scope.

Record RefDb : Type := mkRefDb {
  ref_tables : Tables;
  ref_clock : Time;
  ref_next : Z;
  ref_faults : list bool;
}.

(** Prices are stored as they are, as long as they are finite. *)
#[local] Instance ref_numeric : Numeric := λ x, if f64_finite x then Some x else None.

Definition ref_set_tables (T : Tables) (d : RefDb) : RefDb :=
  mkRefDb T (ref_clock d + 1) (ref_next d) (ref_faults d).
Definition ref_set_next (n : Z) (d : RefDb) : RefDb :=
  mkRefDb (ref_tables d) (ref_clock d) n (ref_faults d).
Definition ref_set_faults (fs : list bool) (d : RefDb) : RefDb :=
  mkRefDb (ref_tables d) (ref_clock d) (ref_next d) fs.

Definition constraintsb {R} (t : table R) (T : Tables) : bool :=
  let l := map_to_list (rows t T) in
  forallb (λ '(k, r), (row_id t r =? k) && row_ok t r && row_refs t T r) l
  && forallb (λ '(k1, r1), forallb (λ '(k2, r2), (k1 =? k2) || row_unique t r1 r2) l) l.

Definition ref_ids (d : RefDb) (n : nat) : list Z := seqZ (ref_next d) (Z.of_nat n).

Definition nonempty {A} (l : list A) : bool := match l with [] => false | _ => true end.

Definition no_dup (l : list Z) : bool := bool_decide (NoDup l).

Definition ref_create {R} (t : table R) (batch : list R) (d : RefDb) : res (list R) * RefDb :=
  let T := ref_tables d in
  let ids := ref_ids d (length batch) in
  let created := zip_with (row_set_id t) ids (row_stamp_created t (ref_clock d) <$> batch) in
  if negb (forallb (row_refs t T) batch) then (Err ErrForeignKeyViolated, d)
  else match mapM (row_stored t) created with
       | None => (Err (OtherError "numeric field overflow"), d)
       | Some stored =>
           let T' := set_rows t (insert_rows t stored (rows t T)) T in
           if nonempty batch && forallb (λ row, row_id t row =? 0) batch
              && no_dup ids
              && forallb (λ id, (0 <? id) && negb (exists_row t T id)) ids
              && constraintsb t T'
           then (Ok created,
                 ref_set_next (ref_next d + Z.of_nat (length batch)) (ref_set_tables T' d))
           else (Err (OtherError "constraint violation"), d)
       end.

Definition ref_step {B} (s : stmt B) : RefDb → res B * RefDb :=
  match s in stmt B return RefDb → res B * RefDb with
  | Exec t set_ where_ => λ d,
      let T := ref_tables d in
      let T' := set_rows t (update_where where_ (set_ (ref_clock d)) (rows t T)) T in
      if constraintsb t T' then (Ok (countb where_ (rows t T)), ref_set_tables T' d)
      else (Err (OtherError "constraint violation"), d)
  | Create t row => λ d,
      match ref_create t [row] d with
      | (Ok [row'], d') => (Ok row', d')
      | (Ok _, _) => (Err (OtherError "unreachable"), d)
      | (Err e, d') => (Err e, d')
      end
  | CreateAll t batch => ref_create t batch
  | Save t row => λ d,
      let T := ref_tables d in
      let row' := if exists_row t T (row_id t row) then row_stamp_updated t (ref_clock d) row
                  else row_stamp_created t (ref_clock d) row in
      match row_stored t row' with
      | None => (Err (OtherError "numeric field overflow"), d)
      | Some stored =>
          let T' := set_rows t (<[row_id t row := stored]> (rows t T)) T in
          if constraintsb t T'
          then (Ok row', ref_set_tables T' d)
          else (Err (OtherError "constraint violation"), d)
      end
  | First t where_ => λ d,
      match sort_by (row_id t) (matching where_ (rows t (ref_tables d))) with
      | row :: _ => if constraintsb t (ref_tables d) then (Ok row, d)
                    else (Err (OtherError "corrupt table"), d)
      | [] => (Err ErrRecordNotFound, d)
      end
  | Find t where_ order limit offset => λ d,
      let l := matching where_ (rows t (ref_tables d)) in
      let all := match order with Some key => sort_by key l | None => sort_by (row_id t) l end in
      (Ok (limit_rows limit (offset_rows offset all)), d)
  | Count t => λ d, (Ok (Z.of_nat (size (rows t (ref_tables d)))), d)
  end.

Definition ref_exec {B} (s : stmt B) (d : RefDb) : res B * RefDb :=
  match ref_faults d with
  | true :: fs => (Err (OtherError "connection reset"), ref_set_faults fs d)
  | fs => ref_step s (ref_set_faults (tail fs) d)
  end.

Definition ref_rollback (d0 d : RefDb) : RefDb :=
  mkRefDb (ref_tables d0) (ref_clock d) (ref_next d) (ref_faults d).

Definition ref_commit (d0 d : RefDb) : option error * RefDb :=
  match ref_faults d with
  | true :: fs => (Some (OtherError "commit failed"), ref_set_faults fs (ref_rollback d0 d))
  | fs => (None, ref_set_faults (tail fs) d)
  end.

#[export] Instance ref_engine : DbEngine RefDb := {|
  db_numeric := ref_numeric;
  view := ref_tables;
  exec := @ref_exec;
  begin_tx := λ d, (None, d);
  commit_tx := ref_commit;
  rollback_tx := ref_rollback;
|}.

(** ** The reference engine is lawful *)
Lemma constraintsb_sound {R} (t : table R) T : constraintsb t T = true → constraints t T.
Proof.
  unfold constraintsb. intros [Hr Hu]%andb_true_iff.
  rewrite forallb_forall in Hr, Hu. split.
  - intros k r Hk. apply elem_of_map_to_list, list_elem_of_In in Hk.
    specialize (Hr _ Hk). cbn in Hr. bool_to_prop. auto.
  - intros k1 k2 r1 r2 H1 H2 Hne.
    apply elem_of_map_to_list, list_elem_of_In in H1, H2.
    specialize (Hu _ H1). cbn in Hu. rewrite forallb_forall in Hu.
    specialize (Hu _ H2). cbn in Hu.
    apply orb_true_iff in Hu as [E|?]; [|done]. bool_to_prop. done.
Qed.

Lemma ref_create_sem {R} (t : table R) batch d r d' :
  ref_create t batch d = (r, d') → sem_create_all t batch (ref_tables d) r (ref_tables d').
Proof.
  unfold ref_create.
  destruct (forallb (row_refs t (ref_tables d)) batch) eqn:Hrefs; cbn [negb].
  2: { intros [= <- <-]. split; [done|]. right. split; [done|].
       apply not_true_iff_false in Hrefs. rewrite forallb_forall in Hrefs.
       destruct (existsb (λ row, negb (row_refs t (ref_tables d) row)) batch) eqn:E.
       - apply existsb_exists in E as (row & Hin & Hn). exists row.
         rewrite list_elem_of_In. by apply negb_true_iff in Hn.
       - destruct Hrefs. intros row Hin. apply not_false_iff_true. intros Hf.
         apply not_true_iff_false in E. apply E, existsb_exists. exists row.
         by rewrite Hf. }
  destruct (mapM _ _) as [stored|] eqn:Hst; [|intros [= <- <-]; split; auto].
  destruct (_ && _ && _ && _ && _) eqn:E; intros [= <- <-]; [|split; auto].
  bool_to_prop. exists (ref_clock d), (ref_ids d (length batch)), stored.
  split_and!; try done.
  - by destruct batch.
  - apply Forall_forall. intros row Hin.
    match goal with H : forallb (λ row, _ =? 0) _ = true |- _ => rewrite forallb_forall in H;
      apply Z.eqb_eq, H; by apply list_elem_of_In end.
  - unfold ref_ids. rewrite length_seqZ. lia.
  - by match goal with H : no_dup _ = true |- _ => apply bool_decide_eq_true in H end.
  - apply Forall_forall. intros id Hin.
    match goal with H : forallb (λ id, (0 <? id) && _) _ = true |- _ =>
      rewrite forallb_forall in H; apply list_elem_of_In, H in Hin end.
    bool_to_prop. split; [done|].
    match goal with H : exists_row _ _ _ = false |- _ => unfold exists_row in H;
      by destruct (_ !! _) end.
  - by apply constraintsb_sound.
Qed.

Lemma ref_step_sem {B} (s : stmt B) d r d' :
  ref_step s d = (r, d') → sem s (ref_tables d) r (ref_tables d').
Proof.
  destruct s; cbn.
  - destruct (constraintsb _ _) eqn:E; intros [= <- <-]; [|done].
    exists (ref_clock d). split_and!; [done|done|by apply constraintsb_sound].
  - destruct (ref_create t [row] d) as [[l|e] d1] eqn:E; apply ref_create_sem in E.
    + destruct l as [|row' [|]]; intros [= <- <-]; [split; auto|exact E|split; auto].
    + intros [= <- <-]. exact E.
  - apply ref_create_sem.
  - destruct (row_stored _ _) as [stored|] eqn:Es; [|by intros [= <- <-]].
    destruct (constraintsb _ _) eqn:E; intros [= <- <-]; [|done].
    exists (ref_clock d), stored.
    split_and!; [done..|by apply constraintsb_sound].
  - destruct (sort_by _ _) as [|row l] eqn:Es.
    + intros [= <- <-]. split; [done|]. right. split; [done|].
      apply countb_zero. intros k row Hk. apply not_true_iff_false. intros Hw.
      assert (row ∈ sort_by (row_id t) (matching where_ (rows t (ref_tables d)))) as Hin.
      { rewrite sort_by_perm. apply elem_of_matching. eauto. }
      rewrite Es in Hin. by apply not_elem_of_nil in Hin.
    + destruct (constraintsb _ _) eqn:Ec; intros [= <- <-]; [|auto].
      apply constraintsb_sound in Ec as [Hrows _]. split; [done|].
      assert (row ∈ matching where_ (rows t (ref_tables d))) as Hin.
      { rewrite <- (sort_by_perm (row_id t)), Es. left. }
      apply elem_of_matching in Hin as [Hw [k Hk]]. exists k. split_and!; [done..|].
      intros k' row' Hk' Hw'.
      rewrite <- (proj1 (Hrows k row Hk)), <- (proj1 (Hrows k' row' Hk')).
      assert (row' ∈ row :: l) as Hin'.
      { rewrite <- Es, sort_by_perm. apply elem_of_matching. eauto. }
      pose proof (sort_by_weakly (row_id t) (matching where_ (rows t (ref_tables d)))) as Hs.
      rewrite Es in Hs. inversion Hs as [|? ? _ Hall]; subst.
      apply elem_of_cons in Hin' as [->|Hin']; [done|].
      rewrite Forall_forall in Hall. auto.
  - intros [= <- <-]. split; [done|]. eexists. split_and!; [| |done].
    + destruct order; apply sort_by_perm.
    + intros key ->. apply sort_by_weakly.
  - intros [= <- <-]. done.
Qed.

#[export] Instance ref_lawful : LawfulDb RefDb.
Proof.
  split.
  - intros B s d r d'. cbn. unfold ref_exec.
    destruct (ref_faults d) as [|[] fs]; intros E.
    1, 3: by apply ref_step_sem in E.
    injection E as <- <-. destruct s; cbn; auto.
  - by intros d e d' [= <- <-].
  - done.
  - intros d0 d d'. cbn. unfold ref_commit.
    destruct (ref_faults d) as [|[] fs]; by intros [= <-].
  - intros d0 d e d'. cbn. unfold ref_commit.
    destruct (ref_faults d) as [|[] fs]; intros [= <- <-]; auto.
  - done.
Qed.

(** ** A small shop, for concrete runs: one customer, two products *)
Definition price_of (n : Z) : float64 := f64_of_int n.

Definition demo_tables : Tables :=
  mkTables
    {[ 1 := mkUser 1 "ada" "ada@example.com" "secret-pw" UserRoleCustomer 100 100 ]}
    {[ 10 := mkProduct 10 "lamp" None None (price_of 25) None 100 100;
       20 := mkProduct 20 "desk" None None (price_of 120) None 100 100 ]}
    {[ 1 := mkInventory 1 10 5 100; 2 := mkInventory 2 20 3 100 ]}
    ∅ ∅ ∅ ∅.

Definition demo : RefDb := mkRefDb demo_tables 1000 100 [].

(** The shop with a schedule of injected faults. *)
Definition demo_faulty (fs : list bool) : RefDb := ref_set_faults fs demo.

Definition consistentb (T : Tables) : bool :=
  constraintsb users T && constraintsb products T && constraintsb inventory T
  && constraintsb orders T && constraintsb order_items T && constraintsb payments T
  && constraintsb notifications T.

Lemma consistentb_sound T : consistentb T = true → consistent T.
Proof.
  unfold consistentb. intros Hc. bool_to_prop. intros R [];
    by apply constraintsb_sound.
Qed.

Lemma demo_consistent : consistent demo_tables.
Proof. apply consistentb_sound. by vm_compute. Qed.
