(* ===== verification/OrderRepository.v ===== *)
(** * The order repository ([internal/repository/order.go])

    Each method is a transaction body over the statements of [Database], or a lone
    query. [OrderRepository] is the Go interface of the same name: services are
    written against it, and [orderRepository] implements it on any engine. *)

From Stdlib Require Import ZArith Lia.
From stdpp Require Import base tactics list gmap strings.
From S2P Require Import Prelude GoStd Errors Models Database.

Open Scope Z_scope.

Class OrderRepository (W : Type) : Type := {
  repo_CreateOrder : Order → Payment → M W (res (Order * Payment));
  GetPendingByOrderID : Z → M W (res Payment);
  GetOrderUserID : Z → M W (res Z);
  MarkPaidAndConfirm : Payment → string → M W (res bool);
  FailCancelAndRestock : Payment → M W (res bool);
  ListStalePending : Time → Z → Z → M W (res (list Z));
}.

(** [UPDATE inventory SET quantity = quantity - ? WHERE product_id = ? AND quantity >= ?],
    and the test on the number of affected rows. *)
Definition reserve_line (item : OrderItem) : db unit :=
  n ← perform (Exec inventory
        (λ now r, Inventory_set_Quantity (Inventory_Quantity r - OrderItem_Quantity item) now r)
        (λ r, (Inventory_ProductID r =? OrderItem_ProductID item)
              && (OrderItem_Quantity item <=? Inventory_Quantity r)));
  if n =? 1 then mret () else fail (InsufficientStockError (OrderItem_ProductID item)).

(** The transaction body of [CreateOrder]. The caller's [order] and [payment] are
    pointers the body fills in; the result holds their final values. *)
Definition CreateOrder_tx (order : Order) (payment : Payment) : db (Order * Payment) :=
  _ ← for_each reserve_line (Order_Items order);
  r ← attempt (Create orders (Order_set_Items [] order));
  match r with
  | Err e => if errors_Is e ErrForeignKeyViolated then fail ErrUserNotFound else fail e
  | Ok order1 =>
      let items := OrderItem_set_OrderID (Order_ID order1) <$> Order_Items order in
      items' ← perform (CreateAll order_items items);
      payment' ← perform (Create payments (Payment_set_OrderID (Order_ID order1) payment));
      mret (Order_set_Items items' order1, payment')
  end.

(** [WHERE id = ? AND status = 'pending'], the guard of both terminal transitions. *)
Definition pending_payment (payment p : Payment) : bool :=
  (Payment_ID p =? Payment_ID payment)
  && bool_decide (Payment_Status p = PaymentStatusPending).
Definition pending_order (payment : Payment) (o : Order) : bool :=
  (Order_ID o =? Payment_OrderID payment)
  && bool_decide (Order_Status o = OrderStatusPending).

Definition MarkPaidAndConfirm_tx (payment : Payment) (txnID : string) : db bool :=
  n ← perform (Exec payments
        (λ now p, Payment_set_Status PaymentStatusPaid (Some txnID) now p)
        (pending_payment payment));
  if negb (n =? 1) then mret false
  else
    _ ← perform (Exec orders (Order_set_Status OrderStatusConfirmed) (pending_order payment));
    mret true.

(** [UPDATE inventory SET quantity = quantity + ? WHERE product_id = ?] *)
Definition restock_line (item : OrderItem) : db unit :=
  _ ← perform (Exec inventory
        (λ now r, Inventory_set_Quantity (Inventory_Quantity r + OrderItem_Quantity item) now r)
        (λ r, Inventory_ProductID r =? OrderItem_ProductID item));
  mret ().

Definition FailCancelAndRestock_tx (payment : Payment) : db bool :=
  n ← perform (Exec payments
        (λ now p, Payment_set_Status PaymentStatusFailed (Payment_ProviderTxnID p) now p)
        (pending_payment payment));
  if negb (n =? 1) then mret false
  else
    _ ← perform (Exec orders (Order_set_Status OrderStatusCancelled) (pending_order payment));
    items ← perform (Find order_items
              (λ i, OrderItem_OrderID i =? Payment_OrderID payment) None (-1) 0);
    _ ← for_each restock_line items;
    mret true.

Section repository.
Context `{DbEngine D}.

Definition orderRepository_GetPendingByOrderID (orderID : Z) : M D (res Payment) :=
  r ← exec (First payments (λ p, (Payment_OrderID p =? orderID)
              && bool_decide (Payment_Status p = PaymentStatusPending)));
  match r with
  | Err e => if errors_Is e ErrRecordNotFound then mret (Err ErrNoPendingPayment)
             else mret (Err e)
  | Ok payment => mret (Ok payment)
  end.

Definition orderRepository_GetOrderUserID (orderID : Z) : M D (res Z) :=
  r ← exec (First orders (λ o, Order_ID o =? orderID));
  match r with
  | Err e => if errors_Is e ErrRecordNotFound then mret (Err ErrOrderNotFound)
             else mret (Err e)
  | Ok order => mret (Ok (Order_UserID order))
  end.

(** [now] is what [time.Now()] returns in the call. *)
Definition orderRepository_ListStalePending (now olderThan limit : Z) : M D (res (list Z)) :=
  let cutoff := now - olderThan in
  r ← exec (Find payments (λ p, bool_decide (Payment_Status p = PaymentStatusPending)
                                && (Payment_CreatedAt p <? cutoff))
              (Some Payment_CreatedAt) limit 0);
  match r with
  | Err e => mret (Err e)
  | Ok l => mret (Ok (Payment_OrderID <$> l))
  end.

#[export] Instance orderRepository : OrderRepository D := {|
  repo_CreateOrder := λ order payment, Transaction (CreateOrder_tx order payment);
  GetPendingByOrderID := orderRepository_GetPendingByOrderID;
  GetOrderUserID := orderRepository_GetOrderUserID;
  MarkPaidAndConfirm := λ payment txnID, Transaction (MarkPaidAndConfirm_tx payment txnID);
  FailCancelAndRestock := λ payment, Transaction (FailCancelAndRestock_tx payment);
  ListStalePending := orderRepository_ListStalePending;
|}.
End repository.
