(* ===== verification/Repositories.v ===== *)
(** * The product, user and notification repositories
    ([internal/repository/{product,user,notification}.go])

    Interfaces and their implementation on any engine. [Preload("Inventory")] is the
    second query it issues; [Save] creates a row whose primary key is zero. *)

From Stdlib Require Import ZArith Lia.
From stdpp Require Import base tactics list gmap strings.
From S2P Require Import Prelude GoStd Errors Models Database.

Open Scope Z_scope.

Class ProductRepository (W : Type) : Type := {
  repo_ListProducts : Z → Z → M W (res (list Product * Z));
  repo_GetProduct : Z → M W (res Product);
  GetProductsByIDs : list Z → M W (res (list Product));
  repo_CreateProduct : Product → M W (res Product);
  repo_UpdateProduct : Product → M W (res Product);
  repo_GetInventory : Z → M W (res Inventory);
}.

Class UserRepository (W : Type) : Type := {
  repo_CreateUser : User → M W (res User);
  repo_GetUser : Z → M W (res User);
  GetUserByEmail : string → M W (res User);
  repo_UpdateUser : User → M W (res User);
}.

Class NotificationRepository (W : Type) : Type := {
  repo_CreateNotification : Notification → M W (res Notification);
  MarkSent : Z → M W (res unit);
  MarkFailed : Z → M W (res unit);
  ListByOrder : Z → M W (res (list Notification));
}.

(** [tx.Save(row)] *)
Definition save {R} (t : table R) (row : R) : db R :=
  if row_id t row =? 0 then perform (Create t row) else perform (Save t row).

Definition Product_set_Inventory (i : option Inventory) (r : Product) : Product :=
  mkProduct (Product_ID r) (Product_Name r) (Product_Image r) (Product_Description r)
    (Product_Price r) i (Product_CreatedAt r) (Product_UpdatedAt r).
Definition Inventory_set_ProductID (id : Z) (r : Inventory) : Inventory :=
  mkInventory (Inventory_ID r) id (Inventory_Quantity r) (Inventory_UpdatedAt r).

Definition list_has (l : list Z) (z : Z) : bool := existsb (Z.eqb z) l.

Lemma list_has_elem l z : list_has l z = true ↔ z ∈ l.
Proof.
  unfold list_has. rewrite existsb_exists. split.
  - intros (x & Hin & ->%Z.eqb_eq). by apply list_elem_of_In.
  - intros Hin. exists z. split; [by apply list_elem_of_In|apply Z.eqb_refl].
Qed.

(** The row a preloaded has-one association receives. *)
Definition attach_inventory (invs : list Inventory) (p : Product) : Product :=
  Product_set_Inventory (find (λ i, Inventory_ProductID i =? Product_ID p) invs) p.

(** The body of [CreateProduct]: the product, then its inventory row. *)
Definition CreateProduct_tx (product : Product) : db Product :=
  p ← perform (Create products product);
  match Product_Inventory product with
  | None => mret p
  | Some i =>
      i' ← perform (Create inventory (Inventory_set_ProductID (Product_ID p) i));
      mret (Product_set_Inventory (Some i') p)
  end.

Definition UpdateProduct_tx (product : Product) : db Product :=
  p ← save products product;
  match Product_Inventory product with
  | None => mret p
  | Some i => i' ← save inventory i; mret (Product_set_Inventory (Some i') p)
  end.

Section repositories.
Context `{DbEngine D}.

(** [Preload("Inventory")] on the products a query returned. *)
Definition preload_inventory (ps : list Product) : M D (res (list Product)) :=
  match ps with
  | [] => mret (Ok [])
  | _ => invs <-? exec (Find inventory
                    (λ i, list_has (Product_ID <$> ps) (Inventory_ProductID i)) None (-1) 0);;
         mret (Ok (attach_inventory invs <$> ps))
  end.

Definition productRepository_ListProducts (limit offset : Z) : M D (res (list Product * Z)) :=
  total <-? exec (Count products);;
  ps <-? exec (Find products (λ _, true) (Some Product_ID) limit offset);;
  ps' <-? preload_inventory ps;;
  mret (Ok (ps', total)).

Definition productRepository_GetProduct (id : Z) : M D (res Product) :=
  p <-? exec (First products (λ p, Product_ID p =? id));;
  ps <-? preload_inventory [p];;
  match ps with
  | p' :: _ => mret (Ok p')
  | [] => mret (Ok p)
  end.

Definition productRepository_GetProductsByIDs (ids : list Z) : M D (res (list Product)) :=
  exec (Find products (λ p, list_has ids (Product_ID p)) None (-1) 0).

Definition productRepository_GetInventory (productID : Z) : M D (res Inventory) :=
  exec (First inventory (λ i, Inventory_ProductID i =? productID)).

#[export] Instance productRepository : ProductRepository D := {|
  repo_ListProducts := productRepository_ListProducts;
  repo_GetProduct := productRepository_GetProduct;
  GetProductsByIDs := productRepository_GetProductsByIDs;
  repo_CreateProduct := λ product, Transaction (CreateProduct_tx product);
  repo_UpdateProduct := λ product, Transaction (UpdateProduct_tx product);
  repo_GetInventory := productRepository_GetInventory;
|}.

#[export] Instance userRepository : UserRepository D := {|
  repo_CreateUser := λ user, autocommit (Create users user);
  repo_GetUser := λ id, exec (First users (λ u, User_ID u =? id));
  GetUserByEmail := λ email, exec (First users (λ u, bool_decide (User_Email u = email)));
  repo_UpdateUser := λ user, Transaction (save users user);
|}.

(** [UPDATE notifications SET status = 'sent', sent_at = now() WHERE id = ?] *)
Definition notificationRepository_MarkSent (id : Z) : M D (res unit) :=
  _ <-? autocommit (Exec notifications
          (λ now n, Notification_set_Status NotificationStatusSent (Some now) n)
          (λ n, Notification_ID n =? id));;
  mret (Ok ()).

(** [UPDATE notifications SET status = 'failed' WHERE id = ?] *)
Definition notificationRepository_MarkFailed (id : Z) : M D (res unit) :=
  _ <-? autocommit (Exec notifications
          (λ _ n, Notification_set_Status NotificationStatusFailed (Notification_SentAt n) n)
          (λ n, Notification_ID n =? id));;
  mret (Ok ()).

Definition notificationRepository_ListByOrder (orderID : Z) : M D (res (list Notification)) :=
  exec (Find notifications (λ n, Notification_OrderID n =? orderID)
          (Some Notification_ID) (-1) 0).

#[export] Instance notificationRepository : NotificationRepository D := {|
  repo_CreateNotification := λ n, autocommit (Create notifications n);
  MarkSent := notificationRepository_MarkSent;
  MarkFailed := notificationRepository_MarkFailed;
  ListByOrder := notificationRepository_ListByOrder;
|}.
End repositories.
