(* ===== verification/Frame.v ===== *)
(** * Programs that never write to a table

    A syntactic check on transaction bodies, and the frame property it gives: whatever the
    outcome, the rows of the table are the same. *)

From Stdlib Require Import ZArith Lia.
From stdpp Require Import base tactics list gmap strings.
From S2P Require Import Prelude GoStd Errors Models Database Repositories.

Open Scope Z_scope.

Definition table_tag {R} (t : table R) : nat :=
  match t with
  | users => 0 | products => 1 | inventory => 2 | orders => 3
  | order_items => 4 | payments => 5 | notifications => 6
  end.
Definition writes {B} (s : stmt B) : option nat :=
  match s with
  | Exec t _ _ => Some (table_tag t)
  | Create t _ => Some (table_tag t)
  | CreateAll t _ => Some (table_tag t)
  | Save t _ => Some (table_tag t)
  | First _ _ | Find _ _ _ _ _ | Count _ => None
  end.

Inductive avoids (n : nat) {A} : db A → Prop :=
| avoids_ret r : avoids n (Ret r)
| avoids_do {B} (s : stmt B) k :
    writes s ≠ Some n → (∀ rb, avoids n (k rb)) → avoids n (Do s k).

Lemma rows_other {R1 R2} (t1 : table R1) (t2 : table R2) m T :
  table_tag t1 ≠ table_tag t2 → rows t2 (set_rows t1 m T) = rows t2 T.
Proof. by destruct T, t1, t2. Qed.

Section frames.
Context `{Numeric}.

Lemma sem_frame {R B} (t : table R) (s : stmt B) T r T' :
  writes s ≠ Some (table_tag t) → sem s T r T' → rows t T' = rows t T.
Proof.
  assert (∀ R2 (t2 : table R2) batch r2, Some (table_tag t2) ≠ Some (table_tag t) →
            sem_create_all t2 batch T r2 T' → rows t T' = rows t T) as Hcreate.
  { intros R2 t2 batch [l|e] Hne; cbn; [|by intros [-> _]].
    intros (now & ids & stored & _ & _ & _ & _ & _ & _ & _ & -> & _).
    apply rows_other. congruence. }
  destruct s; cbn [writes sem]; intros Hne.
  - destruct r; [|by intros [-> _]]. intros (now & _ & -> & _). apply rows_other. congruence.
  - destruct r; by apply Hcreate.
  - by apply Hcreate.
  - destruct r; [|by intros [-> _]]. intros (now & stored & _ & _ & -> & _).
    apply rows_other. congruence.
  - by intros [-> _].
  - by intros [-> _].
  - by intros [-> _].
Qed.

Lemma avoids_runs {R A} (t : table R) (p : db A) T r T' :
  avoids (table_tag t) p → runs p T r T' → rows t T' = rows t T.
Proof.
  intros Hp. revert T. induction Hp as [r0|B s k Hs _ IH]; intros T; cbn.
  - by intros [_ ->].
  - intros (rb & T1 & Hsem & Hk). rewrite (IH _ _ Hk). by eapply sem_frame.
Qed.

Lemma avoids_tx {R A} (t : table R) (p : db A) T r T' :
  avoids (table_tag t) p → tx_outcome p T r T' → rows t T' = rows t T.
Proof.
  intros Hp Ho. destruct r as [a|e]; cbn in Ho; [by eapply avoids_runs|].
  destruct Ho as [[-> _]|[_ [a Ho]]]; [done|by eapply avoids_runs].
Qed.
End frames.

Lemma avoids_bind n {A B} (p : db A) (f : A → db B) :
  avoids n p → (∀ a, avoids n (f a)) → avoids n (p ≫= f).
Proof.
  intros Hp Hf. induction Hp as [[a|e]|B' s k Hs _ IH]; cbn; [apply Hf|constructor|].
  by constructor.
Qed.
Lemma avoids_perform n {B} (s : stmt B) : writes s ≠ Some n → avoids n (perform s).
Proof. intros Hs. constructor; [done|]. constructor. Qed.
Lemma avoids_attempt n {B} (s : stmt B) : writes s ≠ Some n → avoids n (attempt s).
Proof. intros Hs. constructor; [done|]. constructor. Qed.
Lemma avoids_for_each n {A} (body : A → db unit) l :
  (∀ x, avoids n (body x)) → avoids n (for_each body l).
Proof.
  intros Hb. induction l; cbn; [constructor|]. by apply avoids_bind.
Qed.
Lemma avoids_save n {R} (t : table R) row : table_tag t ≠ n → avoids n (save t row).
Proof. unfold save. destruct (_ =? _); intros Hn; apply avoids_perform; cbn; congruence. Qed.

Ltac solve_avoids :=
  repeat first
    [ apply avoids_bind; [|intros ?] | apply avoids_for_each; intros ?
    | apply avoids_perform; done | apply avoids_attempt; done | apply avoids_save; done
    | apply avoids_ret | progress cbn beta iota | case_match ].
