(* ===== verification/Ledger.v ===== *)
(** * The ledger: correctness of the order repository

    What the order tables say about stock and order status, the invariant that ties
    orders, payments, items and inventory together ([ledger_ok]), and what each method
    of [OrderRepository] does to it: reservations never exceed the shelf, units are
    conserved, each order leaves [pending] once, together with its payment. *)

From Stdlib Require Import ZArith Lia.
From stdpp Require Import base tactics list gmap strings.
From S2P Require Import Prelude GoStd Errors Models Database OrderRepository.

Open Scope Z_scope.

(** ** The ledger: what the tables say about stock and orders *)

(** Units of product [p] on the shelf. *)
Definition stock (T : Tables) (p : Z) : Z :=
  msum (λ r, if Inventory_ProductID r =? p then Inventory_Quantity r else 0)
    (Tables_inventory T).

(** The order exists and is not cancelled: its items hold stock. *)
Definition live (T : Tables) (o : Z) : bool :=
  match Tables_orders T !! o with
  | Some r => negb (bool_decide (Order_Status r = OrderStatusCancelled))
  | None => false
  end.

(** Units of product [p] held by live orders. *)
Definition reserved (T : Tables) (p : Z) : Z :=
  msum (λ i, if (OrderItem_ProductID i =? p) && live T (OrderItem_OrderID i)
             then OrderItem_Quantity i else 0)
    (Tables_order_items T).

(** Units of product [p] in a list of lines. *)
Definition demand (items : list OrderItem) (p : Z) : Z :=
  lsum (λ i, if OrderItem_ProductID i =? p then OrderItem_Quantity i else 0) items.

Arguments stock : simpl never.
Arguments reserved : simpl never.
Arguments demand : simpl never.

(** Which statuses of an order and of its payment go together. *)
Definition in_step (o : OrderStatus) (p : PaymentStatus) : bool :=
  match o, p with
  | OrderStatusPending, PaymentStatusPending
  | OrderStatusConfirmed, PaymentStatusPaid
  | OrderStatusCancelled, PaymentStatusFailed => true
  | _, _ => false
  end.

(** The invariant of the order pipeline. *)
Record ledger_ok (T : Tables) : Prop := {
  ok_consistent : consistent T;
  (** one payment per order *)
  ok_paid_for : ∀ o r, Tables_orders T !! o = Some r →
    ∃ k p, Tables_payments T !! k = Some p ∧ Payment_OrderID p = o;
  ok_one_payment : ∀ k1 k2 p1 p2,
    Tables_payments T !! k1 = Some p1 → Tables_payments T !! k2 = Some p2 →
    Payment_OrderID p1 = Payment_OrderID p2 → k1 = k2;
  (** whose status follows the order's *)
  ok_in_step : ∀ k p, Tables_payments T !! k = Some p →
    ∃ o, Tables_orders T !! Payment_OrderID p = Some o
         ∧ in_step (Order_Status o) (Payment_Status p) = true;
  (** every line's product has an inventory row to give the units back to *)
  ok_stocked : ∀ k i, Tables_order_items T !! k = Some i →
    ∃ j r, Tables_inventory T !! j = Some r
           ∧ Inventory_ProductID r = OrderItem_ProductID i;
}.

(** ** Steps that only move units on and off the shelf *)
Record shelf_step (T T' : Tables) (delta : Z → Z) : Prop := {
  shelf_only : T' = set_rows inventory (Tables_inventory T') T;
  shelf_products : ∀ k, Inventory_ProductID <$> Tables_inventory T' !! k
                        = Inventory_ProductID <$> Tables_inventory T !! k;
  shelf_stock : ∀ p, stock T' p = stock T p + delta p;
}.

(** Units a restock returns: one inventory row per product receives them. *)
Definition shelved (T : Tables) (item : OrderItem) : Prop :=
  ∃ j r, Tables_inventory T !! j = Some r ∧ Inventory_ProductID r = OrderItem_ProductID item.

Section shelf.
Context `{Numeric}.

Lemma shelf_step_refl T delta : (∀ p, delta p = 0) → shelf_step T T delta.
Proof. intros Hd. split; [by destruct T|done|]. intros p. rewrite Hd. lia. Qed.

Lemma shelf_step_trans T1 T2 T3 d1 d2 d3 :
  shelf_step T1 T2 d1 → shelf_step T2 T3 d2 → (∀ p, d3 p = d1 p + d2 p) →
  shelf_step T1 T3 d3.
Proof.
  intros [E1 P1 S1] [E2 P2 S2] Hd. split.
  - rewrite E2, E1 at 1. by destruct T1, T2, T3.
  - intros k. by rewrite P2, P1.
  - intros p. rewrite S2, S1, Hd. lia.
Qed.

Lemma shelved_step T T' delta item :
  shelf_step T T' delta → shelved T item ↔ shelved T' item.
Proof.
  intros [_ HP _]. unfold shelved. split; intros (j & r & Hj & Hp); specialize (HP j);
    rewrite Hj in HP; cbn in HP.
  - destruct (Tables_inventory T' !! j) as [r'|] eqn:E; [|done].
    injection HP as HP. exists j, r'. split; [done|congruence].
  - destruct (Tables_inventory T !! j) as [r'|] eqn:E; [|done].
    injection HP as HP. exists j, r'. split; [done|congruence].
Qed.

(** An UPDATE that adds [c] units to the matching rows of product [pid]. *)
Lemma update_shelf_step T T' pid where_ (set_ : Inventory → Inventory) c :
  T' = set_rows inventory (update_where where_ set_ (Tables_inventory T)) T →
  (∀ r, where_ r = true → Inventory_ProductID r = pid) →
  (∀ r, Inventory_ProductID (set_ r) = Inventory_ProductID r) →
  (∀ r, Inventory_Quantity (set_ r) = Inventory_Quantity r + c) →
  shelf_step T T'
    (λ p, (if pid =? p then c else 0) * countb where_ (Tables_inventory T)).
Proof.
  intros -> Hw Hp Hq. split.
  - by destruct T.
  - intros k. destruct T. cbn. rewrite lookup_update_where.
    destruct (_ !! k) as [r|]; [|done]. cbn. f_equal. by destruct (where_ r).
  - intros p. unfold stock. destruct T. cbn.
    apply msum_update_where. intros r Hr. rewrite Hp, Hq, (Hw r Hr).
    destruct (pid =? p); lia.
Qed.

(** UNIQUE (product_id): at most one inventory row per product. *)
Lemma one_row_per_product T pid (where_ : Inventory → bool) :
  consistent T → (∀ r, where_ r = true → Inventory_ProductID r = pid) →
  countb where_ (Tables_inventory T) ≤ 1.
Proof.
  intros HT Hw. apply countb_le_1. intros k1 k2 r1 r2 H1 H2 W1 W2.
  destruct (decide (k1 = k2)) as [|Hne]; [done|]. exfalso.
  pose proof (proj2 (HT _ inventory) k1 k2 r1 r2 H1 H2 Hne) as Hu. cbn in Hu.
  rewrite (Hw r1 W1), (Hw r2 W2), Z.eqb_refl in Hu. done.
Qed.

Lemma inventory_row_ok T k r :
  consistent T → Tables_inventory T !! k = Some r → 0 ≤ Inventory_Quantity r.
Proof.
  intros HT Hk. destruct (proj1 (HT _ inventory) k r Hk) as (_ & Hok & _).
  cbn in Hok. bool_to_prop. lia.
Qed.

Lemma stock_nonneg T p : consistent T → 0 ≤ stock T p.
Proof.
  intros HT. apply msum_nonneg. intros k r Hk. pose proof (inventory_row_ok T k r HT Hk).
  destruct (_ =? _); lia.
Qed.

(** With one row per product, the stock of a product is its row's quantity. *)
Lemma stock_row T k r :
  consistent T → Tables_inventory T !! k = Some r →
  stock T (Inventory_ProductID r) = Inventory_Quantity r.
Proof.
  intros HT Hk. unfold stock. rewrite (msum_delete _ _ k r Hk), Z.eqb_refl.
  rewrite msum_zero; [lia|]. intros j s [Hne Hj]%lookup_delete_Some.
  destruct (_ =? _) eqn:E; [|done]. bool_to_prop.
  pose proof (proj2 (HT _ inventory) j k s r Hj Hk ltac:(congruence)) as Hu.
  cbn in Hu. rewrite E, Z.eqb_refl in Hu. done.
Qed.

Lemma stock_no_row T p :
  (∀ k r, Tables_inventory T !! k = Some r → Inventory_ProductID r ≠ p) → stock T p = 0.
Proof.
  intros Hn. apply msum_zero. intros k r Hk. specialize (Hn k r Hk).
  by rewrite (proj2 (Z.eqb_neq _ _) Hn).
Qed.
End shelf.

(** ** The loops over order lines *)
Section loops.
Context `{Numeric}.

(** The effect of reserving, or of giving back, one line. *)
Definition line_units (item : OrderItem) (p : Z) : Z :=
  if OrderItem_ProductID item =? p then OrderItem_Quantity item else 0.

Lemma demand_nil p : demand [] p = 0.
Proof. done. Qed.

Lemma demand_cons item items p : demand (item :: items) p = line_units item p + demand items p.
Proof. done. Qed.

Lemma demand_app l1 l2 p : demand (l1 ++ l2) p = demand l1 p + demand l2 p.
Proof. apply lsum_app. Qed.

Lemma reserve_line_ok T T' item :
  consistent T → runs (reserve_line item) T (Ok ()) T' →
  shelf_step T T' (λ p, - line_units item p)
  ∧ OrderItem_Quantity item ≤ stock T (OrderItem_ProductID item)
  ∧ shelved T item.
Proof.
  intros HT Hr. unfold reserve_line in Hr. step_runs Hr.
  destruct Hr as [(n & T1 & Hs & Hr)|(e & _ & [=])]. step_runs Hs.
  destruct Hs as (now & -> & HT1 & _).
  destruct (_ =? 1) eqn:E; [|by step_runs Hr; destruct Hr].
  step_runs Hr. destruct Hr as [_ ->]. bool_to_prop. cbn in E.
  assert (0 < countb (λ r, (Inventory_ProductID r =? OrderItem_ProductID item)
    && (OrderItem_Quantity item <=? Inventory_Quantity r)) (Tables_inventory T)) as Hpos
    by lia.
  apply countb_pos in Hpos as (k & r & Hk & Hw). bool_to_prop. split_and!.
  - eapply shelf_step_trans; [|apply shelf_step_refl with (delta := λ _, 0); done|].
    + eapply update_shelf_step with (pid := OrderItem_ProductID item)
        (c := - OrderItem_Quantity item); [exact HT1| |done|done].
      intros s Hs. by bool_to_prop.
    + intros p. cbn. rewrite E. unfold line_units. destruct (_ =? p); lia.
  - replace (OrderItem_ProductID item) with (Inventory_ProductID r) by congruence.
    by rewrite (stock_row T k r).
  - by exists k, r.
Qed.

(** A line is refused only when the shelf holds fewer units than it asks for. *)
Lemma reserve_line_err T T' item e :
  consistent T → 0 < OrderItem_Quantity item →
  runs (reserve_line item) T (Err e) T' →
  opaque e = true
  ∨ (e = InsufficientStockError (OrderItem_ProductID item)
     ∧ stock T (OrderItem_ProductID item) < OrderItem_Quantity item).
Proof.
  intros HT Hq Hr. unfold reserve_line in Hr. step_runs Hr.
  destruct Hr as [(n & T1 & Hs & Hr)|(e' & Hs & [= <-])]; step_runs Hs; [|left; apply Hs].
  destruct Hs as (now & -> & HT1 & _).
  destruct (_ =? 1) eqn:E; step_runs Hr; destruct Hr as [Hr ->]; [done|].
  injection Hr as ->. right. split; [done|]. bool_to_prop. cbn in E.
  set (w := λ r, (Inventory_ProductID r =? OrderItem_ProductID item)
    && (OrderItem_Quantity item <=? Inventory_Quantity r)) in *.
  assert (countb w (Tables_inventory T) = 0) as Hz.
  { pose proof (countb_nonneg w (Tables_inventory T)).
    pose proof (one_row_per_product T (OrderItem_ProductID item) w HT
      ltac:(unfold w; intros; by bool_to_prop)). lia. }
  pose proof (proj1 (countb_zero _ _) Hz) as Hnone.
  destruct (Z_lt_le_dec (stock T (OrderItem_ProductID item)) (OrderItem_Quantity item))
    as [|Hge]; [done|].
  assert (0 < stock T (OrderItem_ProductID item)) as Hpos by lia.
  apply msum_pos_member in Hpos as (k & r & Hk & Hr).
  destruct (_ =? _) eqn:Ep; [|lia]. bool_to_prop.
  rewrite <- Ep, (stock_row T k r HT Hk) in Hge.
  specialize (Hnone k r Hk). unfold w in Hnone.
  rewrite Ep, Z.eqb_refl in Hnone. cbn in Hnone. bool_to_prop. lia.
Qed.

(** The reservation loop, when it completes: the units left the shelf, and were there. *)
Lemma reserve_loop_ok items T T' :
  consistent T → runs (for_each reserve_line items) T (Ok ()) T' →
  shelf_step T T' (λ p, - demand items p)
  ∧ (∀ p, demand items p ≤ stock T p)
  ∧ (∀ item, item ∈ items → shelved T item).
Proof.
  revert T. induction items as [|item items IH]; intros T HT Hr; cbn [for_each] in Hr.
  - step_runs Hr. destruct Hr as [_ ->]. split_and!.
    + apply shelf_step_refl. intros p. by rewrite demand_nil.
    + intros p. rewrite demand_nil. by apply stock_nonneg.
    + intros item []%not_elem_of_nil.
  - step_runs Hr. destruct Hr as [([] & T1 & Hl & Hr)|(e & _ & [=])].
    pose proof (proj2 (runs_step _ _ _ _ Hl) HT) as HT1.
    apply reserve_line_ok in Hl as (Hs1 & Hle & Hsh); [|done].
    destruct (IH T1 HT1 Hr) as (Hs & Hd & Hshs). split_and!.
    + eapply shelf_step_trans; [exact Hs1|exact Hs|]. intros p. cbn.
      rewrite demand_cons. lia.
    + intros p. rewrite demand_cons. specialize (Hd p).
      rewrite (shelf_stock _ _ _ Hs1 p) in Hd. lia.
    + intros i [->|Hi]%elem_of_cons; [done|].
      apply (shelved_step _ _ _ _ Hs1). by apply Hshs.
Qed.

(** The reservation loop, when it stops: the first line that does not fit is named. *)
Lemma reserve_loop_err items T T' e :
  consistent T → (∀ item, item ∈ items → 0 < OrderItem_Quantity item) →
  runs (for_each reserve_line items) T (Err e) T' →
  opaque e = true
  ∨ ∃ pre item post, items = pre ++ item :: post
      ∧ e = InsufficientStockError (OrderItem_ProductID item)
      ∧ (∀ p, demand pre p ≤ stock T p)
      ∧ stock T (OrderItem_ProductID item) - demand pre (OrderItem_ProductID item)
        < OrderItem_Quantity item.
Proof.
  revert T. induction items as [|item items IH]; intros T HT Hq Hr; cbn [for_each] in Hr.
  - by step_runs Hr; destruct Hr.
  - step_runs Hr. destruct Hr as [([] & T1 & Hl & Hr)|(e' & Hl & [= <-])].
    + pose proof (proj2 (runs_step _ _ _ _ Hl) HT) as HT1.
      apply reserve_line_ok in Hl as (Hs1 & Hle & _); [|done].
      destruct (IH T1 HT1 ltac:(intros; apply Hq; by right) Hr)
        as [|(pre & i & post & -> & -> & Hpre & Hlt)]; [by left|right].
      exists (item :: pre), i, post. split_and!; [done|done| |].
      * intros p. rewrite demand_cons. specialize (Hpre p).
        rewrite (shelf_stock _ _ _ Hs1 p) in Hpre. lia.
      * rewrite demand_cons. rewrite (shelf_stock _ _ _ Hs1) in Hlt. lia.
    + apply reserve_line_err in Hl as [|[-> Hlt]]; [by left| |done|apply Hq; by left].
      right. exists [], item, items. split_and!; [done|done| |].
      * intros p. by apply stock_nonneg.
      * rewrite demand_nil. lia.
Qed.

(** The restock loop: the units of every line return to the shelf. *)
Lemma restock_loop_ok items T T' :
  consistent T → (∀ item, item ∈ items → shelved T item) →
  runs (for_each restock_line items) T (Ok ()) T' →
  shelf_step T T' (λ p, demand items p).
Proof.
  revert T. induction items as [|item items IH]; intros T HT Hsh Hr; cbn [for_each] in Hr.
  - step_runs Hr. destruct Hr as [_ ->]. by apply shelf_step_refl.
  - step_runs Hr. destruct Hr as [([] & T1 & Hl & Hr)|(e & _ & [=])].
    pose proof (proj2 (runs_step _ _ _ _ Hl) HT) as HT1.
    unfold restock_line in Hl. step_runs Hl.
    destruct Hl as [(n & T2 & Hs & Hl)|(e & _ & [=])]. step_runs Hs. step_runs Hl.
    destruct Hl as [_ ->], Hs as (now & _ & E & _).
    pose proof (update_shelf_step T T2 (OrderItem_ProductID item) _ _
      (OrderItem_Quantity item) E ltac:(intros; by bool_to_prop)
      ltac:(done) ltac:(done)) as Hs1.
    apply (shelf_step_trans T T2 T' _ (λ p, demand items p) _ Hs1).
    + apply IH; [done| |done]. intros i Hi. apply (shelved_step _ _ _ _ Hs1), Hsh. by right.
    + intros p. cbn. rewrite demand_cons. unfold line_units.
      destruct (Hsh item ltac:(left)) as (k & r & Hk & Hp).
      rewrite (countb_1 _ _ k r Hk); [destruct (_ =? p); lia|by apply Z.eqb_eq|].
      intros j s Hj Hs. bool_to_prop. destruct (decide (j = k)) as [|Hne]; [done|].
      pose proof (proj2 (HT _ inventory) j k s r Hj Hk Hne) as Hu. cbn in Hu.
      rewrite Hs, Hp, Z.eqb_refl in Hu. done.
Qed.
End loops.

(** ** CreateOrder *)

(** A line of order [oid] carries the product, the quantity and the price of the
    requested one: the price itself in the caller's struct, what NUMERIC(12,2) keeps of
    it in the stored row. *)
Definition same_line (oid : Z) (i s : OrderItem) : Prop :=
  OrderItem_OrderID s = oid ∧ OrderItem_ProductID s = OrderItem_ProductID i
  ∧ OrderItem_Quantity s = OrderItem_Quantity i
  ∧ OrderItem_PriceAtPurchase s = OrderItem_PriceAtPurchase i.
Definition stored_line `{Numeric} (oid : Z) (i s : OrderItem) : Prop :=
  OrderItem_OrderID s = oid ∧ OrderItem_ProductID s = OrderItem_ProductID i
  ∧ OrderItem_Quantity s = OrderItem_Quantity i
  ∧ numeric_12_2 (OrderItem_PriceAtPurchase i) = Some (OrderItem_PriceAtPurchase s).

(** What a committed [CreateOrder] did to the tables, and what it left in the structs
    of its caller. *)
Record placed `{Numeric} (T T' : Tables) (order : Order) (payment : Payment)
  (order' : Order) (payment' : Payment) : Prop := {
  placed_fresh : 0 < Order_ID order' ∧ Tables_orders T !! Order_ID order' = None;
  placed_order : ∃ stored, Tables_orders T' = <[Order_ID order' := stored]> (Tables_orders T)
    ∧ Order_ID stored = Order_ID order'
    ∧ Order_UserID stored = Order_UserID order ∧ Order_Status stored = Order_Status order
    ∧ numeric_12_2 (Order_TotalPrice order) = Some (Order_TotalPrice stored);
  placed_payment : ∃ stored, Tables_payments T !! Payment_ID payment' = None
    ∧ Tables_payments T' = <[Payment_ID payment' := stored]> (Tables_payments T)
    ∧ Payment_ID stored = Payment_ID payment'
    ∧ Payment_OrderID stored = Order_ID order'
    ∧ Payment_IdempotencyKey stored = Payment_IdempotencyKey payment
    ∧ Payment_Status stored = Payment_Status payment
    ∧ numeric_12_2 (Payment_Amount payment) = Some (Payment_Amount stored)
    ∧ Payment_ProviderTxnID stored = Payment_ProviderTxnID payment;
  placed_items : ∃ l, fresh_batch order_items l (Tables_order_items T)
    ∧ Tables_order_items T' = insert_rows order_items l (Tables_order_items T)
    ∧ Forall2 (stored_line (Order_ID order')) (Order_Items order) l;
  placed_shelf : ∀ p, stock T' p = stock T p - demand (Order_Items order) p;
  placed_fits : ∀ p, demand (Order_Items order) p ≤ stock T p;
  placed_products : ∀ k, Inventory_ProductID <$> Tables_inventory T' !! k
                         = Inventory_ProductID <$> Tables_inventory T !! k;
  placed_shelved : ∀ item, item ∈ Order_Items order → shelved T item;
  placed_rest : Tables_users T' = Tables_users T ∧ Tables_products T' = Tables_products T
    ∧ Tables_notifications T' = Tables_notifications T;
  placed_result : Order_UserID order' = Order_UserID order
    ∧ Order_Status order' = Order_Status order
    ∧ Order_TotalPrice order' = Order_TotalPrice order
    ∧ Forall2 (same_line (Order_ID order')) (Order_Items order) (Order_Items order');
  placed_paid : Payment_OrderID payment' = Order_ID order'
    ∧ Payment_IdempotencyKey payment' = Payment_IdempotencyKey payment
    ∧ Payment_Status payment' = Payment_Status payment
    ∧ Payment_Amount payment' = Payment_Amount payment;
}.

Section create_order.
Context `{Numeric}.

Lemma created_lines oid now ids items :
  length ids = length items →
  Forall2 (same_line oid) items
    (zip_with (row_set_id order_items) ids
       (row_stamp_created order_items now <$> (OrderItem_set_OrderID oid <$> items))).
Proof.
  revert ids. induction items as [|i items IH]; intros [|id ids] Hl; try done; cbn;
    constructor; [done|]. apply IH. by injection Hl.
Qed.

Lemma stored_lines oid items created stored :
  Forall2 (same_line oid) items created →
  Forall2 (λ c s, row_stored order_items c = Some s) created stored →
  Forall2 (stored_line oid) items stored.
Proof.
  intros H1. revert stored. induction H1 as [|i c items created (Ho & Hp & Hq & Hr) _ IH];
    intros stored H2; inversion H2 as [|? s ? l Hs Hl]; subst; constructor; [|by apply IH].
  cbn in Hs. rewrite Hr in Hs. unfold stored_line.
  destruct (numeric_12_2 _); [|done]. by injection Hs as <-.
Qed.

Lemma demand_lines oid items stored p :
  Forall2 (stored_line oid) items stored → demand stored p = demand items p.
Proof.
  induction 1 as [|i s items stored (_ & Hp & Hq & _) _ IH]; [done|].
  rewrite !demand_cons, IH. unfold line_units. by rewrite Hp, Hq.
Qed.

Lemma CreateOrder_tx_placed T T' order payment order' payment' :
  consistent T → runs (CreateOrder_tx order payment) T (Ok (order', payment')) T' →
  placed T T' order payment order' payment'.
Proof.
  intros HT Hr. unfold CreateOrder_tx in Hr. step_runs Hr.
  destruct Hr as [([] & T1 & Hloop & Hr)|(e & _ & [=])].
  apply reserve_loop_ok in Hloop as (Hshelf & Hfits & Hshelved); [|done].
  step_runs Hr. destruct Hr as [(r & T2 & Hins & Hr)|(e & _ & [=])].
  step_runs Hins. destruct Hins as (rb & [= <-] & Hins).
  destruct r as [order1|e]; [|destruct (errors_Is _ _); by destruct Hr].
  apply sem_create_ok in Hins
    as (now & oid & so & _ & Hpos & Hnone & -> & Hso & -> & _).
  step_runs Hr. destruct Hr as [(items' & T3 & Hitems & Hr)|(e & _ & [=])].
  step_runs Hitems.
  apply sem_create_all_ok in Hitems
    as (now2 & ids & stored & _ & Hlen & -> & Hstored & Hfresh & -> & _).
  step_runs Hr. destruct Hr as [(pay' & T4 & Hpay & Hr)|(e & _ & [=])].
  step_runs Hpay. step_runs Hr. destruct Hr as [[= -> ->] ->].
  apply sem_create_ok in Hpay
    as (now3 & pid & sp & _ & Hppos & Hpnone & -> & Hsp & -> & _).
  cbn in Hso, Hsp. destruct (numeric_12_2 (Order_TotalPrice order)) eqn:?; [|done].
  destruct (numeric_12_2 (Payment_Amount payment)) eqn:?; [|done].
  injection Hso as <-. injection Hsp as <-.
  rewrite length_fmap in Hlen. cbn in Hlen, Hstored, Hfresh.
  pose proof (created_lines oid now2 ids (Order_Items order) Hlen) as Hcl.
  destruct Hshelf as [Honly Hprods Hstock]. rewrite Honly in *. destruct T, T1; cbn in *.
  split; cbn.
  - done.
  - by eexists.
  - by eexists.
  - exists stored. split_and!; [done|done|]. by eapply stored_lines.
  - intros p. rewrite <- Z.add_opp_r. apply Hstock.
  - done.
  - done.
  - done.
  - done.
  - done.
  - done.
Qed.
End create_order.

(** ** CreateOrder keeps the ledger and conserves units *)
Section placed_ledger.
Context `{Numeric} {T T' : Tables} {order order' : Order} {payment payment' : Payment}.
Hypothesis Hplaced : placed T T' order payment order' payment'.
Hypothesis Hconsistent : consistent T.
Hypothesis Hpending : Order_Status order = OrderStatusPending.

Lemma placed_live o :
  live T' o = if decide (o = Order_ID order') then true else live T o.
Proof.
  destruct (placed_order _ _ _ _ _ _ Hplaced) as (so & HO & _ & _ & Hst & _).
  unfold live. rewrite HO. case_decide as E.
  - subst o. by rewrite lookup_insert_eq, Hst, Hpending.
  - by rewrite lookup_insert_ne.
Qed.

(** Lines stored before the order belong to other orders. *)
Lemma old_line_other k i :
  Tables_order_items T !! k = Some i → OrderItem_OrderID i ≠ Order_ID order'.
Proof.
  intros Hk E. destruct (proj1 (Hconsistent _ order_items) k i Hk) as (_ & _ & Hrefs).
  cbn in Hrefs. bool_to_prop. rewrite E in *.
  destruct (placed_fresh _ _ _ _ _ _ Hplaced) as [_ Hnone].
  match goal with H : exists_row orders _ _ = true |- _ =>
    apply exists_row_iff in H; cbn in H; rewrite Hnone in H; by destruct H end.
Qed.

Lemma placed_reserved p : reserved T' p = reserved T p + demand (Order_Items order) p.
Proof.
  destruct (placed_items _ _ _ _ _ _ Hplaced) as (l & Hfresh & HI & Hl).
  unfold reserved. rewrite HI, msum_insert_rows by done.
  rewrite Z.add_comm. f_equal.
  - apply msum_ext. intros k i Hk. rewrite placed_live.
    by rewrite decide_False by (by eapply old_line_other).
  - rewrite <- (demand_lines _ _ _ p Hl). apply lsum_ext. intros s Hs.
    rewrite placed_live. apply list_elem_of_lookup in Hs as [j Hj].
    destruct (Forall2_lookup_r _ _ _ _ _ Hl Hj) as (i & _ & Ho & _).
    rewrite decide_True by done. by rewrite andb_true_r.
Qed.

Lemma placed_conserves p : stock T' p + reserved T' p = stock T p + reserved T p.
Proof. rewrite placed_reserved, (placed_shelf _ _ _ _ _ _ Hplaced). lia. Qed.

Hypothesis Hpay : Payment_Status payment = PaymentStatusPending.
Hypothesis Hledger : ledger_ok T.
Hypothesis Hconsistent' : consistent T'.

(** Old payments belong to other orders. *)
Lemma old_payment_other k p :
  Tables_payments T !! k = Some p → Payment_OrderID p ≠ Order_ID order'.
Proof.
  intros Hk E. destruct (ok_in_step T Hledger k p Hk) as (o & Ho & _).
  rewrite E, (proj2 (placed_fresh _ _ _ _ _ _ Hplaced)) in Ho. done.
Qed.

Lemma placed_keeps_shelved item : shelved T item → shelved T' item.
Proof.
  intros (k & r & Hk & Hp). pose proof (placed_products _ _ _ _ _ _ Hplaced k) as E.
  rewrite Hk in E. cbn in E. unfold shelved.
  destruct (Tables_inventory T' !! k) as [r'|] eqn:Ek; [|done].
  injection E as E. exists k, r'. split; [done|congruence].
Qed.

Lemma placed_ledger_ok : ledger_ok T'.
Proof.
  destruct (placed_order _ _ _ _ _ _ Hplaced) as (so & HO & _ & _ & Hso & _).
  destruct (placed_payment _ _ _ _ _ _ Hplaced) as (sp & Hpnone & HP & _ & Hoid & _ & Hsp & _).
  destruct (placed_items _ _ _ _ _ _ Hplaced) as (l & Hfresh & HI & Hl).
  split.
  - done.
  - intros o r Ho. rewrite HO in Ho. rewrite HP.
    apply lookup_insert_Some in Ho as [[<- <-]|[Hne Ho]].
    + exists (Payment_ID payment'), sp. by rewrite lookup_insert_eq.
    + destruct (ok_paid_for T Hledger o r Ho) as (k & p & Hk & Hp). exists k, p.
      rewrite lookup_insert_ne by congruence. done.
  - intros k1 k2 p1 p2. rewrite HP.
    intros [[<- <-]|[N1 H1]]%lookup_insert_Some [[<- <-]|[N2 H2]]%lookup_insert_Some E;
      [done| | |by apply (ok_one_payment T Hledger _ _ _ _ H1 H2)].
    + destruct (old_payment_other _ _ H2). congruence.
    + destruct (old_payment_other _ _ H1). congruence.
  - intros k p. rewrite HP, HO. intros [[<- <-]|[Hne Hk]]%lookup_insert_Some.
    + rewrite Hoid, lookup_insert_eq. exists so. by rewrite Hso, Hpending, Hsp, Hpay.
    + destruct (ok_in_step T Hledger k p Hk) as (o & Ho & Hs). exists o.
      split; [|done]. rewrite lookup_insert_ne; [done|].
      intros E. by apply (old_payment_other _ _ Hk).
  - intros k i. rewrite HI, lookup_insert_rows by done. intros [Hk|[Hi _]].
    + apply placed_keeps_shelved. by apply (ok_stocked T Hledger k).
    + apply list_elem_of_lookup in Hi as [j Hj].
      destruct (Forall2_lookup_r _ _ _ _ _ Hl Hj) as (i0 & Hi0 & _ & Hp & _).
      apply list_elem_of_lookup_2 in Hi0.
      destruct (placed_keeps_shelved _ (placed_shelved _ _ _ _ _ _ Hplaced i0 Hi0))
        as (k' & r & Hk' & Hr).
      exists k', r. split; [done|congruence].
Qed.
End placed_ledger.

(** ** The two terminal transitions *)

(** [payment] is a copy of a row read earlier: identity, order and key do not change. *)
Definition snapshot (T : Tables) (payment : Payment) : Prop :=
  ∃ p, Tables_payments T !! Payment_ID payment = Some p
       ∧ Payment_OrderID p = Payment_OrderID payment
       ∧ Payment_IdempotencyKey p = Payment_IdempotencyKey payment.

(** Units of product [p] in the stored lines of order [o]. *)
Definition held (T : Tables) (o p : Z) : Z :=
  msum (λ i, if (OrderItem_ProductID i =? p) && (OrderItem_OrderID i =? o)
             then OrderItem_Quantity i else 0) (Tables_order_items T).
Arguments held : simpl never.

(** What a committed transition of [payment] to ([os], [ps]) did to the tables. *)
Record settled (T T' : Tables) (payment : Payment) (os : OrderStatus) (ps : PaymentStatus)
  (txn : option string → option string) (delta : Z → Z) : Prop := {
  settled_payment : ∃ p now, Tables_payments T !! Payment_ID payment = Some p
    ∧ Payment_Status p = PaymentStatusPending
    ∧ Tables_payments T' = <[Payment_ID payment :=
        Payment_set_Status ps (txn (Payment_ProviderTxnID p)) now p]> (Tables_payments T);
  settled_order : ∃ o now, Tables_orders T !! Payment_OrderID payment = Some o
    ∧ Order_Status o = OrderStatusPending
    ∧ Tables_orders T' = <[Payment_OrderID payment := Order_set_Status os now o]>
                           (Tables_orders T);
  settled_items : Tables_order_items T' = Tables_order_items T;
  settled_products : ∀ k, Inventory_ProductID <$> Tables_inventory T' !! k
                          = Inventory_ProductID <$> Tables_inventory T !! k;
  settled_shelf : ∀ p, stock T' p = stock T p + delta p;
}.

(** The payment is no longer pending: nothing to do. *)
Definition finalized (T : Tables) (payment : Payment) : Prop :=
  ∃ p, Tables_payments T !! Payment_ID payment = Some p
       ∧ Payment_Status p ≠ PaymentStatusPending.

Section transitions.
Context `{Numeric} {T : Tables} {payment : Payment}.
Hypothesis Hledger : ledger_ok T.
Hypothesis Hsnap : snapshot T payment.

(** The guarded UPDATE of the payment: one row exactly when it is still pending. *)
Lemma payment_guard set_ n T1 :
  sem (Exec payments set_ (pending_payment payment)) T (Ok n) T1 →
  (n = 1 ∧ ∃ p now, Tables_payments T !! Payment_ID payment = Some p
     ∧ Payment_Status p = PaymentStatusPending
     ∧ Payment_OrderID p = Payment_OrderID payment
     ∧ T1 = set_rows payments (<[Payment_ID payment := set_ now p]> (Tables_payments T)) T)
  ∨ (n = 0 ∧ T1 = T ∧ finalized T payment).
Proof.
  intros (now & -> & -> & _). destruct Hsnap as (p & Hp & Ho & _).
  destruct (update_by_id payments T (pending_payment payment) (set_ now) _ p
    (ok_consistent T Hledger _ payments)
    ltac:(intros r Hr; unfold pending_payment in Hr; bool_to_prop; done) Hp) as [-> ->].
  destruct (proj1 (ok_consistent T Hledger _ payments) _ p Hp) as (Hid & _).
  cbn in Hid. unfold pending_payment. rewrite Hid, Z.eqb_refl. cbn [andb].
  case_bool_decide as E; [left|right].
  - split; [done|]. by exists p, now.
  - split; [done|]. split; [by destruct T|by exists p].
Qed.

(** The UPDATE of the order, issued after the payment's: the order is still pending. *)
Lemma order_guard set_ n T1 T2 p :
  Tables_payments T !! Payment_ID payment = Some p →
  Payment_Status p = PaymentStatusPending →
  consistent T1 → Tables_orders T1 = Tables_orders T →
  sem (Exec orders set_ (pending_order payment)) T1 (Ok n) T2 →
  ∃ o now, Tables_orders T !! Payment_OrderID payment = Some o
    ∧ Order_Status o = OrderStatusPending
    ∧ T2 = set_rows orders (<[Payment_OrderID payment := set_ now o]> (Tables_orders T)) T1.
Proof.
  intros Hp Hs HT1 HO (now & _ & -> & _). destruct Hsnap as (p' & Hp' & Ho & _).
  replace p' with p in Ho by congruence.
  destruct (ok_in_step T Hledger _ p Hp) as (o & Hord & Hst).
  rewrite Ho in Hord. rewrite Hs in Hst. exists o, now.
  assert (Order_Status o = OrderStatusPending) as Hopen by by destruct (Order_Status o).
  rewrite <- HO in Hord |- *.
  destruct (update_by_id orders T1 (pending_order payment) (set_ now) _ o
    (HT1 _ orders)
    ltac:(intros r Hr; unfold pending_order in Hr; bool_to_prop; done) Hord) as [_ ->].
  destruct (proj1 (HT1 _ orders) _ o Hord) as (Hid & _). cbn in Hid.
  unfold pending_order. by rewrite Hid, Z.eqb_refl, Hopen.
Qed.

Lemma MarkPaidAndConfirm_tx_ok txnID b T' :
  runs (MarkPaidAndConfirm_tx payment txnID) T (Ok b) T' →
  if b then settled T T' payment OrderStatusConfirmed PaymentStatusPaid
              (λ _, Some txnID) (λ _, 0)
  else T' = T ∧ finalized T payment.
Proof.
  intros Hr. unfold MarkPaidAndConfirm_tx in Hr. step_runs Hr.
  destruct Hr as [(n & T1 & Hpay & Hr)|(e & _ & [=])]. step_runs Hpay.
  pose proof (proj2 (sem_step _ _ _ _ Hpay) (ok_consistent T Hledger)) as HT1.
  apply payment_guard in Hpay as [(-> & p & now & Hp & Hs & Ho & ->)|(-> & -> & Hf)];
    cbn [Z.eqb Pos.eqb negb] in Hr; [|by step_runs Hr; destruct Hr as [[= ->] ->]].
  step_runs Hr. destruct Hr as [(m & T2 & Hord & Hr)|(e & _ & [=])]. step_runs Hord.
  step_runs Hr. destruct Hr as [[= ->] ->].
  apply (order_guard _ _ _ _ p Hp Hs HT1) in Hord as (o & now2 & Hord & Hos & ->);
    [|by destruct T].
  clear HT1. destruct T; cbn in *. split; cbn; try done.
  - by exists p, now.
  - by exists o, now2.
  - intros q. unfold stock. cbn. lia.
Qed.

Lemma demand_matching o p :
  demand (matching (λ i, OrderItem_OrderID i =? o) (Tables_order_items T)) p = held T o p.
Proof.
  unfold demand. rewrite lsum_matching. apply msum_ext. intros k i _.
  by destruct (OrderItem_OrderID i =? o), (OrderItem_ProductID i =? p).
Qed.

Lemma FailCancelAndRestock_tx_ok b T' :
  runs (FailCancelAndRestock_tx payment) T (Ok b) T' →
  if b then settled T T' payment OrderStatusCancelled PaymentStatusFailed
              id (held T (Payment_OrderID payment))
  else T' = T ∧ finalized T payment.
Proof.
  intros Hr. unfold FailCancelAndRestock_tx in Hr. step_runs Hr.
  destruct Hr as [(n & T1 & Hpay & Hr)|(e & _ & [=])]. step_runs Hpay.
  pose proof (proj2 (sem_step _ _ _ _ Hpay) (ok_consistent T Hledger)) as HT1.
  apply payment_guard in Hpay as [(-> & p & now & Hp & Hs & Ho & ->)|(-> & -> & Hf)];
    cbn [Z.eqb Pos.eqb negb] in Hr; [|by step_runs Hr; destruct Hr as [[= ->] ->]].
  step_runs Hr. destruct Hr as [(m & T2 & Hord & Hr)|(e & _ & [=])]. step_runs Hord.
  pose proof (proj2 (sem_step _ _ _ _ Hord) HT1) as HT2.
  apply (order_guard _ _ _ _ p Hp Hs HT1) in Hord as (o & now2 & Hord & Hos & E2);
    [|by destruct T].
  step_runs Hr. destruct Hr as [(items & T3 & Hfind & Hr)|(e & _ & [=])].
  step_runs Hfind. destruct Hfind as (-> & all & Hperm & _ & ->).
  step_runs Hr. destruct Hr as [([] & T4 & Hloop & Hr)|(e & _ & [=])].
  step_runs Hr. destruct Hr as [[= ->] ->].
  change (limit_rows (-1) (offset_rows 0 all)) with all in Hloop.
  apply restock_loop_ok in Hloop as [Honly Hprods Hstock]; [|done|].
  - assert (∀ q, demand all q = held T (Payment_OrderID payment) q) as Hheld.
    { intros q. rewrite <- demand_matching. apply lsum_perm. subst T2.
      rewrite Hperm. by destruct T. }
    subst T2. clear HT1 HT2 Hperm. rewrite Honly. destruct T, T4; cbn in *.
    split; cbn; try done.
    + by exists p, now.
    + by exists o, now2.
    + intros q. rewrite <- Hheld. apply Hstock.
  - intros i Hi. rewrite Hperm in Hi. apply elem_of_matching in Hi as [_ [k Hk]].
    subst T2. destruct T; cbn in *.
    destruct (ok_stocked _ Hledger k i Hk) as (j & r & Hj & Hr). by exists j, r.
Qed.
End transitions.

(** ** Terminal transitions keep the ledger and conserve units *)
Section settled_ledger.
Context {T T' : Tables} {payment : Payment} {os : OrderStatus} {ps : PaymentStatus}.
Context {txn : option string → option string} {delta : Z → Z}.
Hypothesis Hsettled : settled T T' payment os ps txn delta.
Hypothesis Hledger : ledger_ok T.
Hypothesis Hsnap : snapshot T payment.

Lemma settled_live o :
  live T' o = if decide (o = Payment_OrderID payment)
              then negb (bool_decide (os = OrderStatusCancelled)) else live T o.
Proof.
  destruct (settled_order _ _ _ _ _ _ _ Hsettled) as (r & now & Hr & _ & HO).
  unfold live. rewrite HO. case_decide as E.
  - subst o. by rewrite lookup_insert_eq.
  - by rewrite lookup_insert_ne.
Qed.

Lemma settled_was_live : live T (Payment_OrderID payment) = true.
Proof.
  destruct (settled_order _ _ _ _ _ _ _ Hsettled) as (r & now & Hr & Hs & _).
  unfold live. by rewrite Hr, Hs.
Qed.

(** Cancelling releases exactly the units the order held; confirming releases none. *)
Lemma settled_reserved p :
  reserved T' p = reserved T p
    - (if decide (os = OrderStatusCancelled) then held T (Payment_OrderID payment) p else 0).
Proof.
  enough (reserved T p = reserved T' p + (if decide (os = OrderStatusCancelled)
            then held T (Payment_OrderID payment) p else 0)) by lia.
  unfold reserved, held. rewrite (settled_items _ _ _ _ _ _ _ Hsettled). case_decide as Eos.
  - rewrite <- msum_add. apply msum_ext. intros k i _. rewrite settled_live.
    case_decide as Eo.
    + rewrite Eo, Z.eqb_refl, settled_was_live, bool_decide_eq_true_2 by done.
      cbn. rewrite !andb_true_r, andb_false_r. destruct (_ =? _); lia.
    + rewrite (proj2 (Z.eqb_neq _ _) Eo), andb_false_r. lia.
  - rewrite Z.add_0_r. apply msum_ext. intros k i _. rewrite settled_live.
    case_decide as Eo; [|done].
    by rewrite Eo, settled_was_live, bool_decide_eq_false_2.
Qed.

Lemma settled_ledger_ok : consistent T' → in_step os ps = true → ledger_ok T'.
Proof.
  intros HT' Hstep.
  destruct (settled_payment _ _ _ _ _ _ _ Hsettled) as (p & now & Hp & Hps & HP).
  destruct (settled_order _ _ _ _ _ _ _ Hsettled) as (o & now2 & Ho & Hos & HO).
  destruct Hsnap as (p' & Hp' & Hpo & _). replace p' with p in Hpo by congruence.
  split; [done|..].
  - intros oid r Hr. rewrite HO in Hr.
    assert (is_Some (Tables_orders T !! oid)) as [r0 Hr0].
    { apply lookup_insert_Some in Hr as [[<- _]|[_ Hr]]; by eexists. }
    destruct (ok_paid_for T Hledger oid r0 Hr0) as (k & q & Hk & Hq). rewrite HP.
    destruct (decide (k = Payment_ID payment)) as [->|Hne].
    + eexists _, _. rewrite lookup_insert_eq. split; [done|]. cbn. congruence.
    + exists k, q. by rewrite lookup_insert_ne.
  - intros k1 k2 p1 p2. rewrite HP.
    intros [[<- <-]|[N1 H1]]%lookup_insert_Some [[<- <-]|[N2 H2]]%lookup_insert_Some E;
      try done; cbn in E; eapply (ok_one_payment T Hledger); eauto; congruence.
  - intros k q. rewrite HP, HO. intros [[<- <-]|[Hne Hk]]%lookup_insert_Some.
    + cbn. rewrite Hpo, lookup_insert_eq. eexists. split; [done|]. done.
    + destruct (ok_in_step T Hledger k q Hk) as (r & Hr & Hst). exists r.
      split; [|done]. rewrite lookup_insert_ne; [done|]. intros E.
      apply Hne. eapply (ok_one_payment T Hledger); [done..|]. congruence.
  - intros k i. rewrite (settled_items _ _ _ _ _ _ _ Hsettled). intros Hk.
    destruct (ok_stocked T Hledger k i Hk) as (j & r & Hj & Hr).
    pose proof (settled_products _ _ _ _ _ _ _ Hsettled j) as E. rewrite Hj in E.
    cbn in E. destruct (Tables_inventory T' !! j) as [r'|] eqn:Ej; [|done].
    injection E as E. exists j, r'. split; [done|congruence].
Qed.
End settled_ledger.

(** The payment has reached ([os], [ps]) and its order with it. *)
Definition at_rest (T : Tables) (payment : Payment) (os : OrderStatus) (ps : PaymentStatus)
  : Prop :=
  (∃ p, Tables_payments T !! Payment_ID payment = Some p ∧ Payment_Status p = ps
        ∧ Payment_OrderID p = Payment_OrderID payment)
  ∧ (∃ o, Tables_orders T !! Payment_OrderID payment = Some o ∧ Order_Status o = os).

Lemma settled_at_rest T T' payment os ps txn delta :
  snapshot T payment → settled T T' payment os ps txn delta → at_rest T' payment os ps.
Proof.
  intros (p' & Hp' & Hpo & _) Hs.
  destruct (settled_payment _ _ _ _ _ _ _ Hs) as (p & now & Hp & _ & HP).
  destruct (settled_order _ _ _ _ _ _ _ Hs) as (o & now2 & Ho & _ & HO).
  replace p' with p in Hpo by congruence.
  split; [rewrite HP|rewrite HO]; eexists; rewrite lookup_insert_eq; done.
Qed.

(** ** The errors of CreateOrder *)
Section create_errors.
Context `{Numeric}.

(** The refused line: the earlier lines fit, this one does not. *)
Definition first_shortage (T : Tables) (items : list OrderItem) (p : Z) : Prop :=
  ∃ pre item post, items = pre ++ item :: post ∧ OrderItem_ProductID item = p
    ∧ (∀ q, demand pre q ≤ stock T q)
    ∧ stock T p - demand pre p < OrderItem_Quantity item.

Lemma shelved_product_exists T item :
  consistent T → shelved T item → exists_row products T (OrderItem_ProductID item) = true.
Proof.
  intros HT (k & r & Hk & <-). destruct (proj1 (HT _ inventory) k r Hk) as (_ & _ & Hr).
  done.
Qed.

Lemma shelf_step_frame T T' delta :
  shelf_step T T' delta →
  (∀ id, exists_row users T' id = exists_row users T id)
  ∧ (∀ id, exists_row products T' id = exists_row products T id).
Proof. intros [E _ _]. rewrite E. by destruct T. Qed.

Lemma sem_create_all_err {R} (t : table R) batch T e T' :
  sem_create_all t batch T (Err e) T' →
  (∀ row, row ∈ batch → row_refs t T row = true) → opaque e = true.
Proof.
  intros [_ [Ho|(_ & row & Hin & Hf)]] Hrefs; [done|]. rewrite Hrefs in Hf; done.
Qed.

(** Every error of the body is opaque, or one the service and the handler recognise. *)
Lemma CreateOrder_tx_err T T' order payment e :
  consistent T → (∀ item, item ∈ Order_Items order → 0 < OrderItem_Quantity item) →
  runs (CreateOrder_tx order payment) T (Err e) T' →
  opaque e = true
  ∨ (e = ErrUserNotFound ∧ exists_row users T (Order_UserID order) = false)
  ∨ (∃ p, e = InsufficientStockError p ∧ first_shortage T (Order_Items order) p).
Proof.
  intros HT Hq Hr. unfold CreateOrder_tx in Hr. step_runs Hr.
  destruct Hr as [([] & T1 & Hloop & Hr)|(e' & Hloop & [= <-])].
  2: { apply reserve_loop_err in Hloop as [|(pre & i & post & Hi & -> & Hpre & Hlt)];
         [by left| |done..].
       right. right. exists (OrderItem_ProductID i). split; [done|]. by exists pre, i, post. }
  pose proof (proj2 (runs_step _ _ _ _ Hloop) HT) as HT1.
  apply reserve_loop_ok in Hloop as (Hshelf & _ & Hsh); [|done].
  destruct (shelf_step_frame _ _ _ Hshelf) as [Husers _].
  step_runs Hr. destruct Hr as [(r & T2 & Hins & Hr)|(e' & Hins & _)];
    step_runs Hins; destruct Hins as (rb & Erb & Hins); [injection Erb as <-|done].
  destruct r as [order1|e1].
  - left. pose proof (sem_step _ _ _ _ Hins) as [Hg Hc]. specialize (Hc HT1).
    apply sem_create_ok in Hins as (now & oid & so & _ & _ & _ & -> & Hso & -> & _).
    set (T2 := set_rows orders _ T1) in *.
    assert (exists_row orders T2 oid = true) as Hoid.
    { apply exists_row_iff. unfold T2. rewrite rows_set_rows, lookup_insert_eq. by eexists. }
    step_runs Hr. destruct Hr as [(items' & T3 & Hitems & Hr)|(e2 & Hitems & [= <-])];
      step_runs Hitems.
    + step_runs Hr. destruct Hr as [(p' & T4 & _ & Hr)|(e2 & Hpay & [= <-])];
        [by step_runs Hr; destruct Hr|].
      step_runs Hpay. eapply sem_create_all_err; [exact Hpay|].
      intros row ->%list_elem_of_singleton. cbn.
      by apply (proj1 (sem_step _ _ _ _ Hitems)).
    + eapply sem_create_all_err; [exact Hitems|].
      intros row (i & -> & Hi)%list_elem_of_fmap. cbn. rewrite Hoid. cbn.
      apply Hg, (shelved_product_exists T1 i); [done|].
      by apply (shelved_step _ _ _ _ Hshelf), Hsh.
  - destruct Hins as [-> [Ho|[-> (row & Hin & Hf)]]].
    + rewrite opaque_not_Is in Hr by done. destruct Hr as [[= ->] _]. by left.
    + cbn in Hr. destruct Hr as [[= ->] _]. right. left. split; [done|].
      apply list_elem_of_singleton in Hin as ->. cbn in Hf. by rewrite <- Husers.
Qed.
End create_errors.

(** What a failed CreateOrder can have done, the lost COMMIT acknowledgement included. *)
Lemma CreateOrder_failure `{Numeric} T T' order payment e :
  consistent T → (∀ item, item ∈ Order_Items order → 0 < OrderItem_Quantity item) →
  tx_outcome (CreateOrder_tx order payment) T (Err e) T' →
  (∃ p, e = InsufficientStockError p ∧ first_shortage T (Order_Items order) p ∧ T' = T)
  ∨ (e = ErrUserNotFound ∧ exists_row users T (Order_UserID order) = false ∧ T' = T)
  ∨ (opaque e = true ∧ (T' = T ∨ ∃ order' payment', placed T T' order payment order' payment')).
Proof.
  intros Hc Hq [[Hv [Ho|[T1 Hr]]]|[Ho ([order' payment'] & Hr)]].
  - right. right. auto.
  - apply CreateOrder_tx_err in Hr as [Ho|[[-> Hu]|(p & -> & Hs)]]; [|right; by left|left|done..].
    + right. right. auto.
    + by exists p.
  - right. right. split; [done|]. right. exists order', payment'. by apply CreateOrder_tx_placed.
Qed.

(** Every committed CreateOrder leaves a ledger that is in order. *)
Lemma CreateOrder_ledger_ok `{Numeric} T T' order payment order' payment' :
  ledger_ok T → Order_Status order = OrderStatusPending →
  Payment_Status payment = PaymentStatusPending →
  runs (CreateOrder_tx order payment) T (Ok (order', payment')) T' →
  ledger_ok T' ∧ snapshot T' payment'.
Proof.
  intros HT Ho Hp Hr. pose proof (ok_consistent T HT) as Hc.
  pose proof (CreateOrder_tx_placed _ _ _ _ _ _ Hc Hr) as Hpl.
  split.
  - apply (placed_ledger_ok Hpl); auto. by apply (runs_step _ _ _ _ Hr).
  - destruct (placed_payment _ _ _ _ _ _ Hpl) as (sp & _ & HP & _ & Ho' & Hk & _).
    destruct (placed_paid _ _ _ _ _ _ Hpl) as (Eo & Ek & _).
    exists sp. rewrite HP, lookup_insert_eq. split_and!; [done|congruence|congruence].
Qed.
