(* ===== verification/LedgerSpec.v ===== *)
(** * Properties of the order repository

    The contract of [OrderRepository], for the implementation on any lawful engine:
    what each method returns and does to the tables, errors and lost COMMIT
    acknowledgements included. Each statement comes with a concrete run. *)

From Stdlib Require Import ZArith Lia.
From stdpp Require Import base tactics list gmap strings.
From S2P Require Import Prelude GoStd Errors Models Database RefDb OrderRepository Ledger.

Open Scope Z_scope.

(** ** A concrete order on the demonstration shop *)
Definition demo_order : Order :=
  mkOrder 0 1 OrderStatusPending (price_of 170)
    [mkOrderItem 0 0 10 2 (price_of 25); mkOrderItem 0 0 20 1 (price_of 120)] 0 0.
Definition demo_payment : Payment :=
  mkPayment 0 0 "key-1" PaymentStatusPending (price_of 170) None 0 0.

(** The order with its lines multiplied: more than the shelf holds. *)
Definition demo_greedy : Order :=
  Order_set_Items [mkOrderItem 0 0 10 2 (price_of 25); mkOrderItem 0 0 20 9 (price_of 120)]
    demo_order.

(** Values of a successful call, with a default. *)
Definition ok_or {A} (default : A) (r : res A) : A :=
  match r with Ok a => a | Err _ => default end.

Definition demo_created : res (Order * Payment) * RefDb :=
  repo_CreateOrder demo_order demo_payment demo.
Definition demo_row : Payment := (ok_or (demo_order, demo_payment) demo_created.1).2.

Lemma demo_ledger_ok : ledger_ok (view demo).
Proof.
  split; [apply demo_consistent|..]; cbn; intros *; rewrite lookup_empty; done.
Qed.

Lemma demo_created_runs :
  runs (CreateOrder_tx demo_order demo_payment) (view demo) demo_created.1 (view demo_created.2).
Proof.
  apply tx_outcome_ok; [evaluate|].
  exact (Transaction_outcome (CreateOrder_tx demo_order demo_payment) demo
    demo_created.1 demo_created.2 (surjective_pairing _)).
Qed.

Lemma demo_created_ok :
  ledger_ok (view demo_created.2) ∧ snapshot (view demo_created.2) demo_row.
Proof.
  pose proof demo_created_runs as Hr. unfold demo_row.
  assert (is_ok demo_created.1 = true) as Hok by evaluate.
  set (r := demo_created.1) in *. clearbody r. destruct r as [[o p]|e]; [|done].
  by apply (CreateOrder_ledger_ok _ _ _ _ _ _ demo_ledger_ok) in Hr.
Qed.

Section contract.
Context `{LawfulDb D}.
Implicit Types (d : D) (T : Tables).

(** C1. No oversell. When [CreateOrder] returns nil, every product's total demand was
    on the shelf, exactly that many units left it, and the order with its total, its
    lines (product, quantity, price at purchase) and its payment (key, status, amount)
    were stored under fresh ids, each price as NUMERIC(12,2) keeps it; users, products
    and notifications are as before, the structs given back carry the new ids, and every
    table still satisfies its constraints. *)
Theorem CreateOrder_reserves d order payment order' payment' d' :
  consistent (view d) →
  repo_CreateOrder order payment d = (Ok (order', payment'), d') →
  placed (view d) (view d') order payment order' payment' ∧ consistent (view d')
  ∧ ∀ p, 0 ≤ stock (view d') p.
Proof.
  intros Hc Hr. apply Transaction_outcome in Hr. cbn in Hr.
  pose proof (proj2 (runs_step _ _ _ _ Hr) Hc) as Hc'.
  split_and!; [by apply CreateOrder_tx_placed|done|intros p; by apply stock_nonneg].
Qed.

(** C2. [CreateOrder] fails cleanly. "Insufficient stock for p" names the first line
    that does not fit and "user not found" a missing user, and both leave the tables
    as they were; any other error is opaque and either changed nothing or is a lost
    COMMIT acknowledgement of a complete order. No half-written order exists. *)
Theorem CreateOrder_fails_cleanly d order payment e d' :
  consistent (view d) →
  (∀ item, item ∈ Order_Items order → 0 < OrderItem_Quantity item) →
  repo_CreateOrder order payment d = (Err e, d') →
  (∃ p, e = InsufficientStockError p ∧ first_shortage (view d) (Order_Items order) p
        ∧ view d' = view d)
  ∨ (e = ErrUserNotFound ∧ exists_row users (view d) (Order_UserID order) = false
     ∧ view d' = view d)
  ∨ (opaque e = true ∧ (view d' = view d ∨ ∃ order' payment',
       placed (view d) (view d') order payment order' payment')).
Proof.
  intros Hc Hq Hr. apply Transaction_outcome in Hr. by apply CreateOrder_failure in Hr.
Qed.

(** C3. [MarkPaidAndConfirm] takes a pending payment to paid and its order from pending
    to confirmed, records the transaction id and moves no stock; [false] means the
    payment had been finalized and nothing changed. *)
Theorem MarkPaidAndConfirm_exact d payment txnID r d' :
  ledger_ok (view d) → snapshot (view d) payment →
  MarkPaidAndConfirm payment txnID d = (r, d') →
  match r with
  | Ok true => settled (view d) (view d') payment OrderStatusConfirmed PaymentStatusPaid
                 (λ _, Some txnID) (λ _, 0)
  | Ok false => view d' = view d ∧ finalized (view d) payment
  | Err e => view d' = view d
             ∨ settled (view d) (view d') payment OrderStatusConfirmed PaymentStatusPaid
                 (λ _, Some txnID) (λ _, 0)
  end.
Proof.
  intros Hl Hs Hr. apply Transaction_outcome in Hr. destruct r as [b|e]; cbn in Hr.
  - by apply MarkPaidAndConfirm_tx_ok in Hr.
  - destruct Hr as [[Hv _]|[_ (b & Hr)]]; [by left|].
    apply MarkPaidAndConfirm_tx_ok in Hr; [|done..]. destruct b; [by right|left; apply Hr].
Qed.

(** C4. [FailCancelAndRestock] takes a pending payment to failed and its order from
    pending to cancelled, and returns to the shelf exactly the units the order held,
    product by product; [false] means nothing was left to do and nothing changed. *)
Theorem FailCancelAndRestock_exact d payment r d' :
  ledger_ok (view d) → snapshot (view d) payment →
  FailCancelAndRestock payment d = (r, d') →
  match r with
  | Ok true => settled (view d) (view d') payment OrderStatusCancelled PaymentStatusFailed
                 id (held (view d) (Payment_OrderID payment))
  | Ok false => view d' = view d ∧ finalized (view d) payment
  | Err e => view d' = view d
             ∨ settled (view d) (view d') payment OrderStatusCancelled PaymentStatusFailed
                 id (held (view d) (Payment_OrderID payment))
  end.
Proof.
  intros Hl Hs Hr. apply Transaction_outcome in Hr. destruct r as [b|e]; cbn in Hr.
  - by apply FailCancelAndRestock_tx_ok in Hr.
  - destruct Hr as [[Hv _]|[_ (b & Hr)]]; [by left|].
    apply FailCancelAndRestock_tx_ok in Hr; [|done..]. destruct b; [by right|left; apply Hr].
Qed.
End contract.

(** ** Witnesses *)
Definition demo_paid : res bool * RefDb := MarkPaidAndConfirm demo_row "txn-1" demo_created.2.
Definition demo_cancelled : res bool * RefDb := FailCancelAndRestock demo_row demo_created.2.

Lemma CreateOrder_reserves_witness :
  (stock (view demo) 10, stock (view demo) 20) = (5, 3)
  ∧ (stock (view demo_created.2) 10, stock (view demo_created.2) 20) = (3, 2)
  ∧ ∃ order' payment', placed (view demo) (view demo_created.2) demo_order demo_payment
                         order' payment'.
Proof.
  split; [evaluate|]. split; [evaluate|].
  exists (ok_or (demo_order, demo_payment) demo_created.1).1,
    (ok_or (demo_order, demo_payment) demo_created.1).2.
  apply (CreateOrder_reserves demo demo_order demo_payment _ _ demo_created.2);
    [apply demo_consistent|evaluate].
Defined.

Lemma CreateOrder_fails_cleanly_witness :
  ∃ e, (repo_CreateOrder demo_greedy demo_payment demo).1 = Err e
       ∧ e = InsufficientStockError 20
       ∧ view (repo_CreateOrder demo_greedy demo_payment demo).2 = view demo.
Proof.
  exists (InsufficientStockError 20). split; [evaluate|]. split; [done|].
  destruct (CreateOrder_fails_cleanly demo demo_greedy demo_payment (InsufficientStockError 20)
    (repo_CreateOrder demo_greedy demo_payment demo).2) as [(p & [= <-] & _ & Hv)|[[]|[[=] _]]];
    [apply demo_consistent| |evaluate|exact Hv|done].
  intros item [->|[->|[]%not_elem_of_nil]%elem_of_cons]%elem_of_cons; done.
Defined.

Lemma MarkPaidAndConfirm_exact_witness :
  demo_paid.1 = Ok true
  ∧ settled (view demo_created.2) (view demo_paid.2) demo_row
      OrderStatusConfirmed PaymentStatusPaid (λ _, Some "txn-1"%string) (λ _, 0).
Proof.
  split; [evaluate|]. destruct demo_created_ok as [Hl Hs].
  apply (MarkPaidAndConfirm_exact demo_created.2 demo_row "txn-1" (Ok true) demo_paid.2 Hl Hs).
  evaluate.
Defined.

Lemma FailCancelAndRestock_exact_witness :
  demo_cancelled.1 = Ok true
  ∧ (stock (view demo_cancelled.2) 10, stock (view demo_cancelled.2) 20) = (5, 3)
  ∧ settled (view demo_created.2) (view demo_cancelled.2) demo_row
      OrderStatusCancelled PaymentStatusFailed id
      (held (view demo_created.2) (Payment_OrderID demo_row)).
Proof.
  split; [evaluate|]. split; [evaluate|]. destruct demo_created_ok as [Hl Hs].
  apply (FailCancelAndRestock_exact demo_created.2 demo_row (Ok true) demo_cancelled.2 Hl Hs).
  evaluate.
Defined.
