(* ===== verification/Idempotency.v ===== *)
(** * Idempotency reservations ([internal/idempotency])

    The [Store] interface, its two implementations and what the Redis one promises.
    The Redis server and its client library are not part of the program: they are the
    class [RedisClient], whose documented behaviour is [LawfulRedis]. A command may
    fail before or after the server executed it. *)

From Stdlib Require Import ZArith Lia Ascii.
From stdpp Require Import base tactics list gmap strings.
From S2P Require Import Prelude GoStd Errors.

Open Scope Z_scope.

(** [type Store interface] *)
Class Store (W : Type) : Type := {
  Reserve : string → Z → M W (res bool);
  Release : string → M W (res unit);
}.

(** ** [noopStore] *)
Definition noopStore_Reserve {W} (_ : string) (_ : Z) : M W (res bool) := mret (Ok true).
Definition noopStore_Release {W} (_ : string) : M W (res unit) := mret (Ok ()).
Definition noopStore {W} : Store W := {|
  Reserve := noopStore_Reserve;
  Release := noopStore_Release;
|}.

(** ** [%q]: the quoted form of an ASCII string *)
Definition dquote : ascii := ascii_of_nat 34.
Definition hex_escape (n : N) : string :=
  let digit (k : N) := ascii_of_N (if (k <? 10)%N then 48 + k else 87 + k) in
  String "\" (String "x" (String (digit (n / 16)%N) (String (digit (n mod 16)%N) ""))).
Definition quote_char (c : ascii) : string :=
  let n := N_of_ascii c in
  if bool_decide (c = dquote) || bool_decide (c = "\"%char) then String "\" (String c "")
  else if ((32 <=? n) && (n <=? 126))%N then String c ""
  else if (n =? 7)%N then "\a" else if (n =? 8)%N then "\b"
  else if (n =? 9)%N then "\t" else if (n =? 10)%N then "\n"
  else if (n =? 11)%N then "\v" else if (n =? 12)%N then "\f"
  else if (n =? 13)%N then "\r" else hex_escape n.
Fixpoint quote_body (s : string) : string :=
  match s with
  | EmptyString => String dquote ""
  | String c s' => quote_char c +:+ quote_body s'
  end.
Definition Quote (s : string) : string := String dquote (quote_body s).

(** ** The Redis client: [SET key value NX EX ttl] and [DEL key] *)
Class RedisClient (R : Type) : Type := {
  SetNX : string → string → Z → M R (res bool);
  Del : string → M R (res Z);
}.

(** ** [redisStore] *)
Section redis_store.
Context `{RedisClient R}.

Definition redisStore_Reserve (key : string) (ttl : Z) : M R (res bool) :=
  r ← SetNX key "1" ttl;
  match r with
  | Err err => mret (Err (Wrapf ("redis reserve " +:+ Quote key) err))
  | Ok acquired => mret (Ok acquired)
  end.

Definition redisStore_Release (key : string) : M R (res unit) :=
  r ← Del key;
  match r with
  | Err err => mret (Err (Wrapf ("redis release " +:+ Quote key) err))
  | Ok _ => mret (Ok ())
  end.

#[export] Instance redisStore : Store R := {|
  Reserve := redisStore_Reserve;
  Release := redisStore_Release;
|}.
End redis_store.

(** ** What the server promises

    A key is held until its deadline: the map gives the live keys with the instants
    they expire. *)
Abbreviation deadlines := (gmap string Z).
Definition expire (now : Time) (m : deadlines) : deadlines :=
  filter (λ kd, now < kd.2) m.

(** The effect of a claim and of a removal that the server executes at [now]. *)
Definition claim (key : string) (ttl now : Z) (m : deadlines) : bool * deadlines :=
  match m !! key with
  | Some _ => (false, m)
  | None => (true, <[key := now + ttl]> m)
  end.

(** The expiries the client transmits unrounded: whole positive seconds. *)
Definition whole_seconds (ttl : Z) : bool := (0 <? ttl) && (ttl mod Second =? 0).

Class LawfulRedis (R : Type) `{RedisClient R} : Type := {
  redis_keys : R → deadlines;
  redis_now : R → Time;
  SetNX_law : ∀ key value ttl w r w',
    whole_seconds ttl = true → SetNX key value ttl w = (r, w') →
    redis_now w ≤ redis_now w'
    ∧ let m := expire (redis_now w') (redis_keys w) in
      match r with
      | Ok acquired => (acquired, redis_keys w') = claim key ttl (redis_now w') m
      | Err e => opaque e = true
                 ∧ (redis_keys w' = m ∨ redis_keys w' = (claim key ttl (redis_now w') m).2)
      end;
  Del_law : ∀ key w r w',
    Del key w = (r, w') →
    redis_now w ≤ redis_now w'
    ∧ let m := expire (redis_now w') (redis_keys w) in
      match r with
      | Ok _ => redis_keys w' = delete key m
      | Err e => opaque e = true ∧ (redis_keys w' = m ∨ redis_keys w' = delete key m)
      end;
}.

(** ** The contract of [Store], on which the order service is verified *)
Class LawfulStore (W : Type) `{Store W} : Type := {
  store_keys : W → deadlines;
  store_now : W → Time;
  Reserve_law : ∀ key ttl w r w',
    whole_seconds ttl = true → Reserve key ttl w = (r, w') →
    store_now w ≤ store_now w'
    ∧ let m := expire (store_now w') (store_keys w) in
      match r with
      | Ok acquired => (acquired, store_keys w') = claim key ttl (store_now w') m
      | Err e => store_keys w' = m ∨ store_keys w' = (claim key ttl (store_now w') m).2
      end;
  Release_law : ∀ key w r w',
    Release key w = (r, w') →
    store_now w ≤ store_now w'
    ∧ let m := expire (store_now w') (store_keys w) in
      match r with
      | Ok _ => store_keys w' = delete key m
      | Err e => store_keys w' = m ∨ store_keys w' = delete key m
      end;
}.

(** The Redis store meets it. *)
#[export] Instance redisStore_lawful `{LawfulRedis R} : LawfulStore R.
Proof.
  refine {| store_keys := redis_keys; store_now := redis_now |}.
  - intros key ttl w r w' Ht Hr. apply M_bind_inv in Hr as (r0 & w0 & Hx & Hk).
    apply SetNX_law in Hx; [|done]. destruct r0 as [b|e]; injection Hk as <- <-; [done|].
    split; apply Hx.
  - intros key w r w' Hr. apply M_bind_inv in Hr as (r0 & w0 & Hx & Hk).
    apply Del_law in Hx. destruct r0 as [n|e]; injection Hk as <- <-; [done|].
    split; apply Hx.
Defined.

(** ** A reference server with a schedule of delays and faults *)
Inductive redis_fault : Type := NoFault | LostRequest | LostReply.

Record RefRedis : Type := mkRefRedis {
  rr_keys : deadlines;
  rr_now : Time;
  rr_plan : list (Z * redis_fault);  (* per command: time elapsed, and its fate *)
}.

Definition redis_error : error := OtherError "i/o timeout".

Definition ref_command {A} (effect : Time → deadlines → A * deadlines) : M RefRedis (res A) :=
  λ w,
    let '(dt, fault, plan) := match rr_plan w with
                              | [] => (0, NoFault, [])
                              | (dt, f) :: plan => (dt, f, plan)
                              end in
    let now := rr_now w + Z.max 0 dt in
    let m := expire now (rr_keys w) in
    let '(a, m') := effect now m in
    match fault with
    | NoFault => (Ok a, mkRefRedis m' now plan)
    | LostRequest => (Err redis_error, mkRefRedis m now plan)
    | LostReply => (Err redis_error, mkRefRedis m' now plan)
    end.

#[export] Instance ref_redis : RedisClient RefRedis := {|
  SetNX key _ ttl := ref_command (claim key ttl);
  Del key := ref_command (λ _ m, (match m !! key with Some _ => 1 | None => 0 end, delete key m));
|}.

Lemma ref_command_law {A} (effect : Time → deadlines → A * deadlines) w r w' :
  ref_command effect w = (r, w') →
  rr_now w ≤ rr_now w'
  ∧ let m := expire (rr_now w') (rr_keys w) in
    match r with
    | Ok a => (a, rr_keys w') = effect (rr_now w') m
    | Err e => opaque e = true ∧ (rr_keys w' = m ∨ rr_keys w' = (effect (rr_now w') m).2)
    end.
Proof.
  unfold ref_command.
  set (p := match rr_plan w with [] => _ | _ => _ end). destruct p as [[dt f] plan].
  destruct (effect _ _) as [a m'] eqn:Ee.
  destruct f; intros [= <- <-]; cbn; (split; [lia|]); rewrite ?Ee; auto.
Qed.

#[export] Instance ref_redis_lawful : LawfulRedis RefRedis.
Proof.
  refine {| redis_keys := rr_keys; redis_now := rr_now |}.
  - intros key value ttl w r w' _ Hr. by apply ref_command_law in Hr.
  - intros key w r w' Hr. apply ref_command_law in Hr as [Hn Hr]. split; [done|].
    destruct r; [|done]. cbn in Hr. by injection Hr.
Defined.

(** ** Lemmas *)
Lemma expire_lookup now m key d :
  expire now m !! key = Some d ↔ m !! key = Some d ∧ now < d.
Proof. exact (map_lookup_filter_Some (λ kd : string * Z, now < kd.2) m key d). Qed.

Lemma expire_live now m key d : m !! key = Some d → now < d → expire now m !! key = Some d.
Proof. intros. by apply expire_lookup. Qed.

Lemma expire_expire t1 t2 m : t1 ≤ t2 → expire t2 (expire t1 m) = expire t2 m.
Proof.
  intros Ht. apply map_eq. intros k. apply option_eq. intros d.
  rewrite !expire_lookup. split; [tauto|]. intros [Hk Hd]. split; [split|]; [done|lia|done].
Qed.

Lemma delete_expire now key m : delete key (expire now m) = expire now (delete key m).
Proof.
  apply map_eq. intros k. apply option_eq. intros d.
  rewrite lookup_delete_Some, !expire_lookup, lookup_delete_Some. tauto.
Qed.

#[export] Hint Resolve expire_live : go.
