(* ===== verification/OrderService.v ===== *)
(** * The order service ([internal/services/order.go], [processor.go])

    [CreateOrder] as the code composes it: duplicate lines, the idempotency
    reservation, prices, the repository transaction, the hand-off to the processor,
    and the release of the reservation on every later error. It is written against the
    interfaces; [World] puts an engine, a store and a processor side by side. *)

From Stdlib Require Import ZArith Lia Ascii.
From stdpp Require Import base tactics list gmap strings.
From S2P Require Import Prelude GoStd Sha256 Errors Models Database OrderRepository.
From S2P Require Import Repositories Idempotency.

Open Scope Z_scope.

(** [type OrderService interface]; [uuid] is what [uuid.NewString] returns in the call. *)
Class OrderService (W : Type) : Type := {
  CreateOrder : string → Z → CreateOrderRequest → M W (res OrderResponse);
}.

(** [type OrderProcessor interface] *)
Class OrderProcessor (W : Type) : Type := { Process : Z → M W unit }.

(** [noopOrderProcessor] only logs. *)
Definition noopOrderProcessor {W} : OrderProcessor W := {| Process := λ _, mret () |}.

Definition idempotencyTTL : Z := 5 * Minute.

(** The loop over [req.Items] with the map [seen]. *)
Fixpoint duplicate_line (seen : gset Z) (items : list OrderItemRequest) : bool :=
  match items with
  | [] => false
  | item :: rest =>
      if decide (OrderItemRequest_ProductID item ∈ seen) then true
      else duplicate_line ({[ OrderItemRequest_ProductID item ]} ∪ seen) rest
  end.

(** What [idempotencyKey] writes to the hash. *)
Fixpoint cart_lines (items : list OrderItemRequest) : string :=
  match items with
  | [] => ""
  | item :: rest =>
      "|" +:+ Itoa (OrderItemRequest_ProductID item) +:+ ":"
      +:+ Itoa (OrderItemRequest_Quantity item) +:+ cart_lines rest
  end.
Definition cart_text (userID : Z) (items : list OrderItemRequest) : string :=
  "u:" +:+ Itoa userID +:+ cart_lines (sort_by OrderItemRequest_ProductID items).

Definition idempotencyKey (userID : Z) (items : list OrderItemRequest) : string :=
  hex (sha256 (cart_text userID items)).

(** [priceByID]: a later product with the same id would overwrite an earlier one. *)
Definition price_by_id (prods : list Product) : gmap Z float64 :=
  foldl (λ m p, <[Product_ID p := Product_Price p]> m) ∅ prods.

(** The loop of step 4: the items in request order and the running total. *)
Fixpoint build_lines (priceByID : gmap Z float64) (items : list OrderItemRequest)
  (total : float64) : res (list OrderItem * float64) :=
  match items with
  | [] => Ok ([], total)
  | item :: rest =>
      match priceByID !! OrderItemRequest_ProductID item with
      | None => Err (ProductNotFoundError (OrderItemRequest_ProductID item))
      | Some price =>
          let total' :=
            f64_add total (f64_mul price (f64_of_int (OrderItemRequest_Quantity item))) in
          match build_lines priceByID rest total' with
          | Err e => Err e
          | Ok (l, t) =>
              Ok (mkOrderItem 0 0 (OrderItemRequest_ProductID item)
                    (OrderItemRequest_Quantity item) price :: l, t)
          end
      end
  end.

Definition toOrderItemResponse (i : OrderItem) : OrderItemResponse :=
  mkOrderItemResponse (OrderItem_ProductID i) (OrderItem_Quantity i)
    (OrderItem_PriceAtPurchase i).
Definition toOrderResponse (o : Order) : OrderResponse :=
  mkOrderResponse (Order_ID o) (Order_UserID o) (Order_Status o) (Order_TotalPrice o)
    (toOrderItemResponse <$> Order_Items o) (Order_CreatedAt o) (Order_UpdatedAt o).

(** The order and the payment of step 4; [uuid] is what [uuid.NewString] returned. *)
Definition new_order (userID : Z) (items : list OrderItem) (total : float64) : Order :=
  mkOrder 0 userID OrderStatusPending total (sort_by OrderItem_ProductID items) 0 0.
Definition new_payment (uuid : string) (total : float64) : Payment :=
  mkPayment 0 0 uuid PaymentStatusPending total None 0 0.

Section service.
Context `{OrderRepository W, ProductRepository W, Store W, OrderProcessor W}.

(** A failed release is logged. *)
Definition orderService_release (key : string) : M W unit := _ ← Release key; mret ().

Definition orderService_CreateOrder (uuid : string) (userID : Z) (req : CreateOrderRequest)
  : M W (res OrderResponse) :=
  let reqItems := CreateOrderRequest_Items req in
  if duplicate_line ∅ reqItems then mret (Err ErrDuplicateLineItem)
  else
    let key := idempotencyKey userID reqItems in
    acquired ← Reserve key idempotencyTTL;
    match acquired with
    | Ok false => mret (Err ErrDuplicateOrder)
    | Ok true | Err _ =>
        found ← GetProductsByIDs (OrderItemRequest_ProductID <$> reqItems);
        match found with
        | Err e => _ ← orderService_release key; mret (Err e)
        | Ok prods =>
            match build_lines (price_by_id prods) reqItems f64_zero with
            | Err e => _ ← orderService_release key; mret (Err e)
            | Ok (items, total) =>
                created ← repo_CreateOrder (new_order userID items total)
                            (new_payment uuid total);
                match created with
                | Err e => _ ← orderService_release key; mret (Err e)
                | Ok (order, _) =>
                    _ ← Process (Order_ID order);
                    mret (Ok (toOrderResponse order))
                end
            end
        end
    end.

#[export] Instance NewOrderService : OrderService W :=
  {| CreateOrder := orderService_CreateOrder |}.
End service.

(** ** The state the service works on *)
Record World (D S P : Type) : Type := mkWorld {
  world_db : D;
  world_store : S;
  world_queue : P;
}.
Arguments mkWorld {D S P} world_db world_store world_queue.
Arguments world_db {D S P} w.
Arguments world_store {D S P} w.
Arguments world_queue {D S P} w.

Section world.
Context {D S P : Type}.

Definition on_db {A} : M D A → M (World D S P) A :=
  on world_db (λ d w, mkWorld d (world_store w) (world_queue w)).
Definition on_store {A} : M S A → M (World D S P) A :=
  on world_store (λ s w, mkWorld (world_db w) s (world_queue w)).
Definition on_queue {A} : M P A → M (World D S P) A :=
  on world_queue (λ q w, mkWorld (world_db w) (world_store w) q).

#[export] Instance world_orders `{OrderRepository D} : OrderRepository (World D S P) := {|
  repo_CreateOrder order payment := on_db (repo_CreateOrder order payment);
  GetPendingByOrderID id := on_db (GetPendingByOrderID id);
  GetOrderUserID id := on_db (GetOrderUserID id);
  MarkPaidAndConfirm payment txn := on_db (MarkPaidAndConfirm payment txn);
  FailCancelAndRestock payment := on_db (FailCancelAndRestock payment);
  ListStalePending now older limit := on_db (ListStalePending now older limit);
|}.

#[export] Instance world_products `{ProductRepository D} : ProductRepository (World D S P) := {|
  repo_ListProducts limit offset := on_db (repo_ListProducts limit offset);
  repo_GetProduct id := on_db (repo_GetProduct id);
  GetProductsByIDs ids := on_db (GetProductsByIDs ids);
  repo_CreateProduct p := on_db (repo_CreateProduct p);
  repo_UpdateProduct p := on_db (repo_UpdateProduct p);
  repo_GetInventory id := on_db (repo_GetInventory id);
|}.

#[export] Instance world_idempotency `{Store S} : Store (World D S P) := {|
  Reserve key ttl := on_store (Reserve key ttl);
  Release key := on_store (Release key);
|}.

#[export] Instance world_processor `{OrderProcessor P} : OrderProcessor (World D S P) := {|
  Process id := on_queue (Process id);
|}.
End world.
