(* ===== verification/OrderServiceSpec.v ===== *)
(** * Properties of the order service

    End to end, for any lawful engine and any lawful store: what an accepted request
    leaves in the tables, the queue and the store, what each rejection leaves, and what
    the idempotency key identifies. *)

From Stdlib Require Import ZArith Lia Ascii.
From stdpp Require Import base tactics list gmap strings.
From S2P Require Import Prelude GoStd Sha256 Errors Models Database RefDb OrderRepository.
From S2P Require Import Repositories Ledger LedgerSpec Idempotency OrderService.

Open Scope Z_scope.

(** ** Duplicate lines *)
Definition product_ids (items : list OrderItemRequest) : list Z :=
  OrderItemRequest_ProductID <$> items.

Lemma duplicate_line_false items seen :
  duplicate_line seen items = false ↔
  NoDup (product_ids items) ∧ ∀ id, id ∈ product_ids items → id ∉ seen.
Proof.
  revert seen. induction items as [|item items IH]; intros seen; cbn.
  { split; [|done]. intros _. split; [constructor|]. intros id []%not_elem_of_nil. }
  case_decide as Hs.
  - split; [done|]. intros [_ Hn]. destruct (Hn (OrderItemRequest_ProductID item)); [left|done].
  - rewrite IH, NoDup_cons. setoid_rewrite not_elem_of_union.
    setoid_rewrite not_elem_of_singleton. split.
    + intros [Hnd Hn]. split_and!; [|done|].
      * intros Hin. by destruct (Hn _ Hin).
      * intros id [->|Hin]%elem_of_cons; [done|]. by destruct (Hn _ Hin).
    + intros [[Hx Hnd] Hn]. split; [done|]. intros id Hin. split.
      * intros ->. by apply Hx.
      * apply Hn. by right.
Qed.

Lemma duplicate_line_empty items :
  duplicate_line ∅ items = false ↔ NoDup (product_ids items).
Proof. rewrite duplicate_line_false. split; [by intros []|]. intros Hn. split; [done|].
  intros id _. apply not_elem_of_empty. Qed.

(** ** The text that is hashed determines the cart *)
Lemma digits_no_bar : digit_val "|" = None. Proof. done. Qed.
Lemma digits_no_colon : digit_val ":" = None. Proof. done. Qed.

Lemma Itoa_then_lines q1 q2 r1 r2 :
  Itoa q1 +:+ cart_lines r1 = Itoa q2 +:+ cart_lines r2 →
  q1 = q2 ∧ cart_lines r1 = cart_lines r2.
Proof.
  assert (∀ q, lacks "|" (Itoa q) = true) as Hl by (intros; by apply lacks_Itoa).
  destruct r1 as [|i1 r1], r2 as [|i2 r2]; cbn [cart_lines]; rewrite ?append_cons, ?append_nil.
  - rewrite !append_nil_r. intros E%Itoa_inj. done.
  - rewrite append_nil_r. intros E. exfalso. by apply (separator_absent _ _ _ _ (Hl q1)) in E.
  - rewrite append_nil_r. intros E. exfalso. symmetry in E.
    by apply (separator_absent _ _ _ _ (Hl q2)) in E.
  - intros E. apply separator_inj in E as [E ->]; [|done..]. by apply Itoa_inj in E.
Qed.

Lemma cart_lines_inj l1 l2 : cart_lines l1 = cart_lines l2 → l1 = l2.
Proof.
  revert l2. induction l1 as [|[p1 q1] l1 IH]; intros [|[p2 q2] l2]; cbn [cart_lines];
    rewrite ?append_cons, ?append_nil; [done..|]. cbn. intros [= E].
  apply separator_inj in E as [Ep Eq]; [|by apply lacks_Itoa..].
  apply Itoa_inj in Ep as ->. apply Itoa_then_lines in Eq as [-> E]. f_equal. auto.
Qed.

Lemma cart_text_inj u1 u2 l1 l2 :
  cart_text u1 l1 = cart_text u2 l2 → u1 = u2 ∧ l1 ≡ₚ l2.
Proof.
  unfold cart_text. intros E. apply append_inj_l in E. apply Itoa_then_lines in E as [-> E].
  apply cart_lines_inj in E. split; [done|].
  by rewrite <- (sort_by_perm OrderItemRequest_ProductID l1), E, sort_by_perm.
Qed.

(** With distinct products the key does not depend on the order of the lines. *)
Lemma idempotencyKey_perm userID items1 items2 :
  items1 ≡ₚ items2 → NoDup (product_ids items1) →
  idempotencyKey userID items1 = idempotencyKey userID items2.
Proof.
  intros Hp Hnd. unfold idempotencyKey, cart_text.
  by rewrite (sort_by_unique_perm _ items1 items2).
Qed.

(** ** Prices *)
Lemma price_by_id_spec ps id :
  match price_by_id ps !! id with
  | Some price => ∃ p, p ∈ ps ∧ Product_ID p = id ∧ Product_Price p = price
  | None => ∀ p, p ∈ ps → Product_ID p ≠ id
  end.
Proof.
  induction ps as [|p ps IH] using rev_ind.
  { cbn. rewrite lookup_empty. intros p []%not_elem_of_nil. }
  unfold price_by_id in *. rewrite foldl_app. cbn [foldl].
  destruct (decide (Product_ID p = id)) as [<-|Hne].
  - rewrite lookup_insert_eq. exists p. split_and!; [|done..].
    apply elem_of_app. right. left.
  - rewrite lookup_insert_ne by done. destruct (foldl _ ∅ ps !! id).
    + destruct IH as (p' & Hin & ? & ?). exists p'. split_and!; [|done..].
      apply elem_of_app. by left.
    + intros p' [Hin|Hin%list_elem_of_singleton]%elem_of_app; [by apply IH|congruence].
Qed.

(** A request line, priced at what the product costs in the tables. *)
Definition priced_line (T : Tables) (item : OrderItemRequest) (line : OrderItem) : Prop :=
  OrderItem_ProductID line = OrderItemRequest_ProductID item
  ∧ OrderItem_Quantity line = OrderItemRequest_Quantity item
  ∧ ∃ p, Tables_products T !! OrderItemRequest_ProductID item = Some p
         ∧ OrderItem_PriceAtPurchase line = Product_Price p.

(** The sum of price times quantity, in the order of the lines. *)
Definition lines_total (lines : list OrderItem) (total : float64) : float64 :=
  foldl (λ t l, f64_add t (f64_mul (OrderItem_PriceAtPurchase l)
                              (f64_of_int (OrderItem_Quantity l)))) total lines.

(** The price map agrees with the tables on the requested ids. *)
Definition priced_by (T : Tables) (prices : gmap Z float64) (ids : list Z) : Prop :=
  ∀ id, id ∈ ids → prices !! id = Product_Price <$> Tables_products T !! id.

Lemma build_lines_spec T prices items total :
  priced_by T prices (product_ids items) →
  match build_lines prices items total with
  | Ok (lines, total') =>
      Forall2 (priced_line T) items lines ∧ total' = lines_total lines total
  | Err e => ∃ p, e = ProductNotFoundError p ∧ p ∈ product_ids items
                  ∧ Tables_products T !! p = None
  end.
Proof.
  revert total. induction items as [|item items IH]; intros total Hp; cbn; [by split|].
  pose proof (Hp (OrderItemRequest_ProductID item) ltac:(left)) as Hl. rewrite Hl.
  destruct (Tables_products T !! _) as [p|] eqn:Ep; cbn.
  2: { eexists. split_and!; [done|left|done]. }
  specialize (IH (f64_add total (f64_mul (Product_Price p)
                    (f64_of_int (OrderItemRequest_Quantity item))))).
  destruct (build_lines _ _ _) as [[l t]|e].
  - destruct IH as [Hl2 ->]; [intros id Hin; apply Hp; by right|].
    split; [|done]. constructor; [|done]. split_and!; [done..|]. by exists p.
  - destruct IH as (q & -> & Hin & Hq); [intros id Hin; apply Hp; by right|].
    exists q. split_and!; [done|by right|done].
Qed.

Lemma GetProductsByIDs_prices `{LawfulDb D} d ids r d' :
  consistent (view d) →
  productRepository_GetProductsByIDs ids d = (r, d') →
  view d' = view d
  ∧ match r with
    | Ok ps => priced_by (view d) (price_by_id ps) ids
    | Err e => opaque e = true
    end.
Proof.
  intros Hc Hr. apply exec_sem in Hr as [Hv Hr]. split; [done|].
  destruct r as [ps|e]; [|done]. destruct Hr as (all & Hp & _ & Hl).
  cbn in Hl. subst ps. intros id Hid.
  pose proof (price_by_id_spec all id) as Hs.
  assert (∀ p, p ∈ all → Tables_products (view d) !! Product_ID p = Some p) as Hrow.
  { intros p Hin. rewrite Hp in Hin. apply elem_of_matching in Hin as (_ & k & Hk).
    by destruct (proj1 (Hc _ products) k p Hk) as [<- _]. }
  destruct (price_by_id all !! id) as [price|].
  - destruct Hs as (p & Hin & <- & <-). by rewrite (Hrow p).
  - destruct (Tables_products (view d) !! id) as [p|] eqn:Ep; [|done]. exfalso.
    assert (Product_ID p = id) as Hpid by (by destruct (proj1 (Hc _ products) id p Ep)).
    apply (Hs p); [|done]. rewrite Hp, elem_of_matching.
    rewrite Hpid, list_has_elem. eauto.
Qed.

(** ** The call, step by step *)
#[local] Arguments CreateOrder_tx : simpl never.

Section service_lemmas.
Context `{LawfulDb D} {S P : Type} `{Store S} `{OrderProcessor P}.
Implicit Types (w : World D S P) (d : D).

(** Steps 3 to 5, which only touch the database. *)
Definition persist (uuid : string) (userID : Z) (items : list OrderItemRequest)
  : M D (res (Order * Payment)) :=
  prods <-? GetProductsByIDs (product_ids items);;
  match build_lines (price_by_id prods) items f64_zero with
  | Err e => mret (Err e)
  | Ok (lines, total) =>
      repo_CreateOrder (new_order userID lines total) (new_payment uuid total)
  end.

Lemma CreateOrder_unfold uuid userID req w :
  let items := CreateOrderRequest_Items req in
  let key := idempotencyKey userID items in
  orderService_CreateOrder uuid userID req w =
  if duplicate_line ∅ items then (Err ErrDuplicateLineItem, w)
  else
    let '(a, s) := Reserve key idempotencyTTL (world_store w) in
    match a with
    | Ok false => (Err ErrDuplicateOrder, mkWorld (world_db w) s (world_queue w))
    | _ =>
        let '(r, d) := persist uuid userID items (world_db w) in
        match r with
        | Ok (order, _) =>
            (Ok (toOrderResponse order),
             mkWorld d s (Process (Order_ID order) (world_queue w)).2)
        | Err e => (Err e, mkWorld d (Release key s).2 (world_queue w))
        end
    end.
Proof.
  intros items key. unfold orderService_CreateOrder, persist, try, orderService_release.
  cbv zeta. fold items. fold key. clearbody key items. unfold product_ids.
  destruct w as [d s q]. destruct (duplicate_line ∅ items); [done|].
  unfold mbind, M_bind, mret, M_ret. cbn. unfold on_store, on_db, on_queue, on. cbn.
  destruct (Reserve key idempotencyTTL s) as [a s1]; cbn.
  destruct a as [[]|e0]; cbn; [|done|].
  all: destruct (productRepository_GetProductsByIDs _ d) as [[ps|e] d1]; cbn.
  2, 4: by destruct (Release key s1).
  all: destruct (build_lines _ _ _) as [[l t]|e]; cbn.
  2, 4: by destruct (Release key s1).
  all: destruct (Transaction _ d1) as [[[o p]|e] d2]; cbn.
  1, 3: by destruct (Process _ q).
  all: by destruct (Release key s1).
Qed.

(** The persisted order: its lines priced from the tables and sorted. *)
Lemma persist_ok uuid userID items d order' payment' d' :
  consistent (view d) →
  persist uuid userID items d = (Ok (order', payment'), d') →
  ∃ lines, Forall2 (priced_line (view d)) items lines
    ∧ let total := lines_total lines f64_zero in
      placed (view d) (view d') (new_order userID lines total) (new_payment uuid total)
        order' payment' ∧ consistent (view d').
Proof.
  intros Hc Hr. apply try_inv in Hr as [(ps & d1 & Hg & Hk)|(e & _ & [=])].
  apply GetProductsByIDs_prices in Hg as [Hv Hp]; [|done].
  pose proof (build_lines_spec _ _ items f64_zero Hp) as Hb.
  destruct (build_lines _ _ _) as [[lines total]|e]; [|done].
  destruct Hb as [Hl ->]. exists lines. split; [done|]. rewrite <- Hv in Hc |- *.
  apply Transaction_outcome in Hk. cbn in Hk.
  split; [by apply CreateOrder_tx_placed|by apply (proj2 (runs_step _ _ _ _ Hk))].
Qed.

(** Why a persisted request failed, and what it left in the tables. *)
Definition rejected (T T' : Tables) (uuid : string) (userID : Z)
  (items : list OrderItemRequest) (e : error) : Prop :=
  (∃ p, e = ProductNotFoundError p ∧ p ∈ product_ids items
        ∧ Tables_products T !! p = None ∧ T' = T)
  ∨ (∃ item, item ∈ items ∧ e = InsufficientStockError (OrderItemRequest_ProductID item)
        ∧ stock T (OrderItemRequest_ProductID item) < OrderItemRequest_Quantity item ∧ T' = T)
  ∨ (e = ErrUserNotFound ∧ Tables_users T !! userID = None ∧ T' = T)
  ∨ (opaque e = true
     ∧ (T' = T ∨ ∃ lines order' payment', Forall2 (priced_line T) items lines
          ∧ let total := lines_total lines f64_zero in
            placed T T' (new_order userID lines total) (new_payment uuid total)
              order' payment')).

Lemma priced_members T items lines line :
  Forall2 (priced_line T) items lines → line ∈ lines →
  ∃ item, item ∈ items ∧ priced_line T item line.
Proof.
  intros HF (i & Hi)%list_elem_of_lookup.
  destruct (Forall2_lookup_r _ _ _ _ _ HF Hi) as (item & Hitem & Hp).
  exists item. split; [by eapply list_elem_of_lookup_2|done].
Qed.

Lemma priced_ids T items lines :
  Forall2 (priced_line T) items lines → OrderItem_ProductID <$> lines = product_ids items.
Proof. induction 1 as [|item line ? ? [Hp _] _ IH]; [done|]. cbn. by rewrite Hp, IH. Qed.

Lemma demand_absent items p :
  p ∉ (OrderItem_ProductID <$> items) → demand items p = 0.
Proof.
  induction items as [|i items IH]; [done|]. cbn [fmap list_fmap].
  intros [Hne Hn]%not_elem_of_cons. rewrite demand_cons, IH by done.
  unfold line_units. destruct (_ =? p) eqn:E; bool_to_prop; congruence || lia.
Qed.

(** With distinct products the first shortage is a line larger than the shelf. *)
Lemma shortage_line T items lines p :
  NoDup (product_ids items) → Forall2 (priced_line T) items lines →
  first_shortage T (sort_by OrderItem_ProductID lines) p →
  ∃ item, item ∈ items ∧ OrderItemRequest_ProductID item = p
          ∧ stock T p < OrderItemRequest_Quantity item.
Proof.
  intros Hnd HF (pre & line & post & E & <- & _ & Hs).
  pose proof (sort_by_perm OrderItem_ProductID lines) as Hperm. rewrite E in Hperm.
  assert (line ∈ lines) as Hin.
  { rewrite <- Hperm, elem_of_app. right. left. }
  destruct (priced_members _ _ _ _ HF Hin) as (item & Hitem & Hp & Hq & _).
  exists item. split_and!; [done..|]. rewrite <- Hq.
  rewrite demand_absent in Hs; [lia|].
  rewrite <- (priced_ids _ _ _ HF), <- Hperm, fmap_app in Hnd.
  apply NoDup_app in Hnd as (_ & Hd & _). intros Hp'. apply (Hd _ Hp'). left.
Qed.

Lemma persist_err uuid userID items d e d' :
  consistent (view d) → NoDup (product_ids items) →
  (∀ item, item ∈ items → 0 < OrderItemRequest_Quantity item) →
  persist uuid userID items d = (Err e, d') →
  rejected (view d) (view d') uuid userID items e.
Proof.
  intros Hc Hnd Hq Hr. apply try_inv in Hr as [(ps & d1 & Hg & Hk)|(e' & Hg & [= ->])].
  2: { apply GetProductsByIDs_prices in Hg as [Hv Ho]; [|done]. do 3 right. auto. }
  apply GetProductsByIDs_prices in Hg as [Hv Hp]; [|done].
  pose proof (build_lines_spec _ _ items f64_zero Hp) as Hb.
  destruct (build_lines _ _ _) as [[lines total]|e'].
  2: { injection Hk as -> <-. left. destruct Hb as (p & -> & ? & ?). by exists p. }
  destruct Hb as [Hl ->]. apply Transaction_outcome in Hk.
  apply CreateOrder_failure in Hk; [|by rewrite Hv|].
  - rewrite Hv in Hk. destruct Hk as [(p & -> & Hs & HT)|[(-> & Hu & HT)|(Ho & HT)]].
    + right. left. apply (shortage_line _ items) in Hs as (item & ? & <- & ?); [|done..].
      by exists item.
    + right. right. left. split_and!; [done| |done]. unfold exists_row in Hu. cbn in Hu.
      by destruct (_ !! _).
    + do 3 right. split; [done|]. destruct HT as [HT|(o & p & HT)]; [by left|].
      right. by exists lines, o, p.
  - intros line Hin. cbn in Hin. rewrite sort_by_perm in Hin.
    destruct (priced_members _ _ _ _ Hl Hin) as (item & Hitem & _ & -> & _). auto.
Qed.
End service_lemmas.

(** ** What an accepted request wrote and answered, column by column *)
Record order_written `{Numeric} (T T' : Tables) (uuid : string) (userID : Z)
  (lines : list OrderItem) (id : Z) : Prop := {
  written_order : Tables_orders T !! id = None
    ∧ ∃ o, Tables_orders T' = <[id := o]> (Tables_orders T)
      ∧ Order_UserID o = userID ∧ Order_Status o = OrderStatusPending
      ∧ numeric_12_2 (lines_total lines f64_zero) = Some (Order_TotalPrice o);
  written_payment : ∃ k p, Tables_payments T !! k = None
    ∧ Tables_payments T' = <[k := p]> (Tables_payments T)
    ∧ Payment_OrderID p = id ∧ Payment_IdempotencyKey p = uuid
    ∧ Payment_Status p = PaymentStatusPending ∧ Payment_ProviderTxnID p = None
    ∧ numeric_12_2 (lines_total lines f64_zero) = Some (Payment_Amount p);
  written_lines : ∃ l, fresh_batch order_items l (Tables_order_items T)
    ∧ Tables_order_items T' = insert_rows order_items l (Tables_order_items T)
    ∧ Forall2 (stored_line id) (sort_by OrderItem_ProductID lines) l;
  written_stock : ∀ p, demand lines p ≤ stock T p ∧ stock T' p = stock T p - demand lines p;
}.

Record order_answered (userID : Z) (lines : list OrderItem) (id : Z)
  (resp : OrderResponse) : Prop := {
  answered_id : OrderResponse_ID resp = id;
  answered_user : OrderResponse_UserID resp = userID;
  answered_status : OrderResponse_Status resp = OrderStatusPending;
  answered_total : OrderResponse_TotalPrice resp = lines_total lines f64_zero;
  answered_lines : OrderResponse_Items resp
    = toOrderItemResponse <$> sort_by OrderItem_ProductID lines;
}.

Lemma demand_perm l1 l2 p : l1 ≡ₚ l2 → demand l1 p = demand l2 p.
Proof.
  induction 1 as [|x l1 l2 _ IH|x y l|l1 l2 l3 _ IH1 _ IH2];
    rewrite ?demand_cons; [done|lia|lia|congruence].
Qed.

Lemma placed_written `{Numeric} T T' uuid userID lines order' payment' :
  let total := lines_total lines f64_zero in
  placed T T' (new_order userID lines total) (new_payment uuid total) order' payment' →
  order_written T T' uuid userID lines (Order_ID order').
Proof.
  intros total Hp. split.
  - split; [apply (placed_fresh _ _ _ _ _ _ Hp)|].
    destruct (placed_order _ _ _ _ _ _ Hp) as (o & HO & _ & Hu & Hs & Ht). by exists o.
  - destruct (placed_payment _ _ _ _ _ _ Hp) as (p & Hn & HP & _ & Ho & Hk & Hs & Ha & Ht).
    by exists (Payment_ID payment'), p.
  - apply (placed_items _ _ _ _ _ _ Hp).
  - intros p. pose proof (placed_shelf _ _ _ _ _ _ Hp p) as Hs.
    pose proof (placed_fits _ _ _ _ _ _ Hp p) as Hf. cbn [new_order Order_Items] in Hs, Hf.
    rewrite (demand_perm _ lines) in Hs, Hf by apply sort_by_perm. done.
Qed.

Lemma placed_answered `{Numeric} T T' uuid userID lines order' payment' :
  let total := lines_total lines f64_zero in
  placed T T' (new_order userID lines total) (new_payment uuid total) order' payment' →
  order_answered userID lines (Order_ID order') (toOrderResponse order').
Proof.
  intros total Hp. destruct (placed_result _ _ _ _ _ _ Hp) as (Hu & Hs & Ht & Hl).
  split; [done..|]. cbn in Hl |- *.
  induction Hl as [|i s ? ? (_ & E1 & E2 & E3) _ IH]; [done|].
  cbn. unfold toOrderItemResponse at 1 3. by rewrite IH, E1, E2, E3.
Qed.

(** ** The contract *)
Section service_contract.
Context `{LawfulDb D} {S P : Type} `{LawfulStore S} `{OrderProcessor P}.
Implicit Types (w : World D S P).

(** C10. An accepted request, end to end: its lines are distinct, each is priced at what
    the product costs in the tables; a pending order of the user is stored under a fresh
    id with the sum of price times quantity as its total, with its lines sorted by
    product, and with a pending payment of the same amount under the request's key; the
    units leave the shelf; the answer shows that order; its id and nothing else is handed
    to the processor, and the only store operation was the reservation. *)
Theorem CreateOrder_accepts uuid userID req w resp w' :
  consistent (view (world_db w)) →
  orderService_CreateOrder uuid userID req w = (Ok resp, w') →
  let items := CreateOrderRequest_Items req in
  ∃ lines order' payment',
    NoDup (product_ids items)
    ∧ Forall2 (priced_line (view (world_db w))) items lines
    ∧ strictly_by OrderItem_ProductID (sort_by OrderItem_ProductID lines)
    ∧ (let total := lines_total lines f64_zero in
       placed (view (world_db w)) (view (world_db w')) (new_order userID lines total)
         (new_payment uuid total) order' payment')
    ∧ order_written (view (world_db w)) (view (world_db w')) uuid userID lines
        (Order_ID order')
    ∧ consistent (view (world_db w'))
    ∧ resp = toOrderResponse order'
    ∧ order_answered userID lines (Order_ID order') resp
    ∧ world_queue w' = (Process (Order_ID order') (world_queue w)).2
    ∧ ∃ a, a ≠ Ok false
        ∧ Reserve (idempotencyKey userID items) idempotencyTTL (world_store w)
          = (a, world_store w').
Proof.
  intros Hc Hr items. rewrite CreateOrder_unfold in Hr. cbv zeta in Hr. fold items in Hr.
  destruct (duplicate_line ∅ items) eqn:Hdup; [done|]. apply duplicate_line_empty in Hdup.
  destruct (Reserve _ _ _) as [a s] eqn:Hres.
  destruct (persist uuid userID items (world_db w)) as [[[order' payment']|e] d] eqn:Hp;
    [|by destruct a as [[]|]].
  apply persist_ok in Hp as (lines & HF & Hpl & Hc'); [|done].
  exists lines, order', payment'.
  pose proof (placed_written _ _ _ _ _ _ _ Hpl). pose proof (placed_answered _ _ _ _ _ _ _ Hpl).
  assert (strictly_by OrderItem_ProductID (sort_by OrderItem_ProductID lines)).
  { apply sort_by_strictly. by rewrite (priced_ids _ _ _ HF). }
  destruct a as [[]|e]; [|done|]; injection Hr as <- <-;
    (split_and!; [done..|eexists; split; [|reflexivity]; done]).
Qed.

(** C11. A refused request changes the queue in no case and the tables in none of its
    recognised errors: duplicate lines are refused before any effect, a held cart with
    only the reservation attempt, and every other refusal gives the true reason and
    releases the reservation so that the cart can be submitted again. *)
Theorem CreateOrder_refuses uuid userID req w e w' :
  consistent (view (world_db w)) →
  (∀ item, item ∈ CreateOrderRequest_Items req → 0 < OrderItemRequest_Quantity item) →
  orderService_CreateOrder uuid userID req w = (Err e, w') →
  let items := CreateOrderRequest_Items req in
  let key := idempotencyKey userID items in
  world_queue w' = world_queue w
  ∧ ((e = ErrDuplicateLineItem ∧ w' = w ∧ ¬ NoDup (product_ids items))
     ∨ (e = ErrDuplicateOrder ∧ world_db w' = world_db w
        ∧ Reserve key idempotencyTTL (world_store w) = (Ok false, world_store w'))
     ∨ (rejected (view (world_db w)) (view (world_db w')) uuid userID items e
        ∧ world_store w' = (Release key (Reserve key idempotencyTTL (world_store w)).2).2)).
Proof.
  intros Hc Hq Hr items key. rewrite CreateOrder_unfold in Hr. cbv zeta in Hr.
  fold items in Hr. fold key in Hr. destruct (duplicate_line ∅ items) eqn:Hdup.
  { injection Hr as <- <-. split; [done|]. left. split_and!; [done..|].
    rewrite <- duplicate_line_empty. congruence. }
  apply duplicate_line_empty in Hdup.
  destruct (Reserve _ _ _) as [a s] eqn:Hres.
  destruct a as [[]|e0].
  2: { injection Hr as <- <-. split; [done|]. right. by left. }
  all: destruct (persist uuid userID items (world_db w)) as [[[order' payment']|e1] d] eqn:Hp;
    [done|]; injection Hr as <- <-; (split; [done|]); right; right;
    (split; [|done]); by apply persist_err in Hp.
Qed.

(** C12. Resubmission within the window: once an order was accepted with its reservation,
    the same cart of the same user, in any line order, is refused as a duplicate for
    [idempotencyTTL], with nothing written and nothing queued, as long as the store
    answers and keeps the key. *)
Theorem CreateOrder_dedup uuid1 uuid2 userID req1 req2 w0 resp w1 w2 r w3 :
  orderService_CreateOrder uuid1 userID req1 w0 = (Ok resp, w1) →
  let items := CreateOrderRequest_Items req1 in
  let key := idempotencyKey userID items in
  (Reserve key idempotencyTTL (world_store w0)).1 = Ok true →
  CreateOrderRequest_Items req2 ≡ₚ items →
  store_keys (world_store w2) !! key = store_keys (world_store w1) !! key →
  is_ok (Reserve key idempotencyTTL (world_store w2)).1 = true →
  orderService_CreateOrder uuid2 userID req2 w2 = (r, w3) →
  store_now (world_store w3) < store_now (world_store w1) + idempotencyTTL →
  r = Err ErrDuplicateOrder ∧ world_db w3 = world_db w2 ∧ world_queue w3 = world_queue w2.
Proof.
  intros Hr1 items key Ha Hperm Hkeep Hok Hr2 Htime.
  rewrite CreateOrder_unfold in Hr1, Hr2. cbv zeta in Hr1, Hr2. fold items in Hr1. fold key in Hr1.
  destruct (duplicate_line ∅ items) eqn:Hdup; [done|]. apply duplicate_line_empty in Hdup.
  assert (duplicate_line ∅ (CreateOrderRequest_Items req2) = false) as Hdup2.
  { apply duplicate_line_empty. unfold product_ids. by rewrite Hperm. }
  rewrite Hdup2, (idempotencyKey_perm userID _ items) in Hr2 by
    (done || unfold product_ids; by rewrite Hperm).
  fold key in Hr2. destruct (Reserve key _ (world_store w0)) as [a s1] eqn:R1.
  cbn in Ha. subst a. apply Reserve_law in R1 as [_ R1]; [|done].
  assert (store_keys s1 !! key = Some (store_now s1 + idempotencyTTL)) as Hheld.
  { unfold claim in R1. destruct (expire _ _ !! key); [done|]. injection R1 as ->.
    apply lookup_insert_eq. }
  destruct (persist _ _ _ (world_db w0)) as [[[o p]|e] d]; [|done]. injection Hr1 as <- <-.
  cbn [world_store] in Hkeep, Htime. rewrite Hheld in Hkeep.
  destruct (Reserve key _ (world_store w2)) as [a s2] eqn:R2. apply Reserve_law in R2 as [_ R2];
    [|done].
  destruct a as [[]|e]; [|by injection Hr2 as <- <-|done]. exfalso.
  assert (store_now s2 ≤ store_now (world_store w3)) as Hle.
  { destruct (persist _ _ _ (world_db w2)) as [[[o2 p2]|e] d2]; injection Hr2 as <- <-; [cbn; lia|].
    cbn [world_store]. destruct (Release key s2) as [r3 s3] eqn:R3.
    apply Release_law in R3 as [R3 _]. exact R3. }
  unfold claim in R2. by rewrite (expire_live _ _ _ _ Hkeep) in R2 by lia.
Qed.

(** A reservation that could not be confirmed is not owned, and yet a failing request
    releases it: when Reserve returned an error and the request then fails, the key is
    gone from the store, whoever held it. *)
Theorem CreateOrder_releases_unowned uuid userID req w e0 s1 s2 e w' :
  let key := idempotencyKey userID (CreateOrderRequest_Items req) in
  NoDup (product_ids (CreateOrderRequest_Items req)) →
  Reserve key idempotencyTTL (world_store w) = (Err e0, s1) →
  Release key s1 = (Ok (), s2) →
  orderService_CreateOrder uuid userID req w = (Err e, w') →
  store_keys (world_store w') !! key = None.
Proof.
  intros key Hnd Hres Hrel Hr. rewrite CreateOrder_unfold in Hr. cbv zeta in Hr.
  fold key in Hr. rewrite (proj2 (duplicate_line_empty _) Hnd), Hres in Hr.
  destruct (persist _ _ _ _) as [[[o p]|e1] d]; [done|]. injection Hr as <- <-.
  cbn [world_store]. rewrite Hrel. apply Release_law in Hrel as [_ Hrel].
  cbv zeta in Hrel. cbn [snd]. rewrite Hrel. apply lookup_delete_eq.
Qed.
End service_contract.

(** C32. What the key identifies: two requests get one key only when they are the same
    user's and the same cart up to line order, or their texts are a collision of
    SHA-256; and line order never matters for a cart with distinct products. *)
Theorem idempotencyKey_identifies u1 u2 items1 items2 :
  NoDup (product_ids items1) → NoDup (product_ids items2) →
  (idempotencyKey u1 items1 = idempotencyKey u2 items2 →
     (u1 = u2 ∧ items1 ≡ₚ items2)
     ∨ (cart_text u1 items1 ≠ cart_text u2 items2
        ∧ sha256 (cart_text u1 items1) = sha256 (cart_text u2 items2)))
  ∧ (u1 = u2 → items1 ≡ₚ items2 → idempotencyKey u1 items1 = idempotencyKey u2 items2).
Proof.
  intros Hn1 Hn2. split.
  - intros E%hex_sha256_inj.
    destruct (decide (cart_text u1 items1 = cart_text u2 items2)) as [Et|Ht]; [left|by right].
    by apply cart_text_inj.
  - intros -> Hp. by apply idempotencyKey_perm.
Qed.

(** ** Witnesses *)

(** A processor that records what it was handed. *)
#[export] Instance recorder : OrderProcessor (list Z) := {| Process id := λ q, ((), q ++ [id]) |}.

Definition demo_shop : Type := World RefDb RefRedis (list Z).
Definition demo_world (d : RefDb) (plan : list (Z * redis_fault)) : demo_shop :=
  mkWorld d (mkRefRedis ∅ 0 plan) [].
Definition demo_cart : list OrderItemRequest :=
  [mkOrderItemRequest 20 1; mkOrderItemRequest 10 2].
Definition demo_cart' : list OrderItemRequest :=
  [mkOrderItemRequest 10 2; mkOrderItemRequest 20 1].
Definition demo_call (uuid : string) (items : list OrderItemRequest) (w : demo_shop)
  : res OrderResponse * demo_shop :=
  orderService_CreateOrder uuid 1 (mkCreateOrderRequest items) w.
Definition no_response : OrderResponse :=
  mkOrderResponse 0 0 OrderStatusPending f64_zero [] 0 0.

Definition demo_accepted : res OrderResponse * demo_shop :=
  demo_call "key-1" demo_cart (demo_world demo []).

Lemma demo_cart_distinct : NoDup (product_ids demo_cart).
Proof. apply (bool_decide_unpack _). evaluate. Qed.

Lemma CreateOrder_accepts_witness :
  OrderResponse_TotalPrice (ok_or no_response demo_accepted.1) = price_of 170
  ∧ world_queue demo_accepted.2 = [OrderResponse_ID (ok_or no_response demo_accepted.1)]
  ∧ stock (view (world_db demo_accepted.2)) 10 = 3
  ∧ (λ kp, Payment_Amount kp.2) <$> map_to_list (Tables_payments (view (world_db demo_accepted.2)))
    = [price_of 170]
  ∧ ∃ lines id, order_written (view demo) (view (world_db demo_accepted.2)) "key-1" 1 lines id.
Proof.
  split; [evaluate|]. split; [evaluate|]. split; [evaluate|]. split; [evaluate|].
  destruct (CreateOrder_accepts "key-1" 1 (mkCreateOrderRequest demo_cart) (demo_world demo [])
    (ok_or no_response demo_accepted.1) demo_accepted.2)
    as (lines & o & p & _ & _ & _ & _ & Hw & _);
    [apply demo_consistent|evaluate|exists lines, (Order_ID o); exact Hw].
Defined.

(** A line larger than the shelf. *)
Definition demo_refused : res OrderResponse * demo_shop :=
  demo_call "key-1" [mkOrderItemRequest 20 9; mkOrderItemRequest 10 2] (demo_world demo []).

Lemma CreateOrder_refuses_witness :
  demo_refused.1 = Err (InsufficientStockError 20)
  ∧ world_queue demo_refused.2 = []
  ∧ view (world_db demo_refused.2) = view demo.
Proof.
  split; [evaluate|].
  destruct (CreateOrder_refuses "key-1" 1
    (mkCreateOrderRequest [mkOrderItemRequest 20 9; mkOrderItemRequest 10 2])
    (demo_world demo []) (InsufficientStockError 20) demo_refused.2) as [Hq Hc].
  - apply demo_consistent.
  - intros item [->|[->|[]%not_elem_of_nil]%elem_of_cons]%elem_of_cons; done.
  - evaluate.
  - split; [exact Hq|].
    destruct Hc as [([=] & _)|[([=] & _)|[[(p & [=] & _)|[(item & _ & _ & _ & HT)|[([=] & _)|([=] & _)]]] _]]].
    exact HT.
Defined.

(** One minute later the same cart, lines swapped. *)
Definition demo_repeat : res OrderResponse * demo_shop :=
  demo_call "key-2" demo_cart'
    (mkWorld (world_db demo_accepted.2)
       (mkRefRedis (rr_keys (world_store demo_accepted.2)) 0 [(Minute, NoFault)])
       (world_queue demo_accepted.2)).

Lemma CreateOrder_dedup_witness :
  demo_repeat.1 = Err ErrDuplicateOrder ∧ world_queue demo_repeat.2 = world_queue demo_accepted.2.
Proof.
  destruct (CreateOrder_dedup "key-1" "key-2" 1 (mkCreateOrderRequest demo_cart)
    (mkCreateOrderRequest demo_cart') (demo_world demo []) (ok_or no_response demo_accepted.1)
    demo_accepted.2
    (mkWorld (world_db demo_accepted.2)
       (mkRefRedis (rr_keys (world_store demo_accepted.2)) 0 [(Minute, NoFault)])
       (world_queue demo_accepted.2))
    demo_repeat.1 demo_repeat.2) as (Hr & _ & Hq);
    [evaluate|evaluate|apply Permutation_swap|evaluate|evaluate| |
     evaluate|by split].
  apply surjective_pairing.
Defined.

(** After an accepted order, the store drops the next reservation attempt, and that
    request fails for lack of stock: its release frees the first order's key, and a third
    submission of the cart is accepted a moment later. *)
Definition demo_plan : list (Z * redis_fault) :=
  [(0, NoFault); (Second, LostRequest); (0, NoFault); (Second, NoFault)].
Definition demo_first : res OrderResponse * demo_shop :=
  demo_call "key-1" demo_cart (demo_world demo demo_plan).
(** The second attempt meets an engine that is down for one statement. *)
Definition demo_outage : demo_shop :=
  mkWorld (ref_set_faults [true] (world_db demo_first.2)) (world_store demo_first.2)
    (world_queue demo_first.2).
Definition demo_second : res OrderResponse * demo_shop := demo_call "key-2" demo_cart demo_outage.
Definition demo_third : res OrderResponse * demo_shop :=
  demo_call "key-3" demo_cart demo_second.2.

Definition redis_error' : error :=
  Wrapf ("redis reserve " +:+ Quote (idempotencyKey 1 demo_cart)) redis_error.

Lemma CreateOrder_releases_unowned_witness :
  let key := idempotencyKey 1 demo_cart in
  is_ok demo_first.1 = true
  ∧ store_keys (world_store demo_first.2) !! key = Some idempotencyTTL
  ∧ store_keys (world_store demo_second.2) !! key = None
  ∧ is_ok demo_third.1 = true
  ∧ length (world_queue demo_third.2) = 2%nat
  ∧ store_now (world_store demo_third.2) = 2 * Second.
Proof.
  split; [evaluate|]. split; [evaluate|]. split; [|repeat split; evaluate].
  apply (CreateOrder_releases_unowned "key-2" 1 (mkCreateOrderRequest demo_cart) demo_outage
    redis_error' (Reserve (idempotencyKey 1 demo_cart) idempotencyTTL
       (world_store demo_outage)).2
    (world_store demo_second.2) (OtherError "connection reset") demo_second.2);
    [apply demo_cart_distinct|evaluate..].
Defined.

Lemma idempotencyKey_identifies_witness :
  idempotencyKey 1 demo_cart = idempotencyKey 1 demo_cart'.
Proof.
  apply (idempotencyKey_identifies 1 1 demo_cart demo_cart'); [apply demo_cart_distinct| |done|].
  - apply (bool_decide_unpack _). evaluate.
  - apply Permutation_swap.
Defined.
