(* ===== verification/Config.v ===== *)
(** * Configuration ([internal/config/config.go])

    The configuration structs and [Load]. The configuration library is not part of the
    program: it is a record of what each typed getter finds in the environment or the
    optional [.env] file, [None] where the key is unset and the default applies. *)

From Stdlib Require Import ZArith Lia SpecFloat.
From stdpp Require Import base tactics strings.
From S2P Require Import Prelude GoStd Errors.

Open Scope Z_scope.

Record ServerConfig : Type := mkServerConfig {
  ServerConfig_Host : string;
  ServerConfig_Port : Z;
}.

Record DatabaseConfig : Type := mkDatabaseConfig {
  DatabaseConfig_Host : string;
  DatabaseConfig_Port : Z;
  DatabaseConfig_User : string;
  DatabaseConfig_Password : string;
  DatabaseConfig_Name : string;
  DatabaseConfig_SSLMode : string;
}.

Record RedisConfig : Type := mkRedisConfig {
  RedisConfig_Host : string;
  RedisConfig_Port : Z;
  RedisConfig_Password : string;
  RedisConfig_DB : Z;
}.

Record LoggerConfig : Type := mkLoggerConfig {
  LoggerConfig_Level : string;
  LoggerConfig_Format : string;
}.

Record JWTConfig : Type := mkJWTConfig {
  JWTConfig_Secret : string;
  JWTConfig_TTL : Z;
}.

Record WorkerConfig : Type := mkWorkerConfig {
  Count_ : Z;
  QueueSize : Z;
  MaxRetries : Z;
  BaseBackoff : Z;
  MaxBackoff : Z;
  AttemptTimeout : Z;
  SweepInterval : Z;
  StaleAfter : Z;
  SweepBatchSize : Z;
  GatewayFailureRate : float64;
  ShutdownTimeout : Z;
}.

Record Config : Type := mkConfig {
  Config_Server : ServerConfig;
  Config_Database : DatabaseConfig;
  Config_Redis : RedisConfig;
  Config_Logger : LoggerConfig;
  Config_JWT : JWTConfig;
  Config_Worker : WorkerConfig;
}.

(** What the getters of the configuration library find set. *)
Record Viper : Type := mkViper {
  viper_string : string → option string;
  viper_int : string → option Z;
  viper_duration : string → option Z;
  viper_float64 : string → option float64;
}.

Definition Hour : Z := 60 * Minute.
(** The binary64 number nearest to 0.2. *)
Definition one_fifth : float64 := S754_finite false 7205759403792794 (-55).

Section load.
Variable v : Viper.

Definition GetString (key default_ : string) : string := default default_ (viper_string v key).
Definition GetInt (key : string) (default_ : Z) : Z := default default_ (viper_int v key).
Definition GetDuration (key : string) (default_ : Z) : Z :=
  default default_ (viper_duration v key).
Definition GetFloat64 (key : string) (default_ : float64) : float64 :=
  default default_ (viper_float64 v key).

Definition Load : res Config :=
  let cfg := {|
    Config_Server := {|
      ServerConfig_Host := GetString "SERVER_HOST" "0.0.0.0";
      ServerConfig_Port := GetInt "SERVER_PORT" 8080 |};
    Config_Database := {|
      DatabaseConfig_Host := GetString "DB_HOST" "localhost";
      DatabaseConfig_Port := GetInt "DB_PORT" 5432;
      DatabaseConfig_User := GetString "DB_USER" "postgres";
      DatabaseConfig_Password := GetString "DB_PASSWORD" "password";
      DatabaseConfig_Name := GetString "DB_NAME" "order_processing";
      DatabaseConfig_SSLMode := GetString "DB_SSLMODE" "disable" |};
    Config_Redis := {|
      RedisConfig_Host := GetString "REDIS_HOST" "localhost";
      RedisConfig_Port := GetInt "REDIS_PORT" 6379;
      RedisConfig_Password := GetString "REDIS_PASSWORD" "";
      RedisConfig_DB := GetInt "REDIS_DB" 0 |};
    Config_Logger := {|
      LoggerConfig_Level := GetString "LOG_LEVEL" "info";
      LoggerConfig_Format := GetString "LOG_FORMAT" "json" |};
    Config_JWT := {|
      JWTConfig_Secret := GetString "JWT_SECRET" "dev-insecure-secret-change-me";
      JWTConfig_TTL := GetDuration "JWT_TTL" (24 * Hour) |};
    Config_Worker := {|
      Count_ := GetInt "WORKER_COUNT" 5;
      QueueSize := GetInt "WORKER_QUEUE_SIZE" 256;
      MaxRetries := GetInt "WORKER_MAX_RETRIES" 3;
      BaseBackoff := GetDuration "WORKER_BASE_BACKOFF" (200 * Millisecond);
      MaxBackoff := GetDuration "WORKER_MAX_BACKOFF" (5 * Second);
      AttemptTimeout := GetDuration "WORKER_ATTEMPT_TIMEOUT" (5 * Second);
      SweepInterval := GetDuration "WORKER_SWEEP_INTERVAL" (30 * Second);
      StaleAfter := GetDuration "WORKER_STALE_AFTER" Minute;
      SweepBatchSize := GetInt "WORKER_SWEEP_BATCH_SIZE" 100;
      GatewayFailureRate := GetFloat64 "WORKER_GATEWAY_FAILURE_RATE" one_fifth;
      ShutdownTimeout := GetDuration "SHUTDOWN_TIMEOUT" (10 * Second) |}
  |} in
  if ServerConfig_Port (Config_Server cfg) =? 0
  then Err (OtherError "SERVER_PORT must be set")
  else Ok cfg.
End load.

(** Nothing set: the defaults. *)
Definition no_env : Viper := mkViper (λ _, None) (λ _, None) (λ _, None) (λ _, None).
Definition default_worker : WorkerConfig :=
  mkWorkerConfig 5 256 3 (200 * Millisecond) (5 * Second) (5 * Second) (30 * Second) Minute
    100 one_fifth (10 * Second).

(** Loading fails in exactly one way, and with an empty environment gives the defaults. *)
Lemma Load_spec v :
  match Load v with
  | Ok cfg => ServerConfig_Port (Config_Server cfg) ≠ 0
  | Err e => e = OtherError "SERVER_PORT must be set" ∧ viper_int v "SERVER_PORT" = Some 0
  end.
Proof.
  unfold Load. cbn. destruct (_ =? 0) eqn:E; cbn; bool_to_prop; [|done]. split; [done|].
  unfold GetInt in E. destruct (viper_int v _); cbn in E; congruence.
Qed.

Lemma Load_default :
  match Load no_env with Ok cfg => Config_Worker cfg = default_worker | Err _ => False end.
Proof. done. Qed.
