(* ===== verification/Gateway.v ===== *)
(** * The payment gateway ([internal/payment])

    The [Gateway] interface and [fakeGateway], the implementation the server wires in.
    What a call draws from outside (the random numbers, the identifier, whether the
    context ended before the simulated latency) is one [Draw] per call. The mutex makes
    the part after the latency one atomic step. *)

From Stdlib Require Import ZArith Lia SpecFloat.
From stdpp Require Import base tactics gmap strings.
From S2P Require Import Prelude GoStd Errors.

Open Scope Z_scope.

Record ChargeRequest : Type := mkChargeRequest {
  ChargeRequest_IdempotencyKey : string;
  ChargeRequest_OrderID : Z;
  ChargeRequest_Amount : float64;
}.

Record ChargeResult : Type := mkChargeResult { TransactionID : string }.

(** [type Gateway interface] *)
Class Gateway (W : Type) : Type := { Charge : ChargeRequest → M W (res ChargeResult) }.

Record Draw : Type := mkDraw {
  draw_intn : Z;               (* [rng.Intn(200)] *)
  draw_cancelled : option error; (* [ctx.Err()], when [ctx.Done()] won the select *)
  draw_float : float64;        (* [rng.Float64()] *)
  draw_uuid : string;          (* [uuid.NewString()] *)
}.

Record fakeGateway : Type := mkFakeGateway {
  failureRate : float64;
  charged : gmap string ChargeResult;
  calls : nat;
  draws : nat → Draw;
}.

Definition f64_one : float64 := f64_of_int 1.

Definition clamp_rate (rate : float64) : float64 :=
  let rate := if f64_lt rate f64_zero then f64_zero else rate in
  if f64_lt f64_one rate then f64_one else rate.

Definition NewFakeGateway (rate : float64) (env : nat → Draw) : fakeGateway :=
  mkFakeGateway (clamp_rate rate) ∅ 0 env.

(** [time.Duration(50+g.rng.Intn(200)) * time.Millisecond] *)
Definition fakeGateway_latency (d : Draw) : Z := wrap64 (wrap64 (50 + draw_intn d) * Millisecond).

Definition fakeGateway_Charge (req : ChargeRequest) : M fakeGateway (res ChargeResult) := λ g,
  let d := draws g (calls g) in
  let g := mkFakeGateway (failureRate g) (charged g) (S (calls g)) (draws g) in
  match draw_cancelled d with
  | Some err => (Err err, g)
  | None =>
      match charged g !! ChargeRequest_IdempotencyKey req with
      | Some r => (Ok r, g)
      | None =>
          if f64_lt (draw_float d) (failureRate g) then
            (Err (OtherError ("payment gateway: transient failure charging order "
                              +:+ Itoa (ChargeRequest_OrderID req))), g)
          else
            let r := mkChargeResult ("txn_" +:+ draw_uuid d) in
            (Ok r, mkFakeGateway (failureRate g)
                     (<[ChargeRequest_IdempotencyKey req := r]> (charged g))
                     (calls g) (draws g))
      end
  end.

#[export] Instance fake_gateway : Gateway fakeGateway := {| Charge := fakeGateway_Charge |}.

(** ** The contract of a gateway: a ledger of charges, one per key *)
Class LawfulGateway (G : Type) `{Gateway G} : Type := {
  charges : G → gmap string ChargeResult;
  Charge_law : ∀ req g r g',
    Charge req g = (r, g') →
    match r with
    | Ok a => charges g' = <[ChargeRequest_IdempotencyKey req := a]> (charges g)
              ∧ (∀ b, charges g !! ChargeRequest_IdempotencyKey req = Some b → a = b)
    | Err e => charges g' = charges g
    end;
}.

#[export] Instance fake_gateway_lawful : LawfulGateway fakeGateway.
Proof.
  refine {| charges := charged |}. intros req g r g'. cbn. unfold fakeGateway_Charge.
  destruct (draw_cancelled _); [by intros [= <- <-]|]. cbn.
  destruct (charged g !! _) as [b|] eqn:Eb.
  - intros [= <- <-]. cbn. split; [by rewrite insert_id|]. intros b' [= <-]. done.
  - destruct (f64_lt _ _); intros [= <- <-]; [done|]. cbn. done.
Defined.

Section gateway_lemmas.
Context `{LawfulGateway G}.

(** A charge that was made is never made again, changed or lost. *)
Lemma Charge_keeps req g r g' key a :
  Charge req g = (r, g') → charges g !! key = Some a → charges g' !! key = Some a.
Proof.
  intros Hr Ha. apply Charge_law in Hr. destruct r as [b|e]; [|by rewrite Hr].
  destruct Hr as [-> Hb].
  destruct (decide (ChargeRequest_IdempotencyKey req = key)) as [<-|Hne].
  - rewrite lookup_insert_eq. f_equal. auto.
  - by rewrite lookup_insert_ne.
Qed.

Lemma Charge_ok req g a g' :
  Charge req g = (Ok a, g') → charges g' !! ChargeRequest_IdempotencyKey req = Some a.
Proof. intros Hr. apply Charge_law in Hr as [-> _]. apply lookup_insert_eq. Qed.

(** Only the key of the request can be affected. *)
Lemma Charge_only req g r g' key :
  Charge req g = (r, g') → key ≠ ChargeRequest_IdempotencyKey req →
  charges g' !! key = charges g !! key.
Proof.
  intros Hr Hne. apply Charge_law in Hr. destruct r as [b|e]; [|by rewrite Hr].
  destruct Hr as [-> _]. by rewrite lookup_insert_ne.
Qed.
End gateway_lemmas.

(** The simulated latency, in nanoseconds, for what [Intn(200)] can return. *)
Lemma latency_bounds d :
  0 ≤ draw_intn d < 200 → 50 * Millisecond ≤ fakeGateway_latency d < 250 * Millisecond.
Proof.
  intros Hd. unfold fakeGateway_latency, Millisecond.
  rewrite (wrap64_id (50 + _)), wrap64_id; unfold min_int, max_int; lia.
Qed.
