(* ===== verification/Notification.v ===== *)
(** * Notifications ([internal/services/notification.go], [internal/dto/notification.go])

    [Send]: record a pending row, push the event to the order's live subscribers, mark
    the row by the outcome. The event is JSON text; a decoder for it shows what a client
    gets from the wire. *)

From Stdlib Require Import ZArith Lia Ascii.
From stdpp Require Import base tactics list gmap strings.
From S2P Require Import Prelude GoStd Json Errors Models Database Repositories.

Open Scope Z_scope.

(** ** The wire format *)
Definition NewNotificationEvent (n : Notification) : NotificationEvent :=
  mkNotificationEvent (Notification_ID n) (Notification_OrderID n) (Notification_Message n).

Definition json_field (name value : string) : string := json_string name +:+ ":" +:+ value.

(** [func (e NotificationEvent) JSON() []byte] *)
Definition NotificationEvent_JSON (e : NotificationEvent) : string :=
  "{" +:+ json_field "id" (Itoa (NotificationEvent_ID e)) +:+ ","
  +:+ json_field "order_id" (Itoa (NotificationEvent_OrderID e)) +:+ ","
  +:+ json_field "message" (json_string (NotificationEvent_Message e)) +:+ "}".

(** What goes over the wire for a row: [dto.NewNotificationEvent(n).JSON()]. *)
Definition event (n : Notification) : string := NotificationEvent_JSON (NewNotificationEvent n).

(** ** [notificationService] *)

(** [type NotificationStore interface]: what it asks of the notification repository. *)
Class NotificationStore (W : Type) : Type := {
  NotificationStore_Create : Notification → M W (res Notification);
  NotificationStore_MarkSent : Z → M W (res unit);
  NotificationStore_MarkFailed : Z → M W (res unit);
}.
#[export] Instance notifications_store `{NotificationRepository W} : NotificationStore W := {|
  NotificationStore_Create := repo_CreateNotification;
  NotificationStore_MarkSent := MarkSent;
  NotificationStore_MarkFailed := MarkFailed;
|}.

(** [type Notifier interface] *)
Class Notifier (W : Type) : Type := { Notify : Z → string → M W bool }.
(** [type NotificationService interface]; the fulfiller calls it [NotificationSender]. *)
Class NotificationSender (W : Type) : Type := { Send : Z → string → M W unit }.

Section service.
Context `{NotificationStore W, Notifier W}.

(** [store] errors are only logged. *)
Definition notificationService_Send (orderID : Z) (message : string) : M W unit :=
  let n := mkNotification 0 orderID message NotificationStatusPending 0 None in
  created ← NotificationStore_Create n;
  match created with
  | Err _ => mret ()
  | Ok n =>
      delivered ← Notify orderID (event n);
      _ ← (if delivered : bool then NotificationStore_MarkSent (Notification_ID n)
           else NotificationStore_MarkFailed (Notification_ID n));
      mret ()
  end.
End service.

(** Not an instance by default: it is chosen where the server is assembled. *)
Definition notificationService `{NotificationStore W, Notifier W} : NotificationSender W :=
  {| Send := notificationService_Send |}.

(** ** Decoding the wire format *)
Fixpoint strip_prefix (p s : string) : option string :=
  match p, s with
  | EmptyString, _ => Some s
  | String a p', String b s' => if Ascii.eqb a b then strip_prefix p' s' else None
  | _, _ => None
  end.

Definition decode_event (s : string) : option NotificationEvent :=
  s ← strip_prefix ("{" +:+ json_string "id" +:+ ":") s;
  '(id, s) ← Cut s ",";
  id ← Atoi id;
  s ← strip_prefix (json_string "order_id" +:+ ":") s;
  '(oid, s) ← Cut s ",";
  oid ← Atoi oid;
  s ← strip_prefix (json_string "message" +:+ ":" +:+ String dquote "") s;
  '(msg, s) ← json_read (S (String.length s)) s;
  if bool_decide (s = "}"%string) then Some (mkNotificationEvent id oid msg) else None.

Lemma strip_prefix_append p s : strip_prefix p (p +:+ s) = Some s.
Proof.
  induction p as [|c p IH]; [done|]. rewrite append_cons. cbn. by rewrite Ascii.eqb_refl.
Qed.

Lemma Cut_append s sep rest :
  lacks sep s = true → Cut (s +:+ String sep rest) sep = Some (s, rest).
Proof.
  induction s as [|c s IH]; intros Hs; rewrite ?append_nil, ?append_cons; cbn in Hs |- *.
  - by rewrite Ascii.eqb_refl.
  - bool_to_prop. rewrite IH by done. by destruct (Ascii.eqb c sep).
Qed.
