(* ===== verification/Fulfillment.v ===== *)
(** * The fulfiller ([internal/services/fulfillment.go])

    [Fulfill] loads the pending payment, charges it with bounded retries, and takes the
    order to its terminal state. Timers and random numbers come from the interface
    [Runtime]; the timeouts of the calls are the callees' errors. *)

From Stdlib Require Import ZArith Lia.
From stdpp Require Import base tactics list gmap strings.
From S2P Require Import Prelude GoStd Errors Models OrderRepository Repositories Config.
From S2P Require Import Gateway Notification.

Open Scope Z_scope.

(** [type OrderStore interface], [type PaymentStore interface]: what the fulfiller asks of
    the order repository, which satisfies both. *)
Class OrderStore (W : Type) : Type := {
  OrderStore_GetPendingByOrderID : Z → M W (res Payment);
  OrderStore_FailCancelAndRestock : Payment → M W (res bool);
}.
Class PaymentStore (W : Type) : Type := {
  PaymentStore_MarkPaidAndConfirm : Payment → string → M W (res bool);
}.
#[export] Instance orders_store `{OrderRepository W} : OrderStore W := {|
  OrderStore_GetPendingByOrderID := GetPendingByOrderID;
  OrderStore_FailCancelAndRestock := FailCancelAndRestock;
|}.
#[export] Instance orders_payments `{OrderRepository W} : PaymentStore W :=
  {| PaymentStore_MarkPaidAndConfirm := MarkPaidAndConfirm |}.

(** [time.Sleep] and [rand.Int63n]. *)
Class Runtime (W : Type) : Type := {
  Sleep : Z → M W unit;
  Int63n : Z → M W Z;
}.

(** The part of [backoff] before the jitter: the doubling delay and its cap. *)
Definition backoff_base (cfg : WorkerConfig) (attempt : Z) : Z :=
  let d := shl64 (BaseBackoff cfg) (attempt - 1) in
  if (d <=? 0) || (MaxBackoff cfg <? d) then MaxBackoff cfg else d.

Definition charge_request (pay : Payment) : ChargeRequest :=
  mkChargeRequest (Payment_IdempotencyKey pay) (Payment_OrderID pay) (Payment_Amount pay).

Definition cancelled_message (orderID : Z) : string :=
  "Order #" +:+ Itoa orderID +:+ " was cancelled: payment could not be processed.".
Definition confirmed_message (orderID : Z) : string :=
  "Order #" +:+ Itoa orderID +:+ " is confirmed. Payment received.".

Section fulfiller.
Context `{OrderStore W, PaymentStore W, Gateway W, NotificationSender W, Runtime W}.
Variable cfg : WorkerConfig.

Definition Fulfiller_backoff (attempt : Z) : M W Z :=
  let d := backoff_base cfg attempt in
  let half := Z.quot d 2 in
  if half <=? 0 then mret d
  else r ← Int63n (wrap64 (half + 1)); mret (wrap64 (half + r)).

(** The retry loop: [left_] attempts remain, [attempt] is the next one's number. *)
Fixpoint charge_loop (req : ChargeRequest) (left_ : nat) (attempt : Z) (lastErr : option error)
  : M W (res ChargeResult) :=
  match left_ with
  | O => mret (match lastErr with
               | Some err => Err err
               | None => Ok (mkChargeResult "")
               end)
  | S left_ =>
      r ← Charge req;
      match r with
      | Ok res => mret (Ok res)
      | Err err =>
          _ ← (if attempt <? MaxRetries cfg
               then d ← Fulfiller_backoff attempt; Sleep d
               else mret ());
          charge_loop req left_ (attempt + 1) (Some err)
      end
  end.

(** [for attempt := 1; attempt <= MaxRetries; attempt++] runs [MaxRetries] times, or not
    at all: then the function returns the zero result and a nil error. *)
Definition Fulfiller_charge (pay : Payment) : M W (res ChargeResult) :=
  charge_loop (charge_request pay) (Z.to_nat (MaxRetries cfg)) 1 None.

(** What follows the charge. *)
Definition finalize (orderID : Z) (pay : Payment) (charge : res ChargeResult) : M W unit :=
  match charge with
  | Err _ =>
      transitioned ← OrderStore_FailCancelAndRestock pay;
      match transitioned with
      | Ok true => Send orderID (cancelled_message orderID)
      | _ => mret ()
      end
  | Ok result =>
      transitioned ← PaymentStore_MarkPaidAndConfirm pay (TransactionID result);
      match transitioned with
      | Ok true => Send orderID (confirmed_message orderID)
      | _ => mret ()
      end
  end.

(** Errors of the first step, [ErrNoPendingPayment] or a database error, both return. *)
Definition Fulfiller_Fulfill (orderID : Z) : M W unit :=
  pay ← OrderStore_GetPendingByOrderID orderID;
  match pay with
  | Err _ => mret ()
  | Ok pay => charge ← Fulfiller_charge pay; finalize orderID pay charge
  end.
End fulfiller.

(** ** The state a fulfiller works on: an engine, a gateway, a notifier and a runtime *)
Record FWorld (D G N R : Type) : Type := mkFWorld {
  f_db : D;
  f_gateway : G;
  f_notifier : N;
  f_runtime : R;
}.
Arguments mkFWorld {D G N R}.
Arguments f_db {D G N R}.
Arguments f_gateway {D G N R}.
Arguments f_notifier {D G N R}.
Arguments f_runtime {D G N R}.

Section fworld.
Context {D G N R : Type}.

Definition in_db {A} : M D A → M (FWorld D G N R) A :=
  on f_db (λ d w, mkFWorld d (f_gateway w) (f_notifier w) (f_runtime w)).
Definition in_gateway {A} : M G A → M (FWorld D G N R) A :=
  on f_gateway (λ g w, mkFWorld (f_db w) g (f_notifier w) (f_runtime w)).
Definition in_notifier {A} : M N A → M (FWorld D G N R) A :=
  on f_notifier (λ n w, mkFWorld (f_db w) (f_gateway w) n (f_runtime w)).
Definition in_runtime {A} : M R A → M (FWorld D G N R) A :=
  on f_runtime (λ r w, mkFWorld (f_db w) (f_gateway w) (f_notifier w) r).

#[export] Instance fworld_orders `{OrderRepository D} : OrderRepository (FWorld D G N R) := {|
  repo_CreateOrder order payment := in_db (repo_CreateOrder order payment);
  GetPendingByOrderID id := in_db (GetPendingByOrderID id);
  GetOrderUserID id := in_db (GetOrderUserID id);
  MarkPaidAndConfirm payment txn := in_db (MarkPaidAndConfirm payment txn);
  FailCancelAndRestock payment := in_db (FailCancelAndRestock payment);
  ListStalePending now older limit := in_db (ListStalePending now older limit);
|}.
#[export] Instance fworld_gateway `{Gateway G} : Gateway (FWorld D G N R) :=
  {| Charge req := in_gateway (Charge req) |}.
#[export] Instance fworld_notes `{NotificationRepository D} :
  NotificationRepository (FWorld D G N R) := {|
  repo_CreateNotification n := in_db (repo_CreateNotification n);
  MarkSent id := in_db (MarkSent id);
  MarkFailed id := in_db (MarkFailed id);
  ListByOrder id := in_db (ListByOrder id);
|}.
#[export] Instance fworld_notifier `{Notifier N} : Notifier (FWorld D G N R) :=
  {| Notify id payload := in_notifier (Notify id payload) |}.
(** The server passes the notification service as the fulfiller's sender. *)
#[export] Instance fworld_sender `{NotificationRepository D, Notifier N} :
  NotificationSender (FWorld D G N R) := notificationService.
#[export] Instance fworld_runtime `{Runtime R} : Runtime (FWorld D G N R) := {|
  Sleep d := in_runtime (Sleep d);
  Int63n n := in_runtime (Int63n n);
|}.
End fworld.

(** ** Backoff *)

(** The specification: the base delay doubled per attempt, up to the cap. *)
Definition backoff_spec (cfg : WorkerConfig) (attempt : Z) : Z :=
  Z.min (BaseBackoff cfg * 2 ^ (attempt - 1)) (MaxBackoff cfg).

Lemma backoff_base_bounds cfg attempt :
  0 < MaxBackoff cfg → 0 < backoff_base cfg attempt ≤ MaxBackoff cfg.
Proof.
  intros Hm. unfold backoff_base.
  destruct ((_ <=? 0) || (_ <? _)) eqn:E; [lia|]. bool_to_prop. lia.
Qed.

(** The shift can wrap to a small positive number only after the true delay passed
    [2 ^ 63]; until the attempt where it passes the cap, it is exact. *)
Lemma backoff_base_exact cfg attempt :
  0 < BaseBackoff cfg → 1 ≤ attempt → BaseBackoff cfg * 2 ^ (attempt - 1) ≤ max_int →
  backoff_base cfg attempt = backoff_spec cfg attempt.
Proof.
  intros Hb Ha Hle. unfold backoff_base, backoff_spec.
  rewrite shl64_small by lia.
  assert (0 < 2 ^ (attempt - 1)) by (apply Z.pow_pos_nonneg; lia).
  destruct ((_ <=? 0) || (_ <? _)) eqn:E; bool_to_prop; [|lia].
  apply orb_true_iff in E as [E|E]; bool_to_prop; [nia|lia].
Qed.
