(* ===== verification/NotificationSpec.v ===== *)
(** * Properties of the notification service *)

From Stdlib Require Import ZArith Lia Ascii DecimalString.
From stdpp Require Import base tactics list gmap strings.
From S2P Require Import Prelude GoStd Json Errors Models Database RefDb Repositories Ledger.
From S2P Require Import LedgerSpec Notification Fulfillment.

Open Scope Z_scope.

(** The digits of a number are ASCII, and so are the fulfiller's messages. *)
Lemma Itoa_plain z : all_bytes plain_byte (Itoa z) = true.
Proof.
  assert (∀ u, all_bytes plain_byte (NilEmpty.string_of_uint u) = true) as Hu.
  { induction u; cbn; auto. }
  assert (∀ u, all_bytes plain_byte (NilZero.string_of_uint u) = true) as Hz.
  { intros u. destruct u; [done|apply (Hu (_ _))..]. }
  unfold Itoa, NilZero.string_of_int. destruct (Z.to_int z); cbn; by rewrite Hz.
Qed.

Lemma messages_valid orderID :
  valid_utf8 (confirmed_message orderID) = true ∧ valid_utf8 (cancelled_message orderID) = true.
Proof.
  split; apply ascii_valid; unfold confirmed_message, cancelled_message;
    rewrite !all_bytes_app, Itoa_plain; reflexivity.
Qed.

(** C31. What a subscriber reads of a notification: the JSON of its event, the same for a
    live push and for a replay, decodes to the row's id, its order's id and its message,
    with U+FFFD in place of any byte of it that is no UTF-8. A message that is UTF-8, which
    every message of the fulfiller is, comes through byte for byte, quotes, controls and
    escapes included. *)
Theorem NotificationEvent_JSON_roundtrip n :
  in_int (Notification_ID n) = true → in_int (Notification_OrderID n) = true →
  decode_event (event n)
  = Some (mkNotificationEvent (Notification_ID n) (Notification_OrderID n)
            (to_utf8 (Notification_Message n)))
  ∧ (valid_utf8 (Notification_Message n) = true →
       to_utf8 (Notification_Message n) = Notification_Message n)
  ∧ ∀ orderID, valid_utf8 (confirmed_message orderID) = true
      ∧ valid_utf8 (cancelled_message orderID) = true.
Proof.
  intros Hid Hoid. split_and!; [|apply to_utf8_valid|apply messages_valid].
  destruct n as [id oid msg status created sent]. cbn in Hid, Hoid. unfold decode_event.
  replace (event _) with
    (("{" +:+ json_string "id" +:+ ":") +:+ (Itoa id +:+ String ","
      ((json_string "order_id" +:+ ":") +:+ (Itoa oid +:+ String ","
        ((json_string "message" +:+ ":" +:+ String dquote "") +:+ (json_chars msg +:+ "}"))))))
    by reflexivity.
  assert (∀ z, lacks "," (Itoa z) = true) as Hcomma by (intros; by apply lacks_Itoa).
  do 2 (rewrite strip_prefix_append; cbn [mbind option_bind];
        rewrite Cut_append by apply Hcomma; cbn [mbind option_bind];
        rewrite Atoi_Itoa by done; cbn [mbind option_bind]).
  rewrite strip_prefix_append. cbn [mbind option_bind].
  rewrite json_read_chars. cbn [mbind option_bind].
  by rewrite bool_decide_eq_true_2.
Qed.

(** ** A database and a notifier side by side *)
Section notify_world.
Context {D N : Type}.

Definition note_db {A} : M D A → M (D * N) A := on fst (λ d w, (d, w.2)).
Definition note_live {A} : M N A → M (D * N) A := on snd (λ n w, (w.1, n)).

#[export] Instance note_repository `{NotificationRepository D} : NotificationRepository (D * N) := {|
  repo_CreateNotification n := note_db (repo_CreateNotification n);
  MarkSent id := note_db (MarkSent id);
  MarkFailed id := note_db (MarkFailed id);
  ListByOrder id := note_db (ListByOrder id);
|}.

#[export] Instance note_notifier `{Notifier N} : Notifier (D * N) := {|
  Notify id payload := note_live (Notify id payload);
|}.
Lemma note_db_inv {A} (m : M D A) d n a d' n' :
  note_db m (d, n) = (a, (d', n')) → m d = (a, d') ∧ n' = n.
Proof. unfold note_db, on. cbn. destruct (m d). by intros [= <- <- <-]. Qed.

Lemma note_live_inv {A} (m : M N A) d n a d' n' :
  note_live m (d, n) = (a, (d', n')) → m n = (a, n') ∧ d' = d.
Proof. unfold note_live, on. cbn. destruct (m n). by intros [= <- <- <-]. Qed.
End notify_world.

(** The row [Send] adds, with its status and [sent_at]. *)
Record recorded (T T' : Tables) (orderID : Z) (message : string) (id : Z)
  (says : NotificationStatus → option Time → Prop) : Prop := {
  recorded_fresh : 0 < id ∧ Tables_notifications T !! id = None;
  recorded_row : ∃ row,
    T' = set_rows notifications (<[id := row]> (Tables_notifications T)) T
    ∧ Notification_ID row = id ∧ Notification_OrderID row = orderID
    ∧ Notification_Message row = message
    ∧ says (Notification_Status row) (Notification_SentAt row);
}.

(** What the row says before its outcome is known, and after. *)
Definition undecided (s : NotificationStatus) (sent : option Time) : Prop :=
  s = NotificationStatusPending ∧ sent = None.
Definition decided (delivered : bool) (s : NotificationStatus) (sent : option Time) : Prop :=
  if delivered then s = NotificationStatusSent ∧ is_Some sent
  else s = NotificationStatusFailed ∧ sent = None.

Section send.
Context `{LawfulDb D} {N : Type} `{Notifier N}.

(** Marking an undecided row that is there decides it or, on an error, may leave it. *)
Lemma mark_spec (b : bool) T d0 id row rb d' :
  consistent (view d0) → view d0 = set_rows notifications (<[id := row]> (Tables_notifications T)) T →
  (if b then MarkSent else MarkFailed : Z → M D (res unit)) id d0 = (rb, d') →
  ∃ row', view d' = set_rows notifications (<[id := row']> (Tables_notifications T)) T
    ∧ Notification_ID row' = Notification_ID row
    ∧ Notification_OrderID row' = Notification_OrderID row
    ∧ Notification_Message row' = Notification_Message row
    ∧ (undecided (Notification_Status row) (Notification_SentAt row) →
         decided b (Notification_Status row') (Notification_SentAt row')
         ∨ is_ok rb = false ∧ row' = row).
Proof.
  intros Hc Hv Hr.
  assert (∃ rb' set_, (∀ now r, Notification_ID (set_ now r) = Notification_ID r
      ∧ Notification_OrderID (set_ now r) = Notification_OrderID r
      ∧ Notification_Message (set_ now r) = Notification_Message r
      ∧ (Notification_SentAt r = None →
           decided b (Notification_Status (set_ now r)) (Notification_SentAt (set_ now r))))
    ∧ is_ok rb = is_ok rb'
    ∧ autocommit (Exec notifications set_ (λ n, Notification_ID n =? id)) d0 = (rb', d'))
    as (rb' & set_ & Hset & Hok & Ha).
  { destruct b; apply try_inv in Hr as [(n & d1 & Ha & [= <- <-])|(e & Ha & ->)];
      (eexists _, _; split; [|split; [|exact Ha]]; [|done]; intros now r; repeat split; try done;
       cbn; eauto). }
  assert (rows notifications (view d0) !! id = Some row) as Hrow.
  { rewrite Hv, rows_set_rows. apply lookup_insert_eq. }
  assert (Notification_ID row = id) as Hid by (by destruct (proj1 (Hc _ notifications) id row Hrow)).
  apply (autocommit_update_by_id _ _ _ id row) in Ha as [[now Ha]|[Hf Ha]]; try done.
  - exists (set_ now row). specialize (Hset now row). rewrite Ha, Hv, rows_set_rows.
    rewrite insert_insert_eq. split_and!; [by destruct T|apply Hset..|].
    intros [_ Hsent]. left. by apply Hset.
  - exists row. rewrite Ha, Hv, Hok. split_and!; auto.
  - intros r. cbn. by intros ->%Z.eqb_eq.
  - cbn. by apply Z.eqb_eq.
Qed.

(** C30. [Send] touches only the notifications table, call by call. When [Create] returned
    an error, subscribers hear nothing and either nothing was stored or, when the error hid
    a commit, the pending row. Otherwise the row is stored, the subscribers are notified
    exactly once, with the event of that very row, and the row is marked by the answer:
    [sent] with the time if one was reached, [failed] if not; it stays [pending] only when
    the marking statement itself returned an error. *)
Theorem Send_records orderID message d n d' n' :
  consistent (view d) →
  notificationService_Send orderID message (d, n) = ((), (d', n')) →
  ∃ created d1,
    repo_CreateNotification (mkNotification 0 orderID message NotificationStatusPending 0 None) d
    = (created, d1)
    ∧ match created with
      | Err _ => d' = d1 ∧ n' = n
          ∧ (view d1 = view d ∨ ∃ id, recorded (view d) (view d1) orderID message id undecided)
      | Ok row => ∃ delivered marked,
          Notify orderID
            (NotificationEvent_JSON (mkNotificationEvent (Notification_ID row) orderID message)) n
          = (delivered, n')
          ∧ (if delivered : bool then MarkSent else MarkFailed : Z → M D (res unit))
              (Notification_ID row) d1 = (marked, d')
          ∧ recorded (view d) (view d') orderID message (Notification_ID row)
              (λ s sent, decided delivered s sent ∨ (is_ok marked = false ∧ undecided s sent))
      end.
Proof.
  intros Hc Hr. apply M_bind_inv in Hr as (created & [d1 n1] & Hcr & Hr).
  apply note_db_inv in Hcr as [Hcr ->]. exists created, d1. split; [exact Hcr|].
  apply autocommit_create in Hcr as [Hcr|[Hf Hv]]; [| |done].
  2: { destruct created; [done|]. injection Hr as <- <-. split_and!; auto. }
  destruct Hcr as (now & id & row & Hpos & Hfresh & Hst & Hv & Hc1 & Hok). injection Hst as Hrow.
  destruct created as [row1|e].
  2: { injection Hr as <- <-. split_and!; [done..|]. right. exists id. split; [done|]. exists row.
       by subst row. }
  rewrite (Hok row1 eq_refl) in Hr |- *. apply M_bind_inv in Hr as (b & [d2 n2] & Hn & Hr).
  apply note_live_inv in Hn as [Hn ->]. apply M_bind_inv in Hr as (rb & [d3 n3] & Hm & Hr).
  injection Hr as <- <-.
  assert (n3 = n2 ∧ ((if b then MarkSent else MarkFailed) : Z → M D (res unit)) id d1 = (rb, d3))
    as [-> Hmark] by (destruct b; by apply note_db_inv in Hm as [? ->]).
  exists b, rb. split; [exact Hn|]. split; [exact Hmark|].
  apply (mark_spec b (view d) d1 id row) in Hmark as (row' & Hv' & Hid & Ho & Hmsg & Hs);
    [|done..].
  split; [done|]. exists row'. subst row. cbn in *. split_and!; try congruence.
  destruct Hs as [Hs|[? ->]]; [done|by left|by right].
Qed.
End send.

(** A hub double: [n] subscribers are connected; deliveries are logged. *)
#[export] Instance loud_notifier : Notifier (nat * list string) := {|
  Notify _ payload := λ w, (bool_decide (0 < w.1)%nat, (w.1, w.2 ++ [payload]));
|}.

Definition demo_send (listeners : nat) : unit * (RefDb * (nat * list string)) :=
  notificationService_Send (Payment_OrderID demo_row) "Order #101 is confirmed." (demo_created.2, (listeners, [])).

Lemma Send_records_witness :
  Notification_Status <$> (map_to_list (Tables_notifications (view (demo_send 1).2.1))).*2
    = [NotificationStatusSent]
  ∧ Notification_Status <$> (map_to_list (Tables_notifications (view (demo_send 0).2.1))).*2
    = [NotificationStatusFailed]
  ∧ ∃ id says, recorded (view demo_created.2) (view (demo_send 1).2.1)
      (Payment_OrderID demo_row)
      "Order #101 is confirmed." id says.
Proof.
  split; [evaluate|]. split; [evaluate|].
  destruct (Send_records (Payment_OrderID demo_row) "Order #101 is confirmed." demo_created.2 (1%nat, [])
    (demo_send 1).2.1 (demo_send 1).2.2) as (created & d1 & _ & Hrest).
  - apply demo_created_ok.
  - evaluate.
  - destruct created as [row|e].
    + destruct Hrest as (delivered & marked & _ & _ & Hrec). eexists _, _. exact Hrec.
    + destruct Hrest as (_ & Hn & _). vm_compute in Hn. discriminate Hn.
Defined.

(** A message with a quote, a line separator and a byte that is no UTF-8. *)
Definition odd_message : string :=
  "a<b & \c" +:+ bytes [34; 10; 226; 128; 168; 195; 169; 255]%N.
Definition odd_note : Notification :=
  mkNotification 7 101 odd_message NotificationStatusPending 0 None.

Lemma NotificationEvent_JSON_roundtrip_witness :
  event odd_note
  = bytes [123; 34]%N +:+ "id" +:+ bytes [34; 58; 55; 44; 34]%N +:+ "order_id"
    +:+ bytes [34; 58]%N +:+ "101," +:+ bytes [34]%N +:+ "message" +:+ bytes [34; 58; 34]%N
    +:+ "a\u003cb \u0026 \\c\" +:+ bytes [34]%N +:+ "\n\u2028" +:+ bytes [195; 169]%N
    +:+ "\ufffd" +:+ bytes [34; 125]%N
  ∧ decode_event (event odd_note)
    = Some (mkNotificationEvent 7 101
        ("a<b & \c" +:+ bytes [34; 10; 226; 128; 168; 195; 169; 239; 191; 189]%N)).
Proof.
  split; [evaluate|].
  destruct (NotificationEvent_JSON_roundtrip odd_note eq_refl eq_refl) as [Hd _]. exact Hd.
Defined.
