(* ===== verification/FulfillmentSpec.v ===== *)
(** * Properties of the fulfiller's retries

    The backoff is the capped exponential it is meant to be, with a jitter that never
    leaves the documented range; the retry loop makes at most [MaxRetries] charges, ends,
    and reports what the gateway recorded. *)

From Stdlib Require Import ZArith Lia.
From stdpp Require Import base tactics list gmap strings.
From S2P Require Import Prelude GoStd Errors Models Database RefDb OrderRepository Ledger.
From S2P Require Import LedgerSpec Config Gateway Notification Fulfillment.

Open Scope Z_scope.

(** What the code relies on: [Int63n(n)] is below [n]; sleeping returns nothing. *)
Class LawfulRuntime (W : Type) `{Runtime W} : Prop := {
  Int63n_law : ∀ n w r w', 0 < n → Int63n n w = (r, w') → 0 ≤ r < n;
}.

(** The wrap-around of the shift is never mistaken for a delay. *)
Lemma backoff_wrap cfg attempt :
  0 < BaseBackoff cfg → 0 < MaxBackoff cfg → BaseBackoff cfg * MaxBackoff cfg ≤ max_int →
  1 ≤ attempt → max_int < BaseBackoff cfg * 2 ^ (attempt - 1) →
  backoff_base cfg attempt = MaxBackoff cfg.
Proof.
  intros Hb Hm Hprod Ha Hbig. unfold backoff_base.
  set (n := attempt - 1) in *. assert (0 ≤ n) as Hn by lia.
  assert (MaxBackoff cfg < 2 ^ n) as Hcap by nia.
  destruct ((_ <=? 0) || (_ <? _)) eqn:E; [done|]. exfalso. bool_to_prop.
  unfold shl64 in *. destruct (64 <=? n) eqn:E64; bool_to_prop; [lia|].
  rewrite Z.shiftl_mul_pow2 in * by done.
  destruct (wrap64_mod (BaseBackoff cfg * 2 ^ n)) as [k Hk].
  assert (2 ^ 64 = 2 ^ (64 - n) * 2 ^ n) as Hpow by (rewrite <- Z.pow_add_r by lia; f_equal; lia).
  rewrite Hpow in Hk.
  assert (wrap64 (BaseBackoff cfg * 2 ^ n) = (BaseBackoff cfg + k * 2 ^ (64 - n)) * 2 ^ n)
    as Hmul by lia.
  set (q := BaseBackoff cfg + k * 2 ^ (64 - n)) in *.
  assert (1 ≤ q) by nia. nia.
Qed.

Section retries.
Context {W : Type} `{LawfulRuntime W}.
Variable cfg : WorkerConfig.

(** C29. The delay before retry [attempt] is between half and all of
    [min (BaseBackoff * 2^(attempt-1), MaxBackoff)]: the doubling, its cap and the overflow
    guard of the shift are right for every attempt, however late, as long as
    [BaseBackoff * MaxBackoff] fits in 63 bits. *)
Theorem backoff_jitter attempt w d w' :
  0 < BaseBackoff cfg → 0 < MaxBackoff cfg → BaseBackoff cfg * MaxBackoff cfg ≤ max_int →
  1 ≤ attempt → Fulfiller_backoff cfg attempt w = (d, w') →
  Z.quot (backoff_spec cfg attempt) 2 ≤ d ≤ backoff_spec cfg attempt
  ∧ 0 < d ≤ MaxBackoff cfg.
Proof.
  intros Hb Hm Hprod Ha Hr.
  assert (backoff_base cfg attempt = backoff_spec cfg attempt) as Hbase.
  { destruct (Z_le_gt_dec (BaseBackoff cfg * 2 ^ (attempt - 1)) max_int).
    - by apply backoff_base_exact.
    - rewrite backoff_wrap by lia. unfold backoff_spec.
      assert (0 < 2 ^ (attempt - 1)) by (apply Z.pow_pos_nonneg; lia). unfold max_int in *. nia. }
  pose proof (backoff_base_bounds cfg attempt Hm) as Hbound.
  unfold Fulfiller_backoff in Hr. rewrite Hbase in Hr, Hbound.
  set (b := backoff_spec cfg attempt) in *.
  rewrite (Z.quot_div_nonneg b 2) in Hr |- * by lia.
  assert (b ≤ max_int) by (unfold max_int in *; nia).
  pose proof (Z.div_mod b 2 ltac:(lia)). pose proof (Z.mod_pos_bound b 2 ltac:(lia)).
  destruct (b / 2 <=? 0) eqn:Eh; bool_to_prop.
  - injection Hr as <- <-. lia.
  - unfold max_int in *. apply M_bind_inv in Hr as (r & w1 & Hr & [= <- <-]).
    rewrite wrap64_id in Hr by (unfold min_int, max_int; lia).
    apply Int63n_law in Hr; [|lia].
    rewrite wrap64_id by (unfold min_int, max_int; lia). lia.
Qed.
End retries.

(** ** The retry loop *)

(** [n] charges in a row, all but the last failed; [r] is the last one's result. *)
Inductive attempts `{Gateway G} (req : ChargeRequest)
  : nat → G → res ChargeResult → G → Prop :=
| attempts_last g r g' : Charge req g = (r, g') → attempts req 1 g r g'
| attempts_more n g e g1 r g' :
    Charge req g = (Err e, g1) → attempts req n g1 r g' → attempts req (S n) g r g'.

Section loop.
Context `{DbEngine D} {G N R : Type} `{LawfulGateway G} `{Notifier N} `{Runtime R}.
Variable cfg : WorkerConfig.
Implicit Types (w : FWorld D G N R).

(** Computing and sleeping a delay moves only the runtime. *)
Definition only_runtime w w' : Prop :=
  f_db w' = f_db w ∧ f_gateway w' = f_gateway w ∧ f_notifier w' = f_notifier w.

Lemma in_runtime_only {A} (m : M R A) w a w' : in_runtime m w = (a, w') → only_runtime w w'.
Proof. unfold in_runtime, on. destruct (m _). intros [= <- <-]. by repeat split. Qed.

Lemma backoff_only attempt w d w' :
  Fulfiller_backoff cfg attempt w = (d, w') → only_runtime w w'.
Proof.
  unfold Fulfiller_backoff. destruct (_ <=? 0); [intros [= <- <-]; by repeat split|].
  intros (r & w1 & Hr & [= <- <-])%M_bind_inv. exact (in_runtime_only _ _ _ _ Hr).
Qed.

Lemma pause_only (again : bool) attempt w u w' :
  (if again then d ← Fulfiller_backoff cfg attempt; Sleep d else mret ()) w = (u, w') →
  only_runtime w w'.
Proof.
  destruct again; [|intros [= <- <-]; by repeat split]. intros (d & w1 & Hd & Hs)%M_bind_inv.
  apply backoff_only in Hd as (E1 & E2 & E3). apply in_runtime_only in Hs as (E4 & E5 & E6).
  repeat split; congruence.
Qed.

Lemma in_gateway_inv {A} (m : M G A) w a w' :
  in_gateway m w = (a, w') →
  m (f_gateway w) = (a, f_gateway w') ∧ f_db w' = f_db w ∧ f_notifier w' = f_notifier w.
Proof. unfold in_gateway, on. destruct (m _). by intros [= <- <-]. Qed.

Lemma charge_loop_spec req n attempt last w r w' :
  charge_loop cfg req n attempt last w = (r, w') →
  f_db w' = f_db w ∧ f_notifier w' = f_notifier w
  ∧ ((n = O ∧ w' = w ∧ r = match last with
                           | Some e => Err e
                           | None => Ok (mkChargeResult "")
                           end)
     ∨ ∃ k, (1 ≤ k ≤ n)%nat ∧ attempts req k (f_gateway w) r (f_gateway w')
            ∧ (is_ok r = false → k = n)).
Proof.
  revert attempt last w. induction n as [|n IH]; intros attempt last w.
  { intros [= <- <-]. split_and!; auto. }
  cbn [charge_loop]. intros (rc & w1 & Hc & Hk)%M_bind_inv.
  apply in_gateway_inv in Hc as (Hc & Hd & Hn).
  destruct rc as [a|e].
  { injection Hk as <- <-. split_and!; [done..|]. right. exists 1%nat.
    split_and!; [lia|lia|by apply attempts_last|done]. }
  apply M_bind_inv in Hk as (u & w2 & Hp & Hk).
  apply pause_only in Hp as (E1 & E2 & E3). apply IH in Hk as (E4 & E5 & Hk).
  split_and!; [congruence..|]. right. rewrite E2 in Hk.
  destruct Hk as [(-> & -> & ->)|(k & Hk & Ha & Hf)].
  - exists 1%nat. rewrite E2. split_and!; [lia|lia|by apply attempts_last|done].
  - exists (S k). split_and!; [lia|lia|by eapply attempts_more|]. intros Hr. by rewrite (Hf Hr).
Qed.

Lemma attempts_charges req n g r g' :
  attempts req n g r g' →
  match r with
  | Ok a => charges g' = <[ChargeRequest_IdempotencyKey req := a]> (charges g)
            ∧ (∀ b, charges g !! ChargeRequest_IdempotencyKey req = Some b → a = b)
  | Err _ => charges g' = charges g
  end.
Proof.
  induction 1 as [g r g' Hc|n g e g1 r g' Hc _ IH]; [by apply Charge_law in Hc|].
  apply Charge_law in Hc. by rewrite Hc in IH.
Qed.

(** C28. [charge] always returns. With [MaxRetries > 0] it makes at least one and at most
    [MaxRetries] charges, all with the payment's key, stops at the first that succeeds
    and gives up exactly when all [MaxRetries] failed; a nil error means the gateway holds
    the charge it returns, an error that nothing new was charged. With [MaxRetries <= 0]
    it returns a nil error without any charge. *)
Theorem charge_bounded pay w r w' :
  Fulfiller_charge cfg pay w = (r, w') →
  f_db w' = f_db w ∧ f_notifier w' = f_notifier w
  ∧ ((MaxRetries cfg ≤ 0 ∧ w' = w ∧ r = Ok (mkChargeResult ""))
     ∨ (∃ n, 1 ≤ Z.of_nat n ≤ MaxRetries cfg
          ∧ attempts (charge_request pay) n (f_gateway w) r (f_gateway w')
          ∧ match r with
            | Ok a => charges (f_gateway w')
                      = <[Payment_IdempotencyKey pay := a]> (charges (f_gateway w))
                      ∧ (∀ b, charges (f_gateway w) !! Payment_IdempotencyKey pay = Some b
                              → a = b)
            | Err _ => Z.of_nat n = MaxRetries cfg
                       ∧ charges (f_gateway w') = charges (f_gateway w)
            end)).
Proof.
  intros Hr. apply charge_loop_spec in Hr as (Hd & Hn & Hr). split_and!; [done..|].
  destruct Hr as [(Hz & -> & ->)|(k & Hk & Ha & Hf)]; [left; split; [lia|done]|right].
  exists k. split_and!; [lia..|done|].
  apply attempts_charges in Ha. destruct r as [a|e]; [done|]. split; [|done].
  rewrite (Hf eq_refl). lia.
Qed.
End loop.

(** ** A runtime that logs its sleeps *)
Record RefRuntime : Type := mkRefRuntime { rt_slept : list Z; rt_seed : Z }.

#[export] Instance ref_runtime : Runtime RefRuntime := {|
  Sleep d := λ w, ((), mkRefRuntime (rt_slept w ++ [d]) (rt_seed w));
  Int63n n := λ w, (rt_seed w mod n, w);
|}.

#[export] Instance ref_runtime_lawful : LawfulRuntime RefRuntime.
Proof. split. intros n w r w' Hn [= <- <-]. by apply Z.mod_pos_bound. Qed.

Lemma backoff_jitter_witness :
  100 * Millisecond ≤ (Fulfiller_backoff default_worker 1 (mkRefRuntime [] 7777777777)).1
    ≤ 200 * Millisecond
  ∧ 400 * Millisecond ≤ (Fulfiller_backoff default_worker 3 (mkRefRuntime [] 7777777777)).1
    ≤ 800 * Millisecond
  ∧ (Fulfiller_backoff default_worker 100 (mkRefRuntime [] 0)).1 = 2500 * Millisecond.
Proof.
  assert (∀ n w, 1 ≤ n → _) as Hb
    by (intros n w Hn; exact (backoff_jitter default_worker n w
          (Fulfiller_backoff default_worker n w).1 (Fulfiller_backoff default_worker n w).2
          ltac:(done) ltac:(done) ltac:(done) Hn (surjective_pairing _))).
  split; [|split; [|evaluate]].
  - destruct (Hb 1 (mkRefRuntime [] 7777777777) ltac:(done)) as [Hr _]. exact Hr.
  - destruct (Hb 3 (mkRefRuntime [] 7777777777) ltac:(done)) as [Hr _]. exact Hr.
Defined.

(** A gateway with a list of draws: [Some error] is a cancelled call, otherwise the number
    drawn against the failure rate. *)
Definition demo_draw (f : float64) (n : nat) : Draw := mkDraw 50 None f (Itoa (Z.of_nat n)).
Definition demo_gateway (failing : nat) : fakeGateway :=
  NewFakeGateway one_fifth
    (λ n, demo_draw (if (n <? failing)%nat then f64_zero else f64_one) n).

Definition silent : Notifier unit := {| Notify _ _ := λ w, (false, w) |}.
#[export] Existing Instance silent.

Definition demo_fworld (d : RefDb) (failing : nat) : FWorld RefDb fakeGateway unit RefRuntime :=
  mkFWorld d (demo_gateway failing) () (mkRefRuntime [] 12345678).

Lemma charge_bounded_witness :
  let run := Fulfiller_charge default_worker demo_row (demo_fworld demo_created.2 2) in
  let fails := Fulfiller_charge default_worker demo_row (demo_fworld demo_created.2 3) in
  run.1 = Ok (mkChargeResult "txn_2")
  ∧ length (rt_slept (f_runtime run.2)) = 2%nat
  ∧ is_ok fails.1 = false ∧ f_db fails.2 = demo_created.2.
Proof.
  split; [evaluate|]. split; [evaluate|]. split; [evaluate|].
  apply (charge_bounded default_worker demo_row (demo_fworld demo_created.2 3) _ _
    (surjective_pairing _)).
Defined.
