(* ===== verification/Pipeline.v ===== *)
(** * The order pipeline under concurrency

    Any number of workers run [Fulfill] on the same tables while orders are placed,
    the shop is edited and workers die. A database transaction and a gateway call are
    the atomic steps; [Pipeline.step] interleaves them freely. The refinement theorem of
    [PipelineSpec] shows that the sequential code of [Fulfillment] is one such run. *)

From Stdlib Require Import ZArith Lia.
From stdpp Require Import base tactics list gmap strings relations.
From S2P Require Import Prelude GoStd Errors Models Database OrderRepository Ledger Config.
From S2P Require Import Gateway Fulfillment.

Open Scope Z_scope.

(** Where a worker is inside [Fulfill]. *)
Inductive WState : Type :=
| Idle
| Charging (orderID : Z) (pay : Payment) (left_ : nat) (lastErr : option error)
| Finalizing (orderID : Z) (pay : Payment) (charge : res ChargeResult)
| Announcing (orderID : Z) (message : string).

Record Sys : Type := mkSys {
  s_tables : Tables;
  s_charges : gmap string ChargeResult;  (* the gateway's record, by key *)
  s_workers : nat → WState;
  s_sent : list (Z * string);            (* the notifications sent, latest first *)
  s_adjusted : Z → Z;                    (* units added by shop edits, by product *)
}.

Definition set_worker (w : nat) (st : WState) (ws : nat → WState) : nat → WState :=
  λ w', if decide (w' = w) then st else ws w'.

(** A gateway call, seen from the record of charges. *)
Definition charge_effect (key : string) (m : gmap string ChargeResult)
  (r : res ChargeResult) (m' : gmap string ChargeResult) : Prop :=
  match r with
  | Ok a => m' = <[key := a]> m ∧ (∀ b, m !! key = Some b → a = b)
  | Err _ => m' = m
  end.

(** The result of a loop that made no further charge. *)
Definition loop_result (lastErr : option error) : res ChargeResult :=
  match lastErr with Some e => Err e | None => Ok (mkChargeResult "") end.

Definition finalize_tx (pay : Payment) (charge : res ChargeResult) : db bool :=
  match charge with
  | Ok a => MarkPaidAndConfirm_tx pay (TransactionID a)
  | Err _ => FailCancelAndRestock_tx pay
  end.
Definition final_message (orderID : Z) (charge : res ChargeResult) : string :=
  match charge with
  | Ok _ => confirmed_message orderID
  | Err _ => cancelled_message orderID
  end.

(** A change of the tables that leaves orders, lines and payments alone, and keeps every
    inventory row on its product: user and product edits, notifications. *)
Record elsewhere (T T' : Tables) : Prop := {
  else_orders : Tables_orders T' = Tables_orders T;
  else_items : Tables_order_items T' = Tables_order_items T;
  else_payments : Tables_payments T' = Tables_payments T;
  else_shelves : ∀ k r, Tables_inventory T !! k = Some r →
    ∃ r', Tables_inventory T' !! k = Some r' ∧ Inventory_ProductID r' = Inventory_ProductID r;
  else_consistent : consistent T → consistent T';
}.

Section steps.
Context `{Numeric}.
Variable cfg : WorkerConfig.

Inductive step : Sys → Sys → Prop :=
(** A request: its order is placed, refused, or placed with the acknowledgement lost. *)
| step_order T m ws sent adj order payment r T' :
    Order_Status order = OrderStatusPending → Payment_Status payment = PaymentStatusPending →
    tx_outcome (CreateOrder_tx order payment) T r T' →
    step (mkSys T m ws sent adj) (mkSys T' m ws sent adj)
(** The rest of the program edits other tables, or the shelves. *)
| step_edit T m ws sent adj T' :
    elsewhere T T' →
    step (mkSys T m ws sent adj)
      (mkSys T' m ws sent (λ p, adj p + (stock T' p - stock T p)))
(** An idle worker takes an order id (from the queue, or from the sweeper: any id at any
    time) and loads its pending payment. *)
| step_load T m ws sent adj w orderID pay k :
    ws w = Idle → Tables_payments T !! k = Some pay → Payment_OrderID pay = orderID →
    Payment_Status pay = PaymentStatusPending →
    step (mkSys T m ws sent adj)
      (mkSys T m (set_worker w (Charging orderID pay (Z.to_nat (MaxRetries cfg)) None) ws) sent adj)
| step_charge T m ws sent adj w orderID pay n lastErr r m' :
    ws w = Charging orderID pay (S n) lastErr →
    charge_effect (Payment_IdempotencyKey pay) m r m' →
    step (mkSys T m ws sent adj)
      (mkSys T m' (set_worker w (match r with
                                 | Ok _ => Finalizing orderID pay r
                                 | Err e => Charging orderID pay n (Some e)
                                 end) ws) sent adj)
| step_end_loop T m ws sent adj w orderID pay lastErr :
    ws w = Charging orderID pay 0 lastErr →
    step (mkSys T m ws sent adj)
      (mkSys T m (set_worker w (Finalizing orderID pay (loop_result lastErr)) ws) sent adj)
| step_finalize T m ws sent adj w orderID pay charge r T' :
    ws w = Finalizing orderID pay charge →
    tx_outcome (finalize_tx pay charge) T r T' →
    step (mkSys T m ws sent adj)
      (mkSys T' m (set_worker w (match r with
                                 | Ok true => Announcing orderID (final_message orderID charge)
                                 | _ => Idle
                                 end) ws) sent adj)
| step_announce T m ws sent adj w orderID message T' :
    ws w = Announcing orderID message → elsewhere T T' →
    Tables_inventory T' = Tables_inventory T →
    step (mkSys T m ws sent adj)
      (mkSys T' m (set_worker w Idle ws) ((orderID, message) :: sent) adj)
(** A worker dies, or returns early because of an error. *)
| step_drop T m ws sent adj w :
    step (mkSys T m ws sent adj) (mkSys T m (set_worker w Idle ws) sent adj).

(** At start every worker is idle and nothing was charged or sent. *)
Definition started (T : Tables) : Sys := mkSys T ∅ (λ _, Idle) [] (λ _, 0).
Definition steps : Sys → Sys → Prop := rtc step.
End steps.

(** ** What every step preserves of the tables *)
Record evolves (T T' : Tables) : Prop := {
  evolves_payment : ∀ k p, Tables_payments T !! k = Some p →
    ∃ p', Tables_payments T' !! k = Some p' ∧ Payment_OrderID p' = Payment_OrderID p
          ∧ Payment_IdempotencyKey p' = Payment_IdempotencyKey p
          ∧ (Payment_Status p ≠ PaymentStatusPending → p' = p);
  evolves_order : ∀ k o, Tables_orders T !! k = Some o →
    ∃ o', Tables_orders T' !! k = Some o' ∧ Order_UserID o' = Order_UserID o
          ∧ (Order_Status o ≠ OrderStatusPending → o' = o);
}.

#[export] Instance evolves_preorder : PreOrder evolves.
Proof.
  split.
  - intros T. split; eauto.
  - intros T1 T2 T3 [P1 O1] [P2 O2]. split.
    + intros k p Hk. destruct (P1 k p Hk) as (p2 & Hp2 & E1 & E2 & E3).
      destruct (P2 k p2 Hp2) as (p3 & Hp3 & E4 & E5 & E6). exists p3.
      split_and!; [done|congruence|congruence|].
      intros Hs. rewrite <- (E3 Hs) in Hs |- *. auto.
    + intros k o Hk. destruct (O1 k o Hk) as (o2 & Ho2 & Eu1 & E1).
      destruct (O2 k o2 Ho2) as (o3 & Ho3 & Eu2 & E2). exists o3. split_and!; [done|congruence|].
      intros Hs. rewrite <- (E1 Hs) in Hs |- *. auto.
Qed.

Lemma elsewhere_evolves T T' : elsewhere T T' → evolves T T'.
Proof. intros [HO _ HP _ _]. split; rewrite ?HO, ?HP; eauto. Qed.

Lemma placed_evolves `{Numeric} T T' order payment order' payment' :
  placed T T' order payment order' payment' → evolves T T'.
Proof.
  intros Hpl. destruct (placed_payment _ _ _ _ _ _ Hpl) as (p & Hnone & HP & _).
  destruct (placed_order _ _ _ _ _ _ Hpl) as (o & HO & _).
  destruct (placed_fresh _ _ _ _ _ _ Hpl) as [_ Hof]. split.
  - intros k q Hk. exists q. rewrite HP, lookup_insert_ne by congruence. done.
  - intros k q Hk. exists q. rewrite HO, lookup_insert_ne by congruence. done.
Qed.

Lemma settled_evolves T T' payment os ps txn delta :
  settled T T' payment os ps txn delta → evolves T T'.
Proof.
  intros Hs. destruct (settled_payment _ _ _ _ _ _ _ Hs) as (p & now & Hp & Hps & HP).
  destruct (settled_order _ _ _ _ _ _ _ Hs) as (o & now2 & Ho & Hos & HO). split.
  - intros k q Hk. rewrite HP.
    destruct (decide (k = Payment_ID payment)) as [->|Hne].
    + rewrite lookup_insert_eq. eexists. split; [done|].
      replace q with p by congruence. by cbn.
    + rewrite lookup_insert_ne by done. eauto.
  - intros k q Hk. rewrite HO.
    destruct (decide (k = Payment_OrderID payment)) as [->|Hne].
    + rewrite lookup_insert_eq. eexists. split; [done|].
      replace q with o by congruence. done.
    + rewrite lookup_insert_ne by done. eauto.
Qed.

Lemma evolves_snapshot T T' pay : evolves T T' → snapshot T pay → snapshot T' pay.
Proof.
  intros [HP _] (p & Hp & Ho & Hk). destruct (HP _ _ Hp) as (p' & Hp' & Eo & Ek & _).
  exists p'. split_and!; [done|congruence|congruence].
Qed.

(** ** The three kinds of table steps *)
Section table_steps.
Context `{Numeric}.
Implicit Types (T : Tables).

Definition settled_as (T T' : Tables) (pay : Payment) (charge : res ChargeResult) : Prop :=
  match charge with
  | Ok a => settled T T' pay OrderStatusConfirmed PaymentStatusPaid
              (λ _, Some (TransactionID a)) (λ _, 0)
  | Err _ => settled T T' pay OrderStatusCancelled PaymentStatusFailed id
               (held T (Payment_OrderID pay))
  end.

Lemma order_step_tables T T' order payment r :
  ledger_ok T → Order_Status order = OrderStatusPending →
  Payment_Status payment = PaymentStatusPending →
  tx_outcome (CreateOrder_tx order payment) T r T' →
  ledger_ok T' ∧ (T' = T ∨ ∃ order' payment', placed T T' order payment order' payment').
Proof.
  intros HT Ho Hp Hr.
  assert (∀ op, runs (CreateOrder_tx order payment) T (Ok op) T' →
            ledger_ok T' ∧ ∃ order' payment', placed T T' order payment order' payment') as Hok.
  { intros [o p] Hrun. split; [by apply (CreateOrder_ledger_ok _ _ _ _ _ _ HT) in Hrun as []|].
    exists o, p. apply CreateOrder_tx_placed; [apply HT|done]. }
  destruct r as [op|e].
  - destruct (Hok op Hr). auto.
  - destruct Hr as [[-> _]|[_ (op & Hr)]]; [auto|]. destruct (Hok op Hr). auto.
Qed.

Lemma finalize_tables T T' pay charge r :
  ledger_ok T → snapshot T pay → tx_outcome (finalize_tx pay charge) T r T' →
  ledger_ok T' ∧ ((T' = T ∧ r ≠ Ok true) ∨ settled_as T T' pay charge).
Proof.
  intros HT Hs Hr.
  assert (∀ b, runs (finalize_tx pay charge) T (Ok b) T' →
            if b : bool then settled_as T T' pay charge ∧ ledger_ok T' else T' = T) as Hok.
  { intros b Hrun. pose proof (proj2 (runs_step _ _ _ _ Hrun) (ok_consistent T HT)) as Hc.
    destruct charge as [a|e]; cbn in *.
    - apply MarkPaidAndConfirm_tx_ok in Hrun; [|done..].
      destruct b; [|apply Hrun]. split; [done|]. by apply (settled_ledger_ok Hrun).
    - apply FailCancelAndRestock_tx_ok in Hrun; [|done..].
      destruct b; [|apply Hrun]. split; [done|]. by apply (settled_ledger_ok Hrun). }
  destruct r as [b|e].
  - apply Hok in Hr. destruct b; [by destruct Hr; auto|]. subst T'. by auto.
  - destruct Hr as [[-> _]|[_ (b & Hr)]]; [by auto|]. apply Hok in Hr.
    destruct b; [by destruct Hr; auto|]. subst T'. by auto.
Qed.

Lemma settled_as_evolves T T' pay charge : settled_as T T' pay charge → evolves T T'.
Proof. destruct charge; apply settled_evolves. Qed.

(** The terminal statuses that a charge result leads to. *)
Lemma settled_as_rest T T' pay charge :
  snapshot T pay → settled_as T T' pay charge →
  at_rest T' pay (if is_ok charge then OrderStatusConfirmed else OrderStatusCancelled)
    (if is_ok charge then PaymentStatusPaid else PaymentStatusFailed).
Proof. intros Hs. destruct charge; by apply settled_at_rest. Qed.

Lemma settled_as_conserves T T' pay charge p :
  snapshot T pay → settled_as T T' pay charge → stock T' p + reserved T' p = stock T p + reserved T p.
Proof.
  intros _. destruct charge as [a|e]; intros Hs; pose proof (settled_reserved Hs p) as Hr;
    rewrite (settled_shelf _ _ _ _ _ _ _ Hs p), Hr; case_decide; try done; lia.
Qed.

Lemma elsewhere_ledger T T' : elsewhere T T' → ledger_ok T → ledger_ok T'.
Proof.
  intros [HO HI HP HS HC] HT. split.
  - apply HC, HT.
  - rewrite HO, HP. apply HT.
  - rewrite HP. apply HT.
  - rewrite HO, HP. apply HT.
  - rewrite HI. intros k i Hk. destruct (ok_stocked T HT k i Hk) as (j & r & Hj & Hr).
    destruct (HS j r Hj) as (r' & Hj' & E). exists j, r'. split; [done|congruence].
Qed.

Lemma elsewhere_reserved T T' p : elsewhere T T' → reserved T' p = reserved T p.
Proof.
  intros [HO HI _ _ _]. unfold reserved, live. by rewrite HI, HO.
Qed.
End table_steps.
