(* ===== verification/PipelineSpec.v ===== *)
(** * Properties of the order pipeline under concurrency

    An invariant of every interleaving, and what follows from it: units are conserved,
    orders are confirmed only on a recorded charge, terminal states are final, and each
    order is announced at most once, truthfully. *)

From Stdlib Require Import ZArith Lia.
From stdpp Require Import base tactics list gmap strings relations.
From S2P Require Import Prelude GoStd Errors Models Database RefDb OrderRepository.
From S2P Require Import Repositories Ledger LedgerSpec Config Gateway Notification.
From S2P Require Import Fulfillment FulfillmentSpec Pipeline.

Open Scope Z_scope.

(** The message tells the order's terminal status. *)
Definition announced (T : Tables) (orderID : Z) (message : string) : Prop :=
  ∃ o, Tables_orders T !! orderID = Some o
    ∧ ((Order_Status o = OrderStatusConfirmed ∧ message = confirmed_message orderID)
       ∨ (Order_Status o = OrderStatusCancelled ∧ message = cancelled_message orderID)).

(** The gateway recorded charge [a] under the key. With [MaxRetries <= 0] no charge is
    made and the empty result stands in for it. *)
Definition charge_backed (cfg : WorkerConfig) (m : gmap string ChargeResult) (key : string)
  (a : ChargeResult) : Prop :=
  m !! key = Some a ∨ (MaxRetries cfg ≤ 0 ∧ a = mkChargeResult "").

Definition worker_ok (cfg : WorkerConfig) (T : Tables) (m : gmap string ChargeResult)
  (st : WState) : Prop :=
  match st with
  | Idle => True
  | Charging orderID pay n lastErr =>
      snapshot T pay ∧ Payment_OrderID pay = orderID
      ∧ (lastErr = None → n = Z.to_nat (MaxRetries cfg))
  | Finalizing orderID pay charge =>
      snapshot T pay ∧ Payment_OrderID pay = orderID
      ∧ (∀ a, charge = Ok a → charge_backed cfg m (Payment_IdempotencyKey pay) a)
  | Announcing orderID message => announced T orderID message
  end.

Definition paid_backed (cfg : WorkerConfig) (T : Tables) (m : gmap string ChargeResult) : Prop :=
  ∀ k p, Tables_payments T !! k = Some p → Payment_Status p = PaymentStatusPaid →
    ∃ a, Payment_ProviderTxnID p = Some (TransactionID a)
         ∧ charge_backed cfg m (Payment_IdempotencyKey p) a.

Record sys_ok (cfg : WorkerConfig) (s : Sys) : Prop := {
  so_ledger : ledger_ok (s_tables s);
  so_charges : ∀ key a, s_charges s !! key = Some a →
    ∃ k p, Tables_payments (s_tables s) !! k = Some p ∧ Payment_IdempotencyKey p = key;
  so_paid : paid_backed cfg (s_tables s) (s_charges s);
  so_workers : ∀ w, worker_ok cfg (s_tables s) (s_charges s) (s_workers s w);
  so_sent : ∀ orderID message, (orderID, message) ∈ s_sent s →
    announced (s_tables s) orderID message;
  so_once : NoDup (s_sent s).*1;
  so_telling : ∀ w orderID message, s_workers s w = Announcing orderID message →
    orderID ∉ (s_sent s).*1;
  so_one_teller : ∀ w1 w2 orderID m1 m2,
    s_workers s w1 = Announcing orderID m1 → s_workers s w2 = Announcing orderID m2 → w1 = w2;
}.

(** The record of charges only grows. *)
Definition charges_grow (m m' : gmap string ChargeResult) : Prop :=
  ∀ key a, m !! key = Some a → m' !! key = Some a.

Lemma charge_effect_grows key m r m' : charge_effect key m r m' → charges_grow m m'.
Proof.
  destruct r as [a|e]; cbn; [|by intros -> ? ?]. intros [-> Ha] key' b Hb.
  destruct (decide (key = key')) as [<-|Hne].
  - rewrite lookup_insert_eq. f_equal. auto.
  - by rewrite lookup_insert_ne.
Qed.

Lemma charge_backed_grows cfg m m' key a :
  charges_grow m m' → charge_backed cfg m key a → charge_backed cfg m' key a.
Proof. intros Hm [Ha|Ha]; [left; auto|by right]. Qed.

Lemma announced_evolves T T' orderID message :
  evolves T T' → announced T orderID message → announced T' orderID message.
Proof.
  intros [_ HO] (o & Ho & Hs). destruct (HO _ _ Ho) as (o' & Ho' & _ & E).
  exists o'. split; [done|]. rewrite E; [done|]. destruct Hs as [[-> _]|[-> _]]; done.
Qed.

Lemma worker_ok_evolves cfg T T' m m' st :
  evolves T T' → charges_grow m m' → worker_ok cfg T m st → worker_ok cfg T' m' st.
Proof.
  intros HT Hm. destruct st; cbn.
  - done.
  - intros (Hs & ?). split; [by eapply evolves_snapshot|done].
  - intros (Hs & ? & Hc). split_and!; [by eapply evolves_snapshot|done|].
    intros a Ha. by eapply charge_backed_grows, Hc.
  - by apply announced_evolves.
Qed.

(** An order that is still pending has not been announced and is not about to be. *)
Lemma pending_unannounced T orderID message o :
  Tables_orders T !! orderID = Some o → Order_Status o = OrderStatusPending →
  ¬ announced T orderID message.
Proof. intros Ho Hs (o' & Ho' & [[Hc _]|[Hc _]]); congruence. Qed.

Lemma set_worker_eq w st ws : set_worker w st ws w = st.
Proof. unfold set_worker. by rewrite decide_True. Qed.
Lemma set_worker_inv (P : WState → Prop) w st ws :
  P st → (∀ w', P (ws w')) → ∀ w', P (set_worker w st ws w').
Proof. intros Hst Hws w'. unfold set_worker. case_decide; auto. Qed.

Section invariant.
Context `{Numeric}.
Variable cfg : WorkerConfig.

(** Table changes under the feet of the workers. *)
Lemma sys_ok_tables T m ws sent adj T' adj' :
  sys_ok cfg (mkSys T m ws sent adj) → ledger_ok T' → evolves T T' → paid_backed cfg T' m →
  sys_ok cfg (mkSys T' m ws sent adj').
Proof.
  intros Hok HT' HE Hp. split; cbn; try apply Hok; try done.
  - intros key a Ha. destruct (so_charges _ _ Hok key a Ha) as (k & p & Hk & Hkey).
    destruct (evolves_payment _ _ HE k p Hk) as (p' & Hp' & _ & E & _).
    exists k, p'. split; [done|congruence].
  - intros w. eapply worker_ok_evolves; [done| |apply (so_workers _ _ Hok)]. by intros ? ?.
  - intros orderID message Hin. eapply announced_evolves; [done|]. by apply (so_sent _ _ Hok).
Qed.

(** A worker moves to a state that announces nothing. *)
Lemma sys_ok_worker T m ws sent adj w st :
  sys_ok cfg (mkSys T m ws sent adj) → worker_ok cfg T m st →
  (∀ orderID message, st ≠ Announcing orderID message) →
  sys_ok cfg (mkSys T m (set_worker w st ws) sent adj).
Proof.
  intros Hok Hst Hna.
  assert (∀ w' orderID message, set_worker w st ws w' = Announcing orderID message →
            ws w' = Announcing orderID message) as Hws.
  { intros w' o msg. unfold set_worker. case_decide; [|done]. intros E. by destruct (Hna o msg). }
  split; cbn; try apply Hok.
  - apply set_worker_inv; [done|]. apply (so_workers _ _ Hok).
  - intros w' o msg E%Hws. by apply (so_telling _ _ Hok w' o msg).
  - intros w1 w2 o m1 m2 E1%Hws E2%Hws. by apply (so_one_teller _ _ Hok w1 w2 o m1 m2).
Qed.

Lemma paid_backed_same T T' m :
  (∀ k p, Tables_payments T' !! k = Some p → Payment_Status p = PaymentStatusPaid →
          Tables_payments T !! k = Some p) →
  paid_backed cfg T m → paid_backed cfg T' m.
Proof. intros HP Hpaid k p Hk Hs. apply (Hpaid k p); auto. Qed.

(** A charge that was made, and the worker that made it. *)
Lemma sys_ok_charge T m ws sent adj w orderID pay n lastErr r m' :
  sys_ok cfg (mkSys T m ws sent adj) → ws w = Charging orderID pay (S n) lastErr →
  charge_effect (Payment_IdempotencyKey pay) m r m' →
  sys_ok cfg (mkSys T m' (set_worker w (match r with
      | Ok _ => Finalizing orderID pay r
      | Err e => Charging orderID pay n (Some e)
      end) ws) sent adj).
Proof.
  intros Hok Hw Hc. pose proof (charge_effect_grows _ _ _ _ Hc) as Hg.
  pose proof (so_workers _ _ Hok w) as Hst. cbn in Hst. rewrite Hw in Hst.
  destruct Hst as (Hsnap & Ho & _).
  apply sys_ok_worker; [|destruct r; cbn|by destruct r].
  - split; cbn; try apply Hok.
    + intros key a Ha. destruct r as [b|e]; cbn in Hc; [|subst; by apply (so_charges _ _ Hok key a)].
      destruct Hc as [-> _]. apply lookup_insert_Some in Ha as [[<- _]|[_ Ha]].
      * destruct Hsnap as (p & Hp & _ & Hk). eauto.
      * by apply (so_charges _ _ Hok key a).
    + intros k p Hk Hs. destruct (so_paid _ _ Hok k p Hk Hs) as (a & ? & ?).
      exists a. split; [done|]. by eapply charge_backed_grows.
    + intros w'. eapply worker_ok_evolves; [reflexivity|done|]. apply (so_workers _ _ Hok).
  - split_and!; [done..|]. intros b [= <-]. left. cbn in Hc. destruct Hc as [-> _].
    apply lookup_insert_eq.
  - done.
Qed.

(** The payments after a transition: the settled one is backed by the charge. *)
Lemma settled_paid_backed T T' m pay charge :
  snapshot T pay → settled_as T T' pay charge →
  (∀ a, charge = Ok a → charge_backed cfg m (Payment_IdempotencyKey pay) a) →
  paid_backed cfg T m → paid_backed cfg T' m.
Proof.
  intros (q & Hq & _ & Hkey) Hs Hc Hpaid k p Hk Hst.
  assert (∃ r now, Tables_payments T !! Payment_ID pay = Some r
    ∧ Tables_payments T' = <[Payment_ID pay := Payment_set_Status
        (if is_ok charge then PaymentStatusPaid else PaymentStatusFailed)
        (match charge with Ok a => Some (TransactionID a) | Err _ => Payment_ProviderTxnID r end)
        now r]> (Tables_payments T)) as (r & now & Hr & HP).
  { destruct charge; destruct (settled_payment _ _ _ _ _ _ _ Hs) as (r & now & Hr & _ & HP);
      by exists r, now. }
  rewrite HP in Hk. apply lookup_insert_Some in Hk as [[<- <-]|[_ Hk]]; [|by apply (Hpaid k p)].
  destruct charge as [a|e]; [|done]. cbn in Hst |- *. exists a. split; [done|].
  replace r with q by congruence. rewrite Hkey. auto.
Qed.

Lemma settled_as_pending T T' pay charge :
  settled_as T T' pay charge →
  ∃ o, Tables_orders T !! Payment_OrderID pay = Some o ∧ Order_Status o = OrderStatusPending.
Proof.
  destruct charge; intros Hs; destruct (settled_order _ _ _ _ _ _ _ Hs) as (o & _ & ? & ? & _); eauto.
Qed.

Lemma settled_as_announced T T' pay charge :
  snapshot T pay → settled_as T T' pay charge →
  announced T' (Payment_OrderID pay) (final_message (Payment_OrderID pay) charge).
Proof.
  intros Hsn Hs. destruct (settled_as_rest _ _ _ _ Hsn Hs) as [_ (o & Ho & Hos)].
  exists o. split; [done|]. destruct charge; cbn in *; auto.
Qed.

(** A worker that was idle announces an order nobody announced. *)
Lemma sys_ok_announcing T m ws sent adj w orderID message :
  sys_ok cfg (mkSys T m (set_worker w Idle ws) sent adj) → announced T orderID message →
  orderID ∉ sent.*1 → (∀ w' message', ws w' ≠ Announcing orderID message') →
  sys_ok cfg (mkSys T m (set_worker w (Announcing orderID message) ws) sent adj).
Proof.
  intros Hok Ha Hns Hnt.
  assert (∀ w' o msg, set_worker w (Announcing orderID message) ws w' = Announcing o msg →
            (w' = w ∧ o = orderID) ∨ (w' ≠ w ∧ o ≠ orderID
               ∧ set_worker w Idle ws w' = Announcing o msg)) as Hws.
  { intros w' o msg. unfold set_worker. case_decide as E.
    - intros [= -> _]. by left.
    - intros Hw. right. split_and!; [done| |done]. intros ->. by apply (Hnt w' msg). }
  split; cbn; try apply Hok.
  - intros w'. pose proof (so_workers _ _ Hok w') as Hw. cbn in Hw. unfold set_worker in *.
    by case_decide.
  - intros w' o msg [[_ ->]|(_ & _ & E)]%Hws; [done|]. by apply (so_telling _ _ Hok w' o msg).
  - intros w1 w2 o m1 m2 [[-> E1]|(_ & E1 & F1)]%Hws [[-> E2]|(_ & E2 & F2)]%Hws; try congruence.
    by apply (so_one_teller _ _ Hok w1 w2 o m1 m2).
Qed.

Lemma sys_ok_finalize T m ws sent adj w orderID pay charge r T' :
  sys_ok cfg (mkSys T m ws sent adj) → ws w = Finalizing orderID pay charge →
  tx_outcome (finalize_tx pay charge) T r T' →
  sys_ok cfg (mkSys T' m (set_worker w (match r with
      | Ok true => Announcing orderID (final_message orderID charge)
      | _ => Idle
      end) ws) sent adj).
Proof.
  intros Hok Hw Hr. pose proof (so_workers _ _ Hok w) as Hst. cbn in Hst. rewrite Hw in Hst.
  destruct Hst as (Hsnap & <- & Hback).
  apply finalize_tables in Hr as [HT' Hr]; [|apply Hok|done].
  assert (sys_ok cfg (mkSys T m (set_worker w Idle ws) sent adj)) as Hidle
    by (by apply sys_ok_worker).
  destruct Hr as [[-> Hnt]|Hs].
  { destruct r as [[]|]; try done. }
  pose proof (settled_as_evolves _ _ _ _ Hs) as HE.
  assert (sys_ok cfg (mkSys T' m (set_worker w Idle ws) sent adj)) as Hidle'.
  { apply (sys_ok_tables T m _ sent adj T' adj); [done..|].
    eapply settled_paid_backed; [done..|apply Hok]. }
  destruct r as [[]|]; [|done..].
  destruct (settled_as_pending _ _ _ _ Hs) as (o & Ho & Hos).
  apply sys_ok_announcing; [done|by eapply settled_as_announced| |].
  - intros ([o' msg] & E & Hin)%list_elem_of_fmap. cbn in E. subst o'.
    by apply (pending_unannounced T _ msg o Ho Hos), (so_sent _ _ Hok).
  - intros w' msg E. apply (pending_unannounced T _ msg o Ho Hos).
    pose proof (so_workers _ _ Hok w') as Hw'. cbn in Hw'. by rewrite E in Hw'.
Qed.

Lemma sys_ok_announce T m ws sent adj w orderID message T' :
  sys_ok cfg (mkSys T m ws sent adj) → ws w = Announcing orderID message → elsewhere T T' →
  sys_ok cfg (mkSys T' m (set_worker w Idle ws) ((orderID, message) :: sent) adj).
Proof.
  intros Hok Hw HE. pose proof (so_workers _ _ Hok w) as Hst. cbn in Hst. rewrite Hw in Hst.
  assert (sys_ok cfg (mkSys T' m (set_worker w Idle ws) sent adj)) as Hidle.
  { apply (sys_ok_tables T m _ sent adj T' adj).
    - by apply sys_ok_worker.
    - by eapply elsewhere_ledger, Hok.
    - by apply elsewhere_evolves.
    - eapply paid_backed_same, Hok. cbn. by rewrite (else_payments _ _ HE). }
  split; cbn; try apply Hidle.
  - intros o msg [[= -> ->]|Hin]%elem_of_cons.
    + eapply announced_evolves; [by apply elsewhere_evolves|done].
    + by apply (so_sent _ _ Hidle).
  - constructor; [|apply Hidle]. by apply (so_telling _ _ Hok w orderID message).
  - intros w' o msg. unfold set_worker. case_decide as E; [done|]. intros Hw'.
    apply not_elem_of_cons. split; [|by apply (so_telling _ _ Hok w' o msg)].
    intros ->. apply E. by apply (so_one_teller _ _ Hok w' w orderID msg message).
Qed.

(** The invariant is kept by every step. *)
Lemma step_sys_ok s s' : sys_ok cfg s → step cfg s s' → sys_ok cfg s'.
Proof.
  intros Hok Hst. destruct Hst as
    [T m ws sent adj order payment r T' Ho Hp Hr|T m ws sent adj T' HE
    |T m ws sent adj w oid pay k Hw Hk Hoid Hs|T m ws sent adj w oid pay n e r m' Hw Hc
    |T m ws sent adj w oid pay e Hw|T m ws sent adj w oid pay c r T' Hw Hr
    |T m ws sent adj w oid msg T' Hw HE _|T m ws sent adj w].
  - apply order_step_tables in Hr as [HT' Hr]; [|apply Hok|done..].
    destruct Hr as [->|(o' & p' & Hpl)]; [done|].
    eapply sys_ok_tables; [done..|by eapply placed_evolves|].
    eapply paid_backed_same, Hok. intros k q Hk Hq. cbn.
    destruct (placed_payment _ _ _ _ _ _ Hpl) as (st & _ & HP & _ & _ & _ & Hst & _).
    rewrite HP in Hk. apply lookup_insert_Some in Hk as [[_ <-]|[_ Hk]]; [congruence|done].
  - eapply sys_ok_tables; [done|by eapply elsewhere_ledger, Hok|by apply elsewhere_evolves|].
    eapply paid_backed_same, Hok. cbn. by rewrite (else_payments _ _ HE).
  - apply sys_ok_worker; [done| |done]. cbn. split_and!; [|done|done].
    destruct (proj1 (ok_consistent _ (so_ledger _ _ Hok) _ payments) k pay Hk) as [E _].
    cbn in E. subst k. by exists pay.
  - by eapply sys_ok_charge.
  - pose proof (so_workers _ _ Hok w) as Hst. cbn in Hst. rewrite Hw in Hst.
    destruct Hst as (Hsn & Ho & Hn). apply sys_ok_worker; [done| |done]. cbn.
    split_and!; [done..|]. destruct e as [e|]; [done|]. intros a [= <-]. right.
    split; [|done]. specialize (Hn eq_refl). lia.
  - by eapply sys_ok_finalize.
  - by eapply sys_ok_announce.
  - by apply sys_ok_worker.
Qed.

Lemma steps_sys_ok s s' : sys_ok cfg s → steps cfg s s' → sys_ok cfg s'.
Proof. intros Hok Hst. induction Hst; [done|]. eauto using step_sys_ok. Qed.

Lemma started_ok T :
  ledger_ok T → (∀ k p, Tables_payments T !! k = Some p → Payment_Status p ≠ PaymentStatusPaid) →
  sys_ok cfg (started T).
Proof.
  intros HT Hp. split; cbn [started s_tables s_charges s_workers s_sent]; try done.
  - intros k p Hk Hs. by destruct (Hp k p Hk).
  - intros o msg []%not_elem_of_nil.
  - constructor.
Qed.

Lemma step_conserves s s' p :
  sys_ok cfg s → step cfg s s' →
  stock (s_tables s') p + reserved (s_tables s') p - s_adjusted s' p
  = stock (s_tables s) p + reserved (s_tables s) p - s_adjusted s p.
Proof.
  intros Hok Hst. destruct Hst as
    [T m ws sent adj order payment r T' Ho Hp Hr|T m ws sent adj T' HE|
    |  | |T m ws sent adj w oid pay c r T' Hw Hr|T m ws sent adj w oid msg T' Hw HE HI|];
    cbn [s_tables s_adjusted]; try done.
  - apply order_step_tables in Hr as [_ [->|(o' & p' & Hpl)]];
      [done| |by apply (so_ledger cfg) in Hok|done..].
    rewrite (placed_conserves Hpl); [done|apply Hok|done].
  - rewrite (elsewhere_reserved _ _ p HE). lia.
  - pose proof (so_workers _ _ Hok w) as Hst. cbn in Hst. rewrite Hw in Hst.
    apply finalize_tables in Hr as [_ [[-> _]|Hs]]; [done| |apply Hok|apply Hst].
    rewrite (settled_as_conserves _ _ _ _ p (proj1 Hst) Hs). done.
  - rewrite (elsewhere_reserved _ _ p HE). unfold stock. by rewrite HI.
Qed.

Lemma step_evolves s s' : sys_ok cfg s → step cfg s s' → evolves (s_tables s) (s_tables s').
Proof.
  intros Hok Hst. destruct Hst as
    [T m ws sent adj order payment r T' Ho Hp Hr|T m ws sent adj T' HE|
    |  | |T m ws sent adj w oid pay c r T' Hw Hr|T m ws sent adj w oid msg T' Hw HE _|]; cbn;
    try reflexivity.
  - apply order_step_tables in Hr as [_ [->|(o' & p' & Hpl)]]; [reflexivity| |apply Hok|done..].
    by eapply placed_evolves.
  - by apply elsewhere_evolves.
  - pose proof (so_workers _ _ Hok w) as Hst. cbn in Hst. rewrite Hw in Hst.
    apply finalize_tables in Hr as [_ [[-> _]|Hs]]; [reflexivity| |apply Hok|apply Hst].
    by eapply settled_as_evolves.
  - by apply elsewhere_evolves.
Qed.
Lemma steps_evolves s s' : sys_ok cfg s → steps cfg s s' → evolves (s_tables s) (s_tables s').
Proof.
  intros Hok Hst. induction Hst as [|s1 s2 s3 Hst _ IH]; [reflexivity|].
  transitivity (s_tables s2); [by apply step_evolves|]. apply IH. by eapply step_sys_ok.
Qed.
End invariant.

(** ** The sequential code is one worker of the pipeline *)
Definition only_notifications (T T' : Tables) : Prop :=
  T' = set_rows notifications (Tables_notifications T') T ∧ (consistent T → consistent T').

Lemma only_notifications_elsewhere T T' :
  only_notifications T T' → elsewhere T T' ∧ Tables_inventory T' = Tables_inventory T.
Proof.
  intros [-> Hc]. destruct T. cbn in *. split; [|done]. split; cbn; eauto.
Qed.

Lemma only_notifications_refl T : only_notifications T T.
Proof. split; [by destruct T|done]. Qed.

Lemma only_notifications_trans T1 T2 T3 :
  only_notifications T1 T2 → only_notifications T2 T3 → only_notifications T1 T3.
Proof. intros [-> H1] [-> H2]. destruct T1. cbn in *. split; [done|auto]. Qed.

Section refinement.
Context `{LawfulDb D} {G N R : Type} `{LawfulGateway G} `{Notifier N} `{Runtime R}.
Variable cfg : WorkerConfig.
Implicit Types (w : FWorld D G N R) (d : D).

Lemma autocommit_notes {B} (s : stmt B) d r d' :
  (∀ T rb T', sem s T rb T' → T' = set_rows notifications (Tables_notifications T') T) →
  autocommit s d = (r, d') → only_notifications (view d) (view d').
Proof.
  intros Hs Hr. apply Transaction_outcome in Hr.
  assert (∀ rb T', runs (perform s) (view d) rb T' → only_notifications (view d) T') as Hok.
  { intros rb T' Hrun. split; [|apply (runs_step _ _ _ _ Hrun)].
    apply runs_perform in Hrun. by apply Hs in Hrun. }
  destruct r as [b|e]; [by apply Hok in Hr|].
  destruct Hr as [[-> _]|[_ (b & Hr)]]; [apply only_notifications_refl|by apply Hok in Hr].
Qed.

Lemma create_notes (n : Notification) T rb T' :
  sem (Create notifications n) T rb T' → T' = set_rows notifications (Tables_notifications T') T.
Proof.
  destruct rb as [n'|e].
  - intros (now & id & st & _ & _ & _ & _ & _ & -> & _)%sem_create_ok. by destruct T.
  - intros [-> _]. by destruct T.
Qed.

Lemma exec_notes set_ where_ T rb T' :
  sem (Exec notifications set_ where_) T rb T' →
  T' = set_rows notifications (Tables_notifications T') T.
Proof.
  destruct rb as [n|e]; [intros (now & _ & -> & _)|intros [-> _]]; by destruct T.
Qed.

Lemma in_db_inv {A} (m : M D A) w a w' :
  in_db m w = (a, w') →
  m (f_db w) = (a, f_db w') ∧ f_gateway w' = f_gateway w ∧ f_notifier w' = f_notifier w.
Proof. unfold in_db, on. destruct (m _). by intros [= <- <-]. Qed.

Lemma in_notifier_inv {A} (m : M N A) w a w' :
  in_notifier m w = (a, w') → f_db w' = f_db w ∧ f_gateway w' = f_gateway w.
Proof. unfold in_notifier, on. destruct (m _). by intros [= <- <-]. Qed.

Lemma mark_notes (b : bool) id d r d' :
  (if b then MarkSent id else MarkFailed id) d = (r, d') → only_notifications (view d) (view d').
Proof.
  destruct b; (intros [(n & d1 & Ha & [= <- <-])|(e & Ha & ->)]%try_inv;
    apply autocommit_notes in Ha; [done|apply exec_notes|done|apply exec_notes]).
Qed.

Lemma Send_notes orderID message w u w' :
  Send orderID message w = (u, w') →
  only_notifications (view (f_db w)) (view (f_db w')) ∧ f_gateway w' = f_gateway w.
Proof.
  intros (created & w1 & Hc & Hr)%M_bind_inv. apply in_db_inv in Hc as (Hc & G1 & _).
  apply autocommit_notes in Hc; [|apply create_notes].
  destruct created as [n|e]; [|by injection Hr as <- <-].
  apply M_bind_inv in Hr as (b & w2 & Hn & Hr). apply in_notifier_inv in Hn as [D2 G2].
  apply M_bind_inv in Hr as (rm & w3 & Hm & [= <- <-]).
  assert (in_db (if b then MarkSent (Notification_ID n) else MarkFailed (Notification_ID n)) w2
          = (rm, w3)) as Hm' by by destruct b.
  apply in_db_inv in Hm' as (Hm' & G3 & _). apply mark_notes in Hm'. rewrite D2 in Hm'.
  split; [by eapply only_notifications_trans|congruence].
Qed.

(** What [GetPendingByOrderID] returns, and that it only reads. *)
Lemma GetPendingByOrderID_spec orderID d r d' :
  GetPendingByOrderID orderID d = (r, d') →
  view d' = view d
  ∧ match r with
    | Ok pay => ∃ k, Tables_payments (view d) !! k = Some pay ∧ Payment_OrderID pay = orderID
                     ∧ Payment_Status pay = PaymentStatusPending
    | Err e => opaque e = true
               ∨ (e = ErrNoPendingPayment ∧ ∀ k p, Tables_payments (view d) !! k = Some p →
                    Payment_OrderID p = orderID → Payment_Status p ≠ PaymentStatusPending)
    end.
Proof.
  intros (rb & d1 & Hs & Hk)%M_bind_inv. apply exec_sem in Hs as [Hv Hs].
  destruct rb as [pay|e].
  - injection Hk as <- <-. split; [done|]. destruct Hs as (k & Hk & Hw & _).
    bool_to_prop. by exists k.
  - destruct Hs as [Ho|[-> Hz]].
    + rewrite opaque_not_Is in Hk by done. injection Hk as <- <-. auto.
    + injection Hk as <- <-. split; [done|]. right. split; [done|].
      intros k p Hp Hoid Hst. pose proof (proj1 (countb_zero _ _) Hz k p Hp) as Hf. cbn in Hf.
      rewrite Hoid, Z.eqb_refl, Hst in Hf. done.
Qed.

(** The system with the world [w] under it. *)
Definition sys_of w ws sent adj : Sys :=
  mkSys (view (f_db w)) (charges (f_gateway w)) ws sent adj.

Lemma charge_loop_steps i orderID pay n attempt last w r w' ws sent adj :
  charge_loop cfg (charge_request pay) n attempt last w = (r, w') →
  ws i = Charging orderID pay n last →
  ∃ ws', ws' i = Finalizing orderID pay r ∧ (∀ j, j ≠ i → ws' j = ws j)
    ∧ steps cfg (sys_of w ws sent adj) (sys_of w' ws' sent adj).
Proof.
  revert attempt last w ws. induction n as [|n IH]; intros attempt last w ws.
  { intros [= <- <-] Hi. exists (set_worker i (Finalizing orderID pay (loop_result last)) ws).
    split_and!; [by rewrite set_worker_eq|intros j Hj; unfold set_worker; by rewrite decide_False|].
    apply rtc_once. by apply step_end_loop. }
  cbn [charge_loop]. intros (rc & w1 & Hc & Hk)%M_bind_inv Hi.
  apply in_gateway_inv in Hc as (Hc & Hd & Hn). apply Charge_law in Hc.
  assert (step cfg (sys_of w ws sent adj)
    (sys_of w1 (set_worker i (match rc with
       | Ok _ => Finalizing orderID pay rc
       | Err e => Charging orderID pay n (Some e)
       end) ws) sent adj)) as Hstep.
  { unfold sys_of. rewrite Hd. eapply step_charge; [done|]. destruct rc; exact Hc. }
  destruct rc as [a|e].
  - injection Hk as <- <-. eexists. split_and!; [by rewrite set_worker_eq| |by apply rtc_once].
    intros j Hj. unfold set_worker. by rewrite decide_False.
  - apply M_bind_inv in Hk as (u & w2 & Hp & Hk). apply pause_only in Hp as (E1 & E2 & _).
    eapply (IH _ _ _ (set_worker i (Charging orderID pay n (Some e)) ws)) in Hk
      as (ws' & Hi' & Hj' & Hs); [|by rewrite set_worker_eq].
    exists ws'. split_and!; [done| |].
    + intros j Hj. rewrite Hj' by done. unfold set_worker. by rewrite decide_False.
    + eapply rtc_l; [exact Hstep|]. unfold sys_of in *. by rewrite E1, E2 in Hs.
Qed.

(** [finalize] is its transaction, and the announcement when that moved the order. *)
Lemma finalize_inv orderID pay charge w u w' :
  finalize orderID pay charge w = (u, w') →
  ∃ r w1, in_db (Transaction (finalize_tx pay charge)) w = (r, w1)
    ∧ match r with
      | Ok true => Send orderID (final_message orderID charge) w1 = (u, w')
      | _ => w' = w1
      end.
Proof.
  intros Hf. destruct charge as [a|e]; apply M_bind_inv in Hf as (r & w1 & Ht & Hr); exists r, w1;
    (split; [exact Ht|]); destruct r as [[]|]; [done|by injection Hr|by injection Hr|done|
    by injection Hr|by injection Hr].
Qed.

Lemma finalize_steps i orderID pay charge w u w' ws sent adj :
  finalize orderID pay charge w = (u, w') → ws i = Finalizing orderID pay charge →
  ∃ ws' sent', ws' i = Idle ∧ (∀ j, j ≠ i → ws' j = ws j)
    ∧ (sent' = sent ∨ sent' = (orderID, final_message orderID charge) :: sent)
    ∧ steps cfg (sys_of w ws sent adj) (sys_of w' ws' sent' adj).
Proof.
  intros Hf Hi.
  apply finalize_inv in Hf as (r & w1 & Ht & Hr).
  apply in_db_inv in Ht as (Ht & G1 & _). apply Transaction_outcome in Ht.
  set (st := match r with
             | Ok true => Announcing orderID (final_message orderID charge)
             | _ => Idle
             end).
  assert (step cfg (sys_of w ws sent adj) (sys_of w1 (set_worker i st ws) sent adj)) as Hstep.
  { unfold sys_of. rewrite G1. by eapply step_finalize. }
  assert (∀ st' st'' j, j ≠ i → set_worker i st' (set_worker i st'' ws) j = ws j) as Hother.
  { intros st' st'' j Hj. unfold set_worker. by rewrite !decide_False. }
  destruct r as [[]|e].
  { apply Send_notes in Hr as [Hn G2]. apply only_notifications_elsewhere in Hn as [HE HI].
    exists (set_worker i Idle (set_worker i st ws)), ((orderID, final_message orderID charge) :: sent).
    split_and!; [by rewrite set_worker_eq|intros; by apply Hother|by right|].
    eapply rtc_l; [exact Hstep|]. apply rtc_once. unfold sys_of. rewrite G2.
    eapply step_announce; [by rewrite set_worker_eq|done..]. }
  all: exists (set_worker i Idle (set_worker i st ws)), sent; subst w';
    (split_and!; [by rewrite set_worker_eq|intros; by apply Hother|by left|]);
    (eapply rtc_l; [exact Hstep|]); apply rtc_once, step_drop.
Qed.
End refinement.

(** ** The theorems *)
Section theorems.
Context `{Numeric}.
Variable cfg : WorkerConfig.

(** C6. Units are conserved in every interleaving of requests, workers, shop edits and
    crashes: what is on the shelf plus what live orders hold changes only by the shop's
    own edits, for every product, and the shelf is never negative. *)
Theorem units_conserved s s' :
  sys_ok cfg s → steps cfg s s' → ∀ p,
    stock (s_tables s') p + reserved (s_tables s') p - s_adjusted s' p
    = stock (s_tables s) p + reserved (s_tables s) p - s_adjusted s p
    ∧ 0 ≤ stock (s_tables s') p.
Proof.
  intros Hok Hst p. split; [|apply stock_nonneg, ok_consistent, (so_ledger cfg); by eapply steps_sys_ok].
  induction Hst as [|s1 s2 s3 Hst _ IH]; [done|].
  rewrite IH by (by eapply step_sys_ok). clear IH.
  by apply (step_conserves cfg).
Qed.

(** C7. A confirmed order was paid for: with at least one attempt configured, in every
    reachable state its payment is marked paid with the transaction id that the gateway
    recorded under that payment's key. *)
Theorem confirmed_is_charged s s' orderID o :
  sys_ok cfg s → steps cfg s s' → 0 < MaxRetries cfg →
  Tables_orders (s_tables s') !! orderID = Some o → Order_Status o = OrderStatusConfirmed →
  ∃ k p a, Tables_payments (s_tables s') !! k = Some p ∧ Payment_OrderID p = orderID
    ∧ Payment_Status p = PaymentStatusPaid
    ∧ Payment_ProviderTxnID p = Some (TransactionID a)
    ∧ s_charges s' !! Payment_IdempotencyKey p = Some a.
Proof.
  intros Hok Hst Hm Ho Hs. pose proof (steps_sys_ok cfg _ _ Hok Hst) as Hok'.
  pose proof (so_ledger _ _ Hok') as HT.
  destruct (ok_paid_for _ HT orderID o Ho) as (k & p & Hk & Hp).
  destruct (ok_in_step _ HT k p Hk) as (o' & Ho' & Hstep).
  rewrite Hp in Ho'. replace o' with o in Hstep by congruence. rewrite Hs in Hstep.
  assert (Payment_Status p = PaymentStatusPaid) as Hpaid by (by destruct (Payment_Status p)).
  destruct (so_paid _ _ Hok' k p Hk Hpaid) as (a & Htx & [Ha|[Hle _]]); [|lia].
  by exists k, p, a.
Qed.

(** C8. Terminal states are final: once an order is confirmed or cancelled, its row and
    its payment's row never change again. *)
Theorem terminal_is_final s s' orderID o k p :
  sys_ok cfg s → steps cfg s s' →
  Tables_orders (s_tables s) !! orderID = Some o → Order_Status o ≠ OrderStatusPending →
  Tables_payments (s_tables s) !! k = Some p → Payment_OrderID p = orderID →
  Tables_orders (s_tables s') !! orderID = Some o ∧ Tables_payments (s_tables s') !! k = Some p.
Proof.
  intros Hok Hst Ho Hs Hk Hp. pose proof (steps_evolves cfg _ _ Hok Hst) as HE.
  destruct (evolves_order _ _ HE _ _ Ho) as (o' & Ho' & _ & Eo).
  destruct (evolves_payment _ _ HE _ _ Hk) as (p' & Hk' & _ & _ & Ep).
  destruct (ok_in_step _ (so_ledger _ _ Hok) k p Hk) as (o2 & Ho2 & Hstep).
  rewrite Hp in Ho2. replace o2 with o in Hstep by congruence.
  rewrite Ho', Hk', Eo, Ep; [done| |done].
  intros Hpend. rewrite Hpend in Hstep. by destruct (Order_Status o).
Qed.

(** C9. Each order is announced at most once, and the message tells the state the order
    is in: "confirmed" for a confirmed order, "cancelled" for a cancelled one. *)
Theorem announced_once s s' :
  sys_ok cfg s → steps cfg s s' →
  NoDup (s_sent s').*1
  ∧ ∀ orderID message, (orderID, message) ∈ s_sent s' → announced (s_tables s') orderID message.
Proof.
  intros Hok Hst. pose proof (steps_sys_ok cfg _ _ Hok Hst) as Hok'.
  split; [apply Hok'|apply (so_sent _ _ Hok')].
Qed.
End theorems.

Section theorems_code.
Context `{LawfulDb D} {G N R : Type} `{LawfulGateway G} `{Notifier N} `{Runtime R}.
Variable cfg : WorkerConfig.
Implicit Types (w : FWorld D G N R).

(** C15. The code refines the pipeline: whatever [Fulfill] does to the tables, the
    gateway and the notifications is a run of one idle worker, so everything proved of
    all interleavings holds of the code. *)
Theorem Fulfill_refines i orderID w u w' ws sent adj :
  Fulfiller_Fulfill cfg orderID w = (u, w') → ws i = Idle →
  ∃ ws' sent', ws' i = Idle ∧ (∀ j, j ≠ i → ws' j = ws j)
    ∧ (sent' = sent ∨ ∃ message, sent' = (orderID, message) :: sent)
    ∧ steps cfg (sys_of w ws sent adj) (sys_of w' ws' sent' adj).
Proof.
  intros (rp & w1 & Hp & Hr)%M_bind_inv Hi.
  apply in_db_inv in Hp as (Hp & G1 & _). apply GetPendingByOrderID_spec in Hp as [Hv Hp].
  assert (sys_of w1 ws sent adj = sys_of w ws sent adj) as E by (unfold sys_of; by rewrite Hv, G1).
  destruct rp as [pay|e].
  2: { injection Hr as <- <-. exists ws, sent. rewrite E.
       split_and!; [done..|by left|apply rtc_refl]. }
  destruct Hp as (k & Hk & Hoid & Hst). apply M_bind_inv in Hr as (charge & w2 & Hch & Hf).
  apply (charge_loop_steps cfg i orderID pay _ _ _ _ _ _
    (set_worker i (Charging orderID pay (Z.to_nat (MaxRetries cfg)) None) ws) sent adj) in Hch
    as (ws2 & Hi2 & Hj2 & Hs2); [|by rewrite set_worker_eq].
  apply (finalize_steps cfg i _ _ _ _ _ _ ws2 sent adj) in Hf
    as (ws3 & sent3 & Hi3 & Hj3 & Hsent & Hs3); [|done].
  exists ws3, sent3. split_and!; [done| | |].
  - intros j Hj. rewrite Hj3, Hj2 by done. unfold set_worker. by rewrite decide_False.
  - destruct Hsent; [by left|right; eauto].
  - eapply rtc_l; [|etransitivity; [exact Hs2|exact Hs3]]. rewrite <- E in *.
    unfold sys_of. rewrite Hv. by eapply step_load.
Qed.

Lemma finalize_tx_settles T pay charge b T' :
  ledger_ok T → Tables_payments T !! Payment_ID pay = Some pay →
  Payment_Status pay = PaymentStatusPending →
  runs (finalize_tx pay charge) T (Ok b) T' → b = true ∧ settled_as T T' pay charge.
Proof.
  intros HT Hk Hst Hr. assert (snapshot T pay) as Hsn by (by exists pay).
  assert (if b then settled_as T T' pay charge else T' = T ∧ finalized T pay) as Hb.
  { destruct charge; [by apply MarkPaidAndConfirm_tx_ok in Hr|by apply FailCancelAndRestock_tx_ok in Hr]. }
  destruct b; [done|]. destruct Hb as (_ & p & Hp & Hs). congruence.
Qed.

Lemma finalize_settles orderID pay charge w u w' :
  ledger_ok (view (f_db w)) → Tables_payments (view (f_db w)) !! Payment_ID pay = Some pay →
  Payment_Status pay = PaymentStatusPending →
  finalize orderID pay charge w = (u, w') →
  (∃ w1, settled_as (view (f_db w)) (view (f_db w1)) pay charge
     ∧ f_gateway w1 = f_gateway w ∧ f_notifier w1 = f_notifier w
     ∧ Send orderID (final_message orderID charge) w1 = (u, w'))
  ∨ (∃ e, Transaction (finalize_tx pay charge) (f_db w) = (Err e, f_db w')
     ∧ f_gateway w' = f_gateway w ∧ f_notifier w' = f_notifier w
     ∧ (view (f_db w') = view (f_db w) ∨ settled_as (view (f_db w)) (view (f_db w')) pay charge)).
Proof.
  intros HT Hk Hst Hf.
  apply finalize_inv in Hf as (r & w1 & Ht & Hr).
  apply in_db_inv in Ht as (Ht & G1 & N1). pose proof Ht as Ho.
  apply Transaction_outcome in Ho. destruct r as [b|e].
  - cbn in Ho. apply finalize_tx_settles in Ho as [-> Hs]; [|done..]. left. by exists w1.
  - right. subst w1. exists e. split_and!; [done..|].
    destruct Ho as [[Hv _]|[_ (b & Ho)]]; [by left|right].
    by apply finalize_tx_settles in Ho as [_ Hs].
Qed.

(** C5. [Fulfill] settles its order. Without a pending payment, or when it cannot be loaded,
    nothing happens at all. Otherwise the payment is charged, under its own key, until a
    charge succeeds, at most [MaxRetries] times, and then the order is settled accordingly,
    in one step: confirmed and paid with the transaction the gateway recorded, or, when every
    charge failed and none was recorded, cancelled with exactly its units back on the shelf;
    and its customer is told, in those words. Only when that step's transaction returns an
    error is nobody told and can the order be pending still (the sweeper's case). *)
Theorem Fulfill_settles orderID w u w' :
  let T := view (f_db w) in
  0 < MaxRetries cfg → ledger_ok T → Fulfiller_Fulfill cfg orderID w = (u, w') →
  (view (f_db w') = T ∧ f_gateway w' = f_gateway w ∧ f_notifier w' = f_notifier w
   ∧ ∃ e, (GetPendingByOrderID orderID (f_db w)).1 = Err e
       ∧ (opaque e = true ∨ e = ErrNoPendingPayment ∧ ∀ k p, Tables_payments T !! k = Some p →
            Payment_OrderID p = orderID → Payment_Status p ≠ PaymentStatusPending))
  ∨ ∃ pay charge n,
      Tables_payments T !! Payment_ID pay = Some pay ∧ Payment_OrderID pay = orderID
      ∧ Payment_Status pay = PaymentStatusPending
      ∧ 1 ≤ Z.of_nat n ≤ MaxRetries cfg
      ∧ attempts (charge_request pay) n (f_gateway w) charge (f_gateway w')
      ∧ match charge with
        | Ok a => charges (f_gateway w') !! Payment_IdempotencyKey pay = Some a
        | Err _ => Z.of_nat n = MaxRetries cfg ∧ charges (f_gateway w') = charges (f_gateway w)
        end
      ∧ ((∃ w1, settled_as T (view (f_db w1)) pay charge ∧ f_notifier w1 = f_notifier w
            ∧ Send orderID (final_message orderID charge) w1 = (u, w'))
         ∨ (∃ e d, view d = T ∧ Transaction (finalize_tx pay charge) d = (Err e, f_db w')
            ∧ f_notifier w' = f_notifier w
            ∧ (view (f_db w') = T ∨ settled_as T (view (f_db w')) pay charge))).
Proof.
  intros T Hm HT (rp & w1 & Hl & Hr)%M_bind_inv. apply in_db_inv in Hl as (Hl & G1 & N1).
  pose proof Hl as [Hv Hp]%GetPendingByOrderID_spec. fold T in Hv, Hp.
  destruct rp as [pay|e].
  2: { injection Hr as <- <-. left. rewrite Hl. split_and!; [done..|by exists e]. }
  right. destruct Hp as (k & Hk & Ho & Hst). apply M_bind_inv in Hr as (charge & w2 & Hc & Hf).
  destruct (proj1 (ok_consistent _ HT _ payments) k pay Hk) as [E _]. cbn in E. subst k.
  apply charge_loop_spec in Hc as (D2 & N2 & [(Hz & _)|(n & Hn & Ha & Hall)]); [lia|].
  apply finalize_settles in Hf; [|rewrite D2, Hv; exact HT|rewrite D2, Hv; exact Hk|exact Hst].
  rewrite D2, Hv, N2, N1 in Hf.
  assert (f_gateway w' = f_gateway w2) as G3.
  { destruct Hf as [(w3 & _ & G3 & _ & [_ G4]%Send_notes)|(e & _ & G3 & _)]; congruence. }
  exists pay, charge, n. rewrite <- G1, G3.
  split_and!; [done|done|done|lia|lia|done| |].
  - pose proof (attempts_charges _ _ _ _ _ Ha) as Hch. destruct charge as [a|e].
    + destruct Hch as [-> _]. apply lookup_insert_eq.
    + split; [rewrite (Hall eq_refl); lia|done].
  - destruct Hf as [(w3 & Hs & _ & N3 & Hsend)|(e & Ht & _ & N3 & Hs)]; [left|right].
    + by exists w3.
    + by exists e, (f_db w1).
Qed.

(** With [MaxRetries <= 0] the fulfiller confirms orders without charging them: no
    gateway call is made, yet a pending order whose transition commits ends confirmed and
    paid, with an empty transaction id. *)
Theorem no_retries_confirms_unpaid orderID w pay d1 d2 u w' :
  MaxRetries cfg ≤ 0 → ledger_ok (view (f_db w)) →
  GetPendingByOrderID orderID (f_db w) = (Ok pay, d1) →
  MarkPaidAndConfirm pay "" d1 = (Ok true, d2) →
  Fulfiller_Fulfill cfg orderID w = (u, w') →
  f_gateway w' = f_gateway w
  ∧ at_rest (view (f_db w')) pay OrderStatusConfirmed PaymentStatusPaid
  ∧ Payment_OrderID pay = orderID.
Proof.
  intros Hm HT Hg Hp (rp & w1 & Hl & Hr)%M_bind_inv.
  apply in_db_inv in Hl as (Hl & G1 & _). rewrite Hg in Hl. injection Hl as <- ->.
  apply GetPendingByOrderID_spec in Hg as [Hv (k & Hk & Ho & Hst)].
  apply M_bind_inv in Hr as (charge & w2 & Hch & Hf).
  assert (charge = Ok (mkChargeResult "") ∧ w2 = w1) as [-> ->].
  { unfold Fulfiller_charge in Hch. replace (Z.to_nat (MaxRetries cfg)) with O in Hch by lia.
    by injection Hch as <- <-. }
  apply M_bind_inv in Hf as (r & w3 & Ht & Hs). apply in_db_inv in Ht as (Ht & G3 & _).
  change (MarkPaidAndConfirm pay "" (f_db w1) = (r, f_db w3)) in Ht.
  rewrite Hp in Ht. injection Ht as <- ->. apply Transaction_outcome in Hp. cbn in Hp.
  rewrite Hv in Hp.
  assert (snapshot (view (f_db w)) pay) as Hsn.
  { destruct (proj1 (ok_consistent _ HT _ payments) k pay Hk) as [E _]. cbn in E. subst k.
    by exists pay. }
  apply MarkPaidAndConfirm_tx_ok in Hp; [|done..].
  apply (settled_at_rest _ _ _ _ _ _ _ Hsn) in Hp.
  apply Send_notes in Hs as [Hn G4]. apply only_notifications_elsewhere in Hn as [HE _].
  split_and!; [congruence| |done].
  unfold at_rest. by rewrite (else_payments _ _ HE), (else_orders _ _ HE).
Qed.
End theorems_code.

(** ** Concrete runs *)
Definition demo_T : Tables := view demo_created.2.
Definition demo_oid : Z := Payment_OrderID demo_row.
Definition demo_charge : ChargeResult := mkChargeResult "txn_1".

Lemma demo_unpaid k p :
  Tables_payments demo_T !! k = Some p → Payment_Status p ≠ PaymentStatusPaid.
Proof.
  revert k p. change (map_Forall (λ _ p, Payment_Status p ≠ PaymentStatusPaid)
                        (Tables_payments demo_T)).
  apply (bool_decide_unpack _). evaluate.
Qed.

Lemma demo_started cfg : sys_ok cfg (started demo_T).
Proof. apply started_ok; [apply demo_created_ok|exact demo_unpaid]. Qed.

(** Two workers hold one order: worker 0 fails all its charges while worker 1's succeeds. *)
Definition demo_pay_id : Z := Payment_ID demo_row.
Definition demo_error : error := OtherError "declined".
Definition demo_T' : Tables := view demo_cancelled.2.

Lemma demo_row_stored : Tables_payments demo_T !! demo_pay_id = Some demo_row.
Proof. evaluate. Qed.

Lemma ref_outcome {A} (body : db A) (d : RefDb) r T' :
  (Transaction body d).1 = r → view (Transaction body d).2 = T' → tx_outcome body (view d) r T'.
Proof.
  intros <- <-. apply (Transaction_outcome body d). apply surjective_pairing.
Qed.

Lemma demo_cancel_outcome :
  tx_outcome (finalize_tx demo_row (Err demo_error)) demo_T (Ok true) demo_T'.
Proof. apply (ref_outcome _ demo_created.2); evaluate. Qed.

Lemma demo_late_outcome :
  tx_outcome (finalize_tx demo_row (Ok demo_charge)) demo_T' (Ok false) demo_T'.
Proof. apply (ref_outcome _ demo_cancelled.2); evaluate. Qed.

Lemma elsewhere_refl T : elsewhere T T.
Proof. split; eauto. Qed.

(** C40. A race the guards do not cover: two workers can hold one order (its id is queued
    twice when the sweeper re-enqueues it), and then the system can reach a state where
    everything is at rest, the order is cancelled, and its customer has been charged. *)
Theorem charged_yet_cancelled :
  ∃ s', steps default_worker (started demo_T) s' ∧ (∀ i, s_workers s' i = Idle)
    ∧ (∃ o, Tables_orders (s_tables s') !! demo_oid = Some o
            ∧ Order_Status o = OrderStatusCancelled)
    ∧ s_charges s' !! Payment_IdempotencyKey demo_row = Some demo_charge.
Proof.
  pose proof demo_row_stored as Hrow. pose proof demo_cancel_outcome as Hcancel.
  pose proof demo_late_outcome as Hlate. eexists. split.
  - unfold started, steps.
    (* both workers load the order *)
    eapply rtc_l; [eapply (step_load _ demo_T _ _ _ _ 0%nat); [done|exact Hrow|done..]|].
    eapply rtc_l; [eapply (step_load _ demo_T _ _ _ _ 1%nat); [done|exact Hrow|done..]|].
    (* worker 0 is declined three times *)
    do 3 (eapply rtc_l; [eapply (step_charge _ _ _ _ _ _ 0%nat _ demo_row _ _ (Err demo_error));
                         reflexivity|]).
    eapply rtc_l; [eapply (step_end_loop _ _ _ _ _ _ 0%nat); reflexivity|].
    (* worker 1 is charged *)
    eapply rtc_l; [eapply (step_charge _ _ _ _ _ _ 1%nat _ demo_row _ _ (Ok demo_charge));
                   [reflexivity|split; [reflexivity|done]]|].
    (* worker 0 cancels first; worker 1 finds nothing left to do *)
    eapply rtc_l; [eapply (step_finalize _ _ _ _ _ _ 0%nat); [reflexivity|exact Hcancel]|].
    eapply rtc_l; [eapply (step_finalize _ _ _ _ _ _ 1%nat); [reflexivity|exact Hlate]|].
    eapply rtc_l; [eapply (step_announce _ _ _ _ _ _ 0%nat);
                   [reflexivity|apply elsewhere_refl|done]|].
    apply rtc_refl.
  - cbn [s_workers s_tables s_charges]. split_and!.
    + intros i. unfold set_worker. repeat case_decide; try done; lia.
    + eexists. split; evaluate.
    + apply lookup_insert_eq.
Qed.

(** ** Witnesses *)

(** A request places the order; worker 0 charges, confirms and announces it. *)
Definition txn_1 : ChargeResult := mkChargeResult "txn-1".
Definition demo_key : string := Payment_IdempotencyKey demo_row.
Definition demo_Tp : Tables := view demo_paid.2.

Lemma demo_placed_run cfg : steps cfg (started (view demo)) (started demo_T).
Proof.
  apply rtc_once. eapply (step_order _ _ _ _ _ _ demo_order demo_payment demo_created.1);
    [done..|]. apply (ref_outcome (CreateOrder_tx demo_order demo_payment) demo); evaluate.
Qed.

Lemma demo_empty_ok cfg : sys_ok cfg (started (view demo)).
Proof. apply started_ok; [apply demo_ledger_ok|]. cbn. intros k p. by rewrite lookup_empty. Qed.

Lemma demo_confirm_run :
  ∃ ws, (∀ i, ws i = Idle)
    ∧ steps default_worker (started demo_T)
        (mkSys demo_Tp {[ demo_key := txn_1 ]} ws [(demo_oid, confirmed_message demo_oid)]
           (λ _, 0)).
Proof.
  pose proof demo_row_stored as Hrow.
  assert (tx_outcome (finalize_tx demo_row (Ok txn_1)) demo_T (Ok true) demo_Tp) as Hpaid
    by (apply (ref_outcome _ demo_created.2); evaluate).
  eexists. split.
  2: { unfold started, steps.
    eapply rtc_l; [eapply (step_load _ demo_T _ _ _ _ 0%nat); [done|exact Hrow|done..]|].
    eapply rtc_l; [eapply (step_charge _ _ _ _ _ _ 0%nat _ demo_row _ _ (Ok txn_1));
                   [reflexivity|split; [reflexivity|done]]|].
    eapply rtc_l; [eapply (step_finalize _ _ _ _ _ _ 0%nat); [reflexivity|exact Hpaid]|].
    eapply rtc_l; [eapply (step_announce _ _ _ _ _ _ 0%nat);
                   [reflexivity|apply elsewhere_refl|done]|].
    apply rtc_refl. }
  intros i. unfold set_worker. by repeat case_decide.
Qed.

(** A charge that fails twice: the order is confirmed all the same; three times: cancelled. *)
Definition demo_fulfilled (failing : nat) : unit * FWorld RefDb fakeGateway unit RefRuntime :=
  Fulfiller_Fulfill default_worker demo_oid (demo_fworld demo_created.2 failing).
Definition demo_status (failing : nat) : option OrderStatus :=
  Order_Status <$> Tables_orders (view (f_db (demo_fulfilled failing).2)) !! demo_oid.

Lemma Fulfill_settles_witness :
  (demo_status 2, demo_status 3) = (Some OrderStatusConfirmed, Some OrderStatusCancelled)
  ∧ ∃ pay charge n, Payment_OrderID pay = demo_oid ∧ 1 ≤ Z.of_nat n ≤ 3
      ∧ attempts (charge_request pay) n (demo_gateway 2) charge (f_gateway (demo_fulfilled 2).2).
Proof.
  split; [evaluate|].
  destruct (Fulfill_settles default_worker demo_oid (demo_fworld demo_created.2 2)
    (demo_fulfilled 2).1 (demo_fulfilled 2).2) as
    [(_ & _ & _ & e & He & _)|(pay & charge & n & _ & Ho & _ & Hn & Ha & _)].
  - reflexivity.
  - exact (proj1 demo_created_ok).
  - apply surjective_pairing.
  - assert (is_ok (GetPendingByOrderID demo_oid demo_created.2).1 = true) as Hok by evaluate.
    cbn [f_db demo_fworld] in He. rewrite He in Hok. discriminate Hok.
  - exists pay, charge, n. exact (conj Ho (conj Hn Ha)).
Defined.

Lemma units_conserved_witness :
  stock demo_T 10 = 3 ∧ reserved demo_T 10 = 2
  ∧ stock demo_T 10 + reserved demo_T 10 - 0 = stock (view demo) 10 + reserved (view demo) 10 - 0
    ∧ 0 ≤ stock demo_T 10.
Proof.
  split; [evaluate|]. split; [evaluate|].
  exact (units_conserved default_worker (started (view demo)) (started demo_T)
    (demo_empty_ok _) (demo_placed_run _) 10).
Defined.

Lemma confirmed_is_charged_witness :
  ∃ k p a, Tables_payments demo_Tp !! k = Some p ∧ Payment_OrderID p = demo_oid
    ∧ Payment_ProviderTxnID p = Some (TransactionID a)
    ∧ ({[ demo_key := txn_1 ]} : gmap string ChargeResult) !! Payment_IdempotencyKey p = Some a.
Proof.
  destruct demo_confirm_run as (ws & _ & Hrun).
  destruct (Tables_orders demo_Tp !! demo_oid) as [o|] eqn:Ho; [|vm_compute in Ho; discriminate Ho].
  assert (Order_Status o = OrderStatusConfirmed) as Hs.
  { vm_compute in Ho. injection Ho as <-. reflexivity. }
  destruct (confirmed_is_charged default_worker _ _ demo_oid o (demo_started _) Hrun eq_refl Ho Hs)
    as (k & p & a & ? & ? & _ & ? & ?).
  exists k, p, a. split_and!; assumption.
Defined.

(** Another order is placed after the first one was confirmed. *)
Definition demo_payment2 : Payment :=
  mkPayment 0 0 "key-2" PaymentStatusPending (price_of 170) None 0 0.
Definition demo_next : res (Order * Payment) * RefDb :=
  repo_CreateOrder demo_order demo_payment2 demo_paid.2.

Lemma demo_next_outcome :
  tx_outcome (CreateOrder_tx demo_order demo_payment2) demo_Tp demo_next.1 (view demo_next.2).
Proof. apply (ref_outcome _ demo_paid.2); evaluate. Qed.

Lemma terminal_is_final_witness :
  Tables_orders demo_Tp !! demo_oid = Tables_orders (view demo_next.2) !! demo_oid
  ∧ size (Tables_orders (view demo_next.2)) = 2%nat.
Proof.
  split; [|evaluate]. destruct demo_confirm_run as (ws & _ & Hrun).
  destruct (Tables_orders demo_Tp !! demo_oid) as [o|] eqn:Ho; [|vm_compute in Ho; discriminate Ho].
  destruct (Tables_payments demo_Tp !! demo_pay_id) as [p|] eqn:Hp;
    [|vm_compute in Hp; discriminate Hp].
  pose proof (steps_sys_ok default_worker _ _ (demo_started _) Hrun) as Hok.
  assert (Order_Status o ≠ OrderStatusPending) as Hs.
  { vm_compute in Ho. injection Ho as <-. discriminate. }
  assert (Payment_OrderID p = demo_oid) as Hpo.
  { vm_compute in Hp. injection Hp as <-. evaluate. }
  pose proof (λ T' Hst, terminal_is_final default_worker _ (mkSys T' {[ demo_key := txn_1 ]} ws
    [(demo_oid, confirmed_message demo_oid)] (λ _, 0)) demo_oid o demo_pay_id p Hok Hst Ho Hs Hp Hpo)
    as Hfinal.
  pose proof demo_next_outcome as Hnext. symmetry. generalize dependent (view demo_next.2).
  intros T' Hnext. apply (Hfinal T'). apply rtc_once.
  by apply (step_order _ _ _ _ _ _ demo_order demo_payment2 demo_next.1).
Defined.

Lemma announced_once_witness :
  announced demo_Tp demo_oid (confirmed_message demo_oid).
Proof.
  destruct demo_confirm_run as (ws & _ & Hrun).
  apply (announced_once default_worker _ _ (demo_started _) Hrun). left.
Defined.

Lemma Fulfill_refines_witness :
  calls (f_gateway (demo_fulfilled 2).2) = 3%nat
  ∧ ∃ ws' sent', ws' 0%nat = Idle
      ∧ steps default_worker (sys_of (demo_fworld demo_created.2 2) (λ _, Idle) [] (λ _, 0))
          (sys_of (demo_fulfilled 2).2 ws' sent' (λ _, 0)).
Proof.
  split; [evaluate|].
  destruct (Fulfill_refines default_worker 0 demo_oid (demo_fworld demo_created.2 2) ()
    (demo_fulfilled 2).2 (λ _, Idle) [] (λ _, 0)) as (ws' & sent' & Hi & _ & _ & Hs);
    [evaluate|done|]. exists ws', sent'. split; [exact Hi|exact Hs].
Defined.

Definition no_retries : WorkerConfig :=
  mkWorkerConfig 5 256 0 (200 * Millisecond) (5 * Second) (5 * Second) (30 * Second) Minute
    100 one_fifth (10 * Second).
Definition demo_unpaid_run : unit * FWorld RefDb fakeGateway unit RefRuntime :=
  Fulfiller_Fulfill no_retries demo_oid (demo_fworld demo_created.2 0).

Lemma no_retries_confirms_unpaid_witness :
  calls (f_gateway demo_unpaid_run.2) = 0%nat
  ∧ at_rest (view (f_db demo_unpaid_run.2)) demo_row OrderStatusConfirmed PaymentStatusPaid.
Proof.
  split; [evaluate|].
  apply (no_retries_confirms_unpaid no_retries demo_oid (demo_fworld demo_created.2 0) demo_row
    demo_created.2 (MarkPaidAndConfirm demo_row "" demo_created.2).2 () demo_unpaid_run.2);
    [done|apply demo_created_ok|evaluate..].
Defined.
