(* ===== verification/Requests.v ===== *)
(** * Order requests in flight ([internal/services/order.go], concurrently)

    [CreateOrder] cut at its calls: the reservation, the price lookup, the transaction, the
    hand-off and the release are the atomic steps, and between two of them any other
    request, of this process or of another one sharing the database and the store, may take
    its own. [request_call] is one such step of one request; [front_step] interleaves any
    number of them with the rest of the program and the passing of time. *)

From Stdlib Require Import ZArith Lia Ascii.
From stdpp Require Import base tactics list gmap strings relations.
From S2P Require Import Prelude GoStd Errors Models Database OrderRepository.
From S2P Require Import Repositories Idempotency OrderService.

Open Scope Z_scope.

(** Where a request is: the call it makes next, with what it carries there. [acquired] is
    the variable of that name, false when the store could not be asked. *)
Inductive Phase : Type :=
| Arrived
| Pricing (acquired : bool)
| Storing (order : Order) (payment : Payment)
| Queueing (order : Order)
| Releasing (err : error)
| Answered (r : res OrderResponse).

Section calls.
Context `{OrderRepository W, ProductRepository W, Store W, OrderProcessor W}.
Variables (uuid : string) (userID : Z) (req : CreateOrderRequest).

(** From one call to the next, by the code between them. *)
Definition request_call (p : Phase) : M W Phase :=
  let reqItems := CreateOrderRequest_Items req in
  let key := idempotencyKey userID reqItems in
  match p with
  | Arrived =>
      if duplicate_line ∅ reqItems then mret (Answered (Err ErrDuplicateLineItem))
      else
        acquired ← Reserve key idempotencyTTL;
        mret match acquired with
             | Ok false => Answered (Err ErrDuplicateOrder)
             | Ok true => Pricing true
             | Err _ => Pricing false
             end
  | Pricing _ =>
      found ← GetProductsByIDs (OrderItemRequest_ProductID <$> reqItems);
      mret match found with
           | Err e => Releasing e
           | Ok prods =>
               match build_lines (price_by_id prods) reqItems f64_zero with
               | Err e => Releasing e
               | Ok (items, total) =>
                   Storing (new_order userID items total) (new_payment uuid total)
               end
           end
  | Storing order payment =>
      created ← repo_CreateOrder order payment;
      mret match created with Err e => Releasing e | Ok (order, _) => Queueing order end
  | Queueing order => _ ← Process (Order_ID order); mret (Answered (Ok (toOrderResponse order)))
  | Releasing e => _ ← orderService_release key; mret (Answered (Err e))
  | Answered r => mret (Answered r)
  end.

Fixpoint request_calls (n : nat) (p : Phase) : M W Phase :=
  match n with
  | O => mret p
  | S n => p ← request_call p; request_calls n p
  end.

(** The calls a request still makes, at most. *)
Definition calls_left (p : Phase) : nat :=
  match p with
  | Arrived => 4
  | Pricing _ => 3
  | Storing _ _ => 2
  | Queueing _ | Releasing _ => 1
  | Answered _ => 0
  end.

Lemma request_call_decreases p w p' w' :
  request_call p w = (p', w') → p = p' ∧ calls_left p = O ∨ (calls_left p' < calls_left p)%nat.
Proof.
  destruct p as [|acquired|order payment|order|e|r]; cbn [request_call].
  - destruct (duplicate_line _ _); [intros [= <- _]; cbn; lia|].
    intros ([[]|e] & w1 & _ & [= <- _])%M_bind_inv; cbn; lia.
  - intros ([ps|e] & w1 & _ & [= <- _])%M_bind_inv; [|cbn; lia].
    destruct (build_lines _ _ _) as [[l t]|e]; cbn; lia.
  - intros ([[o p]|e] & w1 & _ & [= <- _])%M_bind_inv; cbn; lia.
  - intros (u & w1 & _ & [= <- _])%M_bind_inv. cbn. lia.
  - intros (u & w1 & _ & [= <- _])%M_bind_inv. cbn. lia.
  - intros [= <- _]. by left.
Qed.
End calls.

(** ** Many requests

    [granted] is not the code's: it records the store's clock when this request's
    reservation was granted, until the request gives it back. *)
Record Flight : Type := mkFlight {
  fl_uuid : string;
  fl_user : Z;
  fl_req : CreateOrderRequest;
  fl_phase : Phase;
  fl_granted : option Time;
}.
Definition fl_items (f : Flight) : list OrderItemRequest := CreateOrderRequest_Items (fl_req f).
Definition fl_key (f : Flight) : string := idempotencyKey (fl_user f) (fl_items f).

Definition arriving (uuid : string) (userID : Z) (req : CreateOrderRequest) : Flight :=
  mkFlight uuid userID req Arrived None.

(** The flight after its call, made at [now]. *)
Definition advance (f : Flight) (p : Phase) (now : Time) : Flight :=
  mkFlight (fl_uuid f) (fl_user f) (fl_req f) p
    match fl_phase f, p with
    | Arrived, Pricing true => Some now
    | Releasing _, _ => None
    | _, _ => fl_granted f
    end.

(** The requests, what they share, and [fr_rest]: the state of everything else. *)
Record Front (D St P X : Type) : Type := mkFront {
  fr_world : World D St P;
  fr_flights : list Flight;
  fr_rest : X;
}.
Arguments mkFront {D St P X}.
Arguments fr_world {D St P X}.
Arguments fr_flights {D St P X}.
Arguments fr_rest {D St P X}.

Section front.
Context `{DbEngine D} `{LawfulStore St} `{OrderProcessor P} {X : Type}.
(** What the rest of the program does to its state and the database. *)
Variable others : D * X → D * X → Prop.

Definition fr_now (s : Front D St P X) : Time := store_now (world_store (fr_world s)).
Definition fr_keys (s : Front D St P X) : deadlines := store_keys (world_store (fr_world s)).

Definition flight_call (f : Flight) : M (World D St P) Phase :=
  request_call (fl_uuid f) (fl_user f) (fl_req f) (fl_phase f).

(** Time passes: nothing touches a key, but keys expire. *)
Definition idles (st st' : St) : Prop :=
  store_now st ≤ store_now st' ∧ store_keys st' = expire (store_now st') (store_keys st).

Inductive front_step : Front D St P X → Front D St P X → Prop :=
| front_arrive w fs x uuid userID req :
    front_step (mkFront w fs x) (mkFront w (fs ++ [arriving uuid userID req]) x)
| front_call w fs x i f p w' :
    fs !! i = Some f → flight_call f w = (p, w') →
    front_step (mkFront w fs x)
      (mkFront w' (<[i := advance f p (store_now (world_store w'))]> fs) x)
| front_others d st q fs x d' st' q' x' :
    others (d, x) (d', x') → idles st st' →
    front_step (mkFront (mkWorld d st q) fs x) (mkFront (mkWorld d' st' q') fs x').

(** A schedule to execute: who comes, and whose turn it is. *)
Inductive turn : Type :=
| TurnArrive (uuid : string) (userID : Z) (req : CreateOrderRequest)
| TurnCall (i : nat).

Definition play (t : turn) (s : Front D St P X) : Front D St P X :=
  match t with
  | TurnArrive uuid userID req =>
      mkFront (fr_world s) (fr_flights s ++ [arriving uuid userID req]) (fr_rest s)
  | TurnCall i =>
      match fr_flights s !! i with
      | None => s
      | Some f =>
          let '(p, w') := flight_call f (fr_world s) in
          mkFront w' (<[i := advance f p (store_now (world_store w'))]> (fr_flights s)) (fr_rest s)
      end
  end.

Lemma play_step t s : play t s = s ∨ front_step s (play t s).
Proof.
  destruct s as [w fs x], t as [uuid userID req|i]; cbn [play fr_flights fr_world fr_rest].
  - right. apply front_arrive.
  - destruct (fs !! i) as [f|] eqn:Hi; [|by left]. destruct (flight_call f w) as [p w'] eqn:Hc.
    right. by eapply front_call.
Qed.

Definition plays (ts : list turn) (s : Front D St P X) : Front D St P X :=
  foldl (λ s t, play t s) s ts.

Lemma plays_steps ts s : rtc front_step s (plays ts s).
Proof.
  unfold plays. revert s. induction ts as [|t ts IH]; intros s; [done|]. cbn.
  destruct (play_step t s) as [->|Hst]; [apply IH|]. by eapply rtc_l.
Qed.
End front.
