(* ===== verification/RequestsSpec.v ===== *)
(** * Properties of concurrent order requests

    What the idempotency reservation gives under concurrency, what it does not, and that the
    interleaved requests are runs of the pipeline. *)

From Stdlib Require Import ZArith Lia Ascii.
From stdpp Require Import base tactics list gmap strings relations.
From S2P Require Import Prelude GoStd Errors Models Database RefDb OrderRepository Repositories.
From S2P Require Import Ledger LedgerSpec Idempotency OrderService OrderServiceSpec Config.
From S2P Require Import Gateway Pipeline PipelineSpec Requests.

Open Scope Z_scope.

(** ** One call *)
Section alone.
Context `{DbEngine D} {St P : Type} `{Store St} `{OrderProcessor P}.
Implicit Types (w : World D St P) (d : D) (st : St) (q : P).
Variables (uuid : string) (userID : Z) (req : CreateOrderRequest).
#[local] Arguments idempotencyKey : simpl never.

Abbreviation items := (CreateOrderRequest_Items req).
Abbreviation key := (idempotencyKey userID items).
Abbreviation call := (request_call (W := World D St P) uuid userID req).
Abbreviation calls := (request_calls (W := World D St P) uuid userID req).

Definition after_reserve (a : res bool) : Phase :=
  match a with
  | Ok false => Answered (Err ErrDuplicateOrder)
  | Ok true => Pricing true
  | Err _ => Pricing false
  end.

Lemma call_arrived d st q :
  call Arrived (mkWorld d st q)
  = if duplicate_line ∅ items then (Answered (Err ErrDuplicateLineItem), mkWorld d st q)
    else let '(a, st') := Reserve key idempotencyTTL st in (after_reserve a, mkWorld d st' q).
Proof.
  cbn. destruct (duplicate_line ∅ _); [done|].
  unfold mbind, M_bind, mret, M_ret, on_store, on. cbn. by destruct (Reserve _ _ st).
Qed.

(** The two database calls, as [persist] composes them. *)
Definition after_pricing (prods : list Product) : Phase :=
  match build_lines (price_by_id prods) items f64_zero with
  | Err e => Releasing e
  | Ok (lines, total) => Storing (new_order userID lines total) (new_payment uuid total)
  end.

Lemma call_pricing b d st q :
  call (Pricing b) (mkWorld d st q)
  = let '(r, d') := GetProductsByIDs (product_ids items) d in
    (match r with Ok prods => after_pricing prods | Err e => Releasing e end, mkWorld d' st q).
Proof.
  cbn. unfold mbind, M_bind, mret, M_ret, on_db, on, product_ids. cbn.
  by destruct (productRepository_GetProductsByIDs _ d).
Qed.

Lemma call_storing order payment d st q :
  call (Storing order payment) (mkWorld d st q)
  = let '(r, d') := repo_CreateOrder order payment d in
    (match r with Ok (o, _) => Queueing o | Err e => Releasing e end, mkWorld d' st q).
Proof. cbn. unfold mbind, M_bind, mret, M_ret, on_db, on. cbn. by destruct (Transaction _ d). Qed.

Lemma call_queueing order d st q :
  call (Queueing order) (mkWorld d st q)
  = (Answered (Ok (toOrderResponse order)), mkWorld d st (Process (Order_ID order) q).2).
Proof. cbn. unfold mbind, M_bind, mret, M_ret, on_queue, on. cbn. by destruct (Process _ q). Qed.

Lemma call_releasing e d st q :
  call (Releasing e) (mkWorld d st q) = (Answered (Err e), mkWorld d (Release key st).2 q).
Proof.
  cbn. unfold orderService_release, mbind, M_bind, mret, M_ret. cbn. unfold on_store, on. cbn.
  by destruct (Release _ st).
Qed.

Lemma calls_S n p w : calls (S n) p w = let '(p', w') := call p w in calls n p' w'.
Proof. reflexivity. Qed.

Lemma calls_answered n r w : calls n (Answered r) w = (Answered r, w).
Proof. induction n as [|n IH]; [done|exact IH]. Qed.

Lemma calls_releasing n e d st q :
  calls (S n) (Releasing e) (mkWorld d st q) = (Answered (Err e), mkWorld d (Release key st).2 q).
Proof. rewrite calls_S, call_releasing. apply calls_answered. Qed.

(** From the price lookup on: steps 3 to 6, and the release after a failure. *)
Lemma calls_pricing n b d st q :
  calls (3 + n) (Pricing b) (mkWorld d st q)
  = let '(r, d') := persist uuid userID items d in
    match r with
    | Ok (order, _) => (Answered (Ok (toOrderResponse order)),
                        mkWorld d' st (Process (Order_ID order) q).2)
    | Err e => (Answered (Err e), mkWorld d' (Release key st).2 q)
    end.
Proof.
  cbn [Nat.add]. rewrite calls_S, call_pricing. unfold persist, try, after_pricing, product_ids.
  unfold mbind, M_bind, mret, M_ret. cbn [GetProductsByIDs].
  destruct (GetProductsByIDs _ d) as [[ps|e] d1]; [|apply calls_releasing].
  destruct (build_lines _ _ _) as [[l t]|e]; [|apply calls_releasing].
  rewrite calls_S, call_storing.
  destruct (repo_CreateOrder _ _ d1) as [[[o p]|e] d2]; [|apply calls_releasing].
  rewrite calls_S, call_queueing. apply calls_answered.
Qed.

(** The cut is faithful: the calls of a request made one after the other, with nothing in
    between, are [CreateOrder], on every branch; four are enough. *)
Theorem request_calls_CreateOrder n w :
  (4 ≤ n)%nat →
  request_calls uuid userID req n Arrived w
  = (r ← orderService_CreateOrder uuid userID req; mret (Answered r)) w.
Proof.
  intros Hn. destruct n as [|[|[|[|n]]]]; [lia..|]. destruct w as [d st q].
  unfold mbind, M_bind. rewrite CreateOrder_unfold. cbv zeta. rewrite calls_S, call_arrived.
  destruct (duplicate_line ∅ _); [apply calls_answered|]. cbn [world_store world_db world_queue].
  destruct (Reserve _ _ st) as [[[]|e] st1]; [|apply calls_answered|].
  all: cbn [after_reserve]; rewrite (calls_pricing n).
  all: by destruct (persist _ _ _ d) as [[[o p]|e'] d'].
Qed.
End alone.

(** ** The reservation under concurrency *)
Section reservations.
Context `{DbEngine D} `{LawfulStore St} `{OrderProcessor P} {X : Type}.
Variable others : D * X → D * X → Prop.
Abbreviation front := (Front D St P X).
Implicit Types (s : front) (f g : Flight).
#[local] Arguments fl_key : simpl never.
#[local] Arguments fl_items : simpl never.

(** The request holds its reservation, or has an order to show for it. *)
Definition holding (p : Phase) : bool :=
  match p with
  | Pricing _ | Storing _ _ | Queueing _ | Releasing _ | Answered (Ok _) => true
  | Arrived | Answered (Err _) => false
  end.
Definition was_accepted (p : Phase) : bool :=
  match p with Queueing _ | Answered (Ok _) => true | _ => false end.

(** What the guarantee asks of a run: the store answered the reservations, and a request
    that gives its reservation back does so before the reservation expires. *)
Definition answering s s' : Prop :=
  ∀ i f, fr_flights s' !! i = Some f → fl_phase f ≠ Pricing false.
Definition timely s s' : Prop :=
  ∀ i f e t, fr_flights s !! i = Some f → fl_phase f = Releasing e →
    fl_granted f = Some t → fr_now s' < t + idempotencyTTL.
Definition prompt s s' : Prop := answering s s' ∧ timely s s'.
Definition prompt_step s s' : Prop := front_step others s s' ∧ prompt s s'.

Record front_ok s : Prop := {
  fo_granted : ∀ i f, fr_flights s !! i = Some f →
    if holding (fl_phase f) then is_Some (fl_granted f) ∧ NoDup (product_ids (fl_items f))
    else fl_granted f = None;
  fo_live : ∀ i f t, fr_flights s !! i = Some f → fl_granted f = Some t →
    t ≤ fr_now s
    ∧ (fr_now s < t + idempotencyTTL → fr_keys s !! fl_key f = Some (t + idempotencyTTL));
  fo_apart : ∀ i j f g ti tj, i ≠ j →
    fr_flights s !! i = Some f → fr_flights s !! j = Some g → fl_key f = fl_key g →
    fl_granted f = Some ti → fl_granted g = Some tj →
    ti + idempotencyTTL ≤ tj ∨ tj + idempotencyTTL ≤ ti;
}.
(** The world after a call, by its store: only a reservation and a release use it. *)
Lemma flight_call_store f w p w' :
  flight_call (D := D) (St := St) (P := P) f w = (p, w') →
  match fl_phase f with
  | Arrived =>
      duplicate_line ∅ (fl_items f) = true ∧ p = Answered (Err ErrDuplicateLineItem)
        ∧ world_store w' = world_store w
      ∨ duplicate_line ∅ (fl_items f) = false
        ∧ ∃ a, Reserve (fl_key f) idempotencyTTL (world_store w) = (a, world_store w')
             ∧ p = after_reserve a
  | Releasing e => p = Answered (Err e)
                   ∧ world_store w' = (Release (fl_key f) (world_store w)).2
  | Answered r => p = Answered r ∧ world_store w' = world_store w
  | _ => world_store w' = world_store w ∧ (holding p = true ∧ p ≠ Pricing false)
  end.
Proof.
  destruct w as [d st q]. unfold flight_call, fl_items, fl_key.
  destruct (fl_phase f) as [|b|order payment|order|e|r].
  - rewrite call_arrived. cbn [world_store]. destruct (duplicate_line ∅ _).
    + intros [= <- <-]. by left.
    + destruct (Reserve _ _ st) as [a st'] eqn:Ha. intros [= <- <-]. right. split; [done|].
      by exists a.
  - rewrite call_pricing. destruct (GetProductsByIDs _ d) as [[ps|e] d'];
      intros [= <- <-]; [|done]. unfold after_pricing.
    by destruct (build_lines _ _ _) as [[l t]|e].
  - rewrite call_storing. by destruct (repo_CreateOrder _ _ d) as [[[o pay]|e] d'];
      intros [= <- <-].
  - rewrite call_queueing. by intros [= <- <-].
  - rewrite call_releasing. by intros [= <- <-].
  - by intros [= <- <-].
Qed.

(** A store in which no live key was lost. *)
Definition keeps (st st' : St) : Prop :=
  store_now st ≤ store_now st' ∧
  ∀ key d, store_keys st !! key = Some d → store_now st' < d → store_keys st' !! key = Some d.

Lemma idles_keeps st st' : idles st st' → keeps st st'.
Proof. intros [Hn Hk]. split; [done|]. intros key d Hd Hlt. rewrite Hk. by apply expire_live. Qed.

Lemma keeps_refl st : keeps st st.
Proof. by split. Qed.

(** Such a step leaves every grant as it was. *)
Lemma front_ok_keeps w fs x w' x' :
  front_ok (mkFront w fs x) → keeps (world_store w) (world_store w') →
  front_ok (mkFront w' fs x').
Proof.
  intros [Hg Hl Ha] [Hn Hk]. split; [done| |done].
  intros i f t Hi Ht. destruct (Hl i f t Hi Ht) as [Hle Hlive]. unfold fr_now, fr_keys in *.
  cbn in *. split; [lia|]. intros Hlt. apply Hk; [apply Hlive|]; lia.
Qed.

(** Replacing one flight by a later state of it. *)
Lemma front_ok_set w fs x i f f' :
  front_ok (mkFront w fs x) → fs !! i = Some f → fl_key f' = fl_key f →
  fl_granted f' = fl_granted f ∨ fl_granted f' = None →
  (if holding (fl_phase f') then is_Some (fl_granted f') ∧ NoDup (product_ids (fl_items f'))
   else fl_granted f' = None) →
  front_ok (mkFront w (<[i := f']> fs) x).
Proof.
  intros [Hg Hl Ha] Hi Hkey Hgr Hh.
  assert (∀ j g, <[i := f']> fs !! j = Some g → ∃ g0, fs !! j = Some g0 ∧ fl_key g = fl_key g0
    ∧ (fl_granted g = fl_granted g0 ∨ fl_granted g = None)) as Hback.
  { intros j g [(<- & <- & _)|[_ Hj]]%list_lookup_insert_Some; [by exists f|by exists g; auto]. }
  split.
  - intros j g [(<- & <- & _)|[_ Hj]]%list_lookup_insert_Some; [done|by apply (Hg j)].
  - intros j g t Hj Ht. destruct (Hback j g Hj) as (g0 & Hj0 & -> & [E|E]); [|congruence].
    rewrite E in Ht. by apply (Hl j g0).
  - intros j k g1 g2 tj tk Hne Hj Hk. cbn in Hj, Hk.
    destruct (Hback j g1 Hj) as (h1 & Hj0 & -> & [E1|E1]); [|congruence].
    destruct (Hback k g2 Hk) as (h2 & Hk0 & -> & [E2|E2]); [|congruence].
    rewrite E1, E2. by apply (Ha j k h1 h2).
Qed.

(** A reservation granted now: every other grant of the key has run out. *)
Lemma front_ok_grant w fs x i f st' d q :
  front_ok (mkFront w fs x) → fs !! i = Some f → fl_phase f = Arrived →
  duplicate_line ∅ (fl_items f) = false →
  Reserve (fl_key f) idempotencyTTL (world_store w) = (Ok true, st') →
  front_ok (mkFront (mkWorld d st' q)
              (<[i := advance f (Pricing true) (store_now st')]> fs) x).
Proof.
  intros Hok Hi Hph Hdup Hr. apply Reserve_law in Hr as [Hn Hr]; [|done]. cbv zeta in Hr. unfold claim in Hr.
  destruct (expire _ _ !! fl_key f) eqn:Hfree; [done|]. injection Hr as Hkeys.
  assert (∀ j g t, fs !! j = Some g → fl_granted g = Some t → fl_key g = fl_key f →
            t + idempotencyTTL ≤ store_now st') as Hout.
  { intros j g t Hj Ht Hkey. destruct (Z_le_gt_dec (t + idempotencyTTL) (store_now st')); [done|].
    exfalso. destruct (fo_live _ Hok j g t Hj Ht) as [_ Hlive]. unfold fr_now, fr_keys in Hlive.
    cbn in Hlive. rewrite Hkey in Hlive.
    assert (expire (store_now st') (store_keys (world_store w)) !! fl_key f
            = Some (t + idempotencyTTL)) by (apply expire_live; [apply Hlive|]; lia).
    congruence. }
  set (f' := advance f (Pricing true) (store_now st')).
  assert (fl_granted f' = Some (store_now st')) as Hg' by (unfold f', advance; by rewrite Hph).
  assert (fl_key f' = fl_key f) as Hk' by done. split.
  - intros j g [(<- & <- & _)|[_ Hj]]%list_lookup_insert_Some; [|by apply (fo_granted _ Hok j)].
    cbn [holding fl_phase advance f']. split; [by rewrite Hg'|]. by apply duplicate_line_empty.
  - intros j g t. cbn [fr_flights]. unfold fr_now, fr_keys. cbn [fr_world world_store].
    rewrite Hkeys. intros [(<- & <- & _)|[_ Hj]]%list_lookup_insert_Some Ht.
    + replace t with (store_now st') by congruence. split; [done|]. intros _.
      rewrite Hk'. apply lookup_insert_eq.
    + destruct (fo_live _ Hok j g t Hj Ht) as [Hle Hlive]. unfold fr_now, fr_keys in *. cbn in *.
      split; [lia|]. intros Hlt. destruct (decide (fl_key g = fl_key f)) as [E|E].
      * specialize (Hout j g t Hj Ht E). lia.
      * rewrite lookup_insert_ne by done. apply expire_live; [apply Hlive|]; lia.
  - intros j k g1 g2 tj tk Hne. cbn [fr_flights].
    intros [(<- & <- & _)|[_ Hj]]%list_lookup_insert_Some
      [(<- & <- & _)|[_ Hk]]%list_lookup_insert_Some.
    + done.
    + rewrite Hk', Hg'. intros E [= <-] Hg2. right. by apply (Hout k g2).
    + rewrite Hk', Hg'. intros E Hg1 [= <-]. left. by apply (Hout j g1).
    + by apply (fo_apart _ Hok j k).
Qed.

(** A reservation given back in time: the key that goes is nobody else's. *)
Lemma front_ok_release w fs x i f t e st' d q :
  front_ok (mkFront w fs x) → fs !! i = Some f → fl_phase f = Releasing e →
  fl_granted f = Some t → st' = (Release (fl_key f) (world_store w)).2 →
  store_now st' < t + idempotencyTTL →
  front_ok (mkFront (mkWorld d st' q)
              (<[i := advance f (Answered (Err e)) (store_now st')]> fs) x).
Proof.
  intros Hok Hi Hph Hgr Hst Htime. destruct (Release _ _) as [r st] eqn:Hr. cbn in Hst. subst st.
  apply Release_law in Hr as [Hn Hr]. cbv zeta in Hr.
  set (f' := advance f (Answered (Err e)) (store_now st')).
  assert (fl_granted f' = None) as Hg' by (unfold f', advance; by rewrite Hph).
  assert (front_ok (mkFront w (<[i := f']> fs) x)) as [Hg Hl Ha].
  { eapply front_ok_set; [done..|by right|done]. }
  split; [done| |done]. intros j g tj Hj Htj. cbn [fr_flights] in Hj.
  destruct (Hl j g tj Hj Htj) as [Hle Hlive]. unfold fr_now, fr_keys in *.
  cbn [fr_world world_store] in *. split; [lia|]. intros Hlt.
  assert (fl_key g ≠ fl_key f) as Hne.
  { intros E. apply list_lookup_insert_Some in Hj as [(_ & <- & _)|[Hij Hj]]; [congruence|].
    destruct (fo_apart _ Hok i j f g t tj Hij Hi Hj (eq_sym E) Hgr Htj);
      destruct (fo_live _ Hok i f t Hi Hgr) as [? _]; unfold fr_now in *; cbn in *; lia. }
  assert (expire (store_now st') (store_keys (world_store w)) !! fl_key g
          = Some (tj + idempotencyTTL)) as Hexp by (apply expire_live; [apply Hlive|]; lia).
  destruct r as [u|err]; [|destruct Hr as [Hr|Hr]]; rewrite Hr;
    by rewrite ?lookup_delete_ne by congruence.
Qed.

(** A call that keeps the store and the grant. *)
Lemma front_ok_quiet w fs x i f p w' :
  front_ok (mkFront w fs x) → fs !! i = Some f →
  keeps (world_store w) (world_store w') →
  let f' := advance f p (store_now (world_store w')) in
  fl_granted f' = fl_granted f → holding p = holding (fl_phase f) →
  front_ok (mkFront w' (<[i := f']> fs) x).
Proof.
  intros Hok Hi Hk f' Hg Hh. apply (front_ok_keeps w _ x); [|done].
  eapply front_ok_set; [done..|by left|]. pose proof (fo_granted _ Hok i f Hi) as Hf.
  rewrite Hg. cbn. by rewrite Hh.
Qed.

Lemma call_ok w fs x i f p w' :
  let s' := mkFront w' (<[i := advance f p (store_now (world_store w'))]> fs) x in
  front_ok (mkFront w fs x) → fs !! i = Some f → flight_call f w = (p, w') →
  prompt (mkFront w fs x) s' → front_ok s'.
Proof.
  intros s' Hok Hi Hc [Hasked Htime]. apply flight_call_store in Hc.
  pose proof (fo_granted _ Hok i f Hi) as Hh.
  destruct (fl_phase f) as [|b|order payment|order|e|r] eqn:Hph.
  2-4: destruct Hc as (Es & Hp & Hne); eapply front_ok_quiet;
    [done|done|by rewrite Es|cbn; by rewrite Hph|by rewrite Hph].
  - destruct Hc as [(_ & -> & Es)|(Hdup & a & Hr & ->)].
    { eapply front_ok_quiet; [done|done|by rewrite Es|cbn; by rewrite Hph|by rewrite Hph]. }
    destruct w' as [d st' q]. cbn [world_store] in *. destruct a as [[]|err].
    + by eapply front_ok_grant.
    + eapply front_ok_quiet; [done|done| |cbn; by rewrite Hph|by rewrite Hph]. cbn.
      apply Reserve_law in Hr as [Hn Hr]; [|done]. split; [done|]. intros key d0 Hd Hlt.
      cbv zeta in Hr. unfold claim in Hr. destruct (expire _ _ !! fl_key f); [|done].
      injection Hr as ->. by apply expire_live.
    + destruct (Hasked i (advance f (Pricing false) (store_now st'))); [|done].
      apply list_lookup_insert_eq. by eapply lookup_lt_Some.
  - destruct Hc as [-> Es], Hh as [[t Ht] _]. destruct w' as [d st' q]. cbn [world_store] in *.
    eapply front_ok_release; [done..|]. exact (Htime i f e t Hi Hph Ht).
  - destruct Hc as [-> Es]. eapply front_ok_quiet;
      [done|done|by rewrite Es|cbn; by rewrite Hph|by rewrite Hph].
Qed.

Lemma prompt_step_ok s s' : front_ok s → prompt_step s s' → front_ok s'.
Proof.
  intros Hok [Hst Hpr].
  destruct Hst as [w fs x uuid userID req|w fs x i f p w' Hi Hc|d st q fs x d' st' q' x' _ Hid].
  - destruct Hok as [Hg Hl Ha].
    assert (∀ j g t, (fs ++ [arriving uuid userID req]) !! j = Some g → fl_granted g = Some t →
              fs !! j = Some g) as Hold.
    { intros j g t [Hj|[_ Hj]]%lookup_app_Some Hs; [done|].
      by apply list_lookup_singleton_Some in Hj as [_ <-]. }
    split; cbn.
    + intros j g [Hj|[_ Hj]]%lookup_app_Some; [by apply (Hg j)|].
      by apply list_lookup_singleton_Some in Hj as [_ <-].
    + intros j g t Hj Ht. apply (Hl j g t); eauto.
    + intros j k g1 g2 tj tk Hne Hj Hk E Ht1 Ht2. apply (Ha j k g1 g2); eauto.
  - by eapply call_ok.
  - eapply front_ok_keeps; [done|]. by apply idles_keeps.
Qed.

Lemma prompt_steps_ok s s' : front_ok s → rtc prompt_step s s' → front_ok s'.
Proof. intros Hok Hst. induction Hst; [done|]. eauto using prompt_step_ok. Qed.

Lemma no_flights_ok w x : front_ok (mkFront w [] x).
Proof. split; done. Qed.

(** Deciding this, to run schedules. *)
Definition answeringb s s' : bool :=
  forallb (λ f, match fl_phase f with Pricing false => false | _ => true end) (fr_flights s').
Definition timelyb s s' : bool :=
  forallb (λ f, match fl_phase f, fl_granted f with
                | Releasing _, Some t => fr_now s' <? t + idempotencyTTL
                | _, _ => true
                end) (fr_flights s).

Lemma answeringb_sound s s' : answeringb s s' = true → answering s s'.
Proof.
  unfold answeringb. rewrite forallb_forall. setoid_rewrite <- list_elem_of_In.
  intros Ha i f Hi E. specialize (Ha f (list_elem_of_lookup_2 _ _ _ Hi)). by rewrite E in Ha.
Qed.

Lemma timelyb_sound s s' : timelyb s s' = true → timely s s'.
Proof.
  unfold timelyb. rewrite forallb_forall. setoid_rewrite <- list_elem_of_In.
  intros Hb i f e t Hi E Ht. specialize (Hb f (list_elem_of_lookup_2 _ _ _ Hi)).
  rewrite E, Ht in Hb. by bool_to_prop.
Qed.

Lemma promptb_sound s s' : answeringb s s' && timelyb s s' = true → prompt s s'.
Proof. intros [Ha Hb]%andb_true_iff. split; [by apply answeringb_sound|by apply timelyb_sound]. Qed.

Section schedules.
Variables (good : front → front → bool) (R : front → front → Prop).
Hypothesis good_sound : ∀ s s', good s s' = true → R s s'.

Fixpoint plays_good (ts : list turn) s : bool :=
  match ts with
  | [] => true
  | t :: ts => let s' := play t s in good s s' && plays_good ts s'
  end.

Lemma plays_good_steps ts s :
  plays_good ts s = true → rtc (λ s s', front_step others s s' ∧ R s s') s (plays ts s).
Proof.
  unfold plays. revert s. induction ts as [|t ts IH]; intros s; [done|]. cbn.
  intros [Hp%good_sound Hps]%andb_true_iff. specialize (IH _ Hps).
  destruct (play_step others t s) as [E|Hst]; [by rewrite E in IH |- *|]. by eapply rtc_l.
Qed.
End schedules.

(** C13. No double order. However requests interleave, with each other and with the rest of
    the program, and whatever fails in the database: as long as the store answers the
    reservations and a failing request gives its own back before it expires, two requests of
    one user for one cart, in any line order, that both got an order had their reservations
    granted at least [idempotencyTTL] apart. *)
Theorem no_double_order w x s i j f g :
  rtc prompt_step (mkFront w [] x) s →
  i ≠ j → fr_flights s !! i = Some f → fr_flights s !! j = Some g →
  fl_user f = fl_user g → fl_items f ≡ₚ fl_items g →
  was_accepted (fl_phase f) = true → was_accepted (fl_phase g) = true →
  ∃ ti tj, fl_granted f = Some ti ∧ fl_granted g = Some tj ∧ idempotencyTTL ≤ Z.abs (ti - tj).
Proof.
  intros Hst Hne Hi Hj Hu Hp Hf Hg.
  pose proof (prompt_steps_ok _ _ (no_flights_ok w x) Hst) as Hok.
  assert (∀ p, was_accepted p = true → holding p = true) as Hhold by by intros [| | | | |[]].
  pose proof (fo_granted _ Hok i f Hi) as Hfg. rewrite (Hhold _ Hf) in Hfg.
  pose proof (fo_granted _ Hok j g Hj) as Hgg. rewrite (Hhold _ Hg) in Hgg.
  destruct Hfg as [[ti Hti] Hnd], Hgg as [[tj Htj] _]. exists ti, tj. split_and!; [done..|].
  assert (fl_key f = fl_key g) as Hkey.
  { unfold fl_key. rewrite Hu. by apply idempotencyKey_perm. }
  destruct (fo_apart _ Hok i j f g ti tj Hne Hi Hj Hkey Hti Htj); lia.
Qed.
End reservations.

(** ** The orders of interleaved requests *)
Section orders.
Context `{LawfulDb D} `{LawfulStore St} `{OrderProcessor P}.
Variable cfg : WorkerConfig.
Implicit Types (f g : Flight) (T : Tables).

(** What the pipeline has besides the tables. *)
Record Rest : Type := mkRest {
  rest_charges : gmap string ChargeResult;
  rest_workers : nat → WState;
  rest_sent : list (Z * string);
  rest_adjusted : Z → Z;
}.
Definition sys_at (a : D * Rest) : Sys :=
  mkSys (view a.1) (rest_charges a.2) (rest_workers a.2) (rest_sent a.2) (rest_adjusted a.2).
Definition sys_of (s : Front D St P Rest) : Sys := sys_at (world_db (fr_world s), fr_rest s).

(** The rest of the program, meanwhile: the steps of the pipeline. *)
Definition pipeline (a b : D * Rest) : Prop := step cfg (sys_at a) (sys_at b).

(** The order a request has to show. *)
Definition order_id (p : Phase) : option Z :=
  match p with
  | Queueing o => Some (Order_ID o)
  | Answered (Ok resp) => Some (OrderResponse_ID resp)
  | _ => None
  end.

Record orders_ok T (fs : list Flight) : Prop := {
  oo_pending : ∀ i f o pay, fs !! i = Some f → fl_phase f = Storing o pay →
    Order_Status o = OrderStatusPending ∧ Payment_Status pay = PaymentStatusPending
    ∧ Order_UserID o = fl_user f;
  oo_stored : ∀ i f id, fs !! i = Some f → order_id (fl_phase f) = Some id →
    ∃ o, Tables_orders T !! id = Some o ∧ Order_UserID o = fl_user f;
  oo_own : ∀ i j f g id, fs !! i = Some f → fs !! j = Some g →
    order_id (fl_phase f) = Some id → order_id (fl_phase g) = Some id → i = j;
}.

Lemma flight_call_db f (w : World D St P) p w' :
  flight_call f w = (p, w') →
  match fl_phase f with
  | Storing o pay => ∃ r, repo_CreateOrder o pay (world_db w) = (r, world_db w')
      ∧ p = match r with Ok (o', _) => Queueing o' | Err e => Releasing e end
  | _ => view (world_db w') = view (world_db w) ∧ order_id p = order_id (fl_phase f)
         ∧ ∀ o pay, p = Storing o pay → Order_Status o = OrderStatusPending
             ∧ Payment_Status pay = PaymentStatusPending ∧ Order_UserID o = fl_user f
  end.
Proof.
  destruct w as [d st q]. unfold flight_call. destruct (fl_phase f) as [|b|o pay|o|e|r].
  - rewrite call_arrived. destruct (duplicate_line _ _); [by intros [= <- <-]|].
    destruct (Reserve _ _ st) as [[[]|e] st']; by intros [= <- <-].
  - rewrite call_pricing. destruct (GetProductsByIDs _ d) as [r d'] eqn:Hg.
    apply exec_sem in Hg as [Hv _]. destruct r as [ps|e]; intros [= <- <-]; [|done].
    unfold after_pricing. destruct (build_lines _ _ _) as [[l t]|e]; [|done].
    split_and!; [done..|]. by intros o pay [= <- <-].
  - rewrite call_storing. destruct (repo_CreateOrder o pay d) as [r d'] eqn:Hr.
    intros [= <- <-]. by exists r.
  - rewrite call_queueing. by intros [= <- <-].
  - rewrite call_releasing. by intros [= <- <-].
  - by intros [= <- <-].
Qed.

Lemma orders_ok_evolves T T' fs : evolves T T' → orders_ok T fs → orders_ok T' fs.
Proof.
  intros [_ HE] [Hp Hs Ho]. split; [done| |done]. intros i f id Hi Hid.
  destruct (Hs i f id Hi Hid) as (o & Hk & Hu). destruct (HE id o Hk) as (o' & Hk' & Hu' & _).
  exists o'. split; [done|congruence].
Qed.

(** A flight moves on, with the order it had, or with one that nobody has. *)
Lemma orders_ok_advance T fs i f p now :
  orders_ok T fs → fs !! i = Some f →
  (∀ o pay, p = Storing o pay → Order_Status o = OrderStatusPending
     ∧ Payment_Status pay = PaymentStatusPending ∧ Order_UserID o = fl_user f) →
  (∀ id, order_id p = Some id → order_id (fl_phase f) = Some id ∨
     (∃ o, Tables_orders T !! id = Some o ∧ Order_UserID o = fl_user f)
     ∧ ∀ j g, fs !! j = Some g → order_id (fl_phase g) ≠ Some id) →
  orders_ok T (<[i := advance f p now]> fs).
Proof.
  intros [Hp Hs Ho] Hi Hpend Hid. split.
  - intros j g o pay [(<- & <- & _)|[_ Hj]]%list_lookup_insert_Some; [apply Hpend|by apply (Hp j)].
  - intros j g id [(<- & <- & _)|[_ Hj]]%list_lookup_insert_Some; [|by apply (Hs j)].
    intros E. destruct (Hid id E) as [E'|[? _]]; [by apply (Hs i f)|done].
  - intros j k g1 g2 id [(<- & <- & _)|[Hnj Hj]]%list_lookup_insert_Some
      [(<- & <- & _)|[Hnk Hk]]%list_lookup_insert_Some E1 E2; [done| | |by eapply Ho].
    + destruct (Hid id E1) as [E|[_ Hno]]; [by apply (Ho _ k f g2 id)|by destruct (Hno k g2 Hk)].
    + destruct (Hid id E2) as [E|[_ Hno]]; [by apply (Ho j _ g1 f id)|by destruct (Hno j g1 Hj)].
Qed.

(** A stored order has an id that nobody has. *)
Lemma storing_ok T T' fs i f o pay r p now :
  ledger_ok T → orders_ok T fs → fs !! i = Some f → fl_phase f = Storing o pay →
  tx_outcome (CreateOrder_tx o pay) T r T' →
  p = match r with Ok (o', _) => Queueing o' | Err e => Releasing e end →
  orders_ok T' (<[i := advance f p now]> fs).
Proof.
  intros HT Hok Hi Hph Hr ->. destruct (oo_pending _ _ Hok i f o pay Hi Hph) as (Hos & Hps & Hu).
  assert (evolves T T') as HE.
  { destruct (order_step_tables _ _ _ _ _ HT Hos Hps Hr) as [_ [->|(o' & p' & Hpl)]];
      [done|by eapply placed_evolves]. }
  apply orders_ok_advance; [by eapply orders_ok_evolves|done|by destruct r as [[]|]|].
  intros id Eid. destruct r as [[o' pay']|e]; [|done]. injection Eid as <-. right.
  apply CreateOrder_tx_placed in Hr; [|apply HT]. split.
  - destruct (placed_order _ _ _ _ _ _ Hr) as (row & HO & _ & Hrow & _). exists row.
    rewrite HO, lookup_insert_eq. split; [done|congruence].
  - intros j g Hj E. destruct (oo_stored _ _ Hok j g _ Hj E) as (row & Hrow & _).
    destruct (placed_fresh _ _ _ _ _ _ Hr) as [_ Hno]. congruence.
Qed.

Definition flights_ok (s : Front D St P Rest) : Prop :=
  sys_ok cfg (sys_of s) ∧ orders_ok (view (world_db (fr_world s))) (fr_flights s).

Lemma front_step_pipeline (s s' : Front D St P Rest) :
  flights_ok s → front_step pipeline s s' → steps cfg (sys_of s) (sys_of s') ∧ flights_ok s'.
Proof.
  intros [Hsys Hok] Hst. enough (steps cfg (sys_of s) (sys_of s')
    ∧ orders_ok (view (world_db (fr_world s'))) (fr_flights s')) as [Hss Hok'].
  { split; [done|]. split; [by eapply steps_sys_ok|done]. }
  destruct Hst as [w fs x uuid userID req|w fs x i f p w' Hi Hc|d st q fs x d' st' q' x' Hp _].
  - split; [apply rtc_refl|]. destruct Hok as [Hp Hs Ho]. cbn.
    assert (∀ j g, (fs ++ [arriving uuid userID req]) !! j = Some g →
              fs !! j = Some g ∨ g = arriving uuid userID req) as Hold.
    { intros j g [Hj|[_ Hj]]%lookup_app_Some; [by left|right].
      by apply list_lookup_singleton_Some in Hj as [_ <-]. }
    split.
    + intros j g o pay [Hj| ->]%Hold; [by apply (Hp j)|done].
    + intros j g id [Hj| ->]%Hold; [by apply (Hs j)|done].
    + intros j k g1 g2 id [Hj| ->]%Hold [Hk| ->]%Hold; [by apply Ho|done..].
  - apply flight_call_db in Hc. unfold sys_of, sys_at. cbn [fr_world fr_flights fr_rest fst snd].
    destruct (fl_phase f) as [|b|o pay|o|e|r] eqn:Hph.
    3: { destruct Hc as (r & Hr & Ep). apply Transaction_outcome in Hr.
         destruct (oo_pending _ _ Hok i f o pay Hi Hph) as (Hos & Hps & Hu). split.
         - apply rtc_once. by eapply step_order.
         - eapply storing_ok; [apply (so_ledger _ _ Hsys)|done..]. }
    all: destruct Hc as (Hv & Eid & Hpend); rewrite Hv; split; [apply rtc_refl|].
    all: apply orders_ok_advance; [done..|]; intros id Hid; left; by rewrite Hph, <- Eid.
  - split; [by apply rtc_once|]. cbn [fr_world fr_flights world_db].
    eapply orders_ok_evolves; [|exact Hok]. exact (step_evolves cfg _ _ Hsys Hp).
Qed.

Lemma front_steps_pipeline (s s' : Front D St P Rest) :
  flights_ok s → rtc (front_step pipeline) s s' →
  steps cfg (sys_of s) (sys_of s') ∧ flights_ok s'.
Proof.
  intros Hok Hst. revert Hok. induction Hst as [s|s1 s2 s3 Hst _ IH]; intros Hok.
  - split; [apply rtc_refl|done].
  - apply front_step_pipeline in Hst as [Hs Hok2]; [|done].
    destruct (IH Hok2) as [Hs' ?]. split; [by etrans|done].
Qed.

Lemma flights_ok_start w x : sys_ok cfg (sys_at (world_db w, x)) → flights_ok (mkFront w [] x).
Proof. intros Hok. split; [done|]. by split. Qed.

(** C14. Requests interleaved at their calls are runs of the pipeline: with any number of
    requests under way, cut wherever another one may come between, and with the store and
    the database failing at will, what happens to the tables, the charges and the
    announcements is a run of [Pipeline.step], so everything proved of its interleavings
    holds. And an accepted request has an order of its own: the id it handed to the processor
    and answered with is that of a stored order of its user, and nobody else's. *)
Theorem requests_refine w x s :
  sys_ok cfg (sys_at (world_db w, x)) →
  rtc (front_step pipeline) (mkFront w [] x) s →
  steps cfg (sys_at (world_db w, x)) (sys_of s)
  ∧ ∀ i f id, fr_flights s !! i = Some f → order_id (fl_phase f) = Some id →
      (∃ o, Tables_orders (view (world_db (fr_world s))) !! id = Some o
            ∧ Order_UserID o = fl_user f)
      ∧ ∀ j g, fr_flights s !! j = Some g → order_id (fl_phase g) = Some id → j = i.
Proof.
  intros Hok Hst.
  destruct (front_steps_pipeline _ _ (flights_ok_start w x Hok) Hst) as [Hss [_ Hos]].
  split; [exact Hss|]. intros i f id Hi Hid. split; [by apply (oo_stored _ _ Hos i)|].
  intros j g Hj Hg. by apply (oo_own _ _ Hos j i g f id).
Qed.
End orders.

(** ** Schedules *)
Definition nobody : RefDb * unit → RefDb * unit → Prop := λ _ _, False.
Definition comes (uuid : string) (items : list OrderItemRequest) : turn :=
  TurnArrive uuid 1 (mkCreateOrderRequest items).
Definition no_flight : Flight := arriving "" 0 (mkCreateOrderRequest []).
Definition flight_at {D St P X} (i : nat) (s : Front D St P X) : Flight :=
  default no_flight (fr_flights s !! i).

(** A first request is overtaken by a second with its cart, which is refused; a third comes
    five minutes later, lines swapped. *)
Definition polite_turns : list turn :=
  [comes "key-1" demo_cart; comes "key-2" demo_cart; TurnCall 0; TurnCall 1; TurnCall 0;
   TurnCall 0; comes "key-3" demo_cart'; TurnCall 2; TurnCall 2; TurnCall 0; TurnCall 2;
   TurnCall 2].
Definition polite_world : demo_shop :=
  demo_world demo [(0, NoFault); (0, NoFault); (5 * Minute, NoFault)].
Definition polite_end : Front RefDb RefRedis (list Z) unit :=
  plays polite_turns (mkFront polite_world [] ()).

Definition polite_flights : list Flight := Eval vm_compute in fr_flights polite_end.
Lemma polite_run : fr_flights polite_end = polite_flights.
Proof. evaluate. Qed.

(** One request alone, on the demo shop. *)
Lemma request_calls_CreateOrder_witness :
  request_calls "key-1" 1 (mkCreateOrderRequest demo_cart) 4 Arrived polite_world
  = (r ← orderService_CreateOrder "key-1" 1 (mkCreateOrderRequest demo_cart);
     mret (Answered r)) polite_world.
Proof.
  refine (request_calls_CreateOrder "key-1" 1 (mkCreateOrderRequest demo_cart) 4 polite_world _).
  lia.
Defined.

Lemma no_double_order_witness :
  fl_phase (flight_at 1 polite_end) = Answered (Err ErrDuplicateOrder)
  ∧ ∃ ti tj, fl_granted (flight_at 0 polite_end) = Some ti
      ∧ fl_granted (flight_at 2 polite_end) = Some tj ∧ idempotencyTTL ≤ Z.abs (ti - tj).
Proof.
  unfold flight_at. rewrite polite_run. split; [reflexivity|].
  assert (rtc (prompt_step nobody) (mkFront polite_world [] ()) polite_end) as Hrun
    by (refine (plays_good_steps nobody _ _ promptb_sound polite_turns _ _); evaluate).
  refine (no_double_order nobody polite_world () polite_end 0 2 _ _ Hrun _ _ _ _ _ _ _);
    rewrite ?polite_run; [discriminate|reflexivity|reflexivity|reflexivity| |reflexivity..].
  apply Permutation_swap.
Defined.

(** The same schedule beside the pipeline. *)
Definition quiet_rest : Rest := mkRest ∅ (λ _, Idle) [] (λ _, 0).
Definition shop_end : Front RefDb RefRedis (list Z) Rest :=
  plays polite_turns (mkFront polite_world [] quiet_rest).
Lemma shop_run : fr_flights shop_end = polite_flights.
Proof. evaluate. Qed.

Lemma shop_steps cfg : rtc (front_step (pipeline cfg)) (mkFront polite_world [] quiet_rest) shop_end.
Proof. exact (plays_steps (pipeline cfg) polite_turns (mkFront polite_world [] quiet_rest)). Qed.

Lemma requests_refine_witness :
  steps default_worker (started (view demo)) (sys_of shop_end)
  ∧ (order_id ∘ fl_phase <$> fr_flights shop_end) = [Some 100; None; Some 104]
  ∧ ∀ j g, fr_flights shop_end !! j = Some g → order_id (fl_phase g) = Some 100 → j = 0%nat.
Proof.
  destruct (requests_refine default_worker polite_world quiet_rest shop_end
    (demo_empty_ok default_worker) (shop_steps default_worker)) as [Hst Hown].
  split; [exact Hst|]. rewrite shop_run in Hown |- *. split; [reflexivity|].
  exact (proj2 (Hown 0%nat (default no_flight (polite_flights !! 0%nat)) 100 eq_refl eq_refl)).
Defined.

(** The first request stalls past its window with the database failing it; a second one
    reserves the cart meanwhile; the first one's release then frees the second one's
    reservation, and a third request orders the cart again a moment later. *)
Definition late_turns : list turn :=
  [comes "key-1" demo_cart; TurnCall 0; TurnCall 0;
   comes "key-2" demo_cart; TurnCall 1; TurnCall 0; comes "key-3" demo_cart; TurnCall 2;
   TurnCall 1; TurnCall 1; TurnCall 2; TurnCall 2; TurnCall 1; TurnCall 2].
Definition late_world : demo_shop :=
  demo_world (demo_faulty [true])
    [(0, NoFault); (5 * Minute, NoFault); (0, NoFault); (Second, NoFault)].
Definition late_end : Front RefDb RefRedis (list Z) unit :=
  plays late_turns (mkFront late_world [] ()).
Definition late_flights : list Flight := Eval vm_compute in fr_flights late_end.
Lemma late_run : fr_flights late_end = late_flights.
Proof. evaluate. Qed.

(** The release is not checked against the owner. In a run where the store answers
    everything, a request that fails after its window has passed deletes the reservation
    that another request got meanwhile, and two requests of one user for one cart get an
    order within a second of each other. *)
Theorem late_release_doubles :
  ∃ s i j f g ti tj,
    rtc (λ s s', front_step nobody s s' ∧ answering s s') (mkFront late_world [] ()) s
    ∧ i ≠ j ∧ fr_flights s !! i = Some f ∧ fr_flights s !! j = Some g
    ∧ fl_user f = fl_user g ∧ fl_items f = fl_items g
    ∧ was_accepted (fl_phase f) = true ∧ was_accepted (fl_phase g) = true
    ∧ fl_granted f = Some ti ∧ fl_granted g = Some tj ∧ Z.abs (ti - tj) < idempotencyTTL.
Proof.
  exists late_end, 1%nat, 2%nat. rewrite late_run. do 4 eexists.
  split; [refine (plays_good_steps nobody _ _ answeringb_sound late_turns _ _); evaluate|].
  split; [discriminate|]. do 2 (split; [reflexivity|]). repeat split; reflexivity.
Qed.
