(* ===== verification/Hub.v ===== *)
(** * The notification hub ([internal/ws])

    The hub's event loop owns the map of clients and is the only code that closes a
    client's [send] channel; each event of [Run] is one handler here, run to completion.
    Channels are shared: the heap [h_conns] holds each client's buffer and whether it is
    closed. Sending on a closed channel and closing it twice panic, as in Go. *)

From Stdlib Require Import ZArith Lia.
From stdpp Require Import base tactics list gmap gmultiset strings.
From S2P Require Import Prelude GoStd.

Open Scope Z_scope.

Definition writeWait : Z := 10 * Second.
Definition pingPeriod : Z := 30 * Second.
Definition sendBuffer : nat := 32.

(** [Client]: the order it watches and its [send] channel. *)
Record Client : Type := mkClient {
  c_orderID : Z;
  c_buffer : list string;
  c_closed : bool;
}.

(** [h_clients] is [None] once [Run] has returned (the map is nil). *)
Record Hub : Type := mkHub {
  h_clients : option (gmap Z (gset nat));
  h_conns : gmap nat Client;
}.

Definition NewHub : Hub := mkHub (Some ∅) ∅.
Definition NewClient (orderID : Z) : Client := mkClient orderID [] false.

Definition set_conn (id : nat) (c : Client) (h : Hub) : Hub :=
  mkHub (h_clients h) (<[id := c]> (h_conns h)).
Definition set_clients (m : gmap Z (gset nat)) (h : Hub) : Hub := mkHub (Some m) (h_conns h).

(** [select { case c.send <- payload: ... default: ... }]: whether it was queued. *)
Definition send_or_default (id : nat) (payload : string) (h : Hub) : go (bool * Hub) :=
  match h_conns h !! id with
  | None => Err NilChannel
  | Some c =>
      if c_closed c then Err SendOnClosed
      else if (length (c_buffer c) <? sendBuffer)%nat
      then Ok (true, set_conn id (mkClient (c_orderID c) (c_buffer c ++ [payload]) false) h)
      else Ok (false, h)
  end.

(** [close(c.send)] *)
Definition close_send (id : nat) (h : Hub) : go Hub :=
  match h_conns h !! id with
  | None => Err NilChannel
  | Some c =>
      if c_closed c then Err CloseOfClosed
      else Ok (set_conn id (mkClient (c_orderID c) (c_buffer c) true) h)
  end.

(** [h.clients[orderID]]: a missing set reads as empty. *)
Definition subscribers (orderID : Z) (h : Hub) : gset nat :=
  match h_clients h with
  | Some m => default ∅ (m !! orderID)
  | None => ∅
  end.

Definition Hub_remove (id : nat) (h : Hub) : go Hub :=
  match h_clients h, h_conns h !! id with
  | Some m, Some c =>
      let orderID := c_orderID c in
      match m !! orderID with
      | None => Ok h
      | Some set =>
          if decide (id ∈ set) then
            let set' := set ∖ {[ id ]} in
            let m' := if decide (set' = ∅) then delete orderID m else <[orderID := set']> m in
            close_send id (set_clients m' h)
          else Ok h
      end
  | _, _ => Ok h
  end.

(** The [register] case. *)
Definition Hub_register (id : nat) (h : Hub) : go Hub :=
  match h_clients h, h_conns h !! id with
  | Some m, Some c =>
      Ok (set_clients (<[c_orderID c := {[ id ]} ∪ subscribers (c_orderID c) h]> m) h)
  | _, _ => Ok h
  end.

(** The loop of the [outbound] case, over the clients in the order the range visits. *)
Fixpoint deliver (ids : list nat) (payload : string) (delivered : bool) (h : Hub)
  : go (bool * Hub) :=
  match ids with
  | [] => Ok (delivered, h)
  | id :: rest =>
      match send_or_default id payload h with
      | Err p => Err p
      | Ok (true, h) => deliver rest payload true h
      | Ok (false, h) =>
          match Hub_remove id h with
          | Err p => Err p
          | Ok h => deliver rest payload delivered h
          end
      end
  end.

Fixpoint close_all (ids : list nat) (h : Hub) : go Hub :=
  match ids with
  | [] => Ok h
  | id :: rest => match close_send id h with Err p => Err p | Ok h => close_all rest h end
  end.

(** The [done] case: every client of every set, then the map is dropped. *)
Definition Hub_done (h : Hub) : go Hub :=
  match h_clients h with
  | None => Ok h
  | Some m =>
      match close_all (mjoin (elements <$> (map_to_list m).*2)) h with
      | Err p => Err p
      | Ok h => Ok (mkHub None (h_conns h))
      end
  end.

(** What the goroutines around the hub do. [range] is the order a map iteration takes. *)
Inductive hub_event : Type :=
| EvConnect (id : nat) (orderID : Z)        (* NewClient, then Register *)
| EvUnregister (id : nat)
| EvNotify (orderID : Z) (payload : string) (range : list nat)
| EvReceive (id : nat)                      (* the client's WritePump takes a payload *)
| EvStop
| EvSend (id : nat) (payload : string).     (* Client.Send, from the connect handler *)

(** The pump's receive: from a closed channel it gets what is left, then the close. *)
Definition receive (id : nat) (h : Hub) : Hub :=
  match h_conns h !! id with
  | Some c => set_conn id (mkClient (c_orderID c) (tail (c_buffer c)) (c_closed c)) h
  | None => h
  end.

(** One event, and what [Run] puts into a [Notify]'s [result]. [EvStop] is [close(h.done)]
    with [Run]'s [done] case: a call that [Run] still serves came before it, one that takes
    [done] came after it. After it the hub's methods are no-ops and [Notify] is false, and a
    second [Stop] closes a closed channel. *)
Definition hub_step (e : hub_event) (h : Hub) : go (bool * Hub) :=
  let silent (r : go Hub) := match r with Ok h => Ok (false, h) | Err p => Err p end in
  match e with
  | EvConnect id orderID => silent (Hub_register id (set_conn id (NewClient orderID) h))
  | EvUnregister id => silent (Hub_remove id h)
  | EvNotify orderID payload range =>
      match h_clients h with
      | None => Ok (false, h)
      | Some _ => deliver range payload false h
      end
  | EvReceive id => Ok (false, receive id h)
  | EvStop =>
      match h_clients h with
      | None => Err CloseOfClosed
      | Some _ => silent (Hub_done h)
      end
  | EvSend id payload =>
      match send_or_default id payload h with
      | Ok (_, h) => Ok (false, h)
      | Err p => Err p
      end
  end.

(** What the caller of [Notify] gets from its second [select]: the result, unless the hub
    has been stopped by then and [done] wins. *)
Definition Notify_returns (delivered : bool) (h : Hub) (returned : bool) : Prop :=
  returned = delivered ∨ (h_clients h = None ∧ returned = false).

(** ** [WritePump]: one client's socket

    What its select received, with the outcome of the write that follows. *)
Inductive pump_input : Type :=
| PumpPayload (payload : string) (written : bool)
| PumpClosed (written : bool)
| PumpTick (written : bool).
Inductive frame : Type := TextFrame (payload : string) | CloseFrame | PingFrame.

(** The frames written, and whether the pump returned (then it unregisters its client and
    closes the connection). *)
Fixpoint WritePump (inputs : list pump_input) : list frame * bool :=
  match inputs with
  | [] => ([], false)
  | PumpClosed _ :: _ => ([CloseFrame], true)
  | PumpPayload payload written :: inputs =>
      if written then let '(fs, r) := WritePump inputs in (TextFrame payload :: fs, r)
      else ([TextFrame payload], true)
  | PumpTick written :: inputs =>
      if written then let '(fs, r) := WritePump inputs in (PingFrame :: fs, r)
      else ([PingFrame], true)
  end.

(** As long as writes succeed the text frames are the payloads received, in order. *)
Lemma WritePump_text inputs :
  Forall (λ i, match i with
               | PumpPayload _ w | PumpTick w => w = true
               | PumpClosed _ => False
               end) inputs →
  omap (λ f, match f with TextFrame p => Some p | _ => None end) (WritePump inputs).1
  = omap (λ i, match i with PumpPayload p _ => Some p | _ => None end) inputs
  ∧ (WritePump inputs).2 = false.
Proof.
  induction 1 as [|i inputs Hi _ [IH1 IH2]]; [done|].
  destruct i as [p w|w|w]; [subst w|done|subst w]; cbn;
    destruct (WritePump inputs); cbn in *; by rewrite ?IH1.
Qed.

(** What the environment guarantees: a new client is a new pointer, a range visits each
    member of the set once, in some order, and [Stop] is called once, as its comment asks. *)
Definition event_ok (e : hub_event) (h : Hub) : Prop :=
  match e with
  | EvConnect id _ => h_conns h !! id = None
  | EvNotify orderID _ range => range ≡ₚ elements (subscribers orderID h)
  | EvSend id _ => is_Some (h_conns h !! id)
  | EvStop => is_Some (h_clients h)
  | _ => True
  end.

Inductive hub_run : Hub → Hub → Prop :=
| hub_run_nil h : hub_run h h
| hub_run_step h e b h1 h2 :
    event_ok e h → hub_step e h = Ok (b, h1) → hub_run h1 h2 → hub_run h h2.

(** ** The invariant: a client in the map is open and watches that order *)
Definition member_ok (h : Hub) (orderID : Z) (id : nat) : Prop :=
  ∃ c, h_conns h !! id = Some c ∧ c_orderID c = orderID ∧ c_closed c = false.

Record hub_ok (h : Hub) : Prop := {
  hub_members : ∀ orderID id, id ∈ subscribers orderID h → member_ok h orderID id;
  hub_nonempty : ∀ m orderID set, h_clients h = Some m → m !! orderID = Some set → set ≠ ∅;
  hub_bounded : ∀ id c, h_conns h !! id = Some c → (length (c_buffer c) ≤ sendBuffer)%nat;
}.

(** A set lists each member once, and no client is in two sets. *)
Lemma subscribers_disjoint h o1 o2 id :
  hub_ok h → id ∈ subscribers o1 h → id ∈ subscribers o2 h → o1 = o2.
Proof.
  intros Hok H1 H2. destruct (hub_members _ Hok _ _ H1) as (c1 & Hc1 & <- & _).
  destruct (hub_members _ Hok _ _ H2) as (c2 & Hc2 & <- & _). congruence.
Qed.

(** ** Lemmas *)
Definition push (payload : string) (c : Client) : Client :=
  mkClient (c_orderID c) (c_buffer c ++ [payload]) (c_closed c).
Definition shut (c : Client) : Client := mkClient (c_orderID c) (c_buffer c) true.
Definition room (c : Client) : bool := (length (c_buffer c) <? sendBuffer)%nat.

Lemma subscribers_set_conn o id c h : subscribers o (set_conn id c h) = subscribers o h.
Proof. done. Qed.

Lemma subscribers_running o h id : id ∈ subscribers o h → is_Some (h_clients h).
Proof. unfold subscribers. destruct (h_clients h); [eauto|set_solver]. Qed.

(** Rewriting one client's cell, keeping its order and, for members, leaving it open. *)
Lemma hub_ok_set_conn id c h :
  hub_ok h → (length (c_buffer c) ≤ sendBuffer)%nat →
  (∀ o, id ∈ subscribers o h → c_orderID c = o ∧ c_closed c = false) →
  hub_ok (set_conn id c h).
Proof.
  intros Hok Hlen Hmem. split.
  - intros o j Hj. unfold member_ok. cbn. destruct (decide (j = id)) as [->|Hne].
    + rewrite lookup_insert_eq. exists c. destruct (Hmem o Hj). done.
    + rewrite lookup_insert_ne by done. by apply (hub_members _ Hok).
  - apply Hok.
  - intros j d. cbn. intros [[<- <-]|[_ Hd]]%lookup_insert_Some; [done|].
    by apply (hub_bounded _ Hok j).
Qed.

Lemma send_or_default_member h o id payload :
  hub_ok h → id ∈ subscribers o h →
  ∃ c, h_conns h !! id = Some c ∧ c_orderID c = o ∧ c_closed c = false
    ∧ send_or_default id payload h
      = Ok (room c, if room c then set_conn id (push payload c) h else h)
    ∧ (room c = true → hub_ok (set_conn id (push payload c) h)).
Proof.
  intros Hok Hid. destruct (hub_members _ Hok _ _ Hid) as (c & Hc & Ho & Hopen).
  exists c. split_and!; [done..| |].
  - unfold send_or_default, room, push. rewrite Hc, Hopen. by destruct (_ <? _)%nat.
  - unfold room. intros Hroom%Nat.ltb_lt. apply hub_ok_set_conn; [done| |].
    + cbn. rewrite length_app. cbn. lia.
    + intros o' Ho'. cbn. split; [|done]. rewrite Ho. by eapply subscribers_disjoint.
Qed.

(** Removing a member: it leaves its set and its channel is closed, once. *)
Lemma Hub_remove_member h o id c :
  hub_ok h → id ∈ subscribers o h → h_conns h !! id = Some c →
  ∃ h', Hub_remove id h = Ok h' ∧ hub_ok h'
    ∧ h_conns h' = <[id := shut c]> (h_conns h)
    ∧ is_Some (h_clients h')
    ∧ ∀ o', subscribers o' h' = subscribers o' h ∖ {[ id ]}.
Proof.
  intros Hok Hid Hc. destruct (hub_members _ Hok _ _ Hid) as (c' & Hc' & Ho & Hopen).
  replace c' with c in * by congruence. unfold Hub_remove.
  pose proof Hid as Hin. unfold subscribers in Hin.
  destruct (h_clients h) as [m|] eqn:Hm; [|set_solver]. rewrite Hc, Ho.
  destruct (m !! o) as [set|] eqn:Hset; [|cbn in Hin; set_solver]. cbn in Hin.
  rewrite decide_True by done. set (m' := if decide _ then _ else _).
  unfold close_send. cbn. rewrite Hc, Hopen. eexists. split; [done|].
  assert (∀ o', default ∅ (m' !! o') = default ∅ (m !! o') ∖ {[ id ]}) as Hsub.
  { intros o'. subst m'. destruct (decide (o' = o)) as [->|Hne].
    - rewrite Hset. cbn. case_decide as E; [|by rewrite lookup_insert_eq].
      by rewrite lookup_delete_eq, E.
    - assert (id ∉ default ∅ (m !! o')) as Hnot.
      { intros Hin'. apply Hne. apply (subscribers_disjoint h o' o id Hok); [|done].
        unfold subscribers. by rewrite Hm. }
      case_decide; [rewrite lookup_delete_ne by done|rewrite lookup_insert_ne by done];
        set_solver. }
  split_and!; [|done|by eexists|].
  - split.
    + intros o' j. unfold subscribers. cbn. rewrite Hsub.
      intros [Hj Hne]%elem_of_difference. unfold member_ok. cbn.
      rewrite lookup_insert_ne by set_solver. apply (hub_members _ Hok).
      unfold subscribers. by rewrite Hm.
    + intros m0 o' s [= <-] Hs. subst m'. case_decide as E.
      * apply lookup_delete_Some in Hs as [_ Hs]. by apply (hub_nonempty _ Hok m o').
      * apply lookup_insert_Some in Hs as [[_ <-]|[_ Hs]]; [done|].
        by apply (hub_nonempty _ Hok m o').
    + intros j d. cbn. intros [[<- <-]|[_ Hd]]%lookup_insert_Some;
        [apply (hub_bounded _ Hok id c Hc)|by apply (hub_bounded _ Hok j)].
  - intros o'. unfold subscribers. cbn. rewrite Hsub. by rewrite Hm.
Qed.

(** Removing anything else does nothing: the guard makes [remove] idempotent. *)
Lemma Hub_remove_stranger h id :
  (∀ o, id ∉ subscribers o h) → Hub_remove id h = Ok h.
Proof.
  intros Hno. unfold Hub_remove. destruct (h_clients h) as [m|] eqn:Hm; [|done].
  destruct (h_conns h !! id) as [c|]; [|done].
  specialize (Hno (c_orderID c)). unfold subscribers in Hno. rewrite Hm in Hno.
  destruct (m !! c_orderID c) as [set|]; [|done]. cbn in Hno. by rewrite decide_False.
Qed.

Lemma Hub_remove_ok h id :
  hub_ok h → ∃ h', Hub_remove id h = Ok h' ∧ hub_ok h'.
Proof.
  intros Hok. destruct (h_conns h !! id) as [c|] eqn:Hc.
  - destruct (decide (id ∈ subscribers (c_orderID c) h)) as [Hin|Hnot].
    + destruct (Hub_remove_member h _ id c Hok Hin Hc) as (h' & ? & ? & _). eauto.
    + exists h. split; [|done]. apply Hub_remove_stranger. intros o Ho.
      destruct (hub_members _ Hok _ _ Ho) as (c' & Hc' & Eo & _).
      apply Hnot. by replace (c_orderID c) with o by congruence.
  - exists h. split; [|done]. apply Hub_remove_stranger. intros o Ho.
    destruct (hub_members _ Hok _ _ Ho) as (c' & Hc' & _). congruence.
Qed.

Lemma Hub_register_ok h id orderID :
  hub_ok h → h_conns h !! id = None →
  ∃ h', Hub_register id (set_conn id (NewClient orderID) h) = Ok h' ∧ hub_ok h'
    ∧ ∀ o, subscribers o h'
           = subscribers o h ∪ (if decide (o = orderID ∧ is_Some (h_clients h)) then {[ id ]} else ∅).
Proof.
  intros Hok Hfresh.
  assert (∀ o, id ∉ subscribers o h) as Hno.
  { intros o Ho. destruct (hub_members _ Hok _ _ Ho) as (c & Hc & _). congruence. }
  assert (hub_ok (set_conn id (NewClient orderID) h)) as Hok1.
  { apply hub_ok_set_conn; [done|cbn; lia|]. intros o Ho. by destruct (Hno o). }
  unfold Hub_register. cbn. rewrite lookup_insert_eq.
  destruct (h_clients h) as [m|] eqn:Hm.
  2: { eexists. split_and!; [done..|]. intros o. rewrite decide_False, union_empty_r_L; [done|].
       intros [_ [? ?]]. done. }
  eexists. split; [done|]. cbn. set (s := {[ id ]} ∪ _).
  assert (∀ o, default ∅ (<[orderID := s]> m !! o) =
            subscribers o h ∪ (if decide (o = orderID ∧ is_Some (Some m)) then {[ id ]} else ∅)) as Hsub.
  { intros o. subst s. destruct (decide (o = orderID)) as [->|Hne].
    - rewrite lookup_insert_eq, decide_True by (split; [done|by eexists]). cbn.
      rewrite subscribers_set_conn. by rewrite (union_comm_L {[id]}).
    - rewrite lookup_insert_ne, decide_False, union_empty_r_L by (try tauto; done).
      unfold subscribers. by rewrite Hm. }
  split; [|done]. split.
  - intros o j. unfold subscribers at 1. cbn. rewrite Hsub. intros [Hj|Hj]%elem_of_union.
    + by apply (hub_members _ Hok1).
    + case_decide as E; [|set_solver]. apply elem_of_singleton in Hj as ->.
      unfold member_ok. cbn. rewrite lookup_insert_eq. exists (NewClient orderID).
      destruct E as [-> _]. done.
  - intros m0 o set [= <-] Hs. apply lookup_insert_Some in Hs as [[_ <-]|[_ Hs]].
    + subst s. set_solver.
    + by apply (hub_nonempty _ Hok m o).
  - apply Hok1.
Qed.
