(* ===== verification/HubSpec.v ===== *)
(** * Properties of the notification hub *)

From Stdlib Require Import ZArith Lia.
From stdpp Require Import base tactics list gmap strings.
From S2P Require Import Prelude GoStd Hub.

Open Scope Z_scope.

(** What delivery does to one client of the order. *)
Definition served (payload : string) (c : Client) : Client :=
  if room c then push payload c else shut c.
Definition had_room (h : Hub) (id : nat) : bool :=
  match h_conns h !! id with Some c => room c | None => false end.

(** Serving one client leaves the rest of the range to be served as before. *)
Section serving.
Context (h h1 : Hub) (id : nat) (c c1 : Client) (ids : list nat).
Hypothesis Hconn1 : h_conns h1 = <[id := c1]> (h_conns h).
Hypothesis Hid : id ∉ ids.

Lemma had_room_others j : j ∈ ids → had_room h1 j = had_room h j.
Proof. intros Hj. unfold had_room. by rewrite Hconn1, lookup_insert_ne by congruence. Qed.

Lemma served_conns payload h' :
  h_conns h !! id = Some c → c1 = served payload c →
  (∀ j, h_conns h' !! j = if decide (j ∈ ids) then served payload <$> h_conns h1 !! j
                          else h_conns h1 !! j) →
  ∀ j, h_conns h' !! j = if decide (j ∈ id :: ids) then served payload <$> h_conns h !! j
                         else h_conns h !! j.
Proof.
  intros Hc E Hconn j. rewrite Hconn, Hconn1. destruct (decide (j = id)) as [->|Hne].
  - rewrite decide_False, decide_True, lookup_insert_eq, Hc by (done || left). by rewrite E.
  - rewrite lookup_insert_ne by done.
    assert (j ∈ id :: ids ↔ j ∈ ids) as Hiff by (rewrite elem_of_cons; tauto).
    by destruct (decide (j ∈ ids)), (decide (j ∈ id :: ids)); tauto || done.
Qed.

Lemma existsb_had_room : existsb (had_room h1) ids = existsb (had_room h) ids.
Proof.
  pose proof had_room_others as Hsame. revert Hsame. clear Hid.
  induction ids as [|j l IH]; intros Hsame; [done|]. cbn. rewrite Hsame by left. f_equal.
  apply IH. intros k Hk. apply Hsame. by right.
Qed.
End serving.

Lemma deliver_spec ids o payload b h :
  hub_ok h → NoDup ids → (∀ id, id ∈ ids → id ∈ subscribers o h) → is_Some (h_clients h) →
  ∃ h', deliver ids payload b h = Ok (b || existsb (had_room h) ids, h') ∧ hub_ok h'
    ∧ is_Some (h_clients h')
    ∧ (∀ j, h_conns h' !! j = if decide (j ∈ ids) then served payload <$> h_conns h !! j
                              else h_conns h !! j)
    ∧ (∀ o' j, j ∈ subscribers o' h' ↔
         j ∈ subscribers o' h ∧ (j ∈ ids → had_room h j = true)).
Proof.
  revert b h. induction ids as [|id ids IH]; intros b h Hok Hnd Hmem Hrun.
  { exists h. rewrite orb_false_r. split_and!; [done..| |].
    - intros j. rewrite decide_False by apply not_elem_of_nil. done.
    - intros o' j. split; [|tauto]. intros ?. split; [done|]. by intros []%not_elem_of_nil. }
  apply NoDup_cons in Hnd as [Hid Hnd].
  destruct (send_or_default_member h o id payload Hok (Hmem id ltac:(left)))
    as (c & Hc & Ho & Hopen & Hsend & Hroom).
  assert (had_room h id = room c) as Hhad by (unfold had_room; by rewrite Hc).
  cbn [deliver existsb]. rewrite Hsend, Hhad. destruct (room c) eqn:Er.
  - specialize (Hroom eq_refl). set (h1 := set_conn id (push payload c) h) in *.
    pose proof (had_room_others h h1 id (push payload c) ids eq_refl Hid) as Hsame.
    destruct (IH true h1) as (h' & Hd & Hok' & Hrun' & Hconn & Hsub); [done|done| |done|].
    { intros j Hj. apply Hmem. by right. }
    exists h'. rewrite Hd. cbn. rewrite orb_true_r. split_and!; [done..| |].
    + eapply (served_conns h h1); [done..| |done]. unfold served. by rewrite Er.
    + intros o' j. rewrite Hsub. unfold h1 at 1. rewrite subscribers_set_conn, elem_of_cons.
      split; intros [Hj Hr]; (split; [done|]).
      * intros [->|Hin]; [by rewrite Hhad|]. rewrite <- (Hsame j Hin). auto.
      * intros Hin. rewrite (Hsame j Hin). auto.
  - destruct (Hub_remove_member h o id c Hok (Hmem id ltac:(left)) Hc)
      as (h1 & Hrm & Hok1 & Hconn1 & Hrun1 & Hsub1). rewrite Hrm.
    pose proof (had_room_others h h1 id _ ids Hconn1 Hid) as Hsame.
    destruct (IH b h1) as (h' & Hd & Hok' & Hrun' & Hconn & Hsub); [done|done| |done|].
    { intros j Hj. rewrite Hsub1. apply elem_of_difference. split; [apply Hmem; by right|].
      rewrite elem_of_singleton. congruence. }
    exists h'. rewrite Hd. split_and!; [|done..| |].
    + do 3 f_equal. by eapply existsb_had_room.
    + eapply (served_conns h h1); [done..| |done]. unfold served. by rewrite Er.
    + intros o' j. rewrite Hsub, Hsub1, elem_of_difference, elem_of_singleton, elem_of_cons.
      split.
      * intros [[Hj Hne] Hr]. split; [done|]. intros [->|Hin]; [done|].
        rewrite <- (Hsame j Hin). auto.
      * intros [Hj Hr]. split_and!; [done| |].
        -- intros ->. rewrite Hhad in Hr. by specialize (Hr ltac:(auto)).
        -- intros Hin. rewrite (Hsame j Hin). auto.
Qed.

Lemma close_all_ok ids h :
  NoDup ids → (∀ id, id ∈ ids → ∃ c, h_conns h !! id = Some c ∧ c_closed c = false) →
  ∃ h', close_all ids h = Ok h'
    ∧ ∀ j, h_conns h' !! j = if decide (j ∈ ids) then shut <$> h_conns h !! j else h_conns h !! j.
Proof.
  revert h. induction ids as [|id ids IH]; intros h Hnd Hopen.
  { exists h. split; [done|]. intros j. by rewrite decide_False by apply not_elem_of_nil. }
  apply NoDup_cons in Hnd as [Hid Hnd]. destruct (Hopen id ltac:(left)) as (c & Hc & Hcl).
  cbn. unfold close_send. rewrite Hc, Hcl.
  destruct (IH (set_conn id (mkClient (c_orderID c) (c_buffer c) true) h)) as (h' & Hd & Hconn).
  { done. }
  { intros j Hj. cbn. rewrite lookup_insert_ne by congruence. apply Hopen. by right. }
  exists h'. split; [done|]. intros j. rewrite Hconn. cbn.
  destruct (decide (j = id)) as [->|Hne].
  - rewrite decide_False, decide_True, lookup_insert_eq, Hc by (done || left). done.
  - rewrite lookup_insert_ne by done.
    assert (j ∈ id :: ids ↔ j ∈ ids) as Hiff by (rewrite elem_of_cons; tauto).
    by destruct (decide (j ∈ ids)), (decide (j ∈ id :: ids)); tauto || done.
Qed.

(** The clients of all sets, each once. *)
Lemma all_clients_nodup h m :
  hub_ok h → h_clients h = Some m → NoDup (mjoin (elements <$> (map_to_list m).*2)).
Proof.
  intros Hok Hm.
  assert (∀ o s j, (o, s) ∈ map_to_list m → j ∈ elements s → j ∈ subscribers o h) as Hin.
  { intros o s j Ho%elem_of_map_to_list Hj%elem_of_elements. unfold subscribers.
    by rewrite Hm, Ho. }
  pose proof (NoDup_fst_map_to_list m) as Hnd. revert Hin Hnd.
  generalize (map_to_list m) as l. induction l as [|[o s] l IH]; intros Hin Hnd; [constructor|].
  cbn in *. apply NoDup_cons in Hnd as [Ho Hnd]. apply NoDup_app. split_and!.
  - apply NoDup_elements.
  - intros j Hj (x & Hjx & Hx)%list_elem_of_join.
    apply list_elem_of_fmap in Hx as (s' & -> & Hs').
    apply list_elem_of_fmap in Hs' as ([o' s''] & -> & Hl). cbn in Hjx.
    apply Ho. apply list_elem_of_fmap. exists (o', s''). split; [|done]. cbn.
    eapply subscribers_disjoint; [done|eapply Hin; [left|done]|eapply Hin; [by right|done]].
  - apply IH; [|done]. intros o' s' j Hl Hj. eapply Hin; [by right|done].
Qed.

Lemma elem_of_all_clients h m j :
  h_clients h = Some m →
  j ∈ mjoin (elements <$> (map_to_list m).*2) ↔ ∃ o, j ∈ subscribers o h.
Proof.
  intros Hm. rewrite list_elem_of_join. unfold subscribers. rewrite Hm. split.
  - intros (x & Hj & Hx). apply list_elem_of_fmap in Hx as (s & -> & Hs).
    apply list_elem_of_fmap in Hs as ([o s'] & -> & Hl%elem_of_map_to_list).
    exists o. rewrite Hl. by apply elem_of_elements.
  - intros [o Ho]. destruct (m !! o) as [s|] eqn:Hs; [|cbn in Ho; set_solver].
    exists (elements s). split; [by apply elem_of_elements|].
    apply list_elem_of_fmap. exists s. split; [done|].
    apply list_elem_of_fmap. exists (o, s). by rewrite elem_of_map_to_list.
Qed.

Lemma Hub_done_ok h :
  hub_ok h → ∃ h', Hub_done h = Ok h' ∧ hub_ok h' ∧ h_clients h' = None
    ∧ ∀ o j, j ∈ subscribers o h → ∃ c, h_conns h' !! j = Some c ∧ c_closed c = true.
Proof.
  intros Hok. unfold Hub_done. destruct (h_clients h) as [m|] eqn:Hm.
  2: { exists h. split_and!; [done..|]. intros o j Hj. unfold subscribers in Hj.
       rewrite Hm in Hj. set_solver. }
  destruct (close_all_ok (mjoin (elements <$> (map_to_list m).*2)) h) as (h1 & Hd & Hconn).
  - by eapply all_clients_nodup.
  - intros id Hid. apply (elem_of_all_clients h m id Hm) in Hid as [o Ho].
    destruct (hub_members _ Hok _ _ Ho) as (c & ? & _ & ?). eauto.
  - rewrite Hd. eexists. split; [done|]. split_and!; [|done|].
    + split; [|done|].
      * intros o id. unfold subscribers. cbn. set_solver.
      * intros id c. cbn. rewrite Hconn. case_decide; [|apply (hub_bounded _ Hok)].
        intros (c0 & Hc0 & ->)%fmap_Some. cbn. by apply (hub_bounded _ Hok id).
    + intros o j Hj. cbn. destruct (hub_members _ Hok _ _ Hj) as (c & Hc & _).
      rewrite Hconn, decide_True by (apply (elem_of_all_clients h m j Hm); by exists o).
      rewrite Hc. by eexists.
Qed.

(** The events of the hub itself: everything but the handler's direct send. *)
Definition hub_own (e : hub_event) : Prop :=
  match e with EvSend _ _ => False | _ => True end.

Lemma hub_step_ok e h :
  hub_ok h → event_ok e h → hub_own e →
  ∃ b h', hub_step e h = Ok (b, h') ∧ hub_ok h'.
Proof.
  intros Hok He Hown. destruct e as [id o|id|o payload range|id| |id payload]; cbn.
  - destruct (Hub_register_ok h id o Hok He) as (h' & -> & ? & _). eauto.
  - destruct (Hub_remove_ok h id Hok) as (h' & -> & ?). eauto.
  - destruct (h_clients h) as [m|] eqn:Hm; [|eauto].
    destruct (deliver_spec range o payload false h Hok) as (h' & -> & ? & _).
    + cbn in He. rewrite He. apply NoDup_elements.
    + intros id Hid. cbn in He. rewrite He in Hid. by apply elem_of_elements.
    + by rewrite Hm.
    + eauto.
  - exists false, (receive id h). split; [done|]. unfold receive.
    destruct (h_conns h !! id) as [c|] eqn:Hc; [|done]. apply hub_ok_set_conn; [done| |].
    + cbn. pose proof (hub_bounded _ Hok id c Hc). destruct (c_buffer c); cbn in *; lia.
    + intros o Ho. destruct (hub_members _ Hok _ _ Ho) as (c' & Hc' & ? & ?).
      by replace c with c' by congruence.
  - destruct He as [m Hm]. rewrite Hm. destruct (Hub_done_ok h Hok) as (h' & -> & ? & _). eauto.
  - done.
Qed.

(** Only [Stop] stops the hub, and nothing starts it again. *)
Lemma remove_running id h h' :
  Hub_remove id h = Ok h' → h_clients h' = None ↔ h_clients h = None.
Proof.
  unfold Hub_remove. destruct (h_clients h) as [m|] eqn:Hm; [|intros [= <-]; by rewrite Hm].
  destruct (h_conns h !! id) as [c|]; [|intros [= <-]; by rewrite Hm].
  destruct (m !! c_orderID c) as [set|]; [|intros [= <-]; by rewrite Hm].
  case_decide; [|intros [= <-]; by rewrite Hm]. unfold close_send. cbn.
  destruct (h_conns h !! id) as [c'|]; [|done]. destruct (c_closed c'); [done|].
  by intros [= <-].
Qed.

Lemma deliver_running ids payload b h b' h' :
  deliver ids payload b h = Ok (b', h') → h_clients h' = None ↔ h_clients h = None.
Proof.
  revert b h. induction ids as [|id ids IH]; intros b h Hd; cbn in Hd; [by injection Hd as _ <-|].
  destruct (send_or_default id payload h) as [[[] h1]|] eqn:Hs; [| |done];
    unfold send_or_default in Hs; destruct (h_conns h !! id); [|done| |done];
    destruct (c_closed _); try done; destruct (_ <? _)%nat; try done; injection Hs as <-.
  - by apply IH in Hd.
  - destruct (Hub_remove id h) as [h2|] eqn:Hr; [|done].
    apply remove_running in Hr. apply IH in Hd. by rewrite Hd.
Qed.

Lemma hub_step_running e h b h' :
  hub_step e h = Ok (b, h') → h_clients h' = None ↔ h_clients h = None ∨ e = EvStop.
Proof.
  assert (∀ (P : Prop), (h_clients h' = None ↔ h_clients h = None) → ¬ P →
            h_clients h' = None ↔ h_clients h = None ∨ P) as Hor by tauto.
  destruct e as [id o|id|o payload range|id| |id payload]; cbn; intros Hs;
    try (apply Hor; [|done]).
  - destruct (Hub_register _ _) as [h1|] eqn:Hr; [|done]. injection Hs as _ <-.
    unfold Hub_register in Hr. cbn in Hr. rewrite lookup_insert_eq in Hr.
    destruct (h_clients h) as [m|] eqn:Hm; by injection Hr as <-.
  - destruct (Hub_remove id h) as [h1|] eqn:Hr; [|done]. injection Hs as _ <-.
    by apply remove_running in Hr.
  - destruct (h_clients h) as [m|] eqn:Hm.
    + by apply deliver_running in Hs; rewrite Hs, Hm.
    + injection Hs as _ <-. by rewrite Hm.
  - injection Hs as _ <-. unfold receive. by destruct (h_conns h !! id).
  - destruct (h_clients h) as [m|] eqn:Hm; [|done]. unfold Hub_done in Hs. rewrite Hm in Hs.
    destruct (close_all _ h) as [h1|]; [|done]. injection Hs as _ <-. split; [by right|done].
  - destruct (send_or_default id payload h) as [[b1 h1]|] eqn:Hd; [|done]. injection Hs as _ <-.
    unfold send_or_default in Hd. destruct (h_conns h !! id) as [c|]; [|done].
    destruct (c_closed c); [done|]. by destruct (_ <? _)%nat; injection Hd as _ <-.
Qed.

Lemma NewHub_ok : hub_ok NewHub.
Proof.
  split.
  - intros o id. unfold subscribers. cbn. rewrite lookup_empty. set_solver.
  - intros m o set [= <-]. by rewrite lookup_empty.
  - intros id c. cbn. by rewrite lookup_empty.
Qed.

(** A sequence of events. *)
Fixpoint hub_trace (h : Hub) (es : list hub_event) : go Hub :=
  match es with
  | [] => Ok h
  | e :: es => match hub_step e h with Ok (_, h) => hub_trace h es | Err p => Err p end
  end.
Fixpoint events_ok (h : Hub) (es : list hub_event) : Prop :=
  match es with
  | [] => True
  | e :: es => event_ok e h ∧ match hub_step e h with
                              | Ok (_, h) => events_ok h es
                              | Err _ => True
                              end
  end.

Lemma hub_trace_ok es h :
  hub_ok h → Forall hub_own es → events_ok h es →
  ∃ h', hub_trace h es = Ok h' ∧ hub_ok h'
    ∧ (h_clients h' = None ↔ h_clients h = None ∨ EvStop ∈ es).
Proof.
  revert h. induction es as [|e es IH]; intros h Hok; cbn.
  { exists h. split_and!; [done..|]. split; [by left|]. by intros [?|[]%not_elem_of_nil]. }
  intros [Ho Hown]%Forall_cons [He Hev].
  destruct (hub_step_ok e h Hok He Ho) as (b & h1 & E & Hok1).
  pose proof (hub_step_running e h b h1 E) as Hrun. rewrite E in Hev |- *.
  destruct (IH h1 Hok1 Hown Hev) as (h' & Ht & Hok' & Hst). exists h'. split_and!; [done..|].
  rewrite Hst, Hrun, elem_of_cons. intuition congruence.
Qed.

Lemma hub_trace_app es1 es2 h :
  hub_trace h (es1 ++ es2)
  = match hub_trace h es1 with Ok h' => hub_trace h' es2 | Err p => Err p end.
Proof.
  revert h. induction es1 as [|e es1 IH]; intros h; [done|]. cbn.
  by destruct (hub_step e h) as [[b h1]|].
Qed.

(** C38. The hub's loop never panics: every sequence of connects, disconnects,
    notifications, receives and a single [Stop] from [NewHub], in any order and before or
    after the [Stop], completes. No channel is closed twice or sent to after its close, no
    client's queue exceeds [sendBuffer], and the hub is stopped exactly when [Stop] was
    called. Its caller's obligation is real: one more [Stop] panics. *)
Theorem hub_never_panics es :
  Forall hub_own es → events_ok NewHub es →
  ∃ h, hub_trace NewHub es = Ok h
    ∧ (∀ id c, h_conns h !! id = Some c → (length (c_buffer c) ≤ sendBuffer)%nat)
    ∧ (h_clients h = None ↔ EvStop ∈ es)
    ∧ (EvStop ∈ es → hub_trace NewHub (es ++ [EvStop]) = Err CloseOfClosed).
Proof.
  intros Hown Hev. destruct (hub_trace_ok es NewHub NewHub_ok Hown Hev) as (h & Ht & Hok & Hst).
  assert (h_clients h = None ↔ EvStop ∈ es) as Hstop by (rewrite Hst; cbn; intuition congruence).
  exists h. split_and!; [done|apply Hok|done|].
  intros Hin%Hstop. rewrite hub_trace_app, Ht. cbn. by rewrite Hin.
Qed.

(** C39. A notification reaches exactly its audience: every client watching the order
    whose queue has room gets the payload once, at the end; a full one is dropped, its
    channel closed, its messages kept; every other client is untouched; and the result
    says whether at least one was reached. The order of the map iteration is irrelevant. *)
Theorem Notify_delivers orderID payload range h :
  hub_ok h → is_Some (h_clients h) → range ≡ₚ elements (subscribers orderID h) →
  ∃ h', hub_step (EvNotify orderID payload range) h
        = Ok (bool_decide (set_Exists (λ id, had_room h id = true) (subscribers orderID h)), h')
    ∧ hub_ok h'
    ∧ (∀ j, h_conns h' !! j = if decide (j ∈ subscribers orderID h)
                              then served payload <$> h_conns h !! j else h_conns h !! j)
    ∧ (∀ o j, j ∈ subscribers o h' ↔
         j ∈ subscribers o h ∧ (j ∈ subscribers orderID h → had_room h j = true)).
Proof.
  intros Hok [m Hm] Hr.
  assert (∀ id, id ∈ range ↔ id ∈ subscribers orderID h) as Hin.
  { intros id. rewrite Hr. apply elem_of_elements. }
  destruct (deliver_spec range orderID payload false h) as (h' & Hd & Hok' & _ & Hconn & Hsub);
    [done|rewrite Hr; apply NoDup_elements|apply Hin|by eexists|].
  exists h'. cbn. rewrite Hm, Hd. split_and!; [|done| |].
  - do 2 f_equal. apply eq_true_iff_eq. rewrite bool_decide_eq_true. cbn.
    rewrite existsb_exists. split.
    + intros (id & Hid & Hroom). exists id. split; [|done]. apply Hin. by apply list_elem_of_In.
    + intros (id & Hid & Hroom). exists id. split; [|done]. apply list_elem_of_In. by apply Hin.
  - intros j. rewrite Hconn. by destruct (decide (j ∈ range)), (decide (j ∈ subscribers orderID h));
      rewrite Hin in *.
  - intros o j. by rewrite Hsub, Hin.
Qed.

(** [Client.Send] is outside the hub's protection: called, as the connect handler
    does, from another goroutine, it panics exactly when the hub has already closed that
    client, by unregistering it, dropping it as slow, or stopping. *)
Theorem Send_panics_iff_closed id payload h :
  is_Some (h_conns h !! id) →
  (hub_step (EvSend id payload) h = Err SendOnClosed
     ↔ ∃ c, h_conns h !! id = Some c ∧ c_closed c = true)
  ∧ (∀ c o, h_conns h !! id = Some c → id ∈ subscribers o h → hub_ok h →
       ∃ h1, hub_step (EvUnregister id) h = Ok (false, h1)
             ∧ hub_step (EvSend id payload) h1 = Err SendOnClosed).
Proof.
  intros [c Hc]. split.
  - cbn. unfold send_or_default. rewrite Hc. destruct (c_closed c) eqn:Ecl.
    + split; [|done]. intros _. by exists c.
    + split; [|intros (c' & [= <-] & ?); congruence]. by destruct (_ <? _)%nat.
  - intros c' o Hc' Ho Hok. replace c' with c in * by congruence.
    destruct (Hub_remove_member h o id c Hok Ho Hc) as (h1 & Hrm & _ & Hconn & _).
    exists h1. cbn. rewrite Hrm. split; [done|]. unfold send_or_default.
    by rewrite Hconn, lookup_insert_eq.
Qed.

(** ** Witnesses *)
Definition demo_events : list hub_event :=
  [EvConnect 1 7; EvConnect 2 7; EvConnect 3 9; EvNotify 7 "shipped" [2%nat; 1%nat];
   EvReceive 1; EvUnregister 2; EvUnregister 2; EvNotify 7 "again" [1%nat]; EvStop;
   EvUnregister 1; EvConnect 4 7; EvNotify 7 "late" []].

Lemma hub_never_panics_witness :
  ∃ h, hub_trace NewHub demo_events = Ok h
    ∧ (c_buffer <$> h_conns h !! 1%nat) = Some ["again"%string]
    ∧ (c_closed <$> h_conns h !! 3%nat) = Some true
    ∧ hub_trace NewHub (demo_events ++ [EvStop]) = Err CloseOfClosed.
Proof.
  destruct (hub_never_panics demo_events) as (h & Ht & _ & _ & Hagain).
  - repeat (constructor; [exact I|]). constructor.
  - cbn. repeat split; first [by eexists | vm_compute; reflexivity].
  - exists h. split; [exact Ht|].
    assert (hub_trace NewHub (demo_events ++ [EvStop]) = Err CloseOfClosed) as Hp.
    { apply Hagain. do 8 right. left. }
    vm_compute in Ht. injection Ht as <-. split; [done|]. split; [done|exact Hp].
Defined.

Definition demo_hub : Hub :=
  match hub_trace NewHub [EvConnect 1 7; EvConnect 2 7; EvConnect 3 9] with
  | Ok h => h
  | Err _ => NewHub
  end.

Lemma demo_hub_ok : hub_ok demo_hub.
Proof.
  destruct (hub_trace_ok [EvConnect 1 7; EvConnect 2 7; EvConnect 3 9] NewHub NewHub_ok)
    as (h & Ht & Hok & _); [repeat (constructor; [exact I|]); constructor|cbn; repeat split; reflexivity|].
  unfold demo_hub. by rewrite Ht.
Qed.

Lemma Notify_delivers_witness :
  ∃ h', hub_step (EvNotify 7 "shipped" [2%nat; 1%nat]) demo_hub = Ok (true, h')
    ∧ hub_ok h' ∧ (c_buffer <$> h_conns h' !! 3%nat) = Some [].
Proof.
  destruct (Notify_delivers 7 "shipped" [2%nat; 1%nat] demo_hub demo_hub_ok) as (h' & Hs & Hok & _).
  - by eexists.
  - done.
  - exists h'. split; [exact Hs|]. split; [exact Hok|]. vm_compute in Hs. by injection Hs as <-.
Defined.

Lemma Send_panics_iff_closed_witness :
  ∃ h1, hub_step (EvUnregister 1) demo_hub = Ok (false, h1)
    ∧ hub_step (EvSend 1 "replayed") h1 = Err SendOnClosed.
Proof.
  apply (proj2 (Send_panics_iff_closed 1 "replayed" demo_hub ltac:(by eexists))
    (mkClient 7 [] false) 7 eq_refl); [|apply demo_hub_ok].
  apply (bool_decide_unpack _). evaluate.
Defined.
