(* ===== verification/Pumps.v ===== *)
(** * Sockets at work ([internal/ws], [internal/api/handlers/ws_handler.go], concurrently)

    The hub's loop, one [WritePump] per client and the connect handlers' replays as
    goroutines of one step relation. A pump's state is what its select has received so far;
    [Hub.WritePump] gives the frames that makes it write and whether it has returned. A replay
    whose send panics takes no step: [net/http] recovers its goroutine, and the sockets
    stay as they are. *)

From Stdlib Require Import ZArith Lia.
From stdpp Require Import base tactics list gmap strings relations.
From S2P Require Import Prelude GoStd Hub HubSpec.

Open Scope Z_scope.

(** A pump: what it received, latest last, and whether its deferred function has run (the
    client unregistered, the connection closed). *)
Record Pump : Type := mkPump {
  pm_inputs : list pump_input;
  pm_gone : bool;
}.
Definition new_pump : Pump := mkPump [] false.
Definition pm_frames (p : Pump) : list frame := (WritePump (pm_inputs p)).1.
Definition pm_returned (p : Pump) : bool := (WritePump (pm_inputs p)).2.
Definition pm_receives (i : pump_input) (p : Pump) : Pump :=
  mkPump (pm_inputs p ++ [i]) (pm_gone p).

(** The messages a socket was sent. *)
Definition texts : list frame → list string :=
  omap (λ f, match f with TextFrame payload => Some payload | _ => None end).

(** [lv_queued] is not the code's: everything that was ever put into a client's channel. *)
Record Live : Type := mkLive {
  lv_hub : Hub;
  lv_pumps : gmap nat Pump;
  lv_queued : nat → list string;
}.

Definition buffer_of (h : Hub) (id : nat) : list string :=
  match h_conns h !! id with Some c => c_buffer c | None => [] end.
Definition closed_in (h : Hub) (id : nat) : Prop :=
  ∃ c, h_conns h !! id = Some c ∧ c_closed c = true.

(** A step of the hub or of a replay only adds at the end of the channels. *)
Definition enqueued (h h' : Hub) (queued : nat → list string) (id : nat) : list string :=
  queued id ++ drop (length (buffer_of h id)) (buffer_of h' id).

(** What reaches the hub from outside the pumps. *)
Definition outer_event (e : hub_event) : Prop :=
  match e with EvNotify _ _ _ | EvStop | EvSend _ _ => True | _ => False end.

(** What the select of client [id]'s pump can receive, with the outcome of the write. *)
Definition offered (h : Hub) (id : nat) (written : bool) : option pump_input :=
  match h_conns h !! id with
  | None => None
  | Some c =>
      match c_buffer c with
      | payload :: _ => Some (PumpPayload payload written)
      | [] => if c_closed c then Some (PumpClosed written) else None
      end
  end.

Inductive live_step : Live → Live → Prop :=
(** The connect handler: a new client is registered and its pump started. *)
| live_connect h ps q id orderID b h' :
    h_conns h !! id = None → hub_step (EvConnect id orderID) h = Ok (b, h') →
    live_step (mkLive h ps q) (mkLive h' (<[id := new_pump]> ps) (enqueued h h' q))
(** A notification, the stop, one send of a replay. *)
| live_outer h ps q e b h' :
    outer_event e → event_ok e h → hub_step e h = Ok (b, h') →
    live_step (mkLive h ps q) (mkLive h' ps (enqueued h h' q))
(** A pump's select takes from its channel, and writes. *)
| live_receive h ps q id p written i :
    ps !! id = Some p → pm_returned p = false → offered h id written = Some i →
    live_step (mkLive h ps q) (mkLive (receive id h) (<[id := pm_receives i p]> ps) q)
(** ... or its ticker, and pings. *)
| live_tick h ps q id p written :
    ps !! id = Some p → pm_returned p = false →
    live_step (mkLive h ps q) (mkLive h (<[id := pm_receives (PumpTick written) p]> ps) q)
(** A pump that has returned unregisters its client and closes the connection. *)
| live_leave h ps q id p b h' :
    ps !! id = Some p → pm_returned p = true → pm_gone p = false →
    hub_step (EvUnregister id) h = Ok (b, h') →
    live_step (mkLive h ps q) (mkLive h' (<[id := mkPump (pm_inputs p) true]> ps) (enqueued h h' q)).

Definition live_start : Live := mkLive NewHub ∅ (λ _, []).

(** ** The pump, one input at a time *)
Definition frame_of (i : pump_input) : frame :=
  match i with
  | PumpPayload payload _ => TextFrame payload
  | PumpClosed _ => CloseFrame
  | PumpTick _ => PingFrame
  end.
Definition ends (i : pump_input) : bool :=
  match i with PumpClosed _ => true | PumpPayload _ w | PumpTick w => negb w end.
Definition payload_of (i : pump_input) : list string :=
  match i with PumpPayload payload _ => [payload] | _ => [] end.

Lemma WritePump_snoc is_ i :
  (WritePump is_).2 = false →
  WritePump (is_ ++ [i]) = ((WritePump is_).1 ++ [frame_of i], ends i).
Proof.
  induction is_ as [|j is_ IH]; intros Hr.
  { destruct i as [p []| |[]]; done. }
  destruct j as [p []|w|[]]; cbn in Hr |- *; try done;
    destruct (WritePump is_) as [fs r]; cbn in Hr, IH; by rewrite (IH Hr).
Qed.

Lemma pm_receives_spec i p :
  pm_returned p = false →
  pm_frames (pm_receives i p) = pm_frames p ++ [frame_of i]
  ∧ pm_returned (pm_receives i p) = ends i.
Proof. intros Hr. unfold pm_frames, pm_returned. cbn. by rewrite WritePump_snoc. Qed.

Lemma texts_frame i : texts [frame_of i] = payload_of i.
Proof. by destruct i. Qed.

Lemma texts_app fs1 fs2 : texts (fs1 ++ fs2) = texts fs1 ++ texts fs2.
Proof. apply omap_app. Qed.

(** ** A schedule to execute: whose turn it is *)
Inductive live_turn : Type :=
| LConnect (id : nat) (orderID : Z)
| LNotify (orderID : Z) (payload : string)
| LSend (id : nat) (payload : string)
| LStop
| LReceive (id : nat) (written : bool)
| LTick (id : nat) (written : bool)
| LLeave (id : nat).

Definition play_hub (e : hub_event) (ps : Hub → gmap nat Pump) (s : Live) : Live :=
  match hub_step e (lv_hub s) with
  | Ok (_, h) => mkLive h (ps h) (enqueued (lv_hub s) h (lv_queued s))
  | Err _ => s
  end.

Definition live_play (t : live_turn) (s : Live) : Live :=
  let h := lv_hub s in
  let ps := lv_pumps s in
  match t with
  | LConnect id orderID =>
      match h_conns h !! id with
      | Some _ => s
      | None => play_hub (EvConnect id orderID) (λ _, <[id := new_pump]> ps) s
      end
  | LNotify orderID payload =>
      play_hub (EvNotify orderID payload (elements (subscribers orderID h))) (λ _, ps) s
  | LSend id payload =>
      match h_conns h !! id with
      | Some _ => play_hub (EvSend id payload) (λ _, ps) s
      | None => s
      end
  | LStop => play_hub EvStop (λ _, ps) s
  | LReceive id written =>
      match ps !! id, offered h id written with
      | Some p, Some i =>
          if pm_returned p then s
          else mkLive (receive id h) (<[id := pm_receives i p]> ps) (lv_queued s)
      | _, _ => s
      end
  | LTick id written =>
      match ps !! id with
      | Some p => if pm_returned p then s
                  else mkLive h (<[id := pm_receives (PumpTick written) p]> ps) (lv_queued s)
      | None => s
      end
  | LLeave id =>
      match ps !! id with
      | Some p =>
          if pm_returned p && negb (pm_gone p)
          then play_hub (EvUnregister id) (λ _, <[id := mkPump (pm_inputs p) true]> ps) s
          else s
      | None => s
      end
  end.

Lemma live_play_step t s : live_play t s = s ∨ live_step s (live_play t s).
Proof.
  destruct s as [h ps q].
  destruct t as [id o|o payload|id payload| |id w|id w|id]; unfold live_play, play_hub;
    cbn [lv_hub lv_pumps lv_queued].
  - destruct (h_conns h !! id) eqn:Hc; [by left|].
    destruct (hub_step _ h) as [[b h']|] eqn:Hs; [right|by left]. eapply live_connect; [done|exact Hs].
  - destruct (hub_step _ h) as [[b h']|] eqn:Hs; [right|by left].
    refine (live_outer h ps q _ b h' _ _ Hs); [exact I|apply Permutation_refl].
  - destruct (h_conns h !! id) eqn:Hc; [|by left].
    destruct (hub_step _ h) as [[b h']|] eqn:Hs; [right|by left].
    refine (live_outer h ps q _ b h' _ _ Hs); [exact I|by eexists].
  - destruct (hub_step _ h) as [[b h']|] eqn:Hs; [right|by left].
    refine (live_outer h ps q _ b h' _ _ Hs); [exact I|].
    cbn in Hs |- *. by destruct (h_clients h).
  - destruct (ps !! id) as [p|] eqn:Hp; [|by left].
    destruct (offered h id w) as [i|] eqn:Ho; [|by left].
    destruct (pm_returned p) eqn:Hr; [by left|right]. by eapply live_receive.
  - destruct (ps !! id) as [p|] eqn:Hp; [|by left].
    destruct (pm_returned p) eqn:Hr; [by left|right]. by eapply live_tick.
  - destruct (ps !! id) as [p|] eqn:Hp; [|by left].
    destruct (pm_returned p && negb (pm_gone p)) eqn:Hr; [|by left].
    apply andb_true_iff in Hr as [Hr Hg%negb_true_iff].
    destruct (hub_step _ h) as [[b h']|] eqn:Hs; [right|by left]. by eapply live_leave.
Qed.

Definition live_plays (ts : list live_turn) (s : Live) : Live :=
  foldl (λ s t, live_play t s) s ts.

Lemma live_plays_steps ts s : rtc live_step s (live_plays ts s).
Proof.
  unfold live_plays. revert s. induction ts as [|t ts IH]; intros s; [done|]. cbn.
  destruct (live_play_step t s) as [->|Hst]; [apply IH|]. by eapply rtc_l.
Qed.
