(* ===== verification/PumpsSpec.v ===== *)
(** * Properties of the sockets at work

    What a socket is sent is what was queued for it, in order; the hub lists exactly the open
    clients; and a client it closed unwinds by its own pump. *)

From Stdlib Require Import ZArith Lia.
From stdpp Require Import base tactics list gmap strings relations.
From S2P Require Import Prelude GoStd Hub HubSpec Pumps.

Open Scope Z_scope.

(** ** How the channels change when no pump reads *)

(** One client's channel: it only grows at the end, and once closed it does not change. *)
Definition later (c c' : Client) : Prop :=
  c_orderID c' = c_orderID c ∧ (∃ more, c_buffer c' = c_buffer c ++ more)
  ∧ (c_closed c = true → c' = c).

#[export] Instance later_preorder : PreOrder later.
Proof.
  split.
  - intros c. split_and!; [done|by exists []; rewrite app_nil_r|done].
  - intros c1 c2 c3 (E1 & [m1 B1] & C1) (E2 & [m2 B2] & C2). split_and!.
    + congruence.
    + exists (m1 ++ m2). by rewrite B2, B1, app_assoc.
    + intros Hc. rewrite <- (C1 Hc) in Hc |- *. auto.
Qed.

(** A new client may come, none goes. *)
Record grows (h h' : Hub) : Prop := {
  grows_kept : ∀ id c, h_conns h !! id = Some c → ∃ c', h_conns h' !! id = Some c' ∧ later c c';
  grows_none : ∀ id, h_conns h !! id = None → h_conns h' !! id = None;
}.

#[export] Instance grows_preorder : PreOrder grows.
Proof.
  split.
  - intros h. split; [|done]. intros id c Hc. exists c. by split.
  - intros h1 h2 h3 [K1 N1] [K2 N2]. split; [|auto]. intros id c Hc.
    destruct (K1 id c Hc) as (c2 & H2 & L2), (K2 id c2 H2) as (c3 & H3 & L3).
    exists c3. split; [done|by etrans].
Qed.

Lemma grows_set_conn id c c' h :
  h_conns h !! id = Some c → later c c' → grows h (set_conn id c' h).
Proof.
  intros Hc Hl. split.
  - intros j d Hd. cbn. destruct (decide (j = id)) as [->|Hne].
    + rewrite lookup_insert_eq. exists c'. split; [done|]. by replace d with c by congruence.
    + rewrite lookup_insert_ne by done. by exists d.
  - intros j Hj. cbn. rewrite lookup_insert_ne; [done|congruence].
Qed.

Lemma grows_conns h h' : h_conns h' = h_conns h → grows h h'.
Proof. intros E. split; intros id; rewrite E; [|done]. intros c Hc. by exists c. Qed.

Lemma send_grows id payload h b h' : send_or_default id payload h = Ok (b, h') → grows h h'.
Proof.
  unfold send_or_default. destruct (h_conns h !! id) as [c|] eqn:Hc; [|done].
  destruct (c_closed c) eqn:Hcl; [done|]. destruct (_ <? _)%nat; intros [= _ <-]; [|done].
  eapply grows_set_conn; [done|]. split_and!; [done|by eexists|congruence].
Qed.

Lemma close_grows id h h' : close_send id h = Ok h' → grows h h'.
Proof.
  unfold close_send. destruct (h_conns h !! id) as [c|] eqn:Hc; [|done].
  destruct (c_closed c) eqn:Hcl; [done|]. intros [= <-].
  eapply grows_set_conn; [done|]. split_and!; [done|exists []; by rewrite app_nil_r|congruence].
Qed.

Lemma remove_grows id h h' : Hub_remove id h = Ok h' → grows h h'.
Proof.
  unfold Hub_remove. destruct (h_clients h) as [m|]; [|by intros [= <-]].
  destruct (h_conns h !! id) as [c|]; [|by intros [= <-]].
  destruct (m !! c_orderID c) as [set|]; [|by intros [= <-]].
  case_decide; [|by intros [= <-]]. intros Hc%close_grows.
  etrans; [|exact Hc]. by apply grows_conns.
Qed.

Lemma deliver_grows ids payload b h b' h' : deliver ids payload b h = Ok (b', h') → grows h h'.
Proof.
  revert b h. induction ids as [|id ids IH]; intros b h; cbn; [by intros [= _ <-]|].
  destruct (send_or_default id payload h) as [[[] h1]|p] eqn:Hs; [| |done].
  - intros Hd. etrans; [by eapply send_grows|by eapply IH].
  - destruct (Hub_remove id h1) as [h2|p] eqn:Hr; [|done]. intros Hd.
    etrans; [by eapply send_grows|]. etrans; [by eapply remove_grows|by eapply IH].
Qed.

Lemma close_all_grows ids h h' : close_all ids h = Ok h' → grows h h'.
Proof.
  revert h. induction ids as [|id ids IH]; intros h; cbn; [by intros [= <-]|].
  destruct (close_send id h) as [h1|p] eqn:Hc; [|done]. intros Ha.
  etrans; [by eapply close_grows|by eapply IH].
Qed.

Lemma done_grows h h' : Hub_done h = Ok h' → grows h h'.
Proof.
  unfold Hub_done. destruct (h_clients h) as [m|]; [|by intros [= <-]].
  destruct (close_all _ h) as [h1|p] eqn:Hc; [|done]. intros [= <-].
  etrans; [by eapply close_all_grows|]. by apply grows_conns.
Qed.

(** ** A running hub lists exactly the open clients *)
Definition listed (h : Hub) : Prop :=
  is_Some (h_clients h) → ∀ id c, h_conns h !! id = Some c → c_closed c = false →
    id ∈ subscribers (c_orderID c) h.

Lemma listed_set_conn id c c' h :
  listed h → h_conns h !! id = Some c → c_orderID c' = c_orderID c → c_closed c' = c_closed c →
  listed (set_conn id c' h).
Proof.
  intros Hl Hc Ho Hcl Hrun j d. cbn. rewrite subscribers_set_conn.
  intros [[<- <-]|[_ Hd]]%lookup_insert_Some Hopen; [|by apply Hl].
  rewrite Ho. apply Hl; [done..|congruence].
Qed.

Lemma register_conns id h h' :
  Hub_register id h = Ok h' →
  h_conns h' = h_conns h ∧ (is_Some (h_clients h') ↔ is_Some (h_clients h)).
Proof.
  unfold Hub_register. destruct (h_clients h) as [m|] eqn:Hm; [|intros [= <-]; by rewrite Hm].
  destruct (h_conns h !! id); intros [= <-]; [|by rewrite Hm]. split; [done|].
  split; intros _; by eexists.
Qed.

Lemma connect_listed id orderID h b h' :
  hub_ok h → listed h → h_conns h !! id = None →
  hub_step (EvConnect id orderID) h = Ok (b, h') →
  hub_ok h' ∧ listed h' ∧ h_conns h' = <[id := NewClient orderID]> (h_conns h).
Proof.
  intros Hok Hl Hno. cbn. destruct (Hub_register_ok h id orderID Hok Hno) as (h1 & Hr & Hok1 & Hsub).
  rewrite Hr. intros [= _ <-]. apply register_conns in Hr as [Hconns Hrun]. cbn in Hconns, Hrun.
  split_and!; [done| |done]. intros Hs j c. rewrite Hconns, Hsub.
  intros [[<- <-]|[_ Hc]]%lookup_insert_Some Hopen; apply elem_of_union.
  - right. cbn. rewrite decide_True; [by apply elem_of_singleton|]. split; [done|by apply Hrun].
  - left. apply Hl; [by apply Hrun|done..].
Qed.

Lemma remove_listed id h h' :
  hub_ok h → listed h → Hub_remove id h = Ok h' →
  hub_ok h' ∧ listed h' ∧ ∀ o, id ∉ subscribers o h'.
Proof.
  intros Hok Hl Hr. destruct (h_conns h !! id) as [c|] eqn:Hc.
  - destruct (decide (id ∈ subscribers (c_orderID c) h)) as [Hin|Hnot].
    + destruct (Hub_remove_member h _ id c Hok Hin Hc) as (h1 & Hr1 & Hok1 & Hconn & _ & Hsub).
      rewrite Hr in Hr1. injection Hr1 as ->. split_and!;
        [done| |intros o; rewrite Hsub, elem_of_difference, elem_of_singleton; tauto].
      intros Hrun j d. rewrite Hconn, Hsub. intros [[<- <-]|[Hne Hd]]%lookup_insert_Some; [done|].
      intros Hopen. apply elem_of_difference. split; [|set_solver].
      apply Hl; [by eapply subscribers_running|done..].
    + assert (∀ o, id ∉ subscribers o h) as Hno.
      { intros o Ho. destruct (hub_members _ Hok _ _ Ho) as (c' & Hc' & Eo & _).
        apply Hnot. by replace (c_orderID c) with o by congruence. }
      rewrite Hub_remove_stranger in Hr by done. by injection Hr as <-.
  - assert (∀ o, id ∉ subscribers o h) as Hno.
    { intros o Ho. destruct (hub_members _ Hok _ _ Ho) as (c & Hc' & _). congruence. }
    rewrite Hub_remove_stranger in Hr by done. by injection Hr as <-.
Qed.

Lemma notify_listed o payload range h b h' :
  hub_ok h → listed h → range ≡ₚ elements (subscribers o h) →
  deliver range payload false h = Ok (b, h') → is_Some (h_clients h) → hub_ok h' ∧ listed h'.
Proof.
  intros Hok Hl Hr Hd Hrun.
  destruct (deliver_spec range o payload false h Hok) as (h1 & Hd1 & Hok1 & _ & Hconn & Hsub).
  - rewrite Hr. apply NoDup_elements.
  - intros id. rewrite Hr. apply elem_of_elements.
  - done.
  - rewrite Hd in Hd1. injection Hd1 as _ ->. split; [done|]. intros _ j c. rewrite Hconn, Hsub.
    case_decide as Hj; [|intros Hc Hopen; split; [by apply Hl|done]].
    intros (c0 & Hc0 & ->)%fmap_Some. unfold served. destruct (room c0) eqn:Hroom; [|done].
    cbn. intros Hopen. split; [by apply Hl|]. intros _. unfold had_room. by rewrite Hc0.
Qed.

Lemma outer_listed e h b h' :
  hub_ok h → listed h → outer_event e → event_ok e h → hub_step e h = Ok (b, h') →
  hub_ok h' ∧ listed h' ∧ grows h h'.
Proof.
  intros Hok Hl Ho He. destruct e as [| |o payload range| | |id payload]; cbn in Ho; try done; cbn.
  - destruct (h_clients h) as [m|] eqn:Hm; [|by intros [= _ <-]]. intros Hd.
    enough (hub_ok h' ∧ listed h') as [? ?] by (split_and!; [done..|by eapply deliver_grows]).
    eapply notify_listed; [done..|]. by rewrite Hm.
  - destruct (h_clients h); [|done].
    destruct (Hub_done_ok h Hok) as (h1 & Hd & Hok1 & Hstop & _). rewrite Hd. intros [= _ <-].
    split_and!; [done| |by apply done_grows]. intros Hrun. rewrite Hstop in Hrun. by destruct Hrun.
  - destruct (send_or_default id payload h) as [[b1 h1]|p] eqn:Hs; [|done]. intros [= _ <-].
    pose proof (send_grows _ _ _ _ _ Hs) as Hg. revert Hs. unfold send_or_default.
    destruct (h_conns h !! id) as [c|] eqn:Hc; [|done]. destruct (c_closed c) eqn:Hcl; [done|].
    destruct (_ <? _)%nat eqn:Hroom; intros [= _ <-]; [|done]. apply Nat.ltb_lt in Hroom.
    split_and!; [|by eapply listed_set_conn|done]. apply hub_ok_set_conn; [done| |].
    + cbn. rewrite length_app. cbn. lia.
    + intros o Hin. split; [|done]. destruct (hub_members _ Hok _ _ Hin) as (c' & Hc' & Eo & _).
      cbn. congruence.
Qed.

Lemma receive_listed id h :
  hub_ok h → listed h → hub_ok (receive id h) ∧ listed (receive id h).
Proof.
  intros Hok Hl. split.
  - by destruct (hub_step_ok (EvReceive id) h Hok I I) as (b & h' & [= _ <-] & ?).
  - unfold receive. destruct (h_conns h !! id) as [c|] eqn:Hc; [|done].
    by eapply listed_set_conn.
Qed.

(** ** The invariant of the sockets *)
Record live_ok (s : Live) : Prop := {
  lo_hub : hub_ok (lv_hub s);
  lo_listed : listed (lv_hub s);
  lo_pumps : ∀ id, lv_pumps s !! id = None ↔ h_conns (lv_hub s) !! id = None;
  lo_fresh : ∀ id, lv_pumps s !! id = None → lv_queued s id = [];
  lo_fifo : ∀ id p, lv_pumps s !! id = Some p →
    texts (pm_frames p) ++ buffer_of (lv_hub s) id = lv_queued s id;
  lo_close : ∀ id p, lv_pumps s !! id = Some p → CloseFrame ∈ pm_frames p →
    pm_returned p = true ∧ last (pm_frames p) = Some CloseFrame
    ∧ closed_in (lv_hub s) id ∧ buffer_of (lv_hub s) id = [];
  lo_gone : ∀ id p, lv_pumps s !! id = Some p → pm_gone p = true →
    pm_returned p = true ∧ (closed_in (lv_hub s) id ∨ h_clients (lv_hub s) = None);
}.

Lemma live_start_ok : live_ok live_start.
Proof.
  split; cbn; try done.
  apply NewHub_ok.
Qed.

(** A channel that was there is there, later. *)
Definition kept (h h' : Hub) (id : nat) : Prop :=
  ∀ c, h_conns h !! id = Some c → ∃ c', h_conns h' !! id = Some c' ∧ later c c'.

Lemma kept_same h h' id : h_conns h' !! id = h_conns h !! id → kept h h' id.
Proof. intros E c Hc. exists c. by rewrite E. Qed.

Lemma kept_closed h h' id : kept h h' id → closed_in h id → closed_in h' id.
Proof.
  intros Hk (c & Hc & Hcl). destruct (Hk c Hc) as (c' & Hc' & _ & _ & Hl).
  exists c'. split; [done|]. by rewrite (Hl Hcl).
Qed.

Lemma kept_buffer h h' id :
  kept h h' id → is_Some (h_conns h !! id) →
  (∃ more, buffer_of h' id = buffer_of h id ++ more)
  ∧ (closed_in h id → buffer_of h' id = buffer_of h id).
Proof.
  intros Hk [c Hc]. destruct (Hk c Hc) as (c' & Hc' & _ & Hb & Hl).
  unfold buffer_of. rewrite Hc, Hc'. split; [done|]. intros (d & Hd & Hcl).
  replace d with c in * by congruence. by rewrite (Hl Hcl).
Qed.

Lemma enqueued_more h h' q id more :
  buffer_of h' id = buffer_of h id ++ more → enqueued h h' q id = q id ++ more.
Proof. intros E. unfold enqueued. by rewrite E, drop_app_length. Qed.

(** What a pump may become in a step that is not its own select's. *)
Definition aside (h h' : Hub) (id : nat) (op : option Pump) (p' : Pump) : Prop :=
  match op with
  | None => p' = new_pump ∧ buffer_of h' id = []
  | Some p => pm_inputs p' = pm_inputs p
      ∧ (pm_gone p' = true → pm_gone p = true
           ∨ pm_returned p = true ∧ (closed_in h' id ∨ h_clients h' = None))
  end.

Lemma live_ok_aside h ps q h' ps' :
  live_ok (mkLive h ps q) → hub_ok h' → listed h' → (∀ id, kept h h' id) →
  (∀ id, ps' !! id = None ↔ h_conns h' !! id = None) →
  (h_clients h = None → h_clients h' = None) →
  (∀ id p', ps' !! id = Some p' → aside h h' id (ps !! id) p') →
  live_ok (mkLive h' ps' (enqueued h h' q)).
Proof.
  intros [_ _ Hpc Hfresh Hfifo Hclose Hgone] Hok Hl Hk Hpc' Hstop Hps.
  cbn [lv_hub lv_pumps lv_queued] in *.
  assert (∀ id, ps !! id = None → buffer_of h id = []) as Hempty.
  { intros id Hno%Hpc. unfold buffer_of. by rewrite Hno. }
  assert (∀ id, is_Some (ps !! id) → is_Some (h_conns h !! id)) as Hconn.
  { intros id Hs. apply not_eq_None_Some. intros E%Hpc. by rewrite E in Hs; destruct Hs. }
  split; cbn [lv_hub lv_pumps lv_queued]; [done..| | | |].
  - intros id Hno. assert (ps !! id = None) as Hold.
    { apply Hpc. destruct (h_conns h !! id) as [c|] eqn:Hc; [|done].
      destruct (Hk id c Hc) as (c' & Hc' & _). apply Hpc' in Hno. congruence. }
    apply Hpc' in Hno. unfold enqueued. rewrite (Hfresh id Hold), (Hempty id Hold).
    unfold buffer_of. by rewrite Hno.
  - intros id p' Hp'. specialize (Hps id p' Hp'). destruct (ps !! id) as [p|] eqn:Hp; cbn in Hps.
    + destruct Hps as [Ei _]. destruct (kept_buffer h h' id (Hk id)) as [[more Hm] _]; [eauto|].
      rewrite (enqueued_more _ _ _ _ more Hm), Hm, app_assoc. f_equal.
      unfold pm_frames. rewrite Ei. by apply Hfifo.
    + destruct Hps as [-> Hb]. unfold enqueued. by rewrite Hb, (Hfresh id Hp), (Hempty id Hp).
  - intros id p' Hp'. specialize (Hps id p' Hp'). destruct (ps !! id) as [p|] eqn:Hp; cbn in Hps.
    + destruct Hps as [Ei _]. unfold pm_frames, pm_returned. rewrite Ei. intros Hin.
      destruct (Hclose id p Hp Hin) as (Hr & Hlast & Hcl & Hb). split_and!; [done..| |].
      * eapply kept_closed; [apply Hk|done].
      * destruct (kept_buffer h h' id (Hk id)) as [_ Hsame]; [eauto|]. by rewrite Hsame.
    + destruct Hps as [-> _]. by intros []%not_elem_of_nil.
  - intros id p' Hp' Hg. specialize (Hps id p' Hp'). destruct (ps !! id) as [p|] eqn:Hp; cbn in Hps.
    + destruct Hps as [Ei Hg']. unfold pm_returned. rewrite Ei.
      destruct (Hg' Hg) as [Hg0|[Hr Hc]]; [|done].
      destruct (Hgone id p Hp Hg0) as [Hr [Hc|Hc]]; (split; [done|]).
      * left. eapply kept_closed; [apply Hk|done].
      * right. auto.
    + destruct Hps as [-> _]. done.
Qed.

(** A pump takes an input: its payload, if it is one, leaves the channel for the socket. *)
Lemma live_ok_input h ps q h' id p i :
  live_ok (mkLive h ps q) → ps !! id = Some p → pm_returned p = false →
  hub_ok h' → listed h' → h_clients h' = h_clients h →
  (∀ j, h_conns h' !! j = None ↔ h_conns h !! j = None) →
  (∀ j, closed_in h j → closed_in h' j) →
  (∀ j, j ≠ id → buffer_of h' j = buffer_of h j) →
  payload_of i ++ buffer_of h' id = buffer_of h id →
  (frame_of i = CloseFrame → ends i = true ∧ closed_in h' id ∧ buffer_of h' id = []) →
  live_ok (mkLive h' (<[id := pm_receives i p]> ps) q).
Proof.
  intros [_ _ Hpc Hfresh Hfifo Hclose Hgone] Hp Hr Hok Hl Hcs Hdom Hcl Hb Hi Hend.
  cbn [lv_hub lv_pumps lv_queued] in *. destruct (pm_receives_spec i p Hr) as [Hf Hr'].
  split; cbn [lv_hub lv_pumps lv_queued]; [done..| | | | |].
  - intros j. rewrite Hdom, <- Hpc. destruct (decide (j = id)) as [->|Hne].
    + by rewrite lookup_insert_eq, Hp.
    + by rewrite lookup_insert_ne.
  - intros j [Hne Hj]%lookup_insert_None. by apply Hfresh.
  - intros j p' [[<- <-]|[Hne Hj]]%lookup_insert_Some.
    + rewrite Hf, texts_app, texts_frame, <- app_assoc, Hi. by apply Hfifo.
    + rewrite Hb by done. by apply Hfifo.
  - intros j p' [[<- <-]|[Hne Hj]]%lookup_insert_Some.
    + rewrite Hf, Hr'. intros [Hin|Hin%list_elem_of_singleton]%elem_of_app.
      { destruct (Hclose id p Hp Hin) as [E _]. congruence. }
      destruct (Hend (eq_sym Hin)) as (? & ? & ?). rewrite last_snoc, Hin. done.
    + intros Hin. rewrite Hb by done. destruct (Hclose j p' Hj Hin) as (? & ? & ? & ?). auto.
  - intros j p' [[<- <-]|[Hne Hj]]%lookup_insert_Some Hg.
    + destruct (Hgone id p Hp Hg) as [E _]. congruence.
    + rewrite Hcs. destruct (Hgone j p' Hj Hg) as [? [?|?]]; auto.
Qed.

Lemma receive_conns id c h :
  h_conns h !! id = Some c →
  h_conns (receive id h)
  = <[id := mkClient (c_orderID c) (tail (c_buffer c)) (c_closed c)]> (h_conns h)
  ∧ h_clients (receive id h) = h_clients h.
Proof. intros Hc. unfold receive. by rewrite Hc. Qed.

Lemma live_ok_receive h ps q id p written i :
  live_ok (mkLive h ps q) → ps !! id = Some p → pm_returned p = false →
  offered h id written = Some i →
  live_ok (mkLive (receive id h) (<[id := pm_receives i p]> ps) q).
Proof.
  intros Hok Hp Hr Ho. unfold offered in Ho.
  destruct (h_conns h !! id) as [c|] eqn:Hc; [|done].
  destruct (receive_conns id c h Hc) as [Hconns Hcs].
  destruct (receive_listed id h (lo_hub _ Hok) (lo_listed _ Hok)) as [Hok' Hl'].
  assert (∀ j, j ≠ id → h_conns (receive id h) !! j = h_conns h !! j) as Hother
    by (intros j Hne; by rewrite Hconns, lookup_insert_ne).
  assert (closed_in h id → closed_in (receive id h) id) as Hkeep.
  { intros (d & Hd & Hcl). eexists. rewrite Hconns, lookup_insert_eq. split; [done|].
    cbn. congruence. }
  assert (buffer_of (receive id h) id = tail (c_buffer c)) as Hb'
    by (unfold buffer_of; by rewrite Hconns, lookup_insert_eq).
  assert (buffer_of h id = c_buffer c) as Hb by (unfold buffer_of; by rewrite Hc).
  apply (live_ok_input h ps q (receive id h) id p i); try done.
  - intros j. destruct (decide (j = id)) as [->|Hne]; [|by rewrite Hother].
    by rewrite Hconns, lookup_insert_eq, Hc.
  - intros j. destruct (decide (j = id)) as [->|Hne]; [done|].
    unfold closed_in. by rewrite Hother.
  - intros j Hne. unfold buffer_of. by rewrite Hother.
  - rewrite Hb, Hb'. destruct (c_buffer c) as [|payload rest]; [|by injection Ho as <-].
    destruct (c_closed c); [|done]. by injection Ho as <-.
  - intros E. rewrite Hb'. destruct (c_buffer c) as [|payload rest]; [|by injection Ho as <-].
    destruct (c_closed c) eqn:Hcl; [|done]. injection Ho as <-. split_and!; [done| |done].
    apply Hkeep. by exists c.
Qed.

Lemma grows_dom h h' j : grows h h' → h_conns h' !! j = None ↔ h_conns h !! j = None.
Proof.
  intros [Hk Hn]. split; [|apply Hn]. intros Hj. destruct (h_conns h !! j) as [c|] eqn:Hc; [|done].
  destruct (Hk j c Hc) as (c' & Hc' & _). congruence.
Qed.

(** A stopped hub stays stopped. *)
Lemma hub_stays_stopped e h b h' :
  h_clients h = None → hub_step e h = Ok (b, h') → h_clients h' = None.
Proof. intros E Hs. apply (hub_step_running e h b h' Hs). by left. Qed.

Lemma unregistered_closed id h b h' :
  hub_ok h → listed h → hub_step (EvUnregister id) h = Ok (b, h') → is_Some (h_conns h !! id) →
  closed_in h' id ∨ h_clients h' = None.
Proof.
  cbn. intros Hok Hl Hs Hc. destruct (Hub_remove id h) as [h1|] eqn:Hr; [|done].
  injection Hs as _ <-. pose proof (remove_grows _ _ _ Hr) as [Hk _].
  destruct (remove_listed id h h1 Hok Hl Hr) as (_ & Hl1 & Hno).
  destruct (h_clients h1) as [m|] eqn:Hm; [left|by right].
  destruct Hc as [c Hc]. destruct (Hk id c Hc) as (c1 & Hc1 & _). exists c1. split; [done|].
  destruct (c_closed c1) eqn:Hcl; [done|]. destruct (Hno (c_orderID c1)).
  apply Hl1; [by rewrite Hm|done..].
Qed.

Lemma live_step_ok s s' : live_ok s → live_step s s' → live_ok s'.
Proof.
  intros Hok Hst. pose proof (lo_hub _ Hok) as Hhub. pose proof (lo_listed _ Hok) as Hlist.
  pose proof (lo_pumps _ Hok) as Hpc.
  destruct Hst as [h ps q id orderID b h' Hno Hs|h ps q e b h' Ho He Hs
    |h ps q id p written i Hp Hr Hof|h ps q id p written Hp Hr|h ps q id p b h' Hp Hr Hg Hs];
    cbn [lv_hub lv_pumps lv_queued] in *.
  - destruct (connect_listed id orderID h b h' Hhub Hlist Hno Hs) as (Hok' & Hl' & Hconns).
    apply (live_ok_aside h ps); try done.
    + intros j c Hc. rewrite Hconns, lookup_insert_ne by congruence. by exists c.
    + intros j. rewrite Hconns, !lookup_insert_None, Hpc. done.
    + intros E. by apply (hub_stays_stopped (EvConnect id orderID) h b).
    + intros j p' [[<- <-]|[Hne Hj]]%lookup_insert_Some.
      * unfold aside. rewrite (proj2 (Hpc id) Hno). split; [done|]. unfold buffer_of.
        by rewrite Hconns, lookup_insert_eq.
      * unfold aside. rewrite Hj. auto.
  - destruct (outer_listed e h b h' Hhub Hlist Ho He Hs) as (Hok' & Hl' & Hg).
    apply (live_ok_aside h ps); try done.
    + exact (grows_kept _ _ Hg).
    + intros j. by rewrite (grows_dom h h' j Hg), Hpc.
    + intros E. by apply (hub_stays_stopped e h b).
    + intros j p' Hj. unfold aside. rewrite Hj. auto.
  - by eapply live_ok_receive.
  - apply (live_ok_input h ps q h id p (PumpTick written)); done.
  - assert (is_Some (h_conns h !! id)) as Hconn.
    { apply not_eq_None_Some. intros E%Hpc. congruence. }
    pose proof (unregistered_closed id h b h' Hhub Hlist Hs Hconn) as Hend.
    pose proof Hs as Hs0. cbn in Hs. destruct (Hub_remove id h) as [h1|] eqn:Hrm; [|done].
    injection Hs as _ <-. destruct (remove_listed id h h1 Hhub Hlist Hrm) as (Hok' & Hl' & _).
    apply remove_grows in Hrm. apply (live_ok_aside h ps); try done.
    + exact (grows_kept _ _ Hrm).
    + intros j. rewrite lookup_insert_None, (grows_dom h h1 j Hrm), <- Hpc.
      split; [by intros []|]. intros Hj. split; [done|congruence].
    + intros E. by apply (hub_stays_stopped (EvUnregister id) h b).
    + intros j p' [[<- <-]|[Hne Hj]]%lookup_insert_Some; unfold aside; [rewrite Hp|rewrite Hj];
        auto.
Qed.

Lemma live_steps_ok s s' : live_ok s → rtc live_step s s' → live_ok s'.
Proof. intros Hok Hst. induction Hst; [done|]. eauto using live_step_ok. Qed.

(** C22. A socket is sent what was queued for its client, in order: in every interleaving of
    the hub's loop, the pumps and the replays, the messages written to a connection, followed
    by what its channel still holds, are exactly the messages ever queued for it, none lost,
    doubled or swapped; at most [sendBuffer] wait; and the close frame is written last, after
    everything that was queued. *)
Theorem socket_in_order s id p :
  rtc live_step live_start s → lv_pumps s !! id = Some p →
  texts (pm_frames p) ++ buffer_of (lv_hub s) id = lv_queued s id
  ∧ (length (buffer_of (lv_hub s) id) ≤ sendBuffer)%nat
  ∧ (CloseFrame ∈ pm_frames p →
       texts (pm_frames p) = lv_queued s id ∧ last (pm_frames p) = Some CloseFrame).
Proof.
  intros Hst Hp. pose proof (live_steps_ok _ _ live_start_ok Hst) as Hok.
  pose proof (lo_fifo _ Hok id p Hp) as Hf. split_and!; [done| |].
  - unfold buffer_of. destruct (h_conns _ !! id) as [c|] eqn:Hc; [|cbn; lia].
    by apply (hub_bounded _ (lo_hub _ Hok) id).
  - intros Hin. destruct (lo_close _ Hok id p Hp Hin) as (_ & Hl & _ & Hb).
    by rewrite Hb, app_nil_r in Hf.
Qed.

(** What the pump of a closed client has left to do: drain, write the close frame, leave. *)
Definition todo (s : Live) (id : nat) : nat :=
  match lv_pumps s !! id with
  | None => 0
  | Some p =>
      if pm_gone p then 0
      else if pm_returned p then 1
      else 2 + length (buffer_of (lv_hub s) id)
  end.

(** An input that its select can get leaves it less to do. *)
Lemma receive_todo h ps q id p written i :
  ps !! id = Some p → pm_returned p = false → pm_gone p = false → closed_in h id →
  offered h id written = Some i →
  (todo (mkLive (receive id h) (<[id := pm_receives i p]> ps) q) id < todo (mkLive h ps q) id)%nat.
Proof.
  intros Hp Hr Hg (c & Hc & Hcl) Hi. unfold todo. cbn [lv_hub lv_pumps].
  rewrite Hp, Hr, Hg, lookup_insert_eq. cbn [pm_gone pm_receives]. rewrite Hg.
  destruct (pm_returned (pm_receives i p)) eqn:Hr'; [lia|].
  destruct (pm_receives_spec i p Hr) as [_ E]. rewrite Hr' in E.
  unfold buffer_of. destruct (receive_conns id c h Hc) as [Hconns _].
  rewrite Hc, Hconns, lookup_insert_eq. cbn [c_buffer]. unfold offered in Hi.
  rewrite Hc, Hcl in Hi. destruct (c_buffer c) as [|payload rest]; [by injection Hi as <-|cbn; lia].
Qed.

(** One more move of that pump. *)
Lemma closed_moves s id p :
  live_ok s → lv_pumps s !! id = Some p → closed_in (lv_hub s) id → pm_gone p = false →
  ∃ s' p', live_step s s' ∧ lv_pumps s' = <[id := p']> (lv_pumps s)
    ∧ (todo s' id < todo s id)%nat.
Proof.
  intros Hok Hp Hcl Hg. destruct s as [h ps q]. cbn [lv_hub lv_pumps] in *.
  destruct (pm_returned p) eqn:Hr.
  - destruct (Hub_remove_ok h id (lo_hub _ Hok)) as (h' & Hrm & _).
    assert (hub_step (EvUnregister id) h = Ok (false, h')) as Hs by (cbn; by rewrite Hrm).
    eexists _, _. split; [by eapply live_leave|]. split; [done|].
    unfold todo. cbn [lv_pumps]. rewrite Hp, Hg, Hr, lookup_insert_eq. cbn. lia.
  - assert (∃ i, offered h id true = Some i) as [i Hi].
    { destruct Hcl as (c & Hc & Hcl). unfold offered. rewrite Hc, Hcl. destruct (c_buffer c); eauto. }
    eexists _, _. split; [by eapply live_receive|]. split; [done|]. by eapply receive_todo.
Qed.

(** Nobody else's move adds to it. *)
Lemma todo_aside h ps q h' ps' q' id :
  ps' !! id = ps !! id → closed_in h id → kept h h' id →
  closed_in h' id ∧ (todo (mkLive h' ps' q') id ≤ todo (mkLive h ps q) id)%nat.
Proof.
  intros E Hcl Hk. split; [by eapply kept_closed|]. unfold todo. cbn. rewrite E.
  pose proof Hcl as (c & Hc & _). destruct (kept_buffer h h' id Hk) as [_ Hb]; [eauto|].
  by rewrite Hb.
Qed.

Lemma todo_receive h ps q j p written i id :
  live_ok (mkLive h ps q) → ps !! j = Some p → pm_returned p = false →
  offered h j written = Some i → closed_in h id →
  let s' := mkLive (receive j h) (<[j := pm_receives i p]> ps) q in
  closed_in (lv_hub s') id ∧ (todo s' id ≤ todo (mkLive h ps q) id)%nat.
Proof.
  intros Hok Hp Hr Hof Hcl s'. destruct (decide (j = id)) as [->|Hne].
  - pose proof Hcl as (c & Hc & Ec). split.
    + destruct (receive_conns id c h Hc) as [Hconns _]. cbn. eexists.
      rewrite Hconns, lookup_insert_eq. split; [done|]. exact Ec.
    + destruct (pm_gone p) eqn:Hg.
      * destruct (lo_gone _ Hok id p Hp Hg) as [E _]. congruence.
      * apply Nat.lt_le_incl. by eapply receive_todo.
  - apply todo_aside; [by rewrite lookup_insert_ne|done|]. apply kept_same. unfold receive.
    destruct (h_conns h !! j); [|done]. cbn. by rewrite lookup_insert_ne.
Qed.

Lemma todo_step s s' id :
  live_ok s → closed_in (lv_hub s) id → live_step s s' →
  closed_in (lv_hub s') id ∧ (todo s' id ≤ todo s id)%nat.
Proof.
  intros Hok Hcl Hst. pose proof (lo_hub _ Hok) as Hhub. pose proof (lo_listed _ Hok) as Hlist.
  destruct Hst as [h ps q j orderID b h' Hno Hs|h ps q e b h' Ho He Hs
    |h ps q j p written i Hp Hr Hof|h ps q j p written Hp Hr|h ps q j p b h' Hp Hr Hg Hs];
    cbn [lv_hub] in *.
  - destruct (connect_listed j orderID h b h' Hhub Hlist Hno Hs) as (_ & _ & Hconns).
    assert (j ≠ id) by (intros ->; destruct Hcl as (c & ? & _); congruence).
    apply todo_aside; [by rewrite lookup_insert_ne|done|]. apply kept_same.
    by rewrite Hconns, lookup_insert_ne.
  - destruct (outer_listed e h b h' Hhub Hlist Ho He Hs) as (_ & _ & Hg).
    apply todo_aside; [done..|exact (grows_kept _ _ Hg id)].
  - by eapply todo_receive.
  - destruct (decide (j = id)) as [->|Hne].
    + split; [done|]. unfold todo. cbn. rewrite lookup_insert_eq, Hp. cbn.
      destruct (pm_gone p); [done|]. rewrite Hr. destruct (pm_returned (pm_receives (PumpTick written) p)); lia.
    + apply todo_aside; [by rewrite lookup_insert_ne|done|by apply kept_same].
  - cbn in Hs. destruct (Hub_remove j h) as [h1|] eqn:Hrm; [|done]. injection Hs as _ <-.
    apply remove_grows in Hrm as [Hk _]. destruct (decide (j = id)) as [->|Hne].
    + split; [exact (kept_closed h h1 id (Hk id) Hcl)|].
      unfold todo. cbn. rewrite lookup_insert_eq. cbn. lia.
    + apply todo_aside; [by rewrite lookup_insert_ne|done|exact (Hk id)].
Qed.

(** C23. No socket leaks. While the hub runs, it lists exactly the clients whose channel is
    open, and a client it has closed (as slow, unregistered, or at the stop) unwinds: its
    pump's own moves, at most [sendBuffer + 2] of them besides pings, are always possible,
    nothing that anybody does sets it back, and when none is left the client has been
    unregistered and the connection closed. *)
Theorem closed_client_unwinds s id p :
  rtc live_step live_start s → lv_pumps s !! id = Some p →
  (is_Some (h_clients (lv_hub s)) →
     closed_in (lv_hub s) id ↔ ∀ o, id ∉ subscribers o (lv_hub s))
  ∧ (closed_in (lv_hub s) id →
       (todo s id ≤ sendBuffer + 2)%nat
       ∧ (todo s id = O ↔ pm_gone p = true)
       ∧ (pm_gone p = false → ∃ s' p', live_step s s' ∧ lv_pumps s' = <[id := p']> (lv_pumps s)
            ∧ (todo s' id < todo s id)%nat)
       ∧ ∀ s', live_step s s' → closed_in (lv_hub s') id ∧ (todo s' id ≤ todo s id)%nat).
Proof.
  intros Hst Hp. pose proof (live_steps_ok _ _ live_start_ok Hst) as Hok.
  assert (is_Some (h_conns (lv_hub s) !! id)) as [c Hc].
  { apply not_eq_None_Some. rewrite <- (lo_pumps _ Hok). congruence. }
  split.
  - intros Hrun. split.
    + intros (d & Hd & Hcl) o Hin. destruct (hub_members _ (lo_hub _ Hok) _ _ Hin)
        as (d' & Hd' & _ & Hopen). congruence.
    + intros Hno. exists c. split; [done|]. destruct (c_closed c) eqn:Hcl; [done|].
      destruct (Hno (c_orderID c)). by apply (lo_listed _ Hok Hrun).
  - intros Hcl. split_and!.
    + unfold todo. rewrite Hp. destruct (pm_gone p), (pm_returned p); try lia.
      unfold buffer_of. rewrite Hc. pose proof (hub_bounded _ (lo_hub _ Hok) id c Hc). lia.
    + unfold todo. rewrite Hp. destruct (pm_gone p), (pm_returned p); done.
    + intros Hg. by eapply closed_moves.
    + intros s' Hs. by apply (todo_step s s' id).
Qed.

(** A client that comes after the stop is registered with nobody: its channel is never
    closed, whatever happens, and its pump ends only when a write fails. *)
Definition stranded (id : nat) (s : Live) : Prop :=
  h_clients (lv_hub s) = None
  ∧ ∃ c, h_conns (lv_hub s) !! id = Some c ∧ c_closed c = false.

Lemma stopped_conns e h b h' id c :
  h_clients h = None → hub_step e h = Ok (b, h') → (∀ j o, e = EvConnect j o → j ≠ id) →
  h_conns h !! id = Some c → c_closed c = false →
  ∃ c', h_conns h' !! id = Some c' ∧ c_closed c' = false.
Proof.
  intros E Hs Hid Hc Hopen. destruct e as [j o|j|o payload range|j| |j payload]; cbn in Hs.
  - specialize (Hid j o eq_refl). unfold Hub_register in Hs. cbn in Hs. rewrite E in Hs.
    injection Hs as _ <-. cbn. rewrite lookup_insert_ne by done. eauto.
  - unfold Hub_remove in Hs. rewrite E in Hs. injection Hs as _ <-. eauto.
  - rewrite E in Hs. injection Hs as _ <-. eauto.
  - injection Hs as _ <-. unfold receive. destruct (h_conns h !! j) as [d|] eqn:Hd; [|eauto].
    cbn. destruct (decide (j = id)) as [->|Hne]; [|rewrite lookup_insert_ne by done; eauto].
    rewrite lookup_insert_eq. eexists. split; [done|]. cbn. congruence.
  - by rewrite E in Hs.
  - unfold send_or_default in Hs. destruct (h_conns h !! j) as [d|] eqn:Hd; [|done].
    destruct (c_closed d) eqn:Hcl; [done|]. destruct (_ <? _)%nat; injection Hs as _ <-; [|eauto].
    cbn. destruct (decide (j = id)) as [->|Hne]; [|rewrite lookup_insert_ne by done; eauto].
    rewrite lookup_insert_eq. by eexists.
Qed.

Lemma late_client_never_closed s s' id : stranded id s → rtc live_step s s' → stranded id s'.
Proof.
  intros Hs Hst. induction Hst as [s|s1 s2 s3 Hst _ IH]; [done|]. apply IH. clear IH.
  destruct Hs as (E & c & Hc & Hopen).
  destruct Hst as [h ps q j orderID b h' Hno Hs|h ps q e b h' Ho He Hs
    |h ps q j p written i Hp Hr Hof|h ps q j p written Hp Hr|h ps q j p b h' Hp Hr Hg Hs];
    unfold stranded; cbn [lv_hub] in *.
  1, 2, 5: split; [by eapply hub_stays_stopped|]; eapply stopped_conns; [done..| |done|done].
  - intros k o [= -> ->] ->. congruence.
  - intros k o ->. done.
  - done.
  - split; [by apply (hub_stays_stopped (EvReceive j) h false)|].
    by apply (stopped_conns (EvReceive j) h false _ id c).
  - eauto.
Qed.

(** ** A concrete run: a replay, a notification and the stop cross each other *)
Definition demo_turns : list live_turn :=
  [LConnect 1 7; LConnect 2 7; LSend 1 "replayed"; LNotify 7 "confirmed"; LReceive 1 true;
   LReceive 2 false; LTick 1 true; LSend 1 "late"; LStop; LReceive 1 true].
Definition demo_live : Live := live_plays demo_turns live_start.
(** ... and what the first client's pump still does, the second having lost its peer. *)
Definition demo_unwound : Live :=
  live_plays [LLeave 2; LReceive 1 true; LReceive 1 true; LLeave 1] demo_live.

Definition pump_at (id : nat) (s : Live) : Pump := default new_pump (lv_pumps s !! id).

Lemma demo_unwound_frames :
  pm_frames (pump_at 1 demo_unwound)
  = [TextFrame "replayed"; PingFrame; TextFrame "confirmed"; TextFrame "late"; CloseFrame].
Proof. evaluate. Qed.

Lemma socket_in_order_witness :
  lv_queued demo_unwound 1 = ["replayed"; "confirmed"; "late"]%string
  ∧ texts (pm_frames (pump_at 1 demo_unwound)) = lv_queued demo_unwound 1.
Proof.
  split; [evaluate|].
  refine (proj1 (proj2 (proj2 (socket_in_order demo_unwound 1 (pump_at 1 demo_unwound) _ _)) _)).
  - exact (transitivity (live_plays_steps _ _) (live_plays_steps _ _)).
  - evaluate.
  - rewrite demo_unwound_frames. do 4 right. left.
Defined.

Lemma closed_client_unwinds_witness :
  todo demo_live 1 = 3%nat
  ∧ ∀ s', live_step demo_live s' → closed_in (lv_hub s') 1 ∧ (todo s' 1 ≤ todo demo_live 1)%nat.
Proof.
  split; [evaluate|].
  refine (proj2 (proj2 (proj2 (proj2 (closed_client_unwinds demo_live 1 (pump_at 1 demo_live)
    (live_plays_steps _ _) _) _)))).
  - evaluate.
  - eexists. split; evaluate.
Defined.
