(* ===== verification/Pool.v ===== *)
(** * The worker pool ([internal/workers/pool.go])

    A bounded channel of order ids, [Count] workers that range over it, and [Stop], which
    closes the intake and then the channel and waits. The goroutines' steps interleave
    freely; [select] picks any ready case, and a send case on a closed channel is ready:
    choosing it panics. *)

From Stdlib Require Import ZArith Lia.
From stdpp Require Import base tactics list relations.
From S2P Require Import Prelude GoStd Config Hub.

Open Scope Z_scope.

(** A worker in its range loop: waiting, inside [Fulfill], or returned. *)
Inductive PWorker : Type := Waiting | Fulfilling (orderID : Z) | Exited.
#[export] Instance PWorker_eq_dec : EqDecision PWorker.
Proof. solve_decision. Defined.

Record Pool : Type := mkPool {
  p_cap : Z;                (* the channel's capacity *)
  p_jobs : list Z;          (* its buffer *)
  p_closed : bool;          (* close(p.jobs) *)
  p_quit : bool;            (* close(p.quit) *)
  p_workers : list PWorker;
  p_accepted : list Z;      (* ids [Process] put in the queue, latest last *)
  p_done : list Z;          (* ids whose [Fulfill] returned *)
}.

(** [NewPool] then [Start]. *)
Definition NewPool (cfg : WorkerConfig) : go Pool :=
  if QueueSize cfg <? 0 then Err MakeChanSize
  else Ok (mkPool (QueueSize cfg) [] false false [] [] []).
Definition Pool_Start (cfg : WorkerConfig) (p : Pool) : Pool :=
  mkPool (p_cap p) (p_jobs p) (p_closed p) (p_quit p)
    (p_workers p ++ replicate (Z.to_nat (Count_ cfg)) Waiting) (p_accepted p) (p_done p).

Definition set_jobs (jobs : list Z) (p : Pool) : Pool :=
  mkPool (p_cap p) jobs (p_closed p) (p_quit p) (p_workers p) (p_accepted p) (p_done p).
Definition set_pworkers (ws : list PWorker) (p : Pool) : Pool :=
  mkPool (p_cap p) (p_jobs p) (p_closed p) (p_quit p) ws (p_accepted p) (p_done p).
Definition accept (orderID : Z) (p : Pool) : Pool :=
  mkPool (p_cap p) (p_jobs p) (p_closed p) (p_quit p) (p_workers p)
    (p_accepted p ++ [orderID]) (p_done p).
Definition finish (orderID : Z) (p : Pool) : Pool :=
  mkPool (p_cap p) (p_jobs p) (p_closed p) (p_quit p) (p_workers p) (p_accepted p)
    (p_done p ++ [orderID]).

(** What a call of [Process] can do. *)
Inductive Pool_Process (orderID : Z) (p : Pool) : go Pool → Prop :=
(** the send, into the buffer *)
| process_buffered :
    p_closed p = false → Z.of_nat (length (p_jobs p)) < p_cap p →
    Pool_Process orderID p (Ok (accept orderID (set_jobs (p_jobs p ++ [orderID]) p)))
(** the send, to a worker blocked on an empty channel *)
| process_handed i :
    p_closed p = false → p_jobs p = [] → p_workers p !! i = Some Waiting →
    Pool_Process orderID p
      (Ok (accept orderID (set_pworkers (<[i := Fulfilling orderID]> (p_workers p)) p)))
(** the send, on a closed channel *)
| process_panics : p_closed p = true → Pool_Process orderID p (Err SendOnClosed)
(** [case <-p.quit] *)
| process_stopping : p_quit p = true → Pool_Process orderID p (Ok p)
(** [default]: no case was ready *)
| process_full :
    p_closed p = false → p_quit p = false → p_cap p ≤ Z.of_nat (length (p_jobs p)) →
    Pool_Process orderID p (Ok p).

(** A step of a worker. *)
Inductive work_step (p : Pool) : Pool → Prop :=
| work_take i orderID jobs :
    p_workers p !! i = Some Waiting → p_jobs p = orderID :: jobs →
    work_step p (set_jobs jobs (set_pworkers (<[i := Fulfilling orderID]> (p_workers p)) p))
| work_finish i orderID :
    p_workers p !! i = Some (Fulfilling orderID) →
    work_step p (finish orderID (set_pworkers (<[i := Waiting]> (p_workers p)) p))
| work_exit i :
    p_workers p !! i = Some Waiting → p_jobs p = [] → p_closed p = true →
    work_step p (set_pworkers (<[i := Exited]> (p_workers p)) p).

(** [Stop], up to the [Wait]: two closes, each its own step. *)
Definition close_quit (p : Pool) : Pool :=
  mkPool (p_cap p) (p_jobs p) (p_closed p) true (p_workers p) (p_accepted p) (p_done p).
Definition close_jobs (p : Pool) : Pool :=
  mkPool (p_cap p) (p_jobs p) true (p_quit p) (p_workers p) (p_accepted p) (p_done p).

(** [p.wg.Wait()] returns. *)
Definition all_exited (p : Pool) : Prop := Forall (λ w, w = Exited) (p_workers p).

Inductive pool_step (p : Pool) : Pool → Prop :=
| pool_process orderID p' : Pool_Process orderID p (Ok p') → pool_step p p'
| pool_work p' : work_step p p' → pool_step p p'
| pool_quit : p_quit p = false → pool_step p (close_quit p)
| pool_close : p_quit p = true → p_closed p = false → pool_step p (close_jobs p).

(** ** The invariant *)
Definition in_hand (ws : list PWorker) : list Z :=
  omap (λ w, match w with Fulfilling id => Some id | _ => None end) ws.

Record pool_ok (p : Pool) : Prop := {
  (** every accepted id is queued, in hand or done, and only once *)
  pool_accounts : p_accepted p ≡ₚ p_jobs p ++ in_hand (p_workers p) ++ p_done p;
  pool_bounded : Z.of_nat (length (p_jobs p)) ≤ Z.max 0 (p_cap p);
  pool_order : p_closed p = true → p_quit p = true;
  (** a worker leaves only when nothing can be queued any more *)
  pool_exits : Exited ∈ p_workers p → p_closed p = true ∧ p_jobs p = [];
}.

(** ** Lemmas *)
Lemma in_hand_insert ws i w w' :
  ws !! i = Some w →
  in_hand [w] ++ in_hand (<[i := w']> ws) ≡ₚ in_hand [w'] ++ in_hand ws.
Proof.
  revert i. induction ws as [|v ws IH]; intros [|i]; try done.
  - cbn. intros [= ->]. destruct w, w'; cbn; try done. constructor.
  - intros Hi. specialize (IH i Hi). cbn [list_insert insert].
    change (in_hand [w] ++ in_hand ([v] ++ <[i:=w']> ws) ≡ₚ in_hand [w'] ++ in_hand ([v] ++ ws)).
    assert (∀ l, in_hand ([v] ++ l) = in_hand [v] ++ in_hand l) as Happ by (by destruct v).
    rewrite !Happ, !(assoc (++)), !(comm (++) _ (in_hand [v])), <- !(assoc (++)).
    by rewrite IH.
Qed.

Lemma elem_of_insert_worker w i w' (ws : list PWorker) :
  w ∈ <[i := w']> ws → w = w' ∨ w ∈ ws.
Proof.
  intros (j & Hj)%list_elem_of_lookup. destruct (decide (i = j)) as [->|Hne].
  - destruct (decide (j < length ws)%nat) as [Hlt|Hge].
    + rewrite list_lookup_insert_eq in Hj by done. left. congruence.
    + rewrite list_insert_ge in Hj by lia. right. by eapply list_elem_of_lookup_2.
  - rewrite list_lookup_insert_ne in Hj by done. right. by eapply list_elem_of_lookup_2.
Qed.

Lemma NewPool_inv cfg p :
  NewPool cfg = Ok p → 0 ≤ QueueSize cfg ∧ p = mkPool (QueueSize cfg) [] false false [] [] [].
Proof. unfold NewPool. destruct (Z.ltb_spec (QueueSize cfg) 0); [done|]. by intros [= <-]. Qed.

Lemma NewPool_ok cfg p : NewPool cfg = Ok p → pool_ok (Pool_Start cfg p).
Proof.
  intros [_ ->]%NewPool_inv. split; cbn; [|lia|done|].
  - induction (Z.to_nat (Count_ cfg)); cbn; [done|]. assumption.
  - by intros [[=] _]%elem_of_replicate.
Qed.
