(* ===== verification/PoolSpec.v ===== *)
(** * Properties of the worker pool *)

From Stdlib Require Import ZArith Lia.
From stdpp Require Import base tactics list relations.
From S2P Require Import Prelude GoStd Config Hub Pool.

Open Scope Z_scope.

Lemma process_ok p orderID p' :
  pool_ok p → Pool_Process orderID p (Ok p') →
  pool_ok p' ∧ length (p_workers p') = length (p_workers p).
Proof.
  intros [Hacc Hb Ho He] Hp. inversion Hp as [Hc Hr|i Hc Hj Hw| | |]; subst;
    try (split; [by split|done]).
  - split; [|done]. split; cbn; [|rewrite length_app; cbn; lia|done|].
    + rewrite Hacc. solve_Permutation.
    + intros Hex. destruct (He Hex). congruence.
  - split; [|by cbn; rewrite length_insert].
    pose proof (in_hand_insert _ _ _ (Fulfilling orderID) Hw) as Hins. cbn in Hins.
    split; cbn; [|done|done|].
    + rewrite Hacc, Hj, Hins. solve_Permutation.
    + intros Hex. apply elem_of_insert_worker in Hex as [[=]|Hex]. destruct (He Hex). congruence.
Qed.

Lemma work_ok p p' :
  pool_ok p → work_step p p' → pool_ok p' ∧ length (p_workers p') = length (p_workers p).
Proof.
  intros [Hacc Hb Ho He] Hw.
  destruct Hw as [i orderID jobs Hi Hj|i orderID Hi|i Hi Hj Hc];
    (split; [|by cbn; rewrite length_insert]).
  - pose proof (in_hand_insert _ _ _ (Fulfilling orderID) Hi) as Hins. cbn in Hins.
    split; cbn; [|rewrite Hj in Hb; cbn in Hb; lia|done|].
    + rewrite Hacc, Hj, Hins. solve_Permutation.
    + intros Hex. apply elem_of_insert_worker in Hex as [[=]|Hex]. destruct (He Hex). congruence.
  - pose proof (in_hand_insert _ _ _ Waiting Hi) as Hins. cbn in Hins.
    split; cbn; [|done|done|].
    + rewrite Hacc, <- Hins. solve_Permutation.
    + intros Hex. apply elem_of_insert_worker in Hex as [[=]|Hex]. auto.
  - pose proof (in_hand_insert _ _ _ Exited Hi) as Hins. cbn in Hins.
    split; cbn; [|done|done|auto]. by rewrite Hacc, Hins.
Qed.

Lemma pool_step_ok p p' :
  pool_ok p → pool_step p p' → pool_ok p' ∧ length (p_workers p') = length (p_workers p).
Proof.
  intros Hok Hst. destruct Hst as [orderID p' Hp|p' Hw|Hq|Hq Hc].
  - by eapply process_ok.
  - by apply work_ok.
  - split; [|done]. destruct Hok. by split.
  - split; [|done]. destruct Hok as [Hacc Hb Ho He]. split; cbn; auto.
    intros Hex. split; [done|]. by apply He.
Qed.

Lemma pool_steps_ok p p' :
  pool_ok p → rtc pool_step p p' → pool_ok p' ∧ length (p_workers p') = length (p_workers p).
Proof.
  intros Hok Hst. induction Hst as [|p1 p2 p3 Hst _ IH]; [done|].
  destruct (pool_step_ok _ _ Hok Hst) as [Hok2 <-]. by apply IH.
Qed.

Definition worker_weight (w : PWorker) : nat :=
  match w with Waiting => 1 | Fulfilling _ => 2 | Exited => 0 end.
Definition pool_measure (p : Pool) : nat :=
  (2 * length (p_jobs p) + sum_list_with worker_weight (p_workers p))%nat.

Lemma weight_insert ws i w w' :
  ws !! i = Some w →
  (worker_weight w + sum_list_with worker_weight (<[i := w']> ws)
   = worker_weight w' + sum_list_with worker_weight ws)%nat.
Proof.
  revert i. induction ws as [|v ws IH]; intros [|i]; try done.
  - intros [= ->]. cbn. lia.
  - intros Hi. specialize (IH i Hi).
    change (<[S i:=w']> (v :: ws)) with (v :: <[i:=w']> ws). cbn [sum_list_with]. lia.
Qed.

(** C24. Exactly once: in every run of the pool, an id that [Process] accepted is queued,
    in a worker's hands or fulfilled, in exactly one of these, the queue never exceeds its
    capacity, and when [Stop] returns every accepted id has been fulfilled once. *)
Theorem pool_exactly_once cfg p0 p :
  NewPool cfg = Ok p0 → rtc pool_step (Pool_Start cfg p0) p →
  p_accepted p ≡ₚ p_jobs p ++ in_hand (p_workers p) ++ p_done p
  ∧ Z.of_nat (length (p_jobs p)) ≤ QueueSize cfg
  ∧ (0 < Count_ cfg → all_exited p → p_done p ≡ₚ p_accepted p).
Proof.
  intros Hnew Hst. pose proof (NewPool_inv _ _ Hnew) as [Hsize E0].
  assert (p_cap p = QueueSize cfg) as Hcap.
  { assert (p_cap (Pool_Start cfg p0) = QueueSize cfg) as Hcap0 by by rewrite E0.
    clear E0 Hnew. induction Hst as [|p1 p2 p3 Hs _ IH]; [done|]. apply IH.
    destruct Hs as [oid ? Hp|? Hw| |]; [inversion Hp; subst|destruct Hw|..]; done. }
  destruct (pool_steps_ok _ _ (NewPool_ok _ _ Hnew) Hst) as [[Hacc Hb Ho He] Hlen].
  split_and!; [done|lia|]. intros Hc Hex. rewrite E0 in Hlen.
  assert (in_hand (p_workers p) = []) as Hhand.
  { clear -Hex. unfold all_exited in Hex. induction Hex as [|w ws -> _ IH]; [done|]. exact IH. }
  assert (Exited ∈ p_workers p) as Hin.
  { unfold all_exited in Hex. destruct (p_workers p) as [|w ws];
      [cbn in Hlen; rewrite length_replicate in Hlen; lia|].
    apply Forall_cons in Hex as [-> _]. left. }
  destruct (He Hin) as [_ Hj]. by rewrite Hacc, Hj, Hhand.
Qed.

#[export] Instance PWorker_eq_dec : EqDecision PWorker.
Proof. solve_decision. Defined.

(** Every step of a worker makes the pool smaller and closes nothing. *)
Lemma work_step_decreases p p' :
  work_step p p' → (pool_measure p' < pool_measure p)%nat ∧ p_closed p' = p_closed p.
Proof.
  intros [i oid jobs Hi Hj|i oid Hi|i Hi Hj Hc]; (split; [|done]); unfold pool_measure; cbn;
    rewrite ?Hj; pose proof (λ w', weight_insert _ _ _ w' Hi) as Hw; cbn in *.
  - specialize (Hw (Fulfilling oid)). cbn in Hw. lia.
  - specialize (Hw Waiting). cbn in Hw. lia.
  - specialize (Hw Exited). cbn in Hw. lia.
Qed.

(** On a closed channel some worker can move, until all have left. *)
Lemma work_progress p : p_closed p = true → all_exited p ∨ ∃ p', work_step p p'.
Proof.
  intros Hp. unfold all_exited.
  destruct (decide (Forall (λ w, w = Exited) (p_workers p))) as [Hall|Hex]; [by left|right].
  apply not_Forall_Exists, Exists_exists in Hex as (w & (i & Hi)%list_elem_of_lookup & Hne);
    [|apply _].
  destruct w as [|oid|]; [|eexists; by eapply work_finish|by destruct Hne].
  destruct (p_jobs p) as [|oid jobs] eqn:Ej; eexists; [by eapply work_exit|by eapply work_take].
Qed.

Lemma work_drains p : p_closed p = true → ∃ p', rtc work_step p p' ∧ all_exited p'.
Proof.
  remember (pool_measure p) as n eqn:En. revert p En.
  induction (lt_wf n) as [n _ IH]. intros p -> Hc.
  destruct (work_progress p Hc) as [Hall|[p1 Hw]]; [by exists p|].
  destruct (work_step_decreases _ _ Hw) as [Hlt Hc1]. rewrite Hc in Hc1.
  destruct (IH _ Hlt p1 eq_refl Hc1) as (p2 & Hs & Hall). exists p2. split; [|done].
  by eapply rtc_l.
Qed.

(** [Stop] returns: once the channel is closed, every worker step makes the pool
    smaller, and as long as some worker has not returned some step is possible, so every
    run of the workers ends, with all of them gone and the queue drained. *)
Theorem pool_drains p :
  p_closed p = true →
  (∀ p', work_step p p' → (pool_measure p' < pool_measure p)%nat ∧ p_closed p' = true)
  ∧ ((∀ p', ¬ work_step p p') → all_exited p)
  ∧ ∃ p', rtc work_step p p' ∧ all_exited p'.
Proof.
  intros Hc. split_and!.
  - intros p' Hw. by destruct (work_step_decreases _ _ Hw) as [? ->].
  - intros Hno. destruct (work_progress p Hc) as [?|[p' Hw]]; [done|]. by destruct (Hno p').
  - by apply work_drains.
Qed.

(** [Process] never blocks, and it panics exactly when the pool's channel is already
    closed: safe as long as nothing calls it once [Stop] has begun. *)
Theorem Process_panics_iff_stopped orderID p :
  (∃ r, Pool_Process orderID p r)
  ∧ (∀ e, Pool_Process orderID p (Err e) ↔ p_closed p = true ∧ e = SendOnClosed).
Proof.
  split.
  - destruct (p_closed p) eqn:Hc; [eexists; by apply process_panics|].
    destruct (p_quit p) eqn:Hq; [eexists; by apply process_stopping|].
    destruct (Z_lt_le_dec (Z.of_nat (length (p_jobs p))) (p_cap p)).
    + eexists. by apply process_buffered.
    + eexists. by apply process_full.
  - intros e. split; [intros Hp; inversion Hp; subst; by split|intros [Hc ->]; by apply process_panics].
Qed.

(** ** Witnesses: two workers, one slot *)
Definition small_pool : WorkerConfig :=
  mkWorkerConfig 1 1 3 (200 * Millisecond) (5 * Second) (5 * Second) (30 * Second) Minute
    100 one_fifth (10 * Second).
Definition small_new : Pool := mkPool 1 [] false false [] [] [].
Definition small_start : Pool := Pool_Start small_pool small_new.

(** Order 7 is accepted, the pool is stopped, the worker fulfils it and leaves. *)
Definition small_end : Pool := mkPool 1 [] true true [Exited] [7] [7].

Lemma small_run : rtc pool_step small_start small_end.
Proof.
  eapply rtc_l; [apply (pool_process _ 7), process_buffered; [done|cbn; lia]|].
  eapply rtc_l; [by apply pool_quit|]. eapply rtc_l; [by apply pool_close|].
  eapply rtc_l; [by apply pool_work, (work_take _ 0 7 [])|].
  eapply rtc_l; [by apply pool_work, (work_finish _ 0 7)|].
  eapply rtc_l; [by apply pool_work, (work_exit _ 0)|]. apply rtc_refl.
Qed.

Lemma pool_exactly_once_witness : p_done small_end ≡ₚ p_accepted small_end.
Proof.
  apply (pool_exactly_once small_pool small_new small_end eq_refl small_run);
    [done|by repeat constructor].
Defined.

Definition stopped_pool : Pool := mkPool 2 [8; 9] true true [Fulfilling 7; Waiting] [7; 8; 9] [].

Lemma pool_drains_witness : ∃ p', rtc work_step stopped_pool p' ∧ all_exited p'.
Proof. apply (pool_drains stopped_pool). reflexivity. Defined.
