(* ===== verification/PoolLiveness.v ===== *)
(** * The worker pool gets its work done

    Infinite runs of the pool in which every worker that stays able to move does move
    sooner or later: whatever was accepted is fulfilled. *)

From Stdlib Require Import ZArith Lia.
From stdpp Require Import base tactics list relations.
From S2P Require Import Prelude GoStd Config Hub Pool PoolSpec.

Open Scope Z_scope.

(** ** Runs *)

(** Some step of worker [i] is possible. *)
Definition enabled (i : nat) (p : Pool) : Prop :=
  ∃ p', work_step p p' ∧ p_workers p' !! i ≠ p_workers p !! i.

(** A run of the pool with its callers and [Stop]; a turn may pass without a step. *)
Definition pool_run (f : nat → Pool) : Prop :=
  ∀ n, pool_step (f n) (f (S n)) ∨ f (S n) = f n.

(** The scheduler does not starve worker [i], and its [Fulfill] calls return. *)
Definition fair (f : nat → Pool) (i : nat) : Prop :=
  ∀ n, ∃ m, (n ≤ m)%nat
    ∧ (¬ enabled i (f m) ∨ p_workers (f (S m)) !! i ≠ p_workers (f m) !! i).

(** ** Single steps *)
Lemma enabled_fulfilling i p id : p_workers p !! i = Some (Fulfilling id) → enabled i p.
Proof.
  intros Hi. eexists. split; [by eapply work_finish|]. cbn.
  rewrite list_lookup_insert_eq by by eapply lookup_lt_Some. by rewrite Hi.
Qed.

Lemma enabled_waiting i p id jobs :
  p_workers p !! i = Some Waiting → p_jobs p = id :: jobs → enabled i p.
Proof.
  intros Hi Hj. eexists. split; [by eapply work_take|]. cbn.
  rewrite list_lookup_insert_eq by by eapply lookup_lt_Some. by rewrite Hi.
Qed.

(** What the workers from [j] on hold, and what is done. *)
Definition settled (j : nat) (p : Pool) : list Z := in_hand (drop j (p_workers p)) ++ p_done p.

Lemma in_hand_drop_insert ws i j w w' :
  ws !! i = Some w →
  in_hand (drop j (<[i := w']> ws)) = in_hand (drop j ws)
  ∨ in_hand [w] ++ in_hand (drop j (<[i := w']> ws)) ≡ₚ in_hand [w'] ++ in_hand (drop j ws).
Proof.
  intros Hi. destruct (decide (i < j)%nat) as [Hlt|Hge].
  - left. by rewrite drop_insert_lt by lia.
  - right. rewrite drop_insert_ge by lia. apply in_hand_insert.
    rewrite lookup_drop. by replace (j + (i - j))%nat with i by lia.
Qed.

(** Work that left the queue is never lost again. *)
Lemma settled_grows j p p' : pool_step p p' → settled j p ⊆+ settled j p'.
Proof.
  assert (∀ q i id, p_workers q !! i = Some Waiting →
            settled j q ⊆+ settled j (set_pworkers (<[i := Fulfilling id]> (p_workers q)) q)) as Hgrab.
  { intros q i id Hi. unfold settled. cbn.
    destruct (in_hand_drop_insert _ i j _ (Fulfilling id) Hi) as [->|Hp]; [done|].
    cbn in Hp. rewrite Hp. by apply submseteq_cons. }
  intros [id p1 Hp|p1 Hw|Hq|Hq Hc]; [inversion Hp as [|i Hc Hj Hi| | |]; subst|destruct Hw as
    [i id jobs Hi Hj|i id Hi|i Hi Hj Hc]|..]; try done.
  - exact (Hgrab p i id Hi).
  - exact (Hgrab p i id Hi).
  - unfold settled. cbn.
    destruct (in_hand_drop_insert _ i j _ Waiting Hi) as [->|Hp].
    + by apply submseteq_app, submseteq_inserts_r.
    + cbn in Hp. rewrite <- Hp. apply Permutation_submseteq. solve_Permutation.
  - unfold settled. cbn.
    destruct (in_hand_drop_insert _ i j _ Exited Hi) as [->|Hp]; [done|]. cbn in Hp. by rewrite Hp.
Qed.

(** [acc] is settled, or among the next jobs [pre] in the queue. *)
Definition due (acc pre : list Z) (p : Pool) : Prop :=
  (∃ rest, p_jobs p = pre ++ rest) ∧ acc ⊆+ pre ++ settled 0 p.

Lemma due_grows acc pre p p' :
  due acc pre p → pool_step p p' → (∃ rest, p_jobs p' = pre ++ rest) → due acc pre p'.
Proof.
  intros [_ Hacc] Hst Hj. split; [done|]. etrans; [exact Hacc|].
  by apply submseteq_skips_l, settled_grows.
Qed.

(** A step takes the head of the queue, or it leaves the queue's front and no worker takes
    up work. *)
Lemma due_step acc id pre p p' :
  due acc (id :: pre) p → pool_step p p' →
  due acc pre p' ∨ (due acc (id :: pre) p'
    ∧ ∀ i, p_workers p' !! i = p_workers p !! i ∨ p_workers p' !! i = Some Waiting).
Proof.
  intros Hd Hst. pose proof (due_grows _ _ _ _ Hd Hst) as Hg. destruct Hd as [[rest Hj] Hacc].
  destruct Hst as [id' p1 Hp|p1 Hw|Hq|Hq Hc];
    [inversion Hp as [Hc Hr|i Hc Hj' Hi| | |]; subst|destruct Hw as
    [i id' jobs Hi Hj'|i id' Hi|i Hi Hj' Hc]|..];
    try (right; split; [apply Hg; by exists rest|by left]).
  - right. split; [|by left]. apply Hg. exists (rest ++ [id']). cbn. by rewrite Hj, <- app_assoc.
  - by rewrite Hj in Hj'.
  - left. rewrite Hj in Hj'. injection Hj' as <- <-. split; [by exists rest|].
    etrans; [exact Hacc|]. apply Permutation_submseteq. unfold settled. cbn.
    pose proof (in_hand_insert _ _ _ (Fulfilling id) Hi) as Hins. cbn in Hins.
    rewrite !drop_0, Hins. solve_Permutation.
  - right. split; [apply Hg; by exists rest|]. intros k. cbn.
    destruct (decide (i = k)) as [->|Hne]; [right|left; by rewrite list_lookup_insert_ne].
    by rewrite list_lookup_insert_eq by by eapply lookup_lt_Some.
  - by rewrite Hj in Hj'.
Qed.

(** A worker that ends a turn has nothing in hand. *)
Lemma fulfilling_step i id p p' :
  p_workers p !! i = Some (Fulfilling id) → pool_step p p' →
  p_workers p' !! i = Some (Fulfilling id) ∨ p_workers p' !! i = Some Waiting.
Proof.
  intros Hi Hst.
  assert (∀ k w w', p_workers p !! k = Some w → w ≠ Fulfilling id ∨ w' = Waiting →
    <[k := w']> (p_workers p) !! i = Some (Fulfilling id)
    ∨ <[k := w']> (p_workers p) !! i = Some Waiting) as Hins.
  { intros k w w' Hk Hw. destruct (decide (k = i)) as [->|Hne].
    - rewrite list_lookup_insert_eq by by eapply lookup_lt_Some.
      destruct Hw as [Hw| ->]; [congruence|by right].
    - left. by rewrite list_lookup_insert_ne. }
  destruct Hst as [id' p1 Hp|p1 Hw|Hq|Hq Hc];
    [inversion Hp; subst|destruct Hw|..]; try (by left); cbn;
    (eapply Hins; [done|]); by auto.
Qed.

(** ** Runs *)
Section runs.
Variables (cfg : WorkerConfig) (p0 : Pool) (f : nat → Pool).
Hypothesis new : NewPool cfg = Ok p0.
Hypothesis start : f 0%nat = Pool_Start cfg p0.
Hypothesis some_worker : 0 < Count_ cfg.
Hypothesis runs : pool_run f.
Hypothesis fairly : ∀ i, fair f i.

Lemma run_ok n : pool_ok (f n) ∧ length (p_workers (f n)) = Z.to_nat (Count_ cfg).
Proof.
  induction n as [|n [IH Hl]].
  - rewrite start. split; [by apply NewPool_ok|]. apply NewPool_inv in new as [_ ->]. cbn.
    apply length_replicate.
  - destruct (runs n) as [Hst| ->]; [|done]. destruct (pool_step_ok _ _ IH Hst) as [? ->]. done.
Qed.

(** What a step preserves holds from then on. *)
Lemma always_from (P : Pool → Prop) n m :
  (∀ p p', P p → pool_step p p' → P p') → P (f n) → (n ≤ m)%nat → P (f m).
Proof.
  intros Hs Hn. induction 1 as [|m _ IH]; [done|]. destruct (runs m) as [Hst| ->]; eauto.
Qed.

(** A worker puts its order down some time. *)
Lemma eventually_idle i n :
  ∃ m, (n ≤ m)%nat ∧ ∀ id, p_workers (f m) !! i ≠ Some (Fulfilling id).
Proof.
  destruct (fairly i n) as (m & Hm & Hf).
  destruct (p_workers (f m) !! i) as [[|id|]|] eqn:E;
    try (exists m; split; [done|]; intros ?; rewrite E; congruence).
  destruct Hf as [Hf|Hf]; [by destruct Hf; eapply enabled_fulfilling|].
  exists (S m). split; [lia|]. intros id' E'.
  destruct (runs m) as [Hst|Heq]; [|by rewrite Heq in Hf].
  destruct (fulfilling_step _ _ _ _ E Hst); congruence.
Qed.

(** The queue's front stays, with a waiting worker waiting, until its head is taken. *)
Lemma front_stays acc id pre n m :
  due acc (id :: pre) (f n) → (n ≤ m)%nat →
  (∃ k, (n ≤ k)%nat ∧ due acc pre (f k))
  ∨ (due acc (id :: pre) (f m)
     ∧ ∀ i, p_workers (f n) !! i = Some Waiting → p_workers (f m) !! i = Some Waiting).
Proof.
  intros Hd. induction 1 as [|m Hm IH]; [by right|].
  destruct IH as [?|[Hdm Hw]]; [by left|].
  destruct (runs m) as [Hst| ->]; [|by right].
  destruct (due_step _ _ _ _ _ Hdm Hst) as [Hd'|[Hd' Hi]].
  - left. exists (S m). split; [lia|done].
  - right. split; [done|]. intros i Hn%Hw. destruct (Hi i) as [E|E]; congruence.
Qed.

Lemma front_worker acc id pre n :
  due acc (id :: pre) (f n) →
  ∃ w, p_workers (f n) !! 0%nat = Some w ∧ w ≠ Exited.
Proof.
  intros [[rest Hj] _]. destruct (run_ok n) as [Hok Hl].
  destruct (lookup_lt_is_Some_2 (p_workers (f n)) 0) as [w Hw]; [lia|]. exists w. split; [done|]. intros ->.
  destruct (pool_exits _ Hok) as [_ E]; [by eapply list_elem_of_lookup_2|].
  by rewrite Hj in E.
Qed.

(** A waiting worker next to a queue takes its head, or another one does. *)
Lemma waiting_takes acc id pre n :
  due acc (id :: pre) (f n) → p_workers (f n) !! 0%nat = Some Waiting →
  ∃ k, (n ≤ k)%nat ∧ due acc pre (f k).
Proof.
  intros Hd Hw. destruct (fairly 0%nat n) as (m & Hm & Hf).
  destruct (front_stays _ _ _ _ m Hd Hm) as [?|[Hdm Hwm]]; [done|]. specialize (Hwm _ Hw).
  pose proof Hdm as [[rest Hj] _].
  destruct Hf as [Hf|Hf]; [by destruct Hf; eapply enabled_waiting|].
  destruct (runs m) as [Hst|Heq]; [|by rewrite Heq in Hf].
  destruct (due_step _ _ _ _ _ Hdm Hst) as [Hd'|[_ Hi]]; [exists (S m); split; [lia|done]|].
  destruct (Hi 0%nat) as [E|E]; congruence.
Qed.

Lemma head_taken acc id pre n :
  due acc (id :: pre) (f n) → ∃ k, (n ≤ k)%nat ∧ due acc pre (f k).
Proof.
  intros Hd. destruct (eventually_idle 0 n) as (m & Hm & Hidle).
  destruct (front_stays _ _ _ _ m Hd Hm) as [?|[Hdm _]]; [done|].
  destruct (front_worker _ _ _ _ Hdm) as (w & Hw & Hne).
  destruct (waiting_takes _ _ _ _ Hdm) as (k & Hk & ?).
  - destruct w as [|id'|]; [done|by destruct (Hidle id')|done].
  - exists k. split; [lia|done].
Qed.

(** The queue is served in order, ... *)
Lemma queue_served acc pre n :
  due acc pre (f n) → ∃ m, (n ≤ m)%nat ∧ acc ⊆+ settled 0 (f m).
Proof.
  revert n. induction pre as [|id pre IH]; intros n Hd; [exists n; by split; [|apply Hd]|].
  apply head_taken in Hd as (k & Hk & Hd). apply IH in Hd as (m & Hm & ?).
  exists m. split; [lia|done].
Qed.

(** ... and the workers finish one after the other. *)
Lemma workers_finish acc j n :
  acc ⊆+ settled 0 (f n) → ∃ m, (n ≤ m)%nat ∧ acc ⊆+ settled j (f m).
Proof.
  intros Hacc. induction j as [|j (m & Hm & IH)]; [by exists n|].
  destruct (eventually_idle j m) as (k & Hk & Hidle). exists k. split; [lia|].
  assert (acc ⊆+ settled j (f k)) as Hs.
  { apply (always_from (λ p, acc ⊆+ settled j p) m); [|done..].
    intros p p' Hp Hst. etrans; [exact Hp|by apply settled_grows]. }
  unfold settled in *. destruct (p_workers (f k) !! j) as [w|] eqn:E.
  - rewrite (drop_S _ w) in Hs by done.
    destruct w; cbn in Hs; [done|by destruct (Hidle orderID)|done].
  - apply lookup_ge_None in E. by rewrite !drop_ge in * by lia.
Qed.
End runs.

(** Every accepted order is fulfilled: in a run of a pool with at least one worker whose
    workers are not starved, whatever callers and [Stop] do in between, there is for every
    moment a later one at which all that [Process] had accepted by then has been fulfilled,
    as often as it was accepted. *)
Theorem pool_liveness cfg p0 f :
  NewPool cfg = Ok p0 → f 0%nat = Pool_Start cfg p0 → 0 < Count_ cfg →
  pool_run f → (∀ i, fair f i) →
  ∀ n, ∃ m, (n ≤ m)%nat ∧ p_accepted (f n) ⊆+ p_done (f m).
Proof.
  intros Hn Hs Hc Hr Hf n. destruct (run_ok cfg p0 f Hn Hs Hr n) as [[Hacc _ _ _] _].
  destruct (queue_served cfg p0 f Hn Hs Hc Hr Hf (p_accepted (f n)) (p_jobs (f n)) n)
    as (k & Hk & Hset).
  { split; [by exists []; rewrite app_nil_r|]. unfold settled. by rewrite drop_0, Hacc. }
  destruct (workers_finish f Hr Hf _ (Z.to_nat (Count_ cfg)) k Hset) as (m & Hm & Hdone).
  exists m. split; [lia|]. destruct (run_ok cfg p0 f Hn Hs Hr m) as [_ Hlen].
  unfold settled in Hdone. by rewrite <- Hlen, drop_all in Hdone.
Qed.

(** ** A concrete run: one order, then nothing *)
Definition small_step1 : Pool := accept 7 (set_jobs [7] small_start).
Definition small_step2 : Pool := set_jobs [] (set_pworkers [Fulfilling 7] small_step1).
Definition small_step3 : Pool := finish 7 (set_pworkers [Waiting] small_step2).
Definition small_trace (n : nat) : Pool :=
  match n with
  | 0 => small_start | 1 => small_step1 | 2 => small_step2 | _ => small_step3
  end%nat.

Lemma small_trace_run : pool_run small_trace.
Proof.
  intros [|[|[|n]]]; [left..|by right]; cbn.
  - apply (pool_process _ 7), process_buffered; [done|cbn; lia].
  - apply pool_work, (work_take small_step1 0 7 []); done.
  - apply pool_work, (work_finish small_step2 0 7). done.
Qed.

Lemma small_trace_fair i : fair small_trace i.
Proof.
  intros n. exists (3 + n)%nat. split; [lia|]. left. cbn. intros (p' & Hw & _).
  destruct Hw as [k id jobs _ Hj|k id Hk|k _ _ Hc]; [done| |done].
  destruct k as [|k]; [done|]. by destruct k.
Qed.

Lemma pool_liveness_witness : ∃ m, [7] ⊆+ p_done (small_trace m).
Proof.
  destruct (pool_liveness small_pool small_new small_trace eq_refl eq_refl ltac:(cbn; lia) small_trace_run
    small_trace_fair 1) as (m & _ & Hm).
  exists m. exact Hm.
Defined.
