(* ===== verification/Works.v ===== *)
(** * The pool at work ([internal/workers/pool.go], [internal/services/fulfillment.go], together)

    [Pool] and [Pipeline] joined: a worker of the pool that was handed an order runs [Fulfill]
    on it, one step of the pipeline at a time, and takes its next order when [Fulfill] has
    returned. Requests, shop edits, callers of [Process] and [Stop] take their steps in
    between. *)

From Stdlib Require Import ZArith Lia.
From stdpp Require Import base tactics list gmap strings relations.
From S2P Require Import Prelude GoStd Errors Models Database OrderRepository Ledger Config.
From S2P Require Import Gateway Hub Fulfillment Pipeline PipelineSpec Pool PoolSpec.

Open Scope Z_scope.

(** Where the worker is in the body of its range loop: outside it, about to load the order,
    between the load and the end of [Fulfill] (the pipeline says where), or back from it.
    [err] is not the code's: whether a database error ended that [Fulfill]. *)
Inductive Stage : Type := Away | Loading | Underway | Returned (err : bool).

(** Nor is [wk_failed]: the orders whose [Fulfill] a database error ended, as often as that
    happened, latest last. *)
Record Works : Type := mkWorks {
  wk_pool : Pool;
  wk_sys : Sys;
  wk_stage : nat → Stage;
  wk_failed : list Z;
}.

Definition set_stage (i : nat) (st : Stage) (stage : nat → Stage) : nat → Stage :=
  λ j, if decide (j = i) then st else stage j.

(** Worker [i] has order [id] in hand. *)
Definition holds (p : Pool) (i : nat) (id : Z) : Prop := p_workers p !! i = Some (Fulfilling id).

(** The workers that a step of the pool set to work begin their [Fulfill]. *)
Definition begin_work (p p' : Pool) (stage : nat → Stage) : nat → Stage := λ i,
  match p_workers p !! i, p_workers p' !! i with
  | Some Waiting, Some (Fulfilling _) => Loading
  | _, _ => stage i
  end.

Section works.
Context `{Numeric}.
Variable cfg : WorkerConfig.

(** One step of [Fulfill id] by worker [i], from a stage and the system to the next. *)
Inductive fulfil_step (i : nat) (id : Z) : Stage → Sys → Stage → Sys → Prop :=
| fulfil_load T m ws sent adj k pay :
    Tables_payments T !! k = Some pay → Payment_OrderID pay = id →
    Payment_Status pay = PaymentStatusPending →
    fulfil_step i id Loading (mkSys T m ws sent adj) Underway
      (mkSys T m (set_worker i (Charging id pay (Z.to_nat (MaxRetries cfg)) None) ws) sent adj)
(** [ErrNoPendingPayment] *)
| fulfil_nothing s :
    (∀ k p, Tables_payments (s_tables s) !! k = Some p → Payment_OrderID p = id →
       Payment_Status p ≠ PaymentStatusPending) →
    fulfil_step i id Loading s (Returned false) s
(** any other error of the load *)
| fulfil_unloaded s : fulfil_step i id Loading s (Returned true) s
| fulfil_charge T m ws sent adj pay n lastErr r m' :
    ws i = Charging id pay (S n) lastErr →
    charge_effect (Payment_IdempotencyKey pay) m r m' →
    fulfil_step i id Underway (mkSys T m ws sent adj) Underway
      (mkSys T m' (set_worker i (match r with
                                 | Ok _ => Finalizing id pay r
                                 | Err e => Charging id pay n (Some e)
                                 end) ws) sent adj)
| fulfil_end_loop T m ws sent adj pay lastErr :
    ws i = Charging id pay 0 lastErr →
    fulfil_step i id Underway (mkSys T m ws sent adj) Underway
      (mkSys T m (set_worker i (Finalizing id pay (loop_result lastErr)) ws) sent adj)
| fulfil_finalize T m ws sent adj pay charge r T' :
    ws i = Finalizing id pay charge → tx_outcome (finalize_tx pay charge) T r T' →
    fulfil_step i id Underway (mkSys T m ws sent adj)
      (match r with Ok true => Underway | _ => Returned (negb (is_ok r)) end)
      (mkSys T' m (set_worker i (match r with
                                 | Ok true => Announcing id (final_message id charge)
                                 | _ => Idle
                                 end) ws) sent adj)
| fulfil_announce T m ws sent adj message T' :
    ws i = Announcing id message → elsewhere T T' →
    Tables_inventory T' = Tables_inventory T →
    fulfil_step i id Underway (mkSys T m ws sent adj) (Returned false)
      (mkSys T' m (set_worker i Idle ws) ((id, message) :: sent) adj).

(** The steps of requests and edits. *)
Inductive other_step : Sys → Sys → Prop :=
| other_order T m ws sent adj order payment r T' :
    Order_Status order = OrderStatusPending → Payment_Status payment = PaymentStatusPending →
    tx_outcome (CreateOrder_tx order payment) T r T' →
    other_step (mkSys T m ws sent adj) (mkSys T' m ws sent adj)
| other_edit T m ws sent adj T' :
    elsewhere T T' →
    other_step (mkSys T m ws sent adj)
      (mkSys T' m ws sent (λ p, adj p + (stock T' p - stock T p))).

Inductive works_step : Works → Works → Prop :=
(** Anything the pool does but the end of a loop body; [Process] is called with the ids of
    stored orders. *)
| works_pool p p' s stage failed :
    pool_step p p' → p_done p' = p_done p →
    (∀ id, id ∈ p_accepted p' → is_Some (Tables_orders (s_tables s) !! id)) →
    works_step (mkWorks p s stage failed) (mkWorks p' s (begin_work p p' stage) failed)
| works_fulfil p s stage failed i id st' s' :
    holds p i id → fulfil_step i id (stage i) s st' s' →
    works_step (mkWorks p s stage failed) (mkWorks p s' (set_stage i st' stage) failed)
| works_return p s stage failed i id err :
    holds p i id → stage i = Returned err →
    works_step (mkWorks p s stage failed)
      (mkWorks (finish id (set_pworkers (<[i := Waiting]> (p_workers p)) p)) s
         (set_stage i Away stage) (failed ++ if err then [id] else []))
| works_other p s s' stage failed :
    other_step s s' → works_step (mkWorks p s stage failed) (mkWorks p s' stage failed).

(** The pool just started, over what an earlier life left. *)
Definition works_start (p : Pool) (s : Sys) : Works := mkWorks p s (λ _, Away) [].

Lemma fulfil_is_step i id st s st' s' :
  s_workers s i = Idle ∨ st = Underway → fulfil_step i id st s st' s' → s' = s ∨ step cfg s s'.
Proof.
  intros Hi Hst. destruct Hst as [T m ws sent adj k pay Hk Ho Hs|s Hno|s
    |T m ws sent adj pay n e r m' Hw Hc|T m ws sent adj pay e Hw|T m ws sent adj pay c r T' Hw Hr
    |T m ws sent adj msg T' Hw HE HI]; [|by left|by left|..]; right.
  - destruct Hi as [Hi|]; [|done]. by eapply step_load.
  - by eapply step_charge.
  - by eapply step_end_loop.
  - by eapply step_finalize.
  - by eapply step_announce.
Qed.

Lemma other_is_step s s' : other_step s s' → step cfg s s'.
Proof. intros []; [by eapply step_order|by apply step_edit]. Qed.
End works.
