(* ===== verification/WorksSpec.v ===== *)
(** * Properties of the pool at work

    Every accepted order is settled, or left for the sweeper by a database error. *)

From Stdlib Require Import ZArith Lia.
From stdpp Require Import base tactics list gmap strings relations.
From S2P Require Import Prelude GoStd Errors Models Database RefDb OrderRepository Ledger.
From S2P Require Import LedgerSpec Config Gateway Hub Fulfillment Pipeline PipelineSpec.
From S2P Require Import Pool PoolSpec PoolLiveness Works.

Open Scope Z_scope.

(** The order is stored and no longer pending. *)
Definition terminal (T : Tables) (id : Z) : Prop :=
  ∃ o, Tables_orders T !! id = Some o ∧ Order_Status o ≠ OrderStatusPending.

Lemma terminal_evolves T T' id : evolves T T' → terminal T id → terminal T' id.
Proof.
  intros [_ HO] (o & Ho & Hs). destruct (HO id o Ho) as (o' & Ho' & _ & E). exists o'.
  split; [done|by rewrite (E Hs)].
Qed.

Lemma known_evolves T T' id :
  evolves T T' → is_Some (Tables_orders T !! id) → is_Some (Tables_orders T' !! id).
Proof. intros [_ HO] [o Ho]. destruct (HO id o Ho) as (o' & Ho' & _). by exists o'. Qed.

(** A payment that left [pending] took its order along. *)
Lemma payment_terminal T k p :
  ledger_ok T → Tables_payments T !! k = Some p → Payment_Status p ≠ PaymentStatusPending →
  terminal T (Payment_OrderID p).
Proof.
  intros HT Hk Hs. destruct (ok_in_step _ HT k p Hk) as (o & Ho & Hst). exists o. split; [done|].
  intros E. rewrite E in Hst. by destruct (Payment_Status p).
Qed.

Lemma announced_terminal T id message : announced T id message → terminal T id.
Proof.
  intros (o & Ho & Hs). exists o. split; [done|]. by destruct Hs as [[-> _]|[-> _]].
Qed.

(** ** The invariant *)
Definition busy_with (id : Z) (st : WState) : Prop :=
  match st with
  | Idle => False
  | Charging orderID _ _ _ | Finalizing orderID _ _ | Announcing orderID _ => orderID = id
  end.

Definition stage_ok (p : Pool) (s : Sys) (i : nat) (st : Stage) : Prop :=
  match st with
  | Away => (∀ id, ¬ holds p i id) ∧ s_workers s i = Idle
  | Loading => (∃ id, holds p i id) ∧ s_workers s i = Idle
  | Underway => ∃ id, holds p i id ∧ busy_with id (s_workers s i)
  | Returned err => ∃ id, holds p i id ∧ s_workers s i = Idle
                     ∧ (err = true ∨ terminal (s_tables s) id)
  end.

(** How often the order occurs. *)
Definition times (id : Z) (l : list Z) : nat := length (filter (λ j, j = id) l).

Lemma times_app id l1 l2 : times id (l1 ++ l2) = (times id l1 + times id l2)%nat.
Proof. unfold times. by rewrite filter_app, length_app. Qed.

Lemma times_submseteq id l1 l2 : l1 ⊆+ l2 → (times id l1 ≤ times id l2)%nat.
Proof.
  intros [k Hk]%submseteq_Permutation. unfold times. rewrite Hk, filter_app, length_app. lia.
Qed.

Lemma times_one id : times id [id] = 1%nat.
Proof. unfold times. by rewrite filter_cons_True. Qed.

(** Every end of a [Fulfill] was a failure, or the order has been settled. *)
Record works_ok (cfg : WorkerConfig) (w : Works) : Prop := {
  wo_sys : sys_ok cfg (wk_sys w);
  wo_pool : pool_ok (wk_pool w);
  wo_known : ∀ id, id ∈ p_accepted (wk_pool w) → is_Some (Tables_orders (s_tables (wk_sys w)) !! id);
  wo_stages : ∀ i, stage_ok (wk_pool w) (wk_sys w) i (wk_stage w i);
  wo_failed : wk_failed w ⊆+ p_done (wk_pool w);
  wo_done : ∀ id, terminal (s_tables (wk_sys w)) id
    ∨ (times id (p_done (wk_pool w)) ≤ times id (wk_failed w))%nat;
}.

(** A worker's stage stays right when its order and its state stay. *)
Lemma stage_ok_later p p' s s' i st :
  p_workers p' !! i = p_workers p !! i → s_workers s' i = s_workers s i →
  evolves (s_tables s) (s_tables s') → stage_ok p s i st → stage_ok p' s' i st.
Proof.
  intros Hp Hs HE. unfold stage_ok, holds. destruct st; rewrite Hp, Hs; try done.
  intros (id & Hi & Hw & Hd). exists id. split_and!; [done..|].
  destruct Hd; [by left|right; by eapply terminal_evolves].
Qed.

Section invariant.
Context `{Numeric}.
Variable cfg : WorkerConfig.

(** ** One step of [Fulfill] *)
Lemma fulfil_others i id st s st' s' j :
  fulfil_step cfg i id st s st' s' → j ≠ i → s_workers s' j = s_workers s j.
Proof. intros [] Hj; cbn; try done; unfold set_worker; by rewrite decide_False. Qed.

(** When no payment of a stored order is pending, it has been settled. *)
Lemma nothing_pending T id :
  ledger_ok T → is_Some (Tables_orders T !! id) →
  (∀ k p, Tables_payments T !! k = Some p → Payment_OrderID p = id →
     Payment_Status p ≠ PaymentStatusPending) → terminal T id.
Proof.
  intros HT [o Ho] Hno. destruct (ok_paid_for _ HT id o Ho) as (k & p & Hk & <-).
  apply (payment_terminal _ k); [done..|by apply (Hno k)].
Qed.

(** A transaction that found the payment finalized. *)
Lemma finalized_terminal T pay charge T' :
  ledger_ok T → snapshot T pay → runs (finalize_tx pay charge) T (Ok false) T' →
  T' = T ∧ terminal T (Payment_OrderID pay).
Proof.
  intros HT Hsn Hr. assert (T' = T ∧ finalized T pay) as [-> (p & Hp & Hs)].
  { by destruct charge; [apply MarkPaidAndConfirm_tx_ok in Hr|apply FailCancelAndRestock_tx_ok in Hr]. }
  split; [done|]. destruct Hsn as (p' & Hp' & <- & _). replace p' with p by congruence.
  by eapply payment_terminal.
Qed.

Lemma fulfil_stage p i id st s st' s' :
  sys_ok cfg s → is_Some (Tables_orders (s_tables s) !! id) → holds p i id →
  stage_ok p s i st → fulfil_step cfg i id st s st' s' →
  evolves (s_tables s) (s_tables s') → stage_ok p s' i st'.
Proof.
  intros Hok Hid Hh Hst Hf HE. pose proof (so_workers _ _ Hok i) as Hw. unfold stage_ok in *.
  destruct Hf as [T m ws sent adj k pay Hk Ho Hs|s Hno|s
    |T m ws sent adj pay n e r m' Hi Hc|T m ws sent adj pay e Hi|T m ws sent adj pay c r T' Hi Hr
    |T m ws sent adj msg T' Hi HE' HI]; cbn [s_workers s_tables s_charges] in *;
    rewrite ?set_worker_eq, ?Hi in *.
  - by exists id.
  - exists id. split_and!; [done|apply Hst|]. right. apply nothing_pending; [apply Hok|done..].
  - exists id. split_and!; [done|apply Hst|by left].
  - exists id. by destruct r.
  - by exists id.
  - destruct Hw as (Hsn & Ho & _). destruct r as [[]|e]; cbn [is_ok negb].
    + by exists id.
    + exists id. split_and!; [done..|right]. cbn in Hr.
      apply finalized_terminal in Hr as [-> Ht]; [by rewrite <- Ho|apply (so_ledger _ _ Hok)|done].
    + exists id. split_and!; [done..|by left].
  - exists id. split_and!; [done..|right]. eapply terminal_evolves; [exact HE|].
    by eapply announced_terminal.
Qed.

(** ** One step of the pool *)
Lemma pool_moves p p' i :
  pool_step p p' → p_done p' = p_done p →
  p_workers p' !! i = p_workers p !! i
  ∨ (p_workers p !! i = Some Waiting
     ∧ ((∃ id, p_workers p' !! i = Some (Fulfilling id)) ∨ p_workers p' !! i = Some Exited)).
Proof.
  intros Hst Hd.
  assert (∀ k w, p_workers p !! k = Some Waiting →
    <[k := w]> (p_workers p) !! i = p_workers p !! i
    ∨ (p_workers p !! i = Some Waiting ∧ <[k := w]> (p_workers p) !! i = Some w)) as Hins.
  { intros k w Hk. destruct (decide (k = i)) as [->|Hne]; [right|left; by rewrite list_lookup_insert_ne].
    split; [done|]. apply list_lookup_insert_eq. by eapply lookup_lt_Some. }
  destruct Hst as [id' p1 Hp|p1 Hw|Hq|Hq Hc]; [inversion Hp as [|k Hc Hj Hk| | |]; subst
    |destruct Hw as [k id' jobs Hk Hj|k id' Hk|k Hk Hj Hc]|..]; try (by left); cbn in *.
  - destruct (Hins k (Fulfilling id') Hk) as [?|[? ?]]; [by left|right; eauto].
  - destruct (Hins k (Fulfilling id') Hk) as [?|[? ?]]; [by left|right; eauto].
  - apply (f_equal length) in Hd. rewrite length_app in Hd. cbn in Hd. lia.
  - destruct (Hins k Exited Hk) as [?|[? ?]]; [by left|right; eauto].
Qed.

Lemma begin_work_stage p p' s stage i :
  pool_step p p' → p_done p' = p_done p → stage_ok p s i (stage i) →
  stage_ok p' s i (begin_work p p' stage i).
Proof.
  intros Hst Hd Hok. unfold begin_work. destruct (pool_moves p p' i Hst Hd) as [E|[E E']].
  - rewrite E. assert (stage_ok p' s i (stage i)) as Hok' by (by eapply stage_ok_later).
    by destruct (p_workers p !! i) as [[|id|]|].
  - rewrite E. assert (s_workers s i = Idle ∧ stage i = Away) as [Hi Ha].
    { unfold stage_ok, holds in Hok. destruct (stage i); [by destruct Hok|..].
      - destruct Hok as [[id Hh] _]. congruence.
      - destruct Hok as (id & Hh & _). congruence.
      - destruct Hok as (id & Hh & _). congruence. }
    destruct E' as [[id E']|E']; rewrite E'; [split; [by exists id|done]|].
    rewrite Ha. split; [|done]. intros id Hh. unfold holds in Hh. congruence.
Qed.

Lemma done_accepted p : pool_ok p → p_done p ⊆+ p_accepted p.
Proof.
  intros Hok. rewrite (pool_accounts _ Hok), (assoc_L (++)). by apply submseteq_inserts_l.
Qed.

Lemma holds_accepted p i id : pool_ok p → holds p i id → id ∈ p_accepted p.
Proof.
  intros Hok Hh. rewrite (pool_accounts _ Hok). apply elem_of_app. right. apply elem_of_app. left.
  unfold in_hand. apply list_elem_of_omap. exists (Fulfilling id). split; [|done].
  by eapply list_elem_of_lookup_2.
Qed.
(** ** Every step keeps the invariant *)
Lemma works_fulfil_sys p s stage failed i id st' s' :
  works_ok cfg (mkWorks p s stage failed) → fulfil_step cfg i id (stage i) s st' s' →
  sys_ok cfg s' ∧ evolves (s_tables s) (s_tables s').
Proof.
  intros Hok Hf. pose proof (wo_sys _ _ Hok) as Hsys. pose proof (wo_stages _ _ Hok i) as Hi.
  cbn [wk_pool wk_sys wk_stage wk_failed] in *.
  assert (s' = s ∨ step cfg s s') as [->|Hstep]; [|by split|].
  { eapply fulfil_is_step; [|exact Hf]. unfold stage_ok in Hi.
    destruct (stage i); [left; apply Hi|left; apply Hi|by right|].
    destruct Hi as (id' & _ & Hw & _). by left. }
  split; [by eapply step_sys_ok|by eapply step_evolves].
Qed.

(** The tables move on while the pool stays. *)
Lemma works_ok_tables p s s' stage stage' failed :
  works_ok cfg (mkWorks p s stage failed) → sys_ok cfg s' → evolves (s_tables s) (s_tables s') →
  (∀ i, stage_ok p s' i (stage' i)) → works_ok cfg (mkWorks p s' stage' failed).
Proof.
  intros [Hsys Hpool Hknown Hst Hf Hdone] Hsys' HE Hst'. split; [done|done| |done|done|];
    cbn [wk_pool wk_sys wk_stage wk_failed] in *.
  - intros j Hj. eapply known_evolves; eauto.
  - intros j. destruct (Hdone j); [left; by eapply terminal_evolves|by right].
Qed.

Lemma works_fulfil_ok p s stage failed i id st' s' :
  works_ok cfg (mkWorks p s stage failed) → holds p i id →
  fulfil_step cfg i id (stage i) s st' s' →
  works_ok cfg (mkWorks p s' (set_stage i st' stage) failed).
Proof.
  intros Hok Hh Hf. destruct (works_fulfil_sys _ _ _ _ _ _ _ _ Hok Hf) as [Hsys' HE].
  apply (works_ok_tables p s s' stage); [done..|].
  destruct Hok as [Hsys Hpool Hknown Hst _ _]. cbn [wk_pool wk_sys wk_stage wk_failed] in *.
  pose proof (Hknown id (holds_accepted p i id Hpool Hh)) as Hid.
  intros j. unfold set_stage. case_decide as E.
  - subst j. exact (fulfil_stage p i id _ s st' s' Hsys Hid Hh (Hst i) Hf HE).
  - eapply stage_ok_later; [reflexivity| |exact HE|exact (Hst j)]. by eapply fulfil_others.
Qed.

Lemma works_return_ok p s stage failed i id err :
  works_ok cfg (mkWorks p s stage failed) → holds p i id → stage i = Returned err →
  works_ok cfg (mkWorks (finish id (set_pworkers (<[i := Waiting]> (p_workers p)) p)) s
                  (set_stage i Away stage) (failed ++ if err then [id] else [])).
Proof.
  intros [Hsys Hpool Hknown Hst Hf Hdone] Hh Ei. cbn [wk_pool wk_sys wk_stage wk_failed] in *.
  pose proof (Hst i) as Hi. rewrite Ei in Hi. destruct Hi as (id' & Hh' & Hw & Hd).
  unfold holds in Hh, Hh'. replace id' with id in * by congruence.
  split; cbn [wk_pool wk_sys wk_stage wk_failed p_accepted p_done finish set_pworkers];
    [done| |done| | |].
  - eapply pool_step_ok; [exact Hpool|]. by apply pool_work, work_finish.
  - intros j. unfold set_stage. case_decide as E.
    + subst j. split; [|done]. intros id2. unfold holds. cbn.
      rewrite list_lookup_insert_eq by by eapply lookup_lt_Some. done.
    + eapply stage_ok_later; [|done..|exact (Hst j)]. cbn. by rewrite list_lookup_insert_ne.
  - destruct err; [by apply submseteq_app|rewrite app_nil_r; by apply submseteq_inserts_r].
  - intros j. destruct (Hdone j) as [?|Hle]; [by left|]. rewrite !times_app.
    destruct (decide (j = id)) as [->|Hne].
    + destruct Hd as [->|Ht]; [right; lia|by left].
    + right. replace (times j [id]) with O; [lia|]. unfold times. by rewrite filter_cons_False by congruence.
Qed.

Lemma works_step_ok w w' : works_ok cfg w → works_step cfg w w' → works_ok cfg w'.
Proof.
  intros Hok Hst. destruct Hst as [p p' s stage failed Hp Hd Hk|p s stage failed i id st' s' Hh Hf
    |p s stage failed i id err Hh Ei|p s s' stage failed Ho].
  - destruct Hok as [Hsys Hpool Hknown Hst Hf Hdone]. cbn [wk_pool wk_sys wk_stage wk_failed] in *.
    split; cbn [wk_pool wk_sys wk_stage wk_failed]; rewrite ?Hd; [done|by eapply pool_step_ok|done| |done..].
    intros i. by apply begin_work_stage.
  - by eapply works_fulfil_ok.
  - by apply works_return_ok.
  - pose proof (wo_sys _ _ Hok) as Hsys. pose proof (wo_stages _ _ Hok) as Hst.
    cbn [wk_pool wk_sys wk_stage] in *. pose proof (other_is_step cfg _ _ Ho) as Hstep.
    pose proof (step_evolves cfg _ _ Hsys Hstep) as HE.
    apply (works_ok_tables p s s' stage); [done|by eapply step_sys_ok|done|].
    intros i. apply (stage_ok_later p p s s'); [done|by destruct Ho|done..].
Qed.

Lemma works_start_ok p0 s :
  NewPool cfg = Ok p0 → sys_ok cfg s → (∀ i, s_workers s i = Idle) →
  works_ok cfg (works_start (Pool_Start cfg p0) s).
Proof.
  intros Hnew Hsys Hidle. pose proof (NewPool_ok cfg p0 Hnew) as Hpool.
  apply NewPool_inv in Hnew as [_ ->].
  split; cbn [works_start wk_pool wk_sys wk_stage wk_failed]; [done|done| | | |].
  - intros id []%not_elem_of_nil.
  - intros i. split; [|done]. intros id Hh. unfold holds in Hh. cbn in Hh.
    by apply lookup_replicate_1 in Hh as [? _].
  - done.
  - intros id. by right.
Qed.

(** ** Progress: what is left of a worker's [Fulfill] *)
Definition left_to_do (w : Works) (i : nat) : nat :=
  match wk_stage w i with
  | Away => 0
  | Returned _ => 1
  | Loading => Z.to_nat (MaxRetries cfg) + 5
  | Underway => match s_workers (wk_sys w) i with
                | Idle => 0
                | Announcing _ _ => 2
                | Finalizing _ _ _ => 3
                | Charging _ _ n _ => n + 4
                end
  end.

(** Where worker [i] is, in the pool and in [Fulfill]. *)
Definition worker_at (w : Works) (i : nat) : option PWorker * Stage * WState :=
  (p_workers (wk_pool w) !! i, wk_stage w i, s_workers (wk_sys w) i).

Lemma fulfil_decreases p s stage failed i id st' s' :
  holds p i id → fulfil_step cfg i id (stage i) s st' s' →
  (left_to_do (mkWorks p s' (set_stage i st' stage) failed) i
   < left_to_do (mkWorks p s stage failed) i)%nat.
Proof.
  intros Hh Hf. unfold left_to_do. cbn [wk_stage wk_sys]. unfold set_stage.
  rewrite decide_True by done. destruct Hf as [T m ws sent adj k pay Hk Ho Hs|s Hno|s
    |T m ws sent adj pay n e r m' Hi Hc|T m ws sent adj pay e Hi|T m ws sent adj pay c r T' Hi Hr
    |T m ws sent adj msg T' Hi HE' HI]; cbn [s_workers]; rewrite ?set_worker_eq, ?Hi; try lia.
  - destruct r; lia.
  - destruct r as [[]|]; lia.
Qed.

(** A step that leaves worker [i]'s place in the pool leaves it where it is in [Fulfill] too,
    or takes it further there. *)
Lemma works_step_worker w w' i :
  works_ok cfg w → works_step cfg w w' →
  p_workers (wk_pool w') !! i = p_workers (wk_pool w) !! i →
  worker_at w' i = worker_at w i
  ∨ (∃ id, holds (wk_pool w) i id) ∧ (left_to_do w' i < left_to_do w i)%nat.
Proof.
  intros Hok Hst E. unfold worker_at. rewrite E.
  destruct Hst as [p p' s stage failed Hp Hd Hk|p s stage failed j id st' s' Hh Hf
    |p s stage failed j id err Hh Ej|p s s' stage failed Ho]; cbn [wk_pool wk_sys wk_stage] in *.
  - left. do 2 f_equal. unfold begin_work. rewrite E. by destruct (p_workers p !! i) as [[]|].
  - destruct (decide (i = j)) as [->|Hne]; [right; split; [by exists id|by eapply fulfil_decreases]|left].
    unfold set_stage. rewrite decide_False by done. f_equal. by eapply fulfil_others.
  - left. unfold set_stage. case_decide as Eij; [|done]. subst j. cbn in E.
    rewrite list_lookup_insert_eq in E by by eapply lookup_lt_Some. unfold holds in Hh. congruence.
  - left. f_equal. by destruct Ho.
Qed.

(** A worker inside [Fulfill] can always go on, whatever the others do: it never waits. *)
Lemma worker_can_go_on w i id :
  works_ok cfg w → holds (wk_pool w) i id →
  ∃ w', works_step cfg w w' ∧ worker_at w' i ≠ worker_at w i.
Proof.
  intros Hok Hh. pose proof (wo_stages _ _ Hok i) as Hi. destruct w as [p s stage failed].
  cbn [wk_pool wk_sys wk_stage wk_failed] in *. destruct (stage i) eqn:Ei; cbn [stage_ok] in Hi.
  - by destruct (proj1 Hi id).
  - eexists. split; [eapply works_fulfil; [exact Hh|]; rewrite Ei; apply fulfil_unloaded|].
    unfold worker_at, set_stage. cbn. rewrite decide_True, Ei by done. congruence.
  - destruct Hi as (id' & Hh' & Hb). unfold holds in Hh, Hh'. replace id' with id in * by congruence.
    enough (∃ st' s', fulfil_step cfg i id Underway s st' s'
      ∧ (st', s_workers s' i) ≠ (Underway, s_workers s i)) as (st' & s' & Hf & Hne).
    { eexists. split; [eapply works_fulfil; [exact Hh|]; rewrite Ei; exact Hf|].
      unfold worker_at, set_stage. cbn. rewrite decide_True, Ei by done. congruence. }
    destruct s as [T m ws sent adj]. cbn [s_workers] in *.
    destruct (ws i) as [|oid pay [|n] last|oid pay charge|oid msg] eqn:Hw; cbn in Hb;
      [done|subst oid..].
    + eexists _, _. split; [by apply (fulfil_end_loop _ i id T m ws sent adj pay last)|].
      cbn. rewrite set_worker_eq. congruence.
    + eexists _, _. split; [by apply (fulfil_charge _ i id T m ws sent adj pay n last (Err demo_error) m)|].
      cbn. rewrite set_worker_eq. intros [= E _]. lia.
    + eexists _, _. split; [apply (fulfil_finalize _ i id T m ws sent adj pay charge (Err demo_error) T)|].
      * done.
      * left. split; [done|]. by left.
      * cbn. rewrite set_worker_eq. congruence.
    + eexists _, _. split; [apply (fulfil_announce _ i id T m ws sent adj msg T); [done| |done]|].
      * apply elsewhere_refl.
      * cbn. congruence.
  - eexists. split; [by eapply works_return|]. unfold worker_at, set_stage. cbn.
    rewrite decide_True, Ei by done. congruence.
Qed.

(** What happens to the tables is what the pipeline does to them. *)
Lemma works_step_evolves w w' :
  works_ok cfg w → works_step cfg w w' →
  evolves (s_tables (wk_sys w)) (s_tables (wk_sys w')).
Proof.
  intros Hok Hst. pose proof (wo_sys _ _ Hok) as Hsys.
  destruct Hst as [p p' s stage failed Hp Hd Hk|p s stage failed i id st' s' Hh Hf
    |p s stage failed i id err Hh Ei|p s s' stage failed Ho]; cbn [wk_sys] in *; [done| |done|].
  - by eapply works_fulfil_sys.
  - by eapply step_evolves, other_is_step.
Qed.

(** What is seen of the pool is a run of the pool. *)
Lemma works_step_pool w w' :
  works_step cfg w w' → pool_step (wk_pool w) (wk_pool w') ∨ wk_pool w' = wk_pool w.
Proof. intros []; cbn; [by left|by right|left; by apply pool_work, work_finish|by right]. Qed.
End invariant.

(** ** Runs *)
Section runs.
Context `{Numeric}.
Variables (cfg : WorkerConfig) (f : nat → Works).

(** A run of everything together; a turn may pass without a step. *)
Definition works_run : Prop := ∀ n, works_step cfg (f n) (f (S n)) ∨ f (S n) = f n.

(** Worker [i] is not starved: when it can go on, it does some time. A worker inside [Fulfill]
    always can. *)
Definition worker_fair (i : nat) : Prop :=
  ∀ n, ∃ m, (n ≤ m)%nat
    ∧ (¬ enabled i (wk_pool (f m)) ∨ worker_at (f (S m)) i ≠ worker_at (f m) i).

Hypothesis run : works_run.
Hypothesis start_ok : works_ok cfg (f 0%nat).

Lemma run_works_ok n : works_ok cfg (f n).
Proof.
  induction n as [|n IH]; [exact start_ok|]. destruct (run n) as [Hst| ->]; [|done].
  by eapply works_step_ok.
Qed.

Lemma run_evolves n m :
  (n ≤ m)%nat → evolves (s_tables (wk_sys (f n))) (s_tables (wk_sys (f m))).
Proof.
  induction 1 as [|m _ IH]; [reflexivity|]. etrans; [exact IH|].
  destruct (run m) as [Hst| ->]; [|reflexivity].
  exact (works_step_evolves cfg _ _ (run_works_ok m) Hst).
Qed.

(** Up to [m] the worker's place in the pool has changed, or it has not been set back. *)
Lemma place_kept i n m :
  (n ≤ m)%nat →
  (∃ j, (n ≤ j)%nat ∧ p_workers (wk_pool (f (S j))) !! i ≠ p_workers (wk_pool (f j)) !! i)
  ∨ (left_to_do cfg (f m) i ≤ left_to_do cfg (f n) i)%nat.
Proof.
  induction 1 as [|m Hm IH]; [by right|]. destruct IH as [?|IH]; [by left|].
  destruct (decide (p_workers (wk_pool (f (S m))) !! i = p_workers (wk_pool (f m)) !! i)) as [E|Hne];
    [right|by left; exists m].
  destruct (run m) as [Hst| ->]; [|done].
  destruct (works_step_worker cfg _ _ i (run_works_ok m) Hst E) as [Ew|[_ Hlt]]; [|lia].
  unfold worker_at in Ew. injection Ew as _ E1 E2. unfold left_to_do in *. by rewrite E1, E2.
Qed.

(** [Fulfill] returns: a worker that is not starved in its steps is not starved as a worker of
    the pool. *)
Lemma fulfil_returns i : worker_fair i → fair (λ n, wk_pool (f n)) i.
Proof.
  intros Hfair n. remember (left_to_do cfg (f n) i) as k eqn:Hk. revert n Hk.
  induction (lt_wf k) as [k _ IH]. intros n ->.
  destruct (Hfair n) as (m & Hm & Hf).
  destruct (place_kept i n m Hm) as [(j & Hj & Hne)|Hle]; [by exists j; auto|].
  destruct (decide (p_workers (wk_pool (f (S m))) !! i = p_workers (wk_pool (f m)) !! i)) as [E|Hne];
    [|by exists m; auto].
  destruct Hf as [Hf|Hf]; [by exists m; auto|].
  destruct (run m) as [Hst|Heq]; [|by rewrite Heq in Hf].
  destruct (works_step_worker cfg _ _ i (run_works_ok m) Hst E) as [Ew|[_ Hlt]]; [done|].
  destruct (IH (left_to_do cfg (f (S m)) i)) with (n := S m) as (m' & Hm' & Hf'); [lia|done|].
  exists m'. split; [lia|done].
Qed.

Lemma run_pool : pool_run (λ n, wk_pool (f n)).
Proof.
  intros n. destruct (run n) as [Hst| ->]; [|by right]. by eapply works_step_pool.
Qed.
End runs.

Section theorems.
Context `{Numeric}.

(** C25. Every accepted order is settled. From a fresh start over whatever an earlier life
    left, in a run of pool, requests, edits, callers and [Stop] together in which no worker is
    starved: an order that [Process] accepts is, from some later moment on, confirmed or
    cancelled for good, unless a database error ended a [Fulfill] of it in between; the sweeper
    finds such an order, and this holds again of its next acceptance. No [Fulfill] goes on for
    ever, and a worker inside one never waits for another. *)
Theorem accepted_orders_settle cfg p0 s f n id :
  NewPool cfg = Ok p0 → 0 < Count_ cfg →
  sys_ok cfg s → (∀ i, s_workers s i = Idle) → f 0%nat = works_start (Pool_Start cfg p0) s →
  works_run cfg f → (∀ i, worker_fair f i) →
  p_accepted (wk_pool (f (S n))) = p_accepted (wk_pool (f n)) ++ [id] →
  ∃ m, (n < m)%nat
    ∧ ((∀ k, (m ≤ k)%nat → terminal (s_tables (wk_sys (f k))) id)
       ∨ (times id (wk_failed (f n)) < times id (wk_failed (f m)))%nat).
Proof.
  intros Hnew Hc Hs Hidle H0 Hrun Hfair Hacc.
  assert (works_ok cfg (f 0%nat)) as Hstart by (rewrite H0; by apply works_start_ok).
  destruct (pool_liveness cfg p0 (λ n, wk_pool (f n)) Hnew) with (n := S n) as (m & Hm & Hsub);
    [by rewrite H0|done|by eapply run_pool|intros i; by eapply fulfil_returns|].
  pose proof (run_works_ok cfg f Hrun Hstart) as Hok. exists m. split; [lia|].
  destruct (wo_done _ _ (Hok m) id) as [Ht|Hle]; [left|right].
  { intros k Hk. eapply terminal_evolves; [|exact Ht]. by eapply run_evolves. }
  apply (times_submseteq id) in Hsub. rewrite Hacc, times_app, times_one in Hsub.
  pose proof (times_submseteq id _ _ (wo_failed _ _ (Hok n))) as Hf.
  pose proof (times_submseteq id _ _ (done_accepted _ (wo_pool _ _ (Hok n)))) as Hd. lia.
Qed.
End theorems.

(** ** A concrete run: one order is accepted, charged and confirmed *)
Definition idle_stages : nat → Stage := λ _, Away.
Definition unadjusted : Z → Z := λ _, 0.
Definition demo_queued : Pool := accept demo_oid (set_jobs [demo_oid] small_start).
Definition demo_taken : Pool := set_jobs [] (set_pworkers [Fulfilling demo_oid] demo_queued).
Definition demo_finished : Pool := finish demo_oid (set_pworkers [Waiting] demo_taken).

Definition demo_loaded : nat → WState :=
  set_worker 0 (Charging demo_oid demo_row 3 None) (λ _, Idle).
Definition demo_paying : nat → WState :=
  set_worker 0 (Finalizing demo_oid demo_row (Ok txn_1)) demo_loaded.
Definition demo_telling : nat → WState :=
  set_worker 0 (Announcing demo_oid (confirmed_message demo_oid)) demo_paying.
Definition txn_recorded : gmap string ChargeResult := {[ demo_key := txn_1 ]}.

Definition demo_sys : Sys := started demo_T.
Definition waiting_stages : nat → Stage := begin_work small_start demo_queued idle_stages.
Definition begun : nat → Stage := begin_work demo_queued demo_taken waiting_stages.
Definition underway : nat → Stage := set_stage 0 Underway begun.
Definition back : nat → Stage :=
  set_stage 0 (Returned false) (set_stage 0 Underway (set_stage 0 Underway underway)).
Definition demo_told : Sys :=
  mkSys demo_Tp txn_recorded (set_worker 0 Idle demo_telling)
    [(demo_oid, confirmed_message demo_oid)] unadjusted.

Definition demo_works (n : nat) : Works :=
  match n with
  | 0 => works_start small_start demo_sys
  | 1 => mkWorks demo_queued demo_sys waiting_stages []
  | 2 => mkWorks demo_taken demo_sys begun []
  | 3 => mkWorks demo_taken (mkSys demo_T ∅ demo_loaded [] unadjusted) underway []
  | 4 => mkWorks demo_taken (mkSys demo_T txn_recorded demo_paying [] unadjusted)
           (set_stage 0 Underway underway) []
  | 5 => mkWorks demo_taken (mkSys demo_Tp txn_recorded demo_telling [] unadjusted)
           (set_stage 0 Underway (set_stage 0 Underway underway)) []
  | 6 => mkWorks demo_taken demo_told back []
  | _ => mkWorks demo_finished demo_told (set_stage 0 Away back) []
  end%nat.

Lemma demo_known : is_Some (Tables_orders demo_T !! demo_oid).
Proof. eexists. evaluate. Qed.

Lemma demo_paid_outcome : tx_outcome (finalize_tx demo_row (Ok txn_1)) demo_T (Ok true) demo_Tp.
Proof. apply (ref_outcome _ demo_created.2); evaluate. Qed.

Lemma demo_charged :
  charge_effect (Payment_IdempotencyKey demo_row) ∅ (Ok txn_1) txn_recorded.
Proof. by split. Qed.

Lemma demo_works_run : works_run small_pool demo_works.
Proof.
  assert (∀ id, id ∈ [demo_oid] → is_Some (Tables_orders demo_T !! id)) as Hknown.
  { intros id ->%list_elem_of_singleton. exact demo_known. }
  intros [|[|[|[|[|[|[|n]]]]]]]; [left..|by right].
  - refine (works_pool _ small_start demo_queued demo_sys idle_stages [] _ eq_refl Hknown).
    apply (pool_process _ demo_oid), process_buffered; [done|cbn; lia].
  - refine (works_pool _ demo_queued demo_taken demo_sys waiting_stages [] _ eq_refl Hknown).
    by apply pool_work, (work_take demo_queued 0 demo_oid []).
  - refine (works_fulfil _ demo_taken demo_sys begun [] 0%nat demo_oid Underway _ eq_refl _).
    exact (fulfil_load small_pool 0 demo_oid demo_T ∅ (λ _, Idle) [] unadjusted demo_pay_id demo_row
      demo_row_stored eq_refl eq_refl).
  - refine (works_fulfil _ demo_taken _ underway [] 0%nat demo_oid Underway _ eq_refl _).
    exact (fulfil_charge small_pool 0 demo_oid demo_T ∅ demo_loaded [] unadjusted demo_row 2 None
      (Ok txn_1) txn_recorded eq_refl demo_charged).
  - refine (works_fulfil _ demo_taken _ _ [] 0%nat demo_oid Underway _ eq_refl _).
    exact (fulfil_finalize small_pool 0 demo_oid demo_T txn_recorded demo_paying [] unadjusted demo_row
      (Ok txn_1) (Ok true) demo_Tp eq_refl demo_paid_outcome).
  - refine (works_fulfil _ demo_taken _ _ [] 0%nat demo_oid (Returned false) _ eq_refl _).
    exact (fulfil_announce small_pool 0 demo_oid demo_Tp txn_recorded demo_telling [] unadjusted
      (confirmed_message demo_oid) demo_Tp eq_refl (elsewhere_refl _) eq_refl).
  - exact (works_return _ demo_taken demo_told back [] 0%nat demo_oid false eq_refl eq_refl).
Qed.

Lemma demo_works_fair i : worker_fair demo_works i.
Proof.
  intros n. exists (7 + n)%nat. split; [lia|]. left. cbn. intros (p' & Hw & _).
  destruct Hw as [k id jobs _ Hj|k id Hk|k _ _ Hc]; [done| |done].
  destruct k as [|k]; [done|]. by destruct k.
Qed.

Lemma accepted_orders_settle_witness :
  ∃ m, (∀ k, (m ≤ k)%nat → terminal (s_tables (wk_sys (demo_works k))) demo_oid)
       ∨ (0 < times demo_oid (wk_failed (demo_works m)))%nat.
Proof.
  destruct (accepted_orders_settle small_pool small_new demo_sys demo_works 0 demo_oid)
    as (m & _ & Hm).
  - reflexivity.
  - reflexivity.
  - exact (demo_started small_pool).
  - reflexivity.
  - reflexivity.
  - exact demo_works_run.
  - exact demo_works_fair.
  - reflexivity.
  - exists m. exact Hm.
Defined.
