(* ===== verification/Sweeper.v ===== *)
(** * The reconciliation sweeper ([internal/workers/sweeper.go])

    [reclaim] lists stale pending orders and hands them to the pool again; [run] does it
    at start and on every tick until [quit]. *)

From Stdlib Require Import ZArith Lia.
From stdpp Require Import base tactics list gmap strings.
From S2P Require Import Prelude GoStd Errors Models Database RefDb OrderRepository Ledger.
From S2P Require Import LedgerSpec Idempotency OrderService OrderServiceSpec Config.
From S2P Require Import FulfillmentSpec PipelineSpec.

Open Scope Z_scope.

(** [type StaleLister interface], [type Enqueuer interface]: what the sweeper asks of the
    order repository and of the pool. *)
Class StaleLister (W : Type) : Type := {
  StaleLister_ListStalePending : Time → Z → Z → M W (res (list Z));
}.
Class Enqueuer (W : Type) : Type := { Enqueuer_Process : Z → M W unit }.
#[export] Instance orders_stale `{OrderRepository W} : StaleLister W :=
  {| StaleLister_ListStalePending := ListStalePending |}.
#[export] Instance processor_enqueuer `{OrderProcessor W} : Enqueuer W := {| Enqueuer_Process := Process |}.

Section sweeper.
Context `{StaleLister W, Enqueuer W}.
Variable cfg : WorkerConfig.

(** [if batch <= 0 { batch = s.cfg.QueueSize }] *)
Definition sweep_batch : Z := if SweepBatchSize cfg <=? 0 then QueueSize cfg else SweepBatchSize cfg.

Fixpoint enqueue_all (ids : list Z) : M W unit :=
  match ids with
  | [] => mret ()
  | id :: ids => _ ← Enqueuer_Process id; enqueue_all ids
  end.

(** [now] is [time.Now()] inside [ListStalePending]. *)
Definition Sweeper_reclaim (now : Time) : M W unit :=
  r ← StaleLister_ListStalePending now (StaleAfter cfg) sweep_batch;
  match r with
  | Err _ => mret ()
  | Ok orderIDs => enqueue_all orderIDs
  end.

(** [ticks]: the instants at which the ticker fired before [quit] was taken. *)
Fixpoint Sweeper_loop (ticks : list Time) : M W unit :=
  match ticks with
  | [] => mret ()
  | now :: ticks => _ ← Sweeper_reclaim now; Sweeper_loop ticks
  end.
(** The ticker panics on a non-positive interval, and takes the process with it. *)
Definition Sweeper_run (now : Time) (ticks : list Time) : M W (go unit) :=
  _ ← Sweeper_reclaim now;
  if SweepInterval cfg <=? 0 then mret (Err TickerInterval)
  else _ ← Sweeper_loop ticks; mret (Ok ()).
End sweeper.

(** Without a positive interval the loop never starts. *)
Lemma Sweeper_run_panics `{StaleLister W, Enqueuer W} cfg now ticks (w : W) :
  SweepInterval cfg ≤ 0 →
  Sweeper_run cfg now ticks w = (Err TickerInterval, (Sweeper_reclaim cfg now w).2).
Proof.
  intros Hi. unfold Sweeper_run, mbind, M_bind. destruct (Sweeper_reclaim cfg now w) as [u w1].
  cbn. by rewrite (proj2 (Z.leb_le _ _)).
Qed.

(** ** What a sweep selects *)
Definition stale (now olderThan : Z) (p : Payment) : bool :=
  bool_decide (Payment_Status p = PaymentStatusPending)
  && (Payment_CreatedAt p <? now - olderThan).

Section sweeps.
Context `{LawfulDb D} {S : Type}.
Implicit Types (w : World D S (list Z)) (d : D).

Lemma enqueue_all_queue ids w :
  enqueue_all ids w = ((), mkWorld (world_db w) (world_store w) (world_queue w ++ ids)).
Proof.
  revert w. induction ids as [|id ids IH]; intros [d s q]; cbn [enqueue_all].
  - unfold mret, M_ret. cbn. by rewrite app_nil_r.
  - unfold mbind, M_bind. cbn. rewrite IH. cbn. by rewrite <- (assoc (++)).
Qed.

Lemma ListStalePending_spec now olderThan limit d r d' :
  ListStalePending now olderThan limit d = (r, d') →
  view d' = view d
  ∧ match r with
    | Ok ids => ∃ all, all ≡ₚ matching (stale now olderThan) (Tables_payments (view d))
                  ∧ weakly_by Payment_CreatedAt all
                  ∧ ids = Payment_OrderID <$> limit_rows limit all
    | Err e => opaque e = true
    end.
Proof.
  intros (rb & d1 & Hs & Hk)%M_bind_inv. apply exec_sem in Hs as [Hv Hs].
  destruct rb as [l|e]; injection Hk as <- <-; (split; [done|]); [|done].
  destruct Hs as (all & Hp & Ho & ->). exists all. split_and!; [done|by apply Ho|done].
Qed.

(** C27. A sweep re-enqueues the oldest stale orders. When [ListStalePending] answers, it
    queues, oldest first, exactly the ids it listed: a prefix of the orders whose payment
    is still pending and was created before [now - StaleAfter], at most [SweepBatchSize] of
    them (or [QueueSize] without a positive batch size) and all of them when they fit. Only
    when that query returned an error does a sweep queue nothing; nothing is written either
    way. *)
Theorem reclaim_oldest_stale cfg now w w' :
  Sweeper_reclaim cfg now w = ((), w') →
  view (world_db w') = view (world_db w) ∧ world_store w' = world_store w
  ∧ ∃ limit listed,
      ListStalePending now (StaleAfter cfg) limit (world_db w) = (listed, world_db w')
      ∧ match listed with
        | Err e => opaque e = true ∧ world_queue w' = world_queue w
        | Ok ids => world_queue w' = world_queue w ++ ids
            ∧ ∃ all, all ≡ₚ matching (stale now (StaleAfter cfg)) (Tables_payments (view (world_db w)))
                ∧ weakly_by Payment_CreatedAt all
                ∧ (0 < SweepBatchSize cfg →
                     ids = Payment_OrderID <$> take (Z.to_nat (SweepBatchSize cfg)) all)
                ∧ (SweepBatchSize cfg ≤ 0 → 0 ≤ QueueSize cfg →
                     ids = Payment_OrderID <$> take (Z.to_nat (QueueSize cfg)) all)
        end.
Proof.
  destruct w as [d s q]. intros (r & [d1 s1 q1] & Hl & Hk)%M_bind_inv.
  cbn in Hl. unfold on_db, on in Hl. cbn in Hl.
  destruct (orderRepository_ListStalePending now (StaleAfter cfg) (sweep_batch cfg) d)
    as [r' d2] eqn:El. injection Hl as <- <- <- <-.
  pose proof El as [Hv Hr]%ListStalePending_spec.
  destruct r' as [ids|e]; [rewrite enqueue_all_queue in Hk|]; injection Hk as <-; cbn;
    (split_and!; [done..|]); eexists _, _; (split; [exact El|]); cbn; [|done].
  split; [done|]. destruct Hr as (all & Hp & Hs & ->). exists all. split_and!; [done..| |];
    unfold sweep_batch, limit_rows.
  - intros Hb. rewrite (proj2 (Z.leb_gt _ _) Hb), (proj2 (Z.ltb_ge _ _)) by lia. done.
  - intros Hb Hq. rewrite (proj2 (Z.leb_le _ _) Hb), (proj2 (Z.ltb_ge _ _)) by lia. done.
Qed.

(** The fallback does not always keep the sweeper alive: with [SweepBatchSize <= 0] and
    [QueueSize = 0] a sweep queues nothing, however many orders are stranded. *)
Theorem reclaim_disabled cfg now w w' :
  SweepBatchSize cfg ≤ 0 → QueueSize cfg = 0 →
  Sweeper_reclaim cfg now w = ((), w') → world_queue w' = world_queue w.
Proof.
  destruct w as [d s q]. intros Hb Hq (r & [d1 s1 q1] & Hl & Hk)%M_bind_inv.
  cbn in Hl. unfold on_db, on in Hl. cbn in Hl.
  destruct (orderRepository_ListStalePending now (StaleAfter cfg) (sweep_batch cfg) d)
    as [r' d2] eqn:El. injection Hl as <- <- <- <-.
  apply ListStalePending_spec in El as [_ Hr]. destruct r' as [ids|e]; [|by injection Hk as <-].
  destruct Hr as (all & _ & _ & ->).
  unfold sweep_batch in Hk. rewrite (proj2 (Z.leb_le _ _) Hb), Hq in Hk. cbn in Hk.
  by injection Hk as <-.
Qed.
End sweeps.

(** ** Witnesses *)
Definition demo_sweep (cfg : WorkerConfig) : unit * World RefDb unit (list Z) :=
  Sweeper_reclaim cfg (10 * Minute) (mkWorld demo_created.2 () []).

Lemma reclaim_oldest_stale_witness :
  world_queue (demo_sweep default_worker).2 = [demo_oid]
  ∧ view (world_db (demo_sweep default_worker).2) = demo_T.
Proof.
  split; [evaluate|].
  apply (reclaim_oldest_stale default_worker (10 * Minute) (mkWorld demo_created.2 () [])
    (demo_sweep default_worker).2).
  evaluate.
Defined.

(** A pool without a buffer and no batch size. *)
Definition unbuffered : WorkerConfig :=
  mkWorkerConfig 5 0 3 (200 * Millisecond) (5 * Second) (5 * Second) (30 * Second) Minute
    0 one_fifth (10 * Second).

Lemma reclaim_disabled_witness : world_queue (demo_sweep unbuffered).2 = [].
Proof.
  apply (reclaim_disabled unbuffered (10 * Minute) (mkWorld demo_created.2 () [])
    (demo_sweep unbuffered).2); [done|done|evaluate].
Defined.
