(* ===== verification/Auth.v ===== *)
(** * Tokens ([internal/auth/token.go])

    [TokenManager] mints and verifies the signed tokens that authenticate requests. The
    JWT library is not part of the program: it is the class [Jwt], and [LawfulJwt] states
    what the code relies on. [signed] is the library's notion of a token that carries
    claims under a signature valid for a method and a key. *)

From Stdlib Require Import ZArith Lia Ascii.
From stdpp Require Import base tactics list strings.
From S2P Require Import Prelude GoStd Errors.

Open Scope Z_scope.

(** [time.Now()] *)
Class Clock (W : Type) : Type := { Now : M W Time }.

(** ** Claims *)

(** [jwt.RegisteredClaims]; a nil date is [None]. *)
Record RegisteredClaims : Type := mkRegisteredClaims {
  Registered_Issuer : string;
  Registered_Subject : string;
  Registered_Audience : list string;
  Registered_ExpiresAt : option Time;
  Registered_NotBefore : option Time;
  Registered_IssuedAt : option Time;
  Registered_ID : string;
}.

Record Claims : Type := mkClaims {
  Claims_UserID : Z;
  Claims_Role : string;
  Claims_Registered : RegisteredClaims;
}.

(** The dynamic type of [t.Method], with the algorithm's name. *)
Inductive SigningMethod : Type :=
| SigningMethodHMAC (alg : string)
| SigningMethodOther (alg : string).
Definition SigningMethodHS256 : SigningMethod := SigningMethodHMAC "HS256".

(** ** The JWT library *)
Class Jwt : Type := {
  NewNumericDate : Time → Time;
  SignedString : SigningMethod → Claims → string → res string;
  ParseWithClaims : Time → string → (SigningMethod → res string) → res Claims;
}.

(** [exp] and [nbf] as the library's default validator checks them. *)
Definition in_time (now : Time) (c : Claims) : Prop :=
  (∀ t, Registered_ExpiresAt (Claims_Registered c) = Some t → now < t)
  ∧ (∀ t, Registered_NotBefore (Claims_Registered c) = Some t → t ≤ now).

Definition ascii_string (s : string) : Prop :=
  Forall (λ c, (N_of_ascii c < 128)%N) (String.list_ascii_of_string s).

(** Claims that JSON carries unchanged: ASCII strings, dates of the token's precision. *)
Definition plain_claims `{Jwt} (c : Claims) : Prop :=
  let r := Claims_Registered c in
  in_int (Claims_UserID c) = true
  ∧ ascii_string (Claims_Role c) ∧ ascii_string (Registered_Issuer r)
  ∧ ascii_string (Registered_Subject r) ∧ ascii_string (Registered_ID r)
  ∧ Forall ascii_string (Registered_Audience r)
  ∧ ∀ t, Registered_ExpiresAt r = Some t ∨ Registered_NotBefore r = Some t
         ∨ Registered_IssuedAt r = Some t → ∃ t0, t = NewNumericDate t0.

Class LawfulJwt `{Jwt} : Type := {
  signed : SigningMethod → string → Claims → string → Prop;
  SignedString_signed : ∀ m c key tok,
    plain_claims c → SignedString m c key = Ok tok → signed m key c tok;
  SignedString_error : ∀ m c key e, SignedString m c key = Err e → opaque e = true;
  ParseWithClaims_sound : ∀ now tok keyfunc c,
    ParseWithClaims now tok keyfunc = Ok c →
    ∃ m key, keyfunc m = Ok key ∧ signed m key c tok ∧ in_time now c;
  ParseWithClaims_complete : ∀ now tok keyfunc c m key,
    signed m key c tok → keyfunc m = Ok key → in_time now c →
    ParseWithClaims now tok keyfunc = Ok c;
  (** The token spells out its method and its claims. *)
  signed_functional : ∀ m1 k1 c1 m2 k2 c2 tok,
    signed m1 k1 c1 tok → signed m2 k2 c2 tok → m1 = m2 ∧ c1 = c2;
  NewNumericDate_precision : ∀ t, t - Second < NewNumericDate t ≤ t;
}.

(** ** [jwtManager] *)
Class TokenManager (W : Type) : Type := {
  Generate : Z → string → M W (res (string * Time));
  Parse : string → M W (res Claims);
}.

Record jwtManager : Type := mkJwtManager { jwt_secret : string; jwt_ttl : Z }.
Definition NewJWTManager (secret : string) (ttl : Z) : jwtManager := mkJwtManager secret ttl.

Section manager.
Context `{Jwt}.

Definition issued_claims (userID : Z) (role : string) (now expiresAt : Time) : Claims :=
  mkClaims userID role
    (mkRegisteredClaims "" (Itoa userID) [] (Some (NewNumericDate expiresAt)) None
       (Some (NewNumericDate now)) "").

(** The key function: only HMAC methods get the secret. *)
Definition jwt_keyfunc (m : jwtManager) (method : SigningMethod) : res string :=
  match method with
  | SigningMethodHMAC _ => Ok (jwt_secret m)
  | SigningMethodOther alg => Err (OtherError ("unexpected signing method: " +:+ alg))
  end.

Context `{Clock W}.

Definition jwtManager_Generate (m : jwtManager) (userID : Z) (role : string)
  : M W (res (string * Time)) :=
  now ← Now;
  let expiresAt := now + jwt_ttl m in
  let claims := issued_claims userID role now expiresAt in
  match SignedString SigningMethodHS256 claims (jwt_secret m) with
  | Err e => mret (Err e)
  | Ok token => mret (Ok (token, expiresAt))
  end.

(** The library reads the clock for the expiry. *)
Definition jwtManager_Parse (m : jwtManager) (tokenStr : string) : M W (res Claims) :=
  now ← Now;
  mret (ParseWithClaims now tokenStr (jwt_keyfunc m)).

Definition jwt_tokens (m : jwtManager) : TokenManager W := {|
  Generate := jwtManager_Generate m;
  Parse := jwtManager_Parse m;
|}.
End manager.

(** ** A reference library

    The token spells out the method, the key and the claims, field by field: no secrecy,
    but the laws hold and runs evaluate. *)

(** Fields: each character after an ["x"], each end a ["."]. *)
Fixpoint write_field (s rest : string) : string :=
  match s with
  | EmptyString => String "." rest
  | String c s => String "x" (String c (write_field s rest))
  end.
Definition write_fields (l : list string) : string := foldr write_field "" l.

Fixpoint read_fields (s : string) : option (list string) :=
  match s with
  | EmptyString => Some []
  | String "." s => fs ← read_fields s; Some ("" :: fs)
  | String "x" (String c s) =>
      match read_fields s with Some (f :: fs) => Some (String c f :: fs) | _ => None end
  | _ => None
  end.

Lemma read_write_fields l : read_fields (write_fields l) = Some l.
Proof.
  induction l as [|f l IH]; [done|]. cbn. fold (write_fields l).
  induction f as [|c f IHf]; cbn; [by rewrite IH|by rewrite IHf].
Qed.

(** Numbers in binary; an absent one is the empty field. *)
Fixpoint binary (p : positive) : string :=
  match p with
  | xH => ""
  | xO p => String "0" (binary p)
  | xI p => String "1" (binary p)
  end.
Fixpoint unbinary (s : string) : positive :=
  match s with
  | EmptyString => xH
  | String "0" s => xO (unbinary s)
  | String _ s => xI (unbinary s)
  end.
Lemma unbinary_binary p : unbinary (binary p) = p.
Proof. induction p; cbn; congruence. Qed.

Definition Z_field (z : option Z) : string :=
  match z with
  | None => ""
  | Some 0 => "0"
  | Some (Z.pos p) => String "+" (binary p)
  | Some (Z.neg p) => String "-" (binary p)
  end.
Definition field_Z (s : string) : option Z :=
  match s with
  | String "0" _ => Some 0
  | String "+" s => Some (Z.pos (unbinary s))
  | String "-" s => Some (Z.neg (unbinary s))
  | _ => None
  end.
Lemma field_Z_field z : field_Z (Z_field z) = z.
Proof. destruct z as [[|p|p]|]; cbn; by rewrite ?unbinary_binary. Qed.

Definition ref_token (m : SigningMethod) (key : string) (c : Claims) : string :=
  let r := Claims_Registered c in
  let '(kind, alg) := match m with SigningMethodHMAC a => ("H", a) | SigningMethodOther a => ("O", a) end in
  write_fields (kind :: alg :: key :: Z_field (Some (Claims_UserID c)) :: Claims_Role c
    :: Registered_Issuer r :: Registered_Subject r :: Z_field (Registered_ExpiresAt r)
    :: Z_field (Registered_NotBefore r) :: Z_field (Registered_IssuedAt r) :: Registered_ID r
    :: Registered_Audience r).

Definition ref_decode (tok : string) : option (SigningMethod * string * Claims) :=
  match read_fields tok with
  | Some (kind :: alg :: key :: uid :: role :: iss :: sub :: exp :: nbf :: iat :: jti :: aud) =>
      Some (if bool_decide (kind = "H") then SigningMethodHMAC alg else SigningMethodOther alg,
            key, mkClaims (default 0 (field_Z uid)) role
                   (mkRegisteredClaims iss sub aud (field_Z exp) (field_Z nbf) (field_Z iat) jti))
  | _ => None
  end.

Lemma ref_decode_token m key c : ref_decode (ref_token m key c) = Some (m, key, c).
Proof.
  unfold ref_decode, ref_token. destruct m, c as [uid role []];
    rewrite read_write_fields, !field_Z_field; done.
Qed.

Definition in_timeb (now : Time) (c : Claims) : bool :=
  let r := Claims_Registered c in
  match Registered_ExpiresAt r with Some t => now <? t | None => true end
  && match Registered_NotBefore r with Some t => t <=? now | None => true end.

Definition ref_parse (now : Time) (tok : string) (keyfunc : SigningMethod → res string)
  : res Claims :=
  match ref_decode tok with
  | Some (m, key, c) =>
      match keyfunc m with
      | Err e => Err e
      | Ok key' => if bool_decide (key' = key) && in_timeb now c then Ok c
                   else Err (OtherError "token is invalid")
      end
  | None => Err (OtherError "token is malformed")
  end.

#[export] Instance ref_jwt : Jwt := {|
  NewNumericDate := λ t, t - t mod Second;
  SignedString := λ m c key, Ok (ref_token m key c);
  ParseWithClaims := ref_parse;
|}.

(** A clock that shows the given instants, one per reading. *)
#[export] Instance readings_clock : Clock (list Time) := {|
  Now := λ l, match l with t :: rest => (t, rest) | [] => (0, []) end;
|}.

(** A manager for concrete runs: tokens live for an hour. *)
Definition demo_manager : jwtManager := NewJWTManager "s3cret" (3600 * Second).

Lemma in_timeb_spec now c : in_timeb now c = true ↔ in_time now c.
Proof.
  assert (∀ (o : option Time) f P, (∀ t, f t = true ↔ P t) →
    match o with Some t => f t | None => true end = true ↔ ∀ t, o = Some t → P t) as Ho.
  { intros [t|] f P Hf; [|done]. rewrite Hf. split; [by intros ? ? [= <-]|auto]. }
  unfold in_timeb, in_time. rewrite andb_true_iff.
  rewrite (Ho _ (λ t, now <? t) _ (λ t, Z.ltb_lt now t)).
  by rewrite (Ho _ (λ t, t <=? now) _ (λ t, Z.leb_le t now)).
Qed.

#[export] Instance ref_jwt_lawful : LawfulJwt.
Proof.
  refine {| signed := λ m key c tok, ref_decode tok = Some (m, key, c) |}.
  - intros m c key tok _ [= <-]. apply ref_decode_token.
  - done.
  - intros now tok keyfunc c. cbn. unfold ref_parse.
    destruct (ref_decode tok) as [[[m key] c']|]; [|done].
    destruct (keyfunc m) as [key'|e] eqn:Hk; [|done].
    destruct (_ && _) eqn:E; [|done]. intros [= <-]. bool_to_prop. subst key'.
    exists m, key. split_and!; [done..|by apply in_timeb_spec].
  - intros now tok keyfunc c m key Htok Hk Ht. cbn. unfold ref_parse. rewrite Htok, Hk.
    rewrite bool_decide_true by done. apply in_timeb_spec in Ht. by rewrite Ht.
  - intros m1 k1 c1 m2 k2 c2 tok E1 E2. rewrite E1 in E2. by injection E2.
  - intros t. cbn. pose proof (Z.mod_pos_bound t Second). unfold Second, Millisecond in *. lia.
Defined.

(** ** Lemmas *)
Section lemmas.
Context `{LawfulJwt} `{Clock W}.
Implicit Types (w : W) (m : jwtManager).

Lemma jwt_keyfunc_ok m method key :
  jwt_keyfunc m method = Ok key → (∃ alg, method = SigningMethodHMAC alg) ∧ key = jwt_secret m.
Proof. destruct method; cbn; [|done]. intros [= <-]. eauto. Qed.

Lemma Parse_inv m tok w r w' :
  jwtManager_Parse m tok w = (r, w') →
  ∃ now, Now w = (now, w') ∧ r = ParseWithClaims now tok (jwt_keyfunc m).
Proof.
  intros (now & w1 & Hn & Hr)%M_bind_inv. injection Hr as <- <-. eauto.
Qed.

Lemma Generate_inv m userID role w r w' :
  jwtManager_Generate m userID role w = (r, w') →
  ∃ now, Now w = (now, w') ∧
    (let expiresAt := now + jwt_ttl m in
     match SignedString SigningMethodHS256 (issued_claims userID role now expiresAt)
             (jwt_secret m) with
     | Ok token => r = Ok (token, expiresAt)
     | Err e => r = Err e
     end).
Proof.
  intros (now & w1 & Hn & Hr)%M_bind_inv. exists now. cbv zeta in *.
  destruct (SignedString _ _ _); injection Hr as <- <-; done.
Qed.

Lemma digits_ascii u : ascii_string (DecimalString.NilEmpty.string_of_uint u).
Proof.
  unfold ascii_string.
  induction u; cbn [DecimalString.NilEmpty.string_of_uint String.list_ascii_of_string];
    constructor; done.
Qed.

Lemma Itoa_ascii z : ascii_string (Itoa z).
Proof.
  destruct (Z_lt_le_dec z 0) as [Hneg|Hpos].
  - destruct z as [|p|p]; [lia..|]. rewrite Itoa_neg. constructor; [done|]. apply digits_ascii.
  - destruct (Itoa_nonneg z Hpos) as (u & _ & -> & _). apply digits_ascii.
Qed.

Lemma issued_plain userID role now expiresAt :
  in_int userID = true → ascii_string role →
  plain_claims (issued_claims userID role now expiresAt).
Proof.
  intros Hi Hr. unfold plain_claims. cbn.
  split_and!; try done; [constructor|apply Itoa_ascii|constructor|].
  intros t [[= <-]|[[=]|[= <-]]]; eauto.
Qed.

(** A token of the manager's own parses to its claims before its expiry date, and never
    from then on. *)
Lemma minted_parses m userID role t0 tok now :
  in_int userID = true → ascii_string role →
  let claims := issued_claims userID role t0 (t0 + jwt_ttl m) in
  SignedString SigningMethodHS256 claims (jwt_secret m) = Ok tok →
  ∀ c, ParseWithClaims now tok (jwt_keyfunc m) = Ok c
       ↔ c = claims ∧ now < NewNumericDate (t0 + jwt_ttl m).
Proof.
  intros Hi Hr claims Hs c. apply SignedString_signed in Hs; [|by apply issued_plain].
  split.
  - intros (m' & key & _ & Hsig & Ht & _)%ParseWithClaims_sound.
    destruct (signed_functional _ _ _ _ _ _ _ Hs Hsig) as [_ <-].
    split; [done|]. by apply Ht.
  - intros [-> Ht]. eapply ParseWithClaims_complete; [exact Hs|done|].
    split; cbn; [by intros t [= <-]|done].
Qed.
End lemmas.
