(* ===== verification/Connections.v ===== *)
(** * Connections and migrations ([pkg/database], [pkg/redis])

    How the database and Redis clients are opened and checked and the schema brought up to
    date. The drivers, the ORM and the migration library are not part of the program: they
    are the operations of [SqlLib], [MigrateLib] and [RedisLib], on handles of their own. *)

From Stdlib Require Import ZArith Lia.
From stdpp Require Import base tactics strings.
From S2P Require Import Prelude GoStd Errors Config.

Open Scope Z_scope.

(** ** The libraries *)
Class SqlLib (W G Q : Type) : Type := {
  gorm_Open : string → M W (res G);
  gorm_DB : G → M W (res Q);
  SetMaxOpenConns : Q → Z → M W unit;
  SetMaxIdleConns : Q → Z → M W unit;
  SetConnMaxLifetime : Q → Z → M W unit;
  SetConnMaxIdleTime : Q → Z → M W unit;
  sql_Ping : Q → M W (res unit);
  sql_Close : Q → M W (res unit);
}.

Class MigrateLib (W Q Src Drv Mig : Type) : Type := {
  iofs_New : M W (res Src);
  src_Close : Src → M W (res unit);
  WithInstance : Q → M W (res Drv);
  NewWithInstance : Src → Drv → M W (res Mig);
  Up : Mig → M W (res unit);
  Is_ErrNoChange : error → bool;   (* [errors.Is(err, migrate.ErrNoChange)] *)
}.

Class RedisLib (W C : Type) : Type := {
  redis_NewClient : string → string → Z → M W C;   (* address, password, database *)
  redis_Ping : C → M W (res unit);
  redis_Close : C → M W (res unit);
}.

(** ** [database.go] *)
Definition maxOpenConns : Z := 50.
Definition maxIdleConns : Z := 25.
Definition connMaxLifetime : Z := 30 * Minute.
Definition connMaxIdleTime : Z := 5 * Minute.

Definition dsn (cfg : DatabaseConfig) : string :=
  "host=" +:+ DatabaseConfig_Host cfg +:+ " port=" +:+ Itoa (DatabaseConfig_Port cfg)
  +:+ " user=" +:+ DatabaseConfig_User cfg +:+ " password=" +:+ DatabaseConfig_Password cfg
  +:+ " dbname=" +:+ DatabaseConfig_Name cfg +:+ " sslmode=" +:+ DatabaseConfig_SSLMode cfg.

(** [if err != nil { return fmt.Errorf("<what>: %w", err) }] around a call. *)
Definition wrapping {W A} (what : string) (m : M W (res A)) : M W (res A) :=
  r ← m; mret (match r with Ok a => Ok a | Err err => Err (Wrapf what err) end).

Section database.
Context `{SqlLib W G Q}.

Definition database_New (cfg : DatabaseConfig) : M W (res G) :=
  db <-? wrapping "open db" (gorm_Open (dsn cfg));;
  sqlDB <-? wrapping "get sql.DB" (gorm_DB db);;
  _ ← SetMaxOpenConns sqlDB maxOpenConns;
  _ ← SetMaxIdleConns sqlDB maxIdleConns;
  _ ← SetConnMaxLifetime sqlDB connMaxLifetime;
  _ ← SetConnMaxIdleTime sqlDB connMaxIdleTime;
  _ <-? wrapping "ping db" (sql_Ping sqlDB);;
  mret (Ok db).

(** ** [migrate.go] *)
Context `{!MigrateLib W Q Src Drv Mig}.

Definition run_migrations (sqlDB : Q) (src : Src) : M W (res unit) :=
  driver <-? wrapping "create migration driver" (WithInstance sqlDB);;
  m <-? wrapping "create migrator" (NewWithInstance src driver);;
  up ← Up m;
  match up with
  | Ok _ => mret (Ok ())
  | Err err => if Is_ErrNoChange err then mret (Ok ()) else mret (Err (Wrapf "run migrations" err))
  end.

(** The source is closed on every path once it is open; the shared pool never is. *)
Definition Migrate (db : G) : M W (res unit) :=
  sqlDB <-? wrapping "get sql.DB" (gorm_DB db);;
  src <-? wrapping "create migration source" iofs_New;;
  r ← run_migrations sqlDB src;
  _ ← src_Close src;
  mret r.

(** [dbStopper.Stop] *)
Definition dbStopper_Stop (db : G) : M W unit :=
  r ← gorm_DB db;
  match r with
  | Ok sqlDB => _ ← sql_Close sqlDB; mret ()
  | Err _ => mret ()
  end.
End database.

(** ** [redis.go] *)
Section redis.
Context `{RedisLib W C}.

Definition redis_New (cfg : RedisConfig) : M W (res C) :=
  client ← redis_NewClient (RedisConfig_Host cfg +:+ ":" +:+ Itoa (RedisConfig_Port cfg))
             (RedisConfig_Password cfg) (RedisConfig_DB cfg);
  _ <-? wrapping "ping redis" (redis_Ping client);;
  mret (Ok client).

(** [redisStopper.Stop] *)
Definition redisStopper_Stop (client : C) : M W unit := _ ← redis_Close client; mret ().
End redis.

(** ** Lemmas *)
Lemma wrapping_inv {W A} what (m : M W (res A)) w r w' :
  wrapping what m w = (r, w') →
  (∃ a, r = Ok a ∧ m w = (Ok a, w')) ∨ ∃ cause, r = Err (Wrapf what cause) ∧ m w = (Err cause, w').
Proof.
  intros ([a|e] & w1 & Hm & Hr)%M_bind_inv; injection Hr as <- <-; eauto.
Qed.

(** Opening fails at a named step. *)
Lemma database_New_error `{SqlLib W G Q} cfg w e w' :
  database_New cfg w = (Err e, w') →
  ∃ what cause, e = Wrapf what cause ∧ what ∈ ["open db"; "get sql.DB"; "ping db"].
Proof.
  intros Hr. apply try_inv in Hr as [(db & w1 & _ & Hr)|(e1 & Hr & [= <-])].
  2: { apply wrapping_inv in Hr as [(? & [=] & _)|(cause & [= ->] & _)].
       eexists _, cause. split; [done|left]. }
  apply try_inv in Hr as [(sqlDB & w2 & _ & Hr)|(e1 & Hr & [= <-])].
  2: { apply wrapping_inv in Hr as [(? & [=] & _)|(cause & [= ->] & _)].
       eexists _, cause. split; [done|right; left]. }
  do 4 apply M_bind_inv in Hr as (? & ? & _ & Hr).
  apply try_inv in Hr as [(? & ? & _ & [=])|(e1 & Hr & [= <-])].
  apply wrapping_inv in Hr as [(? & [=] & _)|(cause & [= ->] & _)].
  eexists _, cause. split; [done|do 2 right; left].
Qed.

(** An up-to-date schema is not an error. *)
Lemma run_migrations_no_change `{MigrateLib W Q Src Drv Mig} (sqlDB : Q) (src : Src)
  w w1 w2 w3 driver m e :
  WithInstance sqlDB w = (Ok driver, w1) → NewWithInstance src driver w1 = (Ok m, w2) →
  Up m w2 = (Err e, w3) → Is_ErrNoChange e = true →
  run_migrations sqlDB src w = (Ok (), w3).
Proof.
  intros Hd Hm Hu He. unfold run_migrations, try, wrapping, mbind, M_bind.
  rewrite Hd. unfold mret, M_ret. rewrite Hm, Hu, He. done.
Qed.
