(* ===== verification/Lifecycle.v ===== *)
(** * The running server and its shutdown ([internal/server], [internal/workers])

    Request handlers, the sweeper's goroutine, the workers and the main goroutine together:
    [Run] waits, then stops HTTP, sweeper, pool, hub, database and Redis one after the other.
    Handlers and sweeper call [Pool.Process]; a call on a closed channel can panic. A
    WebSocket connection is hijacked by the upgrade: from then on the HTTP server does not
    wait for it, while its [Connect] handler still reads the notifications it replays. What
    a handler or a sweep does to the tables is not repeated here, only when it runs. *)

From Stdlib Require Import ZArith Lia.
From stdpp Require Import base tactics list relations.
From S2P Require Import Prelude GoStd Config Pool PoolSpec.

Open Scope Z_scope.

(** ** State *)

(** [Sweeper.run]: inside the query of [reclaim], inside its loop over the ids it returned,
    at the [select], or returned with [done] closed. *)
Inductive sweep_phase : Type :=
| Listing | Enqueuing (ids : list Z) | Selecting | SweeperReturned.

(** Where [Run] is: before the shutdown, or inside the [Stop] of a component. *)
Inductive main_phase : Type :=
| Serving | StoppingHTTP | StoppingSweeper | StoppingPool | DrainingPool
| StoppingHub | ClosingDB | ClosingRedis | Finished.

(** [StoppingPool] is between the two closes of [Pool.Stop], [DrainingPool] its wait. *)
Definition main_rank (p : main_phase) : nat :=
  match p with
  | Serving => 0 | StoppingHTTP => 1 | StoppingSweeper => 2 | StoppingPool => 3
  | DrainingPool => 4 | StoppingHub => 5 | ClosingDB => 6 | ClosingRedis => 7 | Finished => 8
  end.

Record System : Type := mkSystem {
  sy_main : main_phase;
  sy_handlers : nat;        (* requests in flight that the HTTP server waits for *)
  sy_replays : nat;         (* [Connect] handlers past the upgrade, still replaying *)
  sy_timed_out : bool;      (* the HTTP server gave up waiting for some *)
  sy_sweep : sweep_phase;
  sy_interval : Z;          (* [cfg.SweepInterval] *)
  sy_quit : bool;           (* close(s.quit) of the sweeper *)
  sy_pool : Pool;
}.

Definition set_main (x : main_phase) (s : System) : System :=
  mkSystem x (sy_handlers s) (sy_replays s) (sy_timed_out s) (sy_sweep s) (sy_interval s)
    (sy_quit s) (sy_pool s).
Definition set_handlers (x : nat) (s : System) : System :=
  mkSystem (sy_main s) x (sy_replays s) (sy_timed_out s) (sy_sweep s) (sy_interval s)
    (sy_quit s) (sy_pool s).
Definition set_replays (x : nat) (s : System) : System :=
  mkSystem (sy_main s) (sy_handlers s) x (sy_timed_out s) (sy_sweep s) (sy_interval s)
    (sy_quit s) (sy_pool s).
Definition set_timed_out (x : bool) (s : System) : System :=
  mkSystem (sy_main s) (sy_handlers s) (sy_replays s) x (sy_sweep s) (sy_interval s)
    (sy_quit s) (sy_pool s).
Definition set_sweep (x : sweep_phase) (s : System) : System :=
  mkSystem (sy_main s) (sy_handlers s) (sy_replays s) (sy_timed_out s) x (sy_interval s)
    (sy_quit s) (sy_pool s).
Definition set_quit (x : bool) (s : System) : System :=
  mkSystem (sy_main s) (sy_handlers s) (sy_replays s) (sy_timed_out s) (sy_sweep s)
    (sy_interval s) x (sy_pool s).
Definition set_pool (x : Pool) (s : System) : System :=
  mkSystem (sy_main s) (sy_handlers s) (sy_replays s) (sy_timed_out s) (sy_sweep s)
    (sy_interval s) (sy_quit s) x.

(** After [New] and [Start]: the sweeper begins with a sweep. *)
Definition launched (cfg : WorkerConfig) (pool : Pool) : System :=
  mkSystem Serving 0 0 false Listing (SweepInterval cfg) false (Pool_Start cfg pool).

(** ** Steps *)

(** The sweeper's goroutine; a failed query enqueues nothing. The ticker is made once,
    between the first sweep and the first [select], and [time.NewTicker] panics when the
    interval is not positive: then no sweeper gets past its first sweep. At the [select] a
    tick may win even when [quit] is closed. *)
Inductive sweep_step (s : System) : go System → Prop :=
| sweep_list ids : sy_sweep s = Listing → sweep_step s (Ok (set_sweep (Enqueuing ids) s))
| sweep_process id ids p :
    sy_sweep s = Enqueuing (id :: ids) → Pool_Process id (sy_pool s) (Ok p) →
    sweep_step s (Ok (set_sweep (Enqueuing ids) (set_pool p s)))
| sweep_panics id ids e :
    sy_sweep s = Enqueuing (id :: ids) → Pool_Process id (sy_pool s) (Err e) →
    sweep_step s (Err e)
| sweep_swept : sy_sweep s = Enqueuing [] → 0 < sy_interval s →
    sweep_step s (Ok (set_sweep Selecting s))
| sweep_no_ticker : sy_sweep s = Enqueuing [] → sy_interval s ≤ 0 →
    sweep_step s (Err TickerInterval)
| sweep_tick : sy_sweep s = Selecting → sweep_step s (Ok (set_sweep Listing s))
| sweep_quit : sy_sweep s = Selecting → sy_quit s = true →
    sweep_step s (Ok (set_sweep SweeperReturned s)).

(** Requests begin while the server serves, on connections it has yet to close while it
    shuts down, and on those it gave up waiting for. A handler may hand an order to the
    pool (a panic there leaves its request without an answer); handlers end. [Connect]
    hijacks its connection and goes on outside the server's count: it reads the
    notifications, queues them and returns, without [Process] (or a send of it panics, which
    [net/http] recovers: its goroutine ends there too). *)
Inductive http_step (s : System) : go System → Prop :=
| http_accept : (main_rank (sy_main s) ≤ 1)%nat ∨ sy_timed_out s = true →
    http_step s (Ok (set_handlers (S (sy_handlers s)) s))
| http_process id p : sy_handlers s ≠ 0%nat → Pool_Process id (sy_pool s) (Ok p) →
    http_step s (Ok (set_pool p s))
| http_panics id e : sy_handlers s ≠ 0%nat → Pool_Process id (sy_pool s) (Err e) →
    http_step s (Err e)
| http_end n : sy_handlers s = S n → http_step s (Ok (set_handlers n s))
| http_hijack n : sy_handlers s = S n →
    http_step s (Ok (set_replays (S (sy_replays s)) (set_handlers n s)))
| http_replayed n : sy_replays s = S n → http_step s (Ok (set_replays n s)).

(** [Run] after its wait, one [Stop] after the other: [http.Server.Shutdown] returns when no
    request is in flight on a connection it still has (a hijacked one is not waited for)
    or when its timeout is over; [Sweeper.Stop] closes [quit] and waits
    for [done]; [Pool.Stop] closes twice and waits for the workers. *)
Inductive main_step (s : System) : System → Prop :=
| main_signal : sy_main s = Serving → main_step s (set_main StoppingHTTP s)
| main_http : sy_main s = StoppingHTTP → sy_handlers s = 0%nat →
    main_step s (set_main StoppingSweeper (set_quit true s))
| main_http_timeout : sy_main s = StoppingHTTP → sy_handlers s ≠ 0%nat →
    main_step s (set_main StoppingSweeper (set_quit true (set_timed_out true s)))
| main_sweeper : sy_main s = StoppingSweeper → sy_sweep s = SweeperReturned →
    main_step s (set_main StoppingPool (set_pool (close_quit (sy_pool s)) s))
| main_close : sy_main s = StoppingPool →
    main_step s (set_main DrainingPool (set_pool (close_jobs (sy_pool s)) s))
| main_pool : sy_main s = DrainingPool → all_exited (sy_pool s) →
    main_step s (set_main StoppingHub s)
| main_hub : sy_main s = StoppingHub → main_step s (set_main ClosingDB s)
| main_db : sy_main s = ClosingDB → main_step s (set_main ClosingRedis s)
| main_redis : sy_main s = ClosingRedis → main_step s (set_main Finished s).

Inductive sys_step (s : System) : go System → Prop :=
| sys_http r : http_step s r → sys_step s r
| sys_sweep r : sweep_step s r → sys_step s r
| sys_work p : work_step (sy_pool s) p → sys_step s (Ok (set_pool p s))
| sys_main s' : main_step s s' → sys_step s (Ok s').

(** Steps that do not panic. *)
Definition sys_run (s s' : System) : Prop := sys_step s (Ok s').

(** ** The invariant *)














(** ** Hijacked connections *)



(** ** Without a positive interval the sweeper takes the process down after one sweep *)
Definition first_sweep (s : System) : Prop :=
  sy_interval s ≤ 0 ∧ (sy_sweep s = Listing ∨ ∃ ids, sy_sweep s = Enqueuing ids).

Lemma first_sweep_run s s' : first_sweep s → sys_run s s' → first_sweep s'.
Proof.
  intros [Hi Hp] Hr. inversion Hr as [r Hw|r Hw|p Hw|s1 Hw]; subst; [| |by split|].
  - by inversion Hw; subst.
  - inversion Hw; subst; cbn; try lia; (split; [done|]); cbn; eauto;
      destruct Hp as [Hp|[ids' Hp]]; congruence.
  - by destruct Hw.
Qed.

Lemma no_interval_panics cfg p0 s :
  SweepInterval cfg ≤ 0 → rtc sys_run (launched cfg p0) s →
  sy_sweep s = Enqueuing [] → sys_step s (Err TickerInterval).
Proof.
  intros Hi Hr Hp. assert (first_sweep (launched cfg p0)) as Hf by by split; [|left].
  assert (first_sweep s) as [Hi' _] by (induction Hr; eauto using first_sweep_run).
  by apply sys_sweep, sweep_no_ticker.
Qed.
















(** ** Properties *)



(** ** When the drain times out: the handler still running meets a closed channel *)
Definition late : System :=
  mkSystem DrainingPool 1 0 true SweeperReturned (SweepInterval small_pool) true
    (mkPool 1 [] true true [Waiting] [] []).

Lemma late_reachable : rtc sys_run (launched small_pool small_new) late.
Proof.
  eapply rtc_l; [by apply sys_http, http_accept; left; cbn; lia|].
  eapply rtc_l; [by apply sys_sweep, (sweep_list _ [])|].
  eapply rtc_l; [by apply sys_sweep, sweep_swept|].
  eapply rtc_l; [by apply sys_main, main_signal|].
  eapply rtc_l; [by apply sys_main, main_http_timeout|].
  eapply rtc_l; [by apply sys_sweep, sweep_quit|].
  eapply rtc_l; [by apply sys_main, main_sweeper|].
  eapply rtc_l; [by apply sys_main, main_close|]. apply rtc_refl.
Qed.

Lemma late_handler_panics : sys_step late (Err SendOnClosed).
Proof. by eapply sys_http, (http_panics _ 7), process_panics. Qed.


