(* ===== verification/Server.v ===== *)
(** * The composition root ([internal/server/server.go], [cmd/server/main.go])

    Startup, with the errors of the external set-up calls, what is built and started, and
    how the process ends. The shutdown as it runs is in [Lifecycle]. *)

From Stdlib Require Import ZArith Lia.
From stdpp Require Import base tactics list strings.
From S2P Require Import Prelude GoStd Errors Config Gateway Hub Pool Auth Connections.

Open Scope Z_scope.

(** The long-lived components. *)
Inductive component : Type := HTTP | SweeperC | PoolC | HubC | DB | Redis.

#[export] Instance component_eq_dec : EqDecision component.
Proof. solve_decision. Defined.

(** [stoppers], in the order of the literal in [New]. *)
Definition stoppers : list component := [HTTP; SweeperC; PoolC; HubC; DB; Redis].

(** What [New] builds and starts: the clients, the running pool and hub, the gateway and the
    token manager the router gets, and the order in which to stop. *)
Record Server (G C : Type) : Type := mkServer {
  Server_cfg : Config;
  Server_addr : string;
  Server_timeout : Z;           (* of [httpStopper] *)
  Server_db : G;
  Server_redis : C;
  Server_pool : Pool;
  Server_hub : Hub;
  Server_gateway : (nat → Draw) → fakeGateway;
  Server_tokens : jwtManager;
  Server_stoppers : list component;
}.
Arguments mkServer {G C}.
Arguments Server_cfg {G C} s.
Arguments Server_addr {G C} s.
Arguments Server_timeout {G C} s.
Arguments Server_db {G C} s.
Arguments Server_redis {G C} s.
Arguments Server_pool {G C} s.
Arguments Server_hub {G C} s.
Arguments Server_gateway {G C} s.
Arguments Server_tokens {G C} s.
Arguments Server_stoppers {G C} s.

Section startup.
Context `{SqlLib W G Q, !MigrateLib W Q Src Drv Mig, RedisLib W C}.

(** The handles and the tokens, wired together: what follows the external calls. *)
Definition assemble (cfg : Config) (db : G) (client : C) : go (Server G C) :=
  match NewPool (Config_Worker cfg) with
  | Err p => Err p
  | Ok pool =>
      Ok {|
        Server_cfg := cfg;
        Server_addr := ServerConfig_Host (Config_Server cfg) +:+ ":"
                       +:+ Itoa (ServerConfig_Port (Config_Server cfg));
        Server_timeout := ShutdownTimeout (Config_Worker cfg);
        Server_db := db;
        Server_redis := client;
        Server_pool := Pool_Start (Config_Worker cfg) pool;
        Server_hub := NewHub;
        Server_gateway := NewFakeGateway (GatewayFailureRate (Config_Worker cfg));
        Server_tokens := NewJWTManager (JWTConfig_Secret (Config_JWT cfg))
                           (JWTConfig_TTL (Config_JWT cfg));
        Server_stoppers := stoppers;
      |}
  end.

(** [New]: the first failing step, a panic, or a server. *)
Definition Server_New (cfg : Config) : M W (go (res (Server G C))) :=
  db ← wrapping "connect database" (database_New (Config_Database cfg));
  match db with
  | Err err => mret (Ok (Err err))
  | Ok db =>
      migrated ← wrapping "run migrations" (Migrate db);
      match migrated with
      | Err err => mret (Ok (Err err))
      | Ok _ =>
          client ← wrapping "connect redis" (redis_New (Config_Redis cfg));
          match client with
          | Err err => mret (Ok (Err err))
          | Ok client =>
              mret (match assemble cfg db client with
                    | Ok srv => Ok (Ok srv) | Err p => Err p end)
          end
      end
  end.

(** What ended [Run]'s wait: a signal, or a serve error other than [ErrServerClosed]. *)
Inductive run_end : Type := Signalled | ServeFailed (err : error).

(** [Run]: the components it stops, in order, and the error it returns. *)
Definition Server_Run (s : Server G C) (e : run_end) : list component * option error :=
  (Server_stoppers s, match e with Signalled => None | ServeFailed err => Some err end).

(** How the process ends: [log.Fatal] with its text and error, a panic, or [main] returns. *)
Inductive process_end : Type :=
| LogFatal (text : string) (err : error)
| Panicked (p : go_panic)
| Returned.

(** [main], when [Run] ends like [e]. *)
Definition main (env : Viper) (e : run_end) : M W process_end :=
  match Load env with
  | Err err => mret (LogFatal "Failed to load config:" err)
  | Ok cfg =>
      srv ← Server_New cfg;
      match srv with
      | Err p => mret (Panicked p)
      | Ok (Err err) => mret (LogFatal "Failed to start server:" err)
      | Ok (Ok srv) =>
          match (Server_Run srv e).2 with
          | Some err => mret (LogFatal "Server error:" err)
          | None => mret Returned
          end
      end
  end.

(** Startup fails with the first failing step and says which; the only panic is that of a
    queue of negative size. *)
Lemma Server_New_outcome cfg w r w' :
  Server_New cfg w = (r, w') →
  match r with
  | Err p => p = MakeChanSize ∧ QueueSize (Config_Worker cfg) < 0
  | Ok (Err e) => ∃ what cause, e = Wrapf what cause
      ∧ what ∈ ["connect database"; "run migrations"; "connect redis"]
  | Ok (Ok srv) => ∃ db client, assemble cfg db client = Ok srv
  end.
Proof.
  intros (db & w1 & Hdb & Hr)%M_bind_inv.
  apply wrapping_inv in Hdb as [(db' & -> & _)|(cause & -> & _)].
  2: { injection Hr as <- <-. eexists _, _. split; [done|left]. }
  apply M_bind_inv in Hr as (mg & w2 & Hm & Hr).
  apply wrapping_inv in Hm as [(u & -> & _)|(cause & -> & _)].
  2: { injection Hr as <- <-. eexists _, _. split; [done|right; left]. }
  apply M_bind_inv in Hr as (cl & w3 & Hc & Hr).
  apply wrapping_inv in Hc as [(client & -> & _)|(cause & -> & _)].
  2: { injection Hr as <- <-. eexists _, _. split; [done|do 2 right; left]. }
  injection Hr as <- <-. destruct (assemble cfg db' client) as [srv|p] eqn:E; [eauto|].
  unfold assemble, NewPool in E. destruct (Z.ltb_spec (QueueSize (Config_Worker cfg)) 0); [|done].
  by injection E as <-.
Qed.
End startup.
