(* ===== verification/ProductService.v ===== *)
(** * The product service ([internal/services/product.go])

    Listing by pages, and the edits of the catalogue, on any [ProductRepository]. *)

From Stdlib Require Import ZArith Lia.
From stdpp Require Import base tactics list gmap strings.
From S2P Require Import Prelude GoStd Errors Models Database Repositories.

Open Scope Z_scope.

(** [type ProductService interface] *)
Class ProductService (W : Type) : Type := {
  ListProducts : ListProductsRequest → M W (res ListProductsResponse);
  GetProduct : Z → M W (res ProductResponse);
  CreateProduct : CreateProductRequest → M W (res ProductResponse);
  UpdateProduct : Z → UpdateProductRequest → M W (res ProductResponse);
  GetInventory : Z → M W (res InventoryResponse);
}.

Definition defaultPage : Z := 1.
Definition defaultPageSize : Z := 20.
Definition maxPageSize : Z := 100.

Definition toProductResponse (p : Product) : ProductResponse :=
  mkProductResponse (Product_ID p) (Product_Name p) (Product_Image p) (Product_Description p)
    (Product_Price p)
    (match Product_Inventory p with Some i => Inventory_Quantity i | None => 0 end)
    (Product_CreatedAt p) (Product_UpdatedAt p).

Definition toInventoryResponse (i : Inventory) : InventoryResponse :=
  mkInventoryResponse (Inventory_ProductID i) (Inventory_Quantity i) (Inventory_UpdatedAt i).

(** The page and the page size [ListProducts] settles on. *)
Definition page_of (req : ListProductsRequest) : Z :=
  let page := ListProductsRequest_Page req in if page <? 1 then defaultPage else page.
Definition page_size_of (req : ListProductsRequest) : Z :=
  let pageSize := ListProductsRequest_PageSize req in
  let pageSize := if pageSize <? 1 then defaultPageSize else pageSize in
  if maxPageSize <? pageSize then maxPageSize else pageSize.
(** [(page-1)*pageSize], in machine arithmetic. *)
Definition offset_of (req : ListProductsRequest) : Z :=
  wrap64 (wrap64 (page_of req - 1) * page_size_of req).

(** The product [UpdateProduct] saves, from the loaded one. *)
Definition edited_product (id : Z) (req : UpdateProductRequest) (product : Product) : Product :=
  let inv := match Product_Inventory product with
             | Some i => i
             | None => mkInventory 0 id 0 0
             end in
  mkProduct (Product_ID product) (UpdateProductRequest_Name req)
    (UpdateProductRequest_Image req) (UpdateProductRequest_Description req)
    (UpdateProductRequest_Price req)
    (Some (mkInventory (Inventory_ID inv) (Inventory_ProductID inv)
             (UpdateProductRequest_Quantity req) (Inventory_UpdatedAt inv)))
    (Product_CreatedAt product) (Product_UpdatedAt product).

Definition new_product (req : CreateProductRequest) : Product :=
  mkProduct 0 (CreateProductRequest_Name req) (CreateProductRequest_Image req)
    (CreateProductRequest_Description req) (CreateProductRequest_Price req)
    (Some (mkInventory 0 0 (CreateProductRequest_Quantity req) 0)) 0 0.

Section service.
Context `{ProductRepository W}.

Definition productService_ListProducts (req : ListProductsRequest)
  : M W (res ListProductsResponse) :=
  r <-? repo_ListProducts (page_size_of req) (offset_of req);;
  mret (Ok (mkListProductsResponse (toProductResponse <$> r.1) r.2
              (page_of req) (page_size_of req))).

Definition productService_CreateProduct (req : CreateProductRequest)
  : M W (res ProductResponse) :=
  product <-? repo_CreateProduct (new_product req);;
  mret (Ok (toProductResponse product)).

Definition productService_GetProduct (id : Z) : M W (res ProductResponse) :=
  product <-? repo_GetProduct id;;
  mret (Ok (toProductResponse product)).

Definition productService_UpdateProduct (id : Z) (req : UpdateProductRequest)
  : M W (res ProductResponse) :=
  product <-? repo_GetProduct id;;
  product <-? repo_UpdateProduct (edited_product id req product);;
  mret (Ok (toProductResponse product)).

Definition productService_GetInventory (productID : Z) : M W (res InventoryResponse) :=
  inventory <-? repo_GetInventory productID;;
  mret (Ok (toInventoryResponse inventory)).

#[export] Instance NewProductService : ProductService W := {|
  ListProducts := productService_ListProducts;
  GetProduct := productService_GetProduct;
  CreateProduct := productService_CreateProduct;
  UpdateProduct := productService_UpdateProduct;
  GetInventory := productService_GetInventory;
|}.
End service.

(** ** Lemmas: the settled page *)
Lemma page_of_pos req : 1 ≤ page_of req.
Proof. unfold page_of, defaultPage. cbv zeta. destruct (_ <? _) eqn:E; bool_to_prop; lia. Qed.

Lemma page_size_of_bounds req : 1 ≤ page_size_of req ≤ maxPageSize.
Proof.
  unfold page_size_of, maxPageSize, defaultPageSize. cbv zeta.
  set (z := ListProductsRequest_PageSize req).
  destruct (z <? 1) eqn:E1; [cbn; lia|]. destruct (100 <? z) eqn:E2; bool_to_prop; lia.
Qed.

(** Until the product overflows, the offset is the true one. *)
Lemma offset_of_exact req :
  page_of req * page_size_of req ≤ max_int →
  offset_of req = (page_of req - 1) * page_size_of req.
Proof.
  intros Hb. pose proof (page_of_pos req). pose proof (page_size_of_bounds req).
  assert (page_of req ≤ page_of req * page_size_of req) by nia.
  assert (0 ≤ (page_of req - 1) * page_size_of req ≤ page_of req * page_size_of req) by nia.
  unfold offset_of. rewrite (wrap64_id (page_of req - 1)) by (unfold min_int; lia).
  apply wrap64_id. unfold min_int. lia.
Qed.
