(* ===== verification/ProductServiceSpec.v ===== *)
(** * Properties of the catalogue

    What the product service and its repository promise on any lawful engine: pages that
    cover the catalogue, lookups, and edits that touch one product and its stock row. *)

From Stdlib Require Import ZArith Lia.
From stdpp Require Import base tactics list gmap strings.
From S2P Require Import Prelude GoStd Errors Models Database RefDb OrderRepository Ledger.
From S2P Require Import Repositories ProductService.

Open Scope Z_scope.

(** The catalogue in id order, and what the service shows of one product. *)
Definition catalogue (T : Tables) : list Product :=
  sort_by Product_ID (map_to_list (Tables_products T)).*2.
Definition shown (T : Tables) (p : Product) : ProductResponse :=
  mkProductResponse (Product_ID p) (Product_Name p) (Product_Image p) (Product_Description p)
    (Product_Price p) (stock T (Product_ID p)) (Product_CreatedAt p) (Product_UpdatedAt p).

(** A row sits at its primary key. *)
Lemma product_key T k p : consistent T → Tables_products T !! k = Some p → Product_ID p = k.
Proof. intros HT Hk. by destruct (proj1 (HT _ products) k p Hk). Qed.
Lemma inventory_key T k i :
  consistent T → Tables_inventory T !! k = Some i → Inventory_ID i = k.
Proof. intros HT Hk. by destruct (proj1 (HT _ inventory) k i Hk). Qed.

(** ** Sorted listings *)
Lemma products_nodup T :
  consistent T → NoDup (Product_ID <$> (map_to_list (Tables_products T)).*2).
Proof.
  intros HT. rewrite <- list_fmap_compose.
  rewrite (list_fmap_ext (Product_ID ∘ snd) fst).
  - apply NoDup_fst_map_to_list.
  - intros i [k p] Hi. apply list_elem_of_lookup_2, elem_of_map_to_list in Hi.
    by apply (product_key T).
Qed.

Lemma matching_all {R} (m : gmap Z R) : matching (λ _, true) m = (map_to_list m).*2.
Proof.
  unfold matching. induction (map_to_list m).*2 as [|x l IH]; [done|].
  rewrite filter_cons_True by done. by rewrite IH.
Qed.

(** Any listing the engine returns in id order is the catalogue. *)
Lemma listing_catalogue T all :
  consistent T → all ≡ₚ matching (λ _, true) (Tables_products T) →
  weakly_by Product_ID all → all = catalogue T.
Proof.
  intros HT Hp Hs. rewrite matching_all in Hp. apply (strictly_unique Product_ID).
  - apply weakly_strictly; [|done]. rewrite Hp. by apply products_nodup.
  - apply sort_by_strictly. by apply products_nodup.
  - unfold catalogue. by rewrite sort_by_perm.
Qed.

Lemma catalogue_member T p :
  consistent T → p ∈ catalogue T ↔ Tables_products T !! Product_ID p = Some p.
Proof.
  intros HT. unfold catalogue. rewrite sort_by_perm, list_elem_of_fmap. split.
  - intros ([k q] & -> & Hk%elem_of_map_to_list). cbn.
    by rewrite (product_key T k q).
  - intros Hp. exists (Product_ID p, p). by rewrite elem_of_map_to_list.
Qed.

(** ** Preloading *)
Lemma find_inventory_stock T (invs : list Inventory) ids id :
  consistent T → id ∈ ids →
  invs ≡ₚ matching (λ i, list_has ids (Inventory_ProductID i)) (Tables_inventory T) →
  match find (λ i, Inventory_ProductID i =? id) invs with
  | Some i => stock T id = Inventory_Quantity i ∧ Inventory_ProductID i = id
              ∧ Tables_inventory T !! Inventory_ID i = Some i
  | None => ∀ k i, Tables_inventory T !! k = Some i → Inventory_ProductID i ≠ id
  end.
Proof.
  intros HT Hid Hp. destruct (find _ invs) as [i|] eqn:Ef.
  - apply find_some in Ef as [Hin Hi]. bool_to_prop.
    apply list_elem_of_In in Hin. rewrite Hp in Hin.
    apply elem_of_matching in Hin as [_ [k Hk]]. subst id.
    rewrite (stock_row T k i HT Hk). split_and!; [done..|].
    by rewrite (inventory_key T k i).
  - intros k i Hk <-. apply list_has_elem in Hid.
    assert (i ∈ invs) as Hin%list_elem_of_In by (rewrite Hp; apply elem_of_matching; eauto).
    apply (find_none _ _ Ef) in Hin. by rewrite Z.eqb_refl in Hin.
Qed.

(** [p'] is [p] with its stock row attached. *)
Definition loaded (T : Tables) (p p' : Product) : Prop :=
  ∃ oi, p' = Product_set_Inventory oi p ∧ toProductResponse p' = shown T p
    ∧ match oi with
      | Some i => Inventory_ProductID i = Product_ID p
                  ∧ Tables_inventory T !! Inventory_ID i = Some i
      | None => ∀ k i, Tables_inventory T !! k = Some i → Inventory_ProductID i ≠ Product_ID p
      end.

Section repository.
Context `{LawfulDb D}.
Implicit Types (d : D).

(** [Preload("Inventory")] attaches to each product its stock row. *)
Lemma preload_spec ps d r d' :
  consistent (view d) → preload_inventory ps d = (r, d') →
  view d' = view d
  ∧ match r with
    | Ok ps' => Forall2 (loaded (view d)) ps ps'
    | Err e => opaque e = true
    end.
Proof.
  intros HT Hr. unfold preload_inventory in Hr. destruct ps as [|p0 ps0].
  { injection Hr as <- <-. split; [done|constructor]. }
  set (ps := p0 :: ps0) in *. clearbody ps.
  apply try_inv in Hr as [(invs & d1 & Hf & Hk)|(e & Hf & ->)].
  2: { apply exec_sem in Hf as [Hv Ho]. done. }
  injection Hk as <- <-. apply exec_sem in Hf as [Hv (all & Hp & _ & Hl)].
  cbn in Hl. subst all. split; [done|].
  apply Forall2_fmap_r, Forall_Forall2_diag, Forall_forall. intros p Hin.
  assert (Product_ID p ∈ Product_ID <$> ps) as Hid by (apply list_elem_of_fmap; eauto).
  pose proof (find_inventory_stock _ _ _ _ HT Hid Hp) as Hfi. unfold loaded.
  exists (find (λ i, Inventory_ProductID i =? Product_ID p) invs). split; [done|].
  unfold attach_inventory, toProductResponse, shown. cbn.
  destruct (find _ invs) as [i|].
  - destruct Hfi as (-> & ? & ?). done.
  - by rewrite stock_no_row.
Qed.

Lemma GetProduct_spec id d r d' :
  consistent (view d) → productRepository_GetProduct id d = (r, d') →
  view d' = view d
  ∧ match r with
    | Ok p' => ∃ p, Tables_products (view d) !! id = Some p ∧ Product_ID p = id
                    ∧ loaded (view d) p p'
    | Err e => opaque e = true
               ∨ (e = ErrRecordNotFound ∧ Tables_products (view d) !! id = None)
    end.
Proof.
  intros HT Hr. apply try_inv in Hr as [(p & d1 & Hf & Hk)|(e & Hf & ->)].
  2: { apply exec_sem in Hf as [Hv [Ho|[-> Hz]]]; (split; [done|]); [by left|right].
       split; [done|]. destruct (Tables_products (view d) !! id) as [p|] eqn:Ep; [|done].
       rewrite countb_zero in Hz. specialize (Hz id p Ep). cbn in Hz.
       apply product_key in Ep; [|done]. by rewrite Ep, Z.eqb_refl in Hz. }
  apply exec_sem in Hf as [Hv (k & Hp & Hid & _)]. bool_to_prop.
  assert (k = id) as -> by (symmetry; rewrite <- Hid; by eapply product_key).
  rewrite <- Hv in HT. apply try_inv in Hk as [(ps & d2 & Hpre & Hk)|(e & Hpre & ->)].
  2: { apply preload_spec in Hpre as [Hv2 Ho]; [|done]. rewrite <- Hv. auto. }
  apply preload_spec in Hpre as [Hv2 Hpre]; [|done]. rewrite <- Hv in *.
  inversion Hpre as [|? p' ? ps' Hp' HF]; subst. inversion HF; subst.
  injection Hk as <- <-. split; [done|]. by exists p.
Qed.
End repository.

Section listing.
Context `{LawfulDb D}.
Implicit Types (d : D).

Lemma loaded_shown T ps ps' :
  Forall2 (loaded T) ps ps' → toProductResponse <$> ps' = shown T <$> ps.
Proof.
  induction 1 as [|p p' ps ps' (oi & -> & Hs & _) _ IH]; [done|]. cbn. by rewrite Hs, <- IH.
Qed.

Lemma ListProducts_spec limit offset d r d' :
  consistent (view d) → productRepository_ListProducts limit offset d = (r, d') →
  view d' = view d
  ∧ match r with
    | Ok (ps, total) =>
        toProductResponse <$> ps
          = shown (view d) <$> limit_rows limit (offset_rows offset (catalogue (view d)))
        ∧ total = Z.of_nat (size (Tables_products (view d)))
    | Err e => opaque e = true
    end.
Proof.
  intros HT Hr. apply try_inv in Hr as [(total & d1 & Hc & Hr)|(e & Hc & ->)];
    apply exec_sem in Hc as [Hv1 Hc]; [|done]. rewrite <- Hv1 in *.
  apply try_inv in Hr as [(ps & d2 & Hf & Hr)|(e & Hf & ->)];
    apply exec_sem in Hf as [Hv2 Hf]; [|done]. rewrite <- Hv2 in *.
  apply try_inv in Hr as [(ps' & d3 & Hpre & Hr)|(e & Hpre & ->)];
    apply preload_spec in Hpre as [Hv3 Hpre]; [|done|done|done].
  injection Hr as <- <-. split; [done|]. split; [|done].
  rewrite (loaded_shown _ _ _ Hpre). destruct Hf as (all & Hp & Ho & ->).
  by rewrite (listing_catalogue _ all HT Hp (Ho _ eq_refl)).
Qed.

Lemma service_ListProducts_spec req d resp d' :
  consistent (view d) → productService_ListProducts req d = (Ok resp, d') →
  view d' = view d
  ∧ resp = mkListProductsResponse
             (shown (view d) <$> limit_rows (page_size_of req)
                (offset_rows (offset_of req) (catalogue (view d))))
             (Z.of_nat (size (Tables_products (view d)))) (page_of req) (page_size_of req).
Proof.
  intros HT Hr. apply try_inv in Hr as [([ps total] & d1 & Hl & Hr)|(e & _ & [=])].
  apply ListProducts_spec in Hl as [Hv [Hs ->]]; [|done]. injection Hr as <- <-.
  cbn [fst snd]. by rewrite Hs.
Qed.

(** Page [i] of the catalogue. *)
Lemma page_slice {A} (l : list A) s i :
  1 ≤ s → limit_rows s (offset_rows (Z.of_nat i * s) l)
          = take (Z.to_nat s) (drop (i * Z.to_nat s) l).
Proof.
  intros Hs. unfold limit_rows, offset_rows. rewrite (proj2 (Z.ltb_ge s 0)) by lia.
  destruct (0 <? Z.of_nat i * s) eqn:E; bool_to_prop.
  - do 2 f_equal. lia.
  - replace i with 0%nat by lia. done.
Qed.

Lemma slices_cover {A B} (f : A → B) (l : list A) s (parts : list (list B)) :
  (∀ i x, parts !! i = Some x → x = f <$> take s (drop (i * s) l)) →
  mjoin parts = f <$> take (length parts * s) l.
Proof.
  induction parts as [|x parts IH] using rev_ind; intros Hi; [done|].
  rewrite join_app, IH.
  2: { intros i y Hy. apply Hi. by apply lookup_app_l_Some. }
  cbn. rewrite app_nil_r, (Hi (length parts) x) by (by apply list_lookup_middle).
  rewrite <- fmap_app, take_take_drop, length_app. cbn. do 2 f_equal. lia.
Qed.

Lemma length_catalogue T : length (catalogue T) = size (Tables_products T).
Proof.
  unfold catalogue. rewrite sort_by_perm, length_fmap, length_map_to_list. done.
Qed.

Lemma numbered_page T i n size_ d resp d' :
  consistent T → 1 ≤ size_ ≤ maxPageSize → (i < n)%nat → Z.of_nat n * size_ ≤ max_int →
  view d = T →
  productService_ListProducts (mkListProductsRequest (Z.of_nat i + 1) size_) d = (Ok resp, d') →
  ListProductsResponse_Items resp
    = shown T <$> take (Z.to_nat size_) (drop (i * Z.to_nat size_) (catalogue T))
  ∧ ListProductsResponse_Total resp = Z.of_nat (size (Tables_products T)).
Proof.
  intros HT Hs Hi Hb <- Hr. apply service_ListProducts_spec in Hr as [_ ->]; [|done].
  cbn [ListProductsResponse_Items ListProductsResponse_Total]. split; [|done].
  set (req := mkListProductsRequest _ _).
  assert (page_of req = Z.of_nat i + 1) as Hp.
  { unfold page_of. cbn. rewrite (proj2 (Z.ltb_ge _ _)) by lia. done. }
  assert (page_size_of req = size_) as Hps.
  { unfold page_size_of. cbn. rewrite (proj2 (Z.ltb_ge size_ 1)) by lia.
    by rewrite (proj2 (Z.ltb_ge _ _)) by lia. }
  rewrite offset_of_exact, Hp, Hps by (rewrite Hp, Hps; nia).
  replace (Z.of_nat i + 1 - 1) with (Z.of_nat i) by lia. by rewrite page_slice by lia.
Qed.

(** C36. Paging covers the catalogue: pages 1 to [n] of a fixed size, read from unchanged
    tables, list the first [n * size] products in id order, each once and with its stock;
    all of them when [n * size] reaches the reported total. *)
Theorem ListProducts_covers T size_ resps :
  consistent T → 1 ≤ size_ ≤ maxPageSize → Z.of_nat (length resps) * size_ ≤ max_int →
  (∀ i resp, resps !! i = Some resp →
     ∃ d d', view d = T ∧ productService_ListProducts
               (mkListProductsRequest (Z.of_nat i + 1) size_) d = (Ok resp, d')) →
  let n := (length resps * Z.to_nat size_)%nat in
  mjoin (ListProductsResponse_Items <$> resps) = shown T <$> take n (catalogue T)
  ∧ ∀ resp, resp ∈ resps →
      ListProductsResponse_Total resp = Z.of_nat (size (Tables_products T))
      ∧ (ListProductsResponse_Total resp ≤ Z.of_nat n →
         mjoin (ListProductsResponse_Items <$> resps) = shown T <$> catalogue T).
Proof.
  intros HT Hs Hb Hpages n.
  assert (∀ i resp, resps !! i = Some resp →
            ListProductsResponse_Items resp
              = shown T <$> take (Z.to_nat size_) (drop (i * Z.to_nat size_) (catalogue T))
            ∧ ListProductsResponse_Total resp = Z.of_nat (size (Tables_products T))) as Hi.
  { intros i resp Hi. destruct (Hpages i resp Hi) as (d & d' & Hv & Hr).
    apply lookup_lt_Some in Hi. by apply (numbered_page T i (length resps) size_ d resp d'). }
  assert (mjoin (ListProductsResponse_Items <$> resps) = shown T <$> take n (catalogue T)) as Hj.
  { rewrite (slices_cover (shown T) (catalogue T) (Z.to_nat size_)); [by rewrite length_fmap|].
    intros i x. rewrite list_lookup_fmap_Some. intros (resp & -> & Hr). by apply Hi. }
  split; [done|]. intros resp [i Hr]%list_elem_of_lookup. destruct (Hi i resp Hr) as [_ ->].
  split; [done|]. rewrite <- length_catalogue, Hj. intros Hn. by rewrite take_ge by lia.
Qed.

(** A page number whose offset overflows is not refused: the product wraps around, and
    page [2 ^ 60 + 1] of 16 shows the first page under its own number. *)
Theorem ListProducts_wraps d resp d' :
  consistent (view d) →
  productService_ListProducts (mkListProductsRequest (2 ^ 60 + 1) 16) d = (Ok resp, d') →
  ListProductsResponse_Page resp = 2 ^ 60 + 1
  ∧ ListProductsResponse_Items resp = shown (view d) <$> take 16 (catalogue (view d)).
Proof.
  intros HT Hr. by apply service_ListProducts_spec in Hr as [_ ->].
Qed.
End listing.

(** ** Edits *)

(** The engine hands out positive identities. *)
Definition identities (T : Tables) : Prop :=
  ∀ R (t : table R) k r, rows t T !! k = Some r → 0 < k.

(** Nothing but products and stock differs. *)
Definition same_orders (T T' : Tables) : Prop :=
  Tables_users T' = Tables_users T ∧ Tables_orders T' = Tables_orders T
  ∧ Tables_order_items T' = Tables_order_items T ∧ Tables_payments T' = Tables_payments T
  ∧ Tables_notifications T' = Tables_notifications T.

(** Every stock row stays with its product. *)
Definition shelves_kept (T T' : Tables) : Prop :=
  ∀ k r, Tables_inventory T !! k = Some r →
    ∃ r', Tables_inventory T' !! k = Some r' ∧ Inventory_ProductID r' = Inventory_ProductID r.

(** Product [id] now has these fields and exactly [q] units; every other product and stock
    is as it was. *)
Definition product_set `{Numeric} (T T' : Tables) (id : Z) (name : string)
  (image description : option string) (price : float64) (q : Z) : Prop :=
  (∃ stored, Tables_products T' = <[id := stored]> (Tables_products T)
     ∧ Product_ID stored = id ∧ Product_Name stored = name ∧ Product_Image stored = image
     ∧ Product_Description stored = description
     ∧ numeric_12_2 price = Some (Product_Price stored))
  ∧ (∀ p, stock T' p = if p =? id then q else stock T p)
  ∧ same_orders T T' ∧ shelves_kept T T'.

Section edits.
Context `{Numeric}.

Lemma insert_shelf_fresh T T1 k r :
  Tables_inventory T1 = Tables_inventory T → Tables_inventory T !! k = None →
  shelves_kept T (set_rows inventory (<[k := r]> (rows inventory T1)) T1).
Proof.
  intros E Hk j s Hj. exists s. destruct T1; cbn in *. subst.
  by rewrite lookup_insert_ne by congruence.
Qed.

Lemma insert_shelf T T1 k r i :
  Tables_inventory T1 = Tables_inventory T → Tables_inventory T !! k = Some i →
  Inventory_ProductID r = Inventory_ProductID i →
  shelves_kept T (set_rows inventory (<[k := r]> (rows inventory T1)) T1).
Proof.
  intros E Hk Hi j s Hj. destruct T1; cbn in *. subst. destruct (decide (k = j)) as [->|Hne].
  - exists r. rewrite lookup_insert_eq. split; [done|congruence].
  - exists s. by rewrite lookup_insert_ne.
Qed.

(** A stock row written for [id] sets its units and no others. *)
Lemma save_stock T T1 T' id oi q row :
  consistent T → Tables_inventory T1 = Tables_inventory T → identities T →
  match oi with
  | Some i => Inventory_ProductID i = id ∧ Tables_inventory T !! Inventory_ID i = Some i
  | None => ∀ k i, Tables_inventory T !! k = Some i → Inventory_ProductID i ≠ id
  end →
  (let inv := default (mkInventory 0 id 0 0) oi in
   runs (save inventory (mkInventory (Inventory_ID inv) (Inventory_ProductID inv) q
                           (Inventory_UpdatedAt inv))) T1 (Ok row) T') →
  (∀ p, stock T' p = if p =? id then q else stock T p)
  ∧ Inventory_Quantity row = q ∧ ∃ m, T' = set_rows inventory m T1 ∧ shelves_kept T T'.
Proof.
  intros HT E1 Hids Hoi Hr. destruct oi as [i|]; cbn [default] in Hr; unfold save in Hr; cbn in Hr.
  - destruct Hoi as [Hpid Hi].
    pose proof (Hids _ inventory _ _ Hi) as Hpos. rewrite (proj2 (Z.eqb_neq _ _)) in Hr by lia.
    apply runs_perform in Hr as (now & stored & Hrow & Hst & -> & _).
    assert (∃ u, row = mkInventory (Inventory_ID i) (Inventory_ProductID i) q u) as [u ->]
      by (rewrite Hrow; destruct (exists_row _ _ _); by eexists).
    injection Hst as <-.
    split_and!; [|done|eexists; split; [done|by apply (insert_shelf _ _ _ _ i)]].
    intros p. unfold stock. destruct T1; cbn in *. subst.
    rewrite (msum_insert _ _ _ i) by done. cbn. rewrite (Z.eqb_sym p).
    destruct (_ =? p) eqn:E; bool_to_prop; [|lia]. subst p.
    pose proof (stock_row T _ i HT Hi) as Hs. unfold stock in Hs. lia.
  - apply runs_perform, sem_create_ok in Hr as (now & k & stored & _ & Hk & Hf & -> & Hst & -> & _).
    cbn in Hst. injection Hst as <-. cbn in Hf. rewrite E1 in Hf.
    split_and!; [|done|eexists; split; [done|by apply insert_shelf_fresh]].
    intros p. unfold stock. destruct T1; cbn in *. subst.
    rewrite msum_insert_fresh by done. cbn. rewrite (Z.eqb_sym p).
    destruct (_ =? p) eqn:E; bool_to_prop; [|lia]. subst p.
    pose proof (stock_no_row T id Hoi) as Hs. unfold stock in Hs. lia.
Qed.

Definition product_with (oi : option Inventory) (p : Product) (req : UpdateProductRequest)
  (created updated : Time) : Product :=
  mkProduct (Product_ID p) (UpdateProductRequest_Name req) (UpdateProductRequest_Image req)
    (UpdateProductRequest_Description req) (UpdateProductRequest_Price req)
    (Product_Inventory (edited_product (Product_ID p) req (Product_set_Inventory oi p)))
    created updated.

Lemma UpdateProduct_tx_ok T T' id req p p' row :
  consistent T → identities T → Tables_products T !! id = Some p → loaded T p p' →
  runs (UpdateProduct_tx (edited_product id req p')) T (Ok row) T' →
  product_set T T' id (UpdateProductRequest_Name req) (UpdateProductRequest_Image req)
    (UpdateProductRequest_Description req) (UpdateProductRequest_Price req)
    (UpdateProductRequest_Quantity req)
  ∧ Product_ID row = id ∧ Product_Name row = UpdateProductRequest_Name req
  ∧ ProductResponse_Quantity (toProductResponse row) = UpdateProductRequest_Quantity req.
Proof.
  intros HT Hids Hp (oi & -> & _ & Hoi) Hr.
  pose proof (product_key T id p HT Hp) as Hid. pose proof (Hids _ products _ _ Hp). subst id.
  unfold UpdateProduct_tx in Hr. step_runs Hr. destruct Hr as [(row1 & T1 & Hs & Hr)|(e & _ & [=])].
  unfold save in Hs. cbn in Hs. rewrite (proj2 (Z.eqb_neq _ _)) in Hs by lia.
  apply runs_perform in Hs as (now & stored & Hrow & Hst & -> & _).
  assert (∃ c u, row1 = product_with oi p req c u) as (c & u & ->)
    by (rewrite Hrow; destruct (exists_row _ _ _); by do 2 eexists).
  cbn in Hst, Hr.
  destruct (numeric_12_2 _) as [price|] eqn:Hprice in Hst; [|done]. injection Hst as <-.
  step_runs Hr. destruct Hr as [(i' & T2 & Hs & Hr)|(e & _ & [=])].
  step_runs Hr. destruct Hr as [[= ->] ->].
  assert (∀ i : Inventory, match oi with Some i => i | None => i end = default i oi) as Hd
    by (by destruct oi).
  rewrite Hd in Hs.
  apply (save_stock T _ _ (Product_ID p) oi) in Hs as (Hstock & Hq & m & -> & Hkept);
    [|done|by destruct T|done..].
  split_and!; [|done..]. split_and!; [|done|by destruct T|done].
  eexists. split; [by destruct T|done].
Qed.

(** Its errors come from statements whose errors are opaque, or from a reference to a product
    that is not there. *)
Lemma save_err {R} (t : table R) row T e T' :
  row_id t row ≠ 0 → runs (save t row) T (Err e) T' → opaque e = true.
Proof.
  intros Hid Hr. unfold save in Hr. rewrite (proj2 (Z.eqb_neq _ _) Hid) in Hr.
  apply runs_perform in Hr. apply Hr.
Qed.

Lemma UpdateProduct_tx_err T T' id req p p' e :
  consistent T → identities T → Tables_products T !! id = Some p → loaded T p p' →
  runs (UpdateProduct_tx (edited_product id req p')) T (Err e) T' → opaque e = true.
Proof.
  intros HT Hids Hp (oi & -> & _ & Hoi) Hr.
  pose proof (product_key T id p HT Hp) as Hid. pose proof (Hids _ products _ _ Hp). subst id.
  unfold UpdateProduct_tx in Hr. step_runs Hr. destruct Hr as [(row1 & T1 & Hs & Hr)|(e1 & Hs & [= ->])].
  2: { by apply save_err in Hs; [|cbn; lia]. }
  pose proof (proj1 (runs_step _ _ _ _ Hs) _ products _ (exists_row_Some products _ _ _ Hp)) as Hex.
  cbn [edited_product Product_Inventory Product_set_Inventory] in Hr. step_runs Hr.
  destruct Hr as [(i' & T2 & _ & Hr)|(e1 & Hs2 & [= ->])].
  { step_runs Hr. by destruct Hr as [[=] _]. }
  destruct oi as [i|].
  - apply save_err in Hs2; [done|]. cbn. destruct Hoi as [_ Hi].
    pose proof (Hids _ inventory _ _ Hi). lia.
  - unfold save in Hs2. cbn in Hs2. apply runs_perform in Hs2.
    destruct Hs2 as [_ [Ho|(_ & row & Hrow & Hf)]]; [done|].
    apply list_elem_of_singleton in Hrow as ->. cbn in Hf. congruence.
Qed.

(** The body of [CreateProduct]: a fresh product and its stock row. *)
Lemma CreateProduct_tx_ok T T' req row :
  consistent T → runs (CreateProduct_tx (new_product req)) T (Ok row) T' →
  Tables_products T !! Product_ID row = None
  ∧ product_set T T' (Product_ID row) (CreateProductRequest_Name req)
      (CreateProductRequest_Image req) (CreateProductRequest_Description req)
      (CreateProductRequest_Price req) (CreateProductRequest_Quantity req)
  ∧ ProductResponse_Quantity (toProductResponse row) = CreateProductRequest_Quantity req.
Proof.
  intros HT Hr. unfold CreateProduct_tx in Hr. step_runs Hr.
  destruct Hr as [(row1 & T1 & Hs & Hr)|(e & _ & [=])].
  apply runs_perform, sem_create_ok in Hs as (now & k & stored & _ & Hk & Hf & -> & Hst & -> & _).
  cbn in Hst, Hf. cbn [new_product Product_Inventory row_set_id row_stamp_created] in Hr.
  destruct (numeric_12_2 _) as [price|] eqn:Hprice in Hst; [|done]. injection Hst as <-.
  step_runs Hr. destruct Hr as [(i' & T2 & Hs & Hr)|(e & _ & [=])].
  step_runs Hr. destruct Hr as [[= ->] ->].
  apply runs_perform, sem_create_ok in Hs as (now2 & j & stored & _ & Hj & Hfj & -> & Hst & -> & _).
  cbn in Hst. injection Hst as <-. cbn. cbn in Hfj.
  assert (∀ i r, Tables_inventory T !! i = Some r → Inventory_ProductID r ≠ k) as Hno.
  { intros i r Hi. destruct (proj1 (HT _ inventory) i r Hi) as (_ & _ & Href). cbn in Href.
    intros E. rewrite E in Href. apply exists_row_iff in Href. cbn in Href. rewrite Hf in Href.
    by destruct Href. }
  pose proof (stock_no_row T k Hno) as Hz. unfold stock in Hz.
  assert (shelves_kept T (set_rows inventory (<[j := mkInventory j k
    (CreateProductRequest_Quantity req) now2]> (rows inventory T)) T)) as Hkept
    by (apply insert_shelf_fresh; [done|by destruct T]).
  destruct T; cbn in *. split_and!; [done| |done]. split_and!; [|intros p|done|exact Hkept].
  - eexists. split; [done|]. done.
  - unfold stock. cbn. rewrite msum_insert_fresh by done. cbn. rewrite (Z.eqb_sym p).
    destruct (_ =? p) eqn:E; bool_to_prop; [subst p|]; lia.
Qed.
End edits.

Section edit_contract.
Context `{LawfulDb D}.
Implicit Types (d : D).

(** What the two services may do to the tables: nothing, or the edit. *)
Lemma UpdateProduct_edits id req d r d' :
  consistent (view d) → identities (view d) → productService_UpdateProduct id req d = (r, d') →
  view d' = view d ∨ (consistent (view d')
    ∧ product_set (view d) (view d') id (UpdateProductRequest_Name req)
        (UpdateProductRequest_Image req) (UpdateProductRequest_Description req)
        (UpdateProductRequest_Price req) (UpdateProductRequest_Quantity req)).
Proof.
  intros HT Hids Hr. apply try_inv in Hr as [(p' & d1 & Hg & Hr)|(e & Hg & _)];
    apply GetProduct_spec in Hg as [Hv Hg]; [|done|by left|done].
  destruct Hg as (p & Hp & _ & Hl). rewrite <- Hv in *.
  assert (∀ row d2, runs (UpdateProduct_tx (edited_product id req p')) (view d1) (Ok row) (view d2) →
    consistent (view d2) ∧ product_set (view d1) (view d2) id (UpdateProductRequest_Name req)
      (UpdateProductRequest_Image req) (UpdateProductRequest_Description req)
      (UpdateProductRequest_Price req) (UpdateProductRequest_Quantity req)) as Hok.
  { intros row d2 Hu. split; [by apply (proj2 (runs_step _ _ _ _ Hu))|].
    by apply (UpdateProduct_tx_ok _ _ id req p p') in Hu as (? & _). }
  apply try_inv in Hr as [(row & d2 & Hu & Hr)|(e & Hu & _)]; apply Transaction_outcome in Hu.
  - injection Hr as _ <-. right. by apply (Hok row).
  - destruct Hu as [[-> _]|[_ [row Hu]]]; [by left|right]. by apply (Hok row).
Qed.

Lemma CreateProduct_edits req d r d' :
  consistent (view d) → productService_CreateProduct req d = (r, d') →
  view d' = view d ∨ (consistent (view d')
    ∧ ∃ id, product_set (view d) (view d') id (CreateProductRequest_Name req)
        (CreateProductRequest_Image req) (CreateProductRequest_Description req)
        (CreateProductRequest_Price req) (CreateProductRequest_Quantity req)).
Proof.
  intros HT Hr.
  assert (∀ row d2, runs (CreateProduct_tx (new_product req)) (view d) (Ok row) (view d2) →
    consistent (view d2) ∧ ∃ id, product_set (view d) (view d2) id (CreateProductRequest_Name req)
      (CreateProductRequest_Image req) (CreateProductRequest_Description req)
      (CreateProductRequest_Price req) (CreateProductRequest_Quantity req)) as Hok.
  { intros row d2 Hc. split; [by apply (proj2 (runs_step _ _ _ _ Hc))|].
    apply CreateProduct_tx_ok in Hc as (_ & ? & _); [|done]. eauto. }
  apply try_inv in Hr as [(row & d1 & Hc & Hr)|(e & Hc & _)]; apply Transaction_outcome in Hc.
  - injection Hr as _ <-. right. by apply (Hok row).
  - destruct Hc as [[-> _]|[_ [row Hc]]]; [by left|right]. by apply (Hok row).
Qed.

(** C37. An edit sets one product and its stock: on success the product has the requested
    fields and exactly the requested units and everything else is as it was; an unknown id is
    [ErrRecordNotFound] and changes nothing; any other error is opaque and either changed
    nothing or is the lost acknowledgement of the complete edit. *)
Theorem UpdateProduct_sets id req d r d' :
  consistent (view d) → identities (view d) →
  productService_UpdateProduct id req d = (r, d') →
  let edit := product_set (view d) (view d') id (UpdateProductRequest_Name req)
    (UpdateProductRequest_Image req) (UpdateProductRequest_Description req)
    (UpdateProductRequest_Price req) (UpdateProductRequest_Quantity req) in
  match r with
  | Ok resp => is_Some (Tables_products (view d) !! id) ∧ edit ∧ ProductResponse_ID resp = id
               ∧ ProductResponse_Name resp = UpdateProductRequest_Name req
               ∧ ProductResponse_Quantity resp = UpdateProductRequest_Quantity req
  | Err e => (e = ErrRecordNotFound ∧ Tables_products (view d) !! id = None
              ∧ view d' = view d)
             ∨ (opaque e = true ∧ (view d' = view d ∨ edit))
  end.
Proof.
  intros HT Hids Hr edit. subst edit.
  apply try_inv in Hr as [(p' & d1 & Hg & Hr)|(e & Hg & ->)];
    apply GetProduct_spec in Hg as [Hv Hg]; [|done| |done].
  2: { destruct Hg as [?|[-> ?]]; [right|left]; auto. }
  destruct Hg as (p & Hp & Hid & Hl). rewrite <- Hv in *.
  apply try_inv in Hr as [(row & d2 & Hu & Hr)|(e & Hu & ->)];
    apply Transaction_outcome in Hu.
  - injection Hr as <- <-. cbn in Hu.
    apply (UpdateProduct_tx_ok _ _ id req p p') in Hu as (? & ? & ? & ?); [|done..].
    split_and!; [by eexists|done..].
  - right. destruct Hu as [[-> [Ho|[T1 Hu]]]|[Ho [row Hu]]]; [by auto| |].
    + split; [|by left]. by eapply UpdateProduct_tx_err.
    + split; [done|right].
      by apply (UpdateProduct_tx_ok _ _ id req p p') in Hu as (? & _).
Qed.

(** A created product is new: success stores one product under an unused id with the
    requested fields and exactly the requested units, and nothing else changes; an error
    changed nothing or is the lost acknowledgement of the complete creation. *)
Theorem CreateProduct_adds req d r d' :
  consistent (view d) → productService_CreateProduct req d = (r, d') →
  let added id := Tables_products (view d) !! id = None
    ∧ product_set (view d) (view d') id (CreateProductRequest_Name req)
        (CreateProductRequest_Image req) (CreateProductRequest_Description req)
        (CreateProductRequest_Price req) (CreateProductRequest_Quantity req) in
  match r with
  | Ok resp => added (ProductResponse_ID resp)
               ∧ ProductResponse_Quantity resp = CreateProductRequest_Quantity req
  | Err e => view d' = view d ∨ ∃ id, added id
  end.
Proof.
  intros HT Hr added. subst added.
  apply try_inv in Hr as [(row & d1 & Hc & Hr)|(e & Hc & ->)]; apply Transaction_outcome in Hc.
  - injection Hr as <- <-. apply CreateProduct_tx_ok in Hc as (? & ? & ?); [|done].
    by split_and!.
  - destruct Hc as [[-> _]|[_ [row Hc]]]; [by left|right].
    apply CreateProduct_tx_ok in Hc as (? & ? & _); [|done]. by eexists.
Qed.
End edit_contract.

(** ** Concrete runs *)
Lemma demo_identities : identities demo_tables.
Proof.
  intros R t k r Hr. destruct t; cbn in Hr;
    try (rewrite lookup_empty in Hr; done);
    repeat (apply lookup_insert_Some in Hr as [[<- _]|[_ Hr]]; [lia|]);
    try (apply lookup_singleton_Some in Hr as [<- _]; lia).
Qed.

Definition demo_page (i : Z) : ListProductsResponse :=
  match (productService_ListProducts (mkListProductsRequest i 1) demo).1 with
  | Ok r => r
  | Err _ => mkListProductsResponse [] 0 0 0
  end.

(** Two pages of one product each list the whole shop. *)
Lemma ListProducts_covers_witness :
  mjoin (ListProductsResponse_Items <$> [demo_page 1; demo_page 2])
  = shown demo_tables <$> catalogue demo_tables.
Proof.
  apply (ListProducts_covers (D := RefDb) demo_tables 1 [demo_page 1; demo_page 2])
    with (resp := demo_page 1).
  - apply demo_consistent.
  - unfold maxPageSize. lia.
  - cbn. unfold max_int. lia.
  - intros [|[|i]] resp Hi; [| |done]; injection Hi as <-;
      exists demo, demo; (split; [done|]); evaluate.
  - left.
  - vm_compute. congruence.
Defined.

Lemma ListProducts_wraps_witness :
  ∃ resp d', productService_ListProducts (mkListProductsRequest (2 ^ 60 + 1) 16) demo = (Ok resp, d')
    ∧ ListProductsResponse_Page resp = 2 ^ 60 + 1
    ∧ ListProductsResponse_Items resp = shown demo_tables <$> take 16 (catalogue demo_tables).
Proof.
  assert (∃ resp d', productService_ListProducts (mkListProductsRequest (2 ^ 60 + 1) 16) demo
                     = (Ok resp, d')) as (resp & d' & E) by (eexists _, _; evaluate).
  exists resp, d'. split; [done|]. exact (ListProducts_wraps demo resp d' demo_consistent E).
Defined.

Definition demo_edit : UpdateProductRequest :=
  mkUpdateProductRequest "lamp" None None (price_of 30) 7.

Lemma UpdateProduct_sets_witness :
  let d' := (productService_UpdateProduct 10 demo_edit demo).2 in
  product_set demo_tables (view d') 10 "lamp" None None (price_of 30) 7.
Proof.
  intros d'.
  assert (∃ resp, productService_UpdateProduct 10 demo_edit demo = (Ok resp, d')) as [resp E]
    by (eexists; evaluate).
  assert (consistent (view demo)) as HT by exact demo_consistent.
  assert (identities (view demo)) as Hi by exact demo_identities.
  exact (proj1 (proj2 (UpdateProduct_sets 10 demo_edit demo (Ok resp) d' HT Hi E))).
Defined.

Definition demo_new_product : CreateProductRequest :=
  mkCreateProductRequest "chair" None None (price_of 40) 9.

Lemma CreateProduct_adds_witness :
  let d' := (productService_CreateProduct demo_new_product demo).2 in
  ∃ resp, productService_CreateProduct demo_new_product demo = (Ok resp, d')
    ∧ Tables_products demo_tables !! ProductResponse_ID resp = None
    ∧ stock (view d') (ProductResponse_ID resp) = 9.
Proof.
  intros d'.
  assert (∃ resp, productService_CreateProduct demo_new_product demo = (Ok resp, d')
                  ∧ ProductResponse_ID resp = 100) as (resp & E & Hid)
    by (eexists; split; [evaluate|evaluate]).
  exists resp. split; [done|].
  assert (consistent (view demo)) as HT by exact demo_consistent.
  destruct (CreateProduct_adds demo_new_product demo (Ok resp) d' HT E)
    as [[Hf (_ & Hs & _)] _].
  split; [exact Hf|]. rewrite Hs, Z.eqb_refl. done.
Defined.
