(* ===== verification/UserService.v ===== *)
(** * The user service ([internal/services/user.go])

    Accounts and login, on any [UserRepository] and any [TokenManager]. *)

From Stdlib Require Import ZArith Lia.
From stdpp Require Import base tactics list gmap strings.
From S2P Require Import Prelude GoStd Errors Models Database Repositories Auth.

Open Scope Z_scope.

(** [type UserService interface] *)
Class UserService (W : Type) : Type := {
  CreateUser : CreateUserRequest → M W (res UserResponse);
  GetUser : Z → M W (res UserResponse);
  UpdateUser : Z → UpdateUserRequest → M W (res UserResponse);
  Login : LoginRequest → M W (res LoginResponse);
}.

Definition toUserResponse (u : User) : UserResponse :=
  mkUserResponse (User_ID u) (User_Name u) (User_Email u) (User_Role u) (User_CreatedAt u)
    (User_UpdatedAt u).

(** [if s != "" { dst = s }] *)
Definition or_keep (s old : string) : string := if bool_decide (s = "") then old else s.

Definition new_user (req : CreateUserRequest) : User :=
  mkUser 0 (CreateUserRequest_Name req) (CreateUserRequest_Email req)
    (CreateUserRequest_Password req)
    (if bool_decide (CreateUserRequest_Role req = "") then UserRoleCustomer
     else CreateUserRequest_Role req) 0 0.

Definition edited_user (req : UpdateUserRequest) (u : User) : User :=
  mkUser (User_ID u) (or_keep (UpdateUserRequest_Name req) (User_Name u))
    (or_keep (UpdateUserRequest_Email req) (User_Email u)) (User_Password u)
    (or_keep (UpdateUserRequest_Role req) (User_Role u)) (User_CreatedAt u) (User_UpdatedAt u).

Section service.
Context `{UserRepository W, TokenManager W, Clock W}.

Definition userService_CreateUser (req : CreateUserRequest) : M W (res UserResponse) :=
  user <-? repo_CreateUser (new_user req);;
  mret (Ok (toUserResponse user)).

Definition userService_GetUser (id : Z) : M W (res UserResponse) :=
  user <-? repo_GetUser id;;
  mret (Ok (toUserResponse user)).

Definition userService_UpdateUser (id : Z) (req : UpdateUserRequest)
  : M W (res UserResponse) :=
  user <-? repo_GetUser id;;
  user <-? repo_UpdateUser (edited_user req user);;
  mret (Ok (toUserResponse user)).

Definition userService_Login (req : LoginRequest) : M W (res LoginResponse) :=
  found ← GetUserByEmail (LoginRequest_Email req);
  match found with
  | Err e => if errors_Is e ErrRecordNotFound then mret (Err ErrInvalidCredentials)
             else mret (Err e)
  | Ok user =>
      if negb (bool_decide (User_Password user = LoginRequest_Password req))
      then mret (Err ErrInvalidCredentials)
      else
        issued <-? Generate (User_ID user) (User_Role user);;
        now ← Now;
        mret (Ok (mkLoginResponse issued.1 "Bearer"
                    (f64_trunc (Duration_Seconds (Time_Sub issued.2 now)))))
  end.

#[export] Instance NewUserService : UserService W := {|
  CreateUser := userService_CreateUser;
  GetUser := userService_GetUser;
  UpdateUser := userService_UpdateUser;
  Login := userService_Login;
|}.
End service.
