(* ===== verification/Http.v ===== *)
(** * Requests, answers and middleware ([internal/api/middleware])

    What a handler sees of a request and what it answers, the authentication and role
    guards, the request metrics, and the binding tags of the request shapes
    ([internal/dto]). The web framework is not part of the program: it is the shape of
    [Handler] and [Middleware], and the class [Binder], which decodes and validates
    bodies. *)

From Stdlib Require Import ZArith Lia Ascii SpecFloat.
From stdpp Require Import base tactics list strings.
From S2P Require Import Prelude GoStd Errors Models Auth.

Open Scope Z_scope.

(** ** [net/http] status codes *)
Definition StatusOK : Z := 200.
Definition StatusCreated : Z := 201.
Definition StatusBadRequest : Z := 400.
Definition StatusUnauthorized : Z := 401.
Definition StatusForbidden : Z := 403.
Definition StatusNotFound : Z := 404.
Definition StatusConflict : Z := 409.
Definition StatusInternalServerError : Z := 500.

(** ** Requests and answers *)

(** The [Authorization] header is empty when absent; the subprotocols are those offered in
    [Sec-WebSocket-Protocol]. *)
Record Request : Type := mkRequest {
  Request_Authorization : string;
  Request_Subprotocols : list string;
  Request_Query : string;
  Request_Body : string;
}.

(** [gin.Context]: the request with its method, the template of the matched route
    ([FullPath], empty when none matched), the path parameter [id], and the two keys the
    authentication middleware sets. *)
Record Ctx : Type := mkCtx {
  ctx_method : string;
  ctx_fullpath : string;
  ctx_request : Request;
  ctx_id : string;
  ctx_userID : option Z;
  ctx_role : option string;
}.
Definition set_principal (userID : Z) (role : string) (c : Ctx) : Ctx :=
  mkCtx (ctx_method c) (ctx_fullpath c) (ctx_request c) (ctx_id c) (Some userID) (Some role).

(** What is written as JSON: [gin.H] with an ["error"] text of the code's own, or one taken
    from an error; or a response shape. *)
Inductive Body : Type :=
| ErrorText (msg : string)
| ErrorOf (err : error)
| OrderBody (r : OrderResponse)
| ProductBody (r : ProductResponse)
| ProductsBody (r : ListProductsResponse)
| InventoryBody (r : InventoryResponse)
| UserBody (r : UserResponse)
| LoginBody (r : LoginResponse).

(** The answer to a request: a JSON response, or a connection turned into a WebSocket (the
    flag: the handler's goroutine panicked later), or a failed upgrade, which the WebSocket
    library answers itself with a status. *)
Inductive Answer : Type :=
| JSON (status : Z) (body : Body)
| Upgraded (panicked : bool)
| UpgradeFailed (status : Z).

Definition Handler (W : Type) : Type := Ctx → M W Answer.
Definition Middleware (W : Type) : Type := Handler W → Handler W.

(** ** [middleware] *)
Definition UserID (c : Ctx) : option Z := ctx_userID c.
Definition Role (c : Ctx) : option string := ctx_role c.

Definition abortUnauthorized (msg : string) : Answer :=
  JSON StatusUnauthorized (ErrorText msg).

(** The header must be ["Bearer <token>"]; the token it carries. *)
Definition bearer_token (header : string) : option string :=
  match Cut header " " with
  | None => None
  | Some (scheme, token) =>
      if negb (EqualFold scheme "Bearer") || bool_decide (TrimSpace token = "") then None
      else Some (TrimSpace token)
  end.

Definition Authenticate `{TokenManager W} : Middleware W := λ next c,
  let header := Request_Authorization (ctx_request c) in
  if bool_decide (header = "") then mret (abortUnauthorized "authorization header required")
  else
    match bearer_token header with
    | None => mret (abortUnauthorized "invalid authorization header")
    | Some token =>
        claims ← Parse token;
        match claims with
        | Err _ => mret (abortUnauthorized "invalid or expired token")
        | Ok claims => next (set_principal (Claims_UserID claims) (Claims_Role claims) c)
        end
    end.

Definition RequireRole {W} (role : UserRole) : Middleware W := λ next c,
  let denied := JSON StatusForbidden (ErrorText "insufficient permissions") in
  match Role c with
  | None => mret denied
  | Some got => if bool_decide (got = role) then next c else mret denied
  end.
Definition RequireAdmin {W} : Middleware W := RequireRole UserRoleAdmin.

(** ** [metrics.go] *)

(** [c.Writer.Status()] after the handler: the framework does not see the 101 of an upgrade. *)
Definition Writer_Status (a : Answer) : Z :=
  match a with
  | JSON status _ => status
  | Upgraded _ => StatusOK
  | UpgradeFailed status => status
  end.

(** The two vectors of the monitoring library, by their labels. *)
Class MetricsSink (W : Type) : Type := {
  httpRequestsTotal_Inc : string * string * string → M W unit;
  httpRequestDuration_Observe : string * string * string → float64 → M W unit;
}.

Definition path_label (c : Ctx) : string :=
  if bool_decide (ctx_fullpath c = "") then "unmatched" else ctx_fullpath c.
Definition metric_labels (c : Ctx) (a : Answer) : string * string * string :=
  (ctx_method c, path_label c, Itoa (Writer_Status a)).

Section metrics.
Context `{Clock W, MetricsSink W}.

Definition record_request (labels : string * string * string) (start : Time) : M W unit :=
  _ ← httpRequestsTotal_Inc labels;
  now ← Now;
  httpRequestDuration_Observe labels (Duration_Seconds (Time_Sub now start)).

(** A handler that panics unwinds past the counters. *)
Definition Metrics : Middleware W := λ next c,
  start ← Now;
  a ← next c;
  match a with
  | Upgraded true => mret a
  | _ => _ ← record_request (metric_labels c a) start; mret a
  end.
End metrics.

(** ** Binding *)
Inductive shape : Type → Type :=
| CreateOrderShape : shape CreateOrderRequest
| CreateProductShape : shape CreateProductRequest
| UpdateProductShape : shape UpdateProductRequest
| CreateUserShape : shape CreateUserRequest
| UpdateUserShape : shape UpdateUserRequest
| LoginShape : shape LoginRequest.

Class Binder : Type := {
  is_email : string → bool;   (* the [email] tag *)
  ShouldBindJSON : ∀ {A}, shape A → string → res A;
  ShouldBindQuery : string → res ListProductsRequest;
}.

(** The [required] tag: not the zero value. *)
Definition required (s : string) : bool := negb (bool_decide (s = "")).
Definition required_float (x : float64) : bool :=
  match x with S754_zero false => false | _ => true end.

(** Characters of a UTF-8 text: the bytes that do not continue one. *)
Fixpoint rune_count (s : string) : Z :=
  match s with
  | EmptyString => 0
  | String c s' =>
      let n := N_of_ascii c in
      (if ((128 <=? n) && (n <? 192))%N then 0 else 1) + rune_count s'
  end.

(** The field types and [binding] tags of each shape. *)
Definition order_item_valid (i : OrderItemRequest) : bool :=
  in_int (OrderItemRequest_ProductID i) && in_int (OrderItemRequest_Quantity i)
  && negb (OrderItemRequest_ProductID i =? 0) && (0 <? OrderItemRequest_Quantity i).

Definition valid `{Binder} {A} (s : shape A) : A → bool :=
  match s with
  | CreateOrderShape => λ r,
      (1 <=? Z.of_nat (length (CreateOrderRequest_Items r)))
      && forallb order_item_valid (CreateOrderRequest_Items r)
  | CreateProductShape => λ r,
      required (CreateProductRequest_Name r) && required_float (CreateProductRequest_Price r)
      && f64_ge0 (CreateProductRequest_Price r) && in_int (CreateProductRequest_Quantity r)
      && (0 <=? CreateProductRequest_Quantity r)
  | UpdateProductShape => λ r,
      required (UpdateProductRequest_Name r) && required_float (UpdateProductRequest_Price r)
      && f64_ge0 (UpdateProductRequest_Price r) && in_int (UpdateProductRequest_Quantity r)
      && (0 <=? UpdateProductRequest_Quantity r)
  | CreateUserShape => λ r,
      required (CreateUserRequest_Name r) && required (CreateUserRequest_Email r)
      && is_email (CreateUserRequest_Email r) && required (CreateUserRequest_Password r)
      && (8 <=? rune_count (CreateUserRequest_Password r))
  | UpdateUserShape => λ r,
      negb (required (UpdateUserRequest_Email r)) || is_email (UpdateUserRequest_Email r)
  | LoginShape => λ r,
      required (LoginRequest_Email r) && is_email (LoginRequest_Email r)
      && required (LoginRequest_Password r)
  end.

Class LawfulBinder `{Binder} : Prop := {
  bind_valid : ∀ {A} (s : shape A) body x, ShouldBindJSON s body = Ok x → valid s x = true;
}.

(** ** Lemmas *)

(** What a request must carry to get past the authentication. *)
Lemma Authenticate_inv `{TokenManager W} (next : Handler W) c w a w' :
  Authenticate next c w = (a, w') →
  (∃ msg, a = abortUnauthorized msg
     ∧ (w' = w ∨ ∃ token r, bearer_token (Request_Authorization (ctx_request c)) = Some token
          ∧ is_ok r = false ∧ Parse token w = (r, w')))
  ∨ ∃ token claims w1, bearer_token (Request_Authorization (ctx_request c)) = Some token
      ∧ Parse token w = (Ok claims, w1)
      ∧ next (set_principal (Claims_UserID claims) (Claims_Role claims) c) w1 = (a, w').
Proof.
  unfold Authenticate. case_bool_decide; [intros [= <- <-]; left; eauto|].
  destruct (bearer_token _) as [token|]; [|intros [= <- <-]; left; eauto].
  intros (r & w1 & Hp & Hk)%M_bind_inv. destruct r as [claims|e].
  - right. by exists token, claims, w1.
  - injection Hk as <- <-. left. eexists. split; [done|right]. by exists token, (Err e).
Qed.

Lemma RequireRole_inv {W} role (next : Handler W) c w a w' :
  RequireRole role next c w = (a, w') →
  (a = JSON StatusForbidden (ErrorText "insufficient permissions") ∧ w' = w)
  ∨ (ctx_role c = Some role ∧ next c w = (a, w')).
Proof.
  unfold RequireRole, Role. destruct (ctx_role c) as [got|]; [|intros [= <- <-]; by left].
  case_bool_decide as E; [subst|intros [= <- <-]; by left]. by right.
Qed.
