(* ===== verification/Handlers.v ===== *)
(** * The HTTP handlers ([internal/api/handlers])

    Each handler binds the request, calls its service, and maps the outcome to a status.
    [uuid] is what [uuid.NewString] returns in the request. The WebSocket handler reaches the
    hub through [SocketHub]. *)

From Stdlib Require Import ZArith Lia Ascii.
From stdpp Require Import base tactics list strings.
From S2P Require Import Prelude GoStd Errors Models OrderRepository Repositories.
From S2P Require Import Idempotency OrderService Notification Auth ProductService UserService Http.

Open Scope Z_scope.

Definition error_answer (status : Z) (err : error) : Answer := JSON status (ErrorOf err).

(** ** [order_handler.go] *)
Definition writeOrderError (err : error) : Answer :=
  match errors_As_ProductNotFound err with
  | Some _ => error_answer StatusNotFound err
  | None =>
  match errors_As_InsufficientStock err with
  | Some _ => error_answer StatusConflict err
  | None =>
      if errors_Is err ErrDuplicateOrder then error_answer StatusConflict err
      else if errors_Is err ErrDuplicateLineItem then error_answer StatusBadRequest err
      else if errors_Is err ErrUserNotFound then error_answer StatusBadRequest err
      else error_answer StatusInternalServerError err
  end end.

Section orders.
Context `{OrderService W, Binder}.

Definition OrderHandler_Create (uuid : string) : Handler W := λ c,
  match UserID c with
  | None => mret (JSON StatusUnauthorized (ErrorText "authentication required"))
  | Some userID =>
      match ShouldBindJSON CreateOrderShape (Request_Body (ctx_request c)) with
      | Err err => mret (error_answer StatusBadRequest err)
      | Ok req =>
          r ← CreateOrder uuid userID req;
          match r with
          | Err err => mret (writeOrderError err)
          | Ok resp => mret (JSON StatusCreated (OrderBody resp))
          end
      end
  end.
End orders.

(** [errors.Is(err, gorm.ErrRecordNotFound)]: 404 with a text, otherwise 500. *)
Definition not_found_or_500 (msg : string) (err : error) : Answer :=
  if errors_Is err ErrRecordNotFound then JSON StatusNotFound (ErrorText msg)
  else error_answer StatusInternalServerError err.

Definition invalid_id : Answer := JSON StatusBadRequest (ErrorText "invalid id").

(** ** [product_handler.go] *)
Section products.
Context `{ProductService W, Binder}.

Definition ProductHandler_List : Handler W := λ c,
  match ShouldBindQuery (Request_Query (ctx_request c)) with
  | Err err => mret (error_answer StatusBadRequest err)
  | Ok req =>
      r ← ListProducts req;
      match r with
      | Err err => mret (error_answer StatusInternalServerError err)
      | Ok resp => mret (JSON StatusOK (ProductsBody resp))
      end
  end.

Definition ProductHandler_Create : Handler W := λ c,
  match ShouldBindJSON CreateProductShape (Request_Body (ctx_request c)) with
  | Err err => mret (error_answer StatusBadRequest err)
  | Ok req =>
      r ← CreateProduct req;
      match r with
      | Err err => mret (error_answer StatusInternalServerError err)
      | Ok resp => mret (JSON StatusCreated (ProductBody resp))
      end
  end.

Definition ProductHandler_Update : Handler W := λ c,
  match Atoi (ctx_id c) with
  | None => mret invalid_id
  | Some id =>
      match ShouldBindJSON UpdateProductShape (Request_Body (ctx_request c)) with
      | Err err => mret (error_answer StatusBadRequest err)
      | Ok req =>
          r ← UpdateProduct id req;
          match r with
          | Err err => mret (not_found_or_500 "product not found" err)
          | Ok resp => mret (JSON StatusOK (ProductBody resp))
          end
      end
  end.

Definition ProductHandler_GetInventory : Handler W := λ c,
  match Atoi (ctx_id c) with
  | None => mret invalid_id
  | Some id =>
      r ← GetInventory id;
      match r with
      | Err err => mret (not_found_or_500 "inventory not found" err)
      | Ok resp => mret (JSON StatusOK (InventoryBody resp))
      end
  end.

Definition ProductHandler_Get : Handler W := λ c,
  match Atoi (ctx_id c) with
  | None => mret invalid_id
  | Some id =>
      r ← GetProduct id;
      match r with
      | Err err => mret (not_found_or_500 "product not found" err)
      | Ok resp => mret (JSON StatusOK (ProductBody resp))
      end
  end.
End products.

(** ** [user_handler.go] *)
Section users.
Context `{UserService W, Binder}.

Definition UserHandler_CreateUser : Handler W := λ c,
  match ShouldBindJSON CreateUserShape (Request_Body (ctx_request c)) with
  | Err err => mret (error_answer StatusBadRequest err)
  | Ok req =>
      r ← CreateUser req;
      match r with
      | Err err => mret (error_answer StatusInternalServerError err)
      | Ok resp => mret (JSON StatusCreated (UserBody resp))
      end
  end.

Definition UserHandler_Login : Handler W := λ c,
  match ShouldBindJSON LoginShape (Request_Body (ctx_request c)) with
  | Err err => mret (error_answer StatusBadRequest err)
  | Ok req =>
      r ← Login req;
      match r with
      | Err err =>
          if errors_Is err ErrInvalidCredentials then mret (error_answer StatusUnauthorized err)
          else mret (error_answer StatusInternalServerError err)
      | Ok resp => mret (JSON StatusOK (LoginBody resp))
      end
  end.

Definition UserHandler_GetUser : Handler W := λ c,
  match Atoi (ctx_id c) with
  | None => mret invalid_id
  | Some id =>
      r ← GetUser id;
      match r with
      | Err err => mret (not_found_or_500 "user not found" err)
      | Ok resp => mret (JSON StatusOK (UserBody resp))
      end
  end.

Definition UserHandler_UpdateUser : Handler W := λ c,
  match Atoi (ctx_id c) with
  | None => mret invalid_id
  | Some id =>
      match ShouldBindJSON UpdateUserShape (Request_Body (ctx_request c)) with
      | Err err => mret (error_answer StatusBadRequest err)
      | Ok req =>
          r ← UpdateUser id req;
          match r with
          | Err err => mret (not_found_or_500 "user not found" err)
          | Ok resp => mret (JSON StatusOK (UserBody resp))
          end
      end
  end.
End users.

(** ** [ws_handler.go] *)
Definition subprotocolSentinel : string := "access_token".

Fixpoint tokenFromSubprotocols (protocols : list string) : string :=
  match protocols with
  | p :: ((next :: _) as rest) =>
      if bool_decide (p = subprotocolSentinel) then next else tokenFromSubprotocols rest
  | _ => ""
  end.

(** [wsUpgrader]: the one subprotocol it may echo, and every origin admitted. *)
Record Upgrader : Type := mkUpgrader {
  Upgrader_ReadBufferSize : Z;
  Upgrader_WriteBufferSize : Z;
  Upgrader_Subprotocols : list string;
  Upgrader_CheckOrigin : Request → bool;
}.
Definition wsUpgrader : Upgrader := mkUpgrader 1024 1024 [subprotocolSentinel] (λ _, true).

(** What the handler does with the connection and the hub: [Upgrade] may fail with a status
    the library has written; [Subscribe] makes the client, registers it and starts its pump;
    [ClientSend] is false when the send panics. *)
Class SocketHub (W : Type) : Type := {
  Upgrade : Upgrader → M W (result Z unit);
  Subscribe : Z → M W nat;
  ClientSend : nat → string → M W bool;
}.

(** The two repository methods the handler needs, as it declares them. *)
Class orderOwnerLookup (W : Type) : Type := { lookup_GetOrderUserID : Z → M W (res Z) }.
Class notificationLister (W : Type) : Type := {
  lister_ListByOrder : Z → M W (res (list Notification));
}.
#[export] Instance orders_lookup `{OrderRepository W} : orderOwnerLookup W :=
  {| lookup_GetOrderUserID := GetOrderUserID |}.
#[export] Instance notifications_lister `{NotificationRepository W} : notificationLister W :=
  {| lister_ListByOrder := ListByOrder |}.

Section websocket.
Context `{TokenManager W, orderOwnerLookup W, notificationLister W, SocketHub W}.

(** The replay loop; false when a send panicked. *)
Fixpoint replay (client : nat) (notes : list Notification) : M W bool :=
  match notes with
  | [] => mret true
  | n :: rest =>
      sent ← ClientSend client (event n);
      if sent : bool then replay client rest else mret false
  end.

(** Steps 4 and 5: upgrade, register, replay. *)
Definition subscribe (orderID : Z) : M W Answer :=
  upgraded ← Upgrade wsUpgrader;
  match upgraded with
  | Err status => mret (UpgradeFailed status)
  | Ok _ =>
      client ← Subscribe orderID;
      notes ← lister_ListByOrder orderID;
      match notes with
      | Err _ => mret (Upgraded false)
      | Ok notes => sent ← replay client notes; mret (Upgraded (negb sent))
      end
  end.

Definition WebSocketHandler_Connect : Handler W := λ c,
  let token := tokenFromSubprotocols (Request_Subprotocols (ctx_request c)) in
  if bool_decide (token = "") then
    mret (JSON StatusUnauthorized (ErrorText "authentication required"))
  else
    claims ← Parse token;
    match claims with
    | Err _ => mret (JSON StatusUnauthorized (ErrorText "invalid or expired token"))
    | Ok claims =>
        let invalid := JSON StatusBadRequest (ErrorText "invalid order id") in
        match Atoi (ctx_id c) with
        | None => mret invalid
        | Some orderID =>
            if orderID <=? 0 then mret invalid
            else
              owner ← lookup_GetOrderUserID orderID;
              match owner with
              | Err err =>
                  if errors_Is err ErrOrderNotFound
                  then mret (JSON StatusNotFound (ErrorText "order not found"))
                  else mret (JSON StatusInternalServerError (ErrorText "could not load order"))
              | Ok owner =>
                  if negb (owner =? Claims_UserID claims)
                  then mret (JSON StatusForbidden (ErrorText "not your order"))
                  else
                    subscribe orderID
              end
        end
    end.
End websocket.
