(* ===== verification/AuthSpec.v ===== *)
(** * Properties of tokens and of the authentication middleware *)

From Stdlib Require Import ZArith Lia Ascii.
From stdpp Require Import base tactics list strings.
From S2P Require Import Prelude GoStd Errors Models Auth Http.

Open Scope Z_scope.

Section tokens.
Context `{LawfulJwt} `{Clock W}.
Variable m : jwtManager.
#[local] Instance manager_tokens : TokenManager W := jwt_tokens m.
Implicit Types (w : W).

(** C33. A token lives exactly as long as it says: minted for a user and a role, it parses to
    that user and role, and to nothing else, at every instant before its expiry date, and
    not from then on; the date is the promised expiry cut to the token's precision. *)
Theorem token_lifetime userID role w tok expiresAt w1 :
  in_int userID = true → ascii_string role →
  Generate userID role w = (Ok (tok, expiresAt), w1) →
  ∃ now, Now w = (now, w1) ∧ expiresAt = now + jwt_ttl m
    ∧ expiresAt - Second < NewNumericDate expiresAt ≤ expiresAt
    ∧ ∀ w2 now2 w3, Now w2 = (now2, w3) →
        (now2 < NewNumericDate expiresAt →
         ∃ claims, Parse tok w2 = (Ok claims, w3) ∧ Claims_UserID claims = userID
                   ∧ Claims_Role claims = role)
        ∧ (NewNumericDate expiresAt ≤ now2 → is_ok (Parse tok w2).1 = false).
Proof.
  intros Hi Hr Hg. apply Generate_inv in Hg as (now & Hn & Hg). cbv zeta in Hg.
  destruct (SignedString _ _ _) as [tok'|e] eqn:Hs; [|done]. injection Hg as -> ->.
  pose proof (λ now2, minted_parses m userID role now tok' now2 Hi Hr Hs) as Hp.
  exists now. split_and!; [done..|apply NewNumericDate_precision|apply NewNumericDate_precision|].
  intros w2 now2 w3 Hn2. split; intros Ht.
  - exists (issued_claims userID role now (now + jwt_ttl m)). split; [|done].
    cbn. unfold jwtManager_Parse.
    rewrite (M_bind_unfold _ _ _ _ _ Hn2). unfold mret, M_ret. f_equal. by apply Hp.
  - cbn. unfold jwtManager_Parse. rewrite (M_bind_unfold _ _ _ _ _ Hn2). cbn.
    destruct (ParseWithClaims _ _ _) as [c|e] eqn:E; [|done]. apply Hp in E. lia.
Qed.

(** C19. Nobody passes the authentication without a token of ours: the handler runs only when
    the header carries, after the word Bearer, a token signed with the secret under an HMAC
    method and not expired, and it runs for exactly the user and role of that token; in every
    other case the answer is 401 and nothing but the clock was touched. *)
Theorem Authenticate_admits (next : Handler W) c w a w' :
  Authenticate next c w = (a, w') →
  (∃ msg, a = JSON 401 (ErrorText msg) ∧ (w' = w ∨ ∃ now, Now w = (now, w')))
  ∨ ∃ token alg claims now w1,
      bearer_token (Request_Authorization (ctx_request c)) = Some token
      ∧ signed (SigningMethodHMAC alg) (jwt_secret m) claims token
      ∧ Now w = (now, w1) ∧ in_time now claims
      ∧ next (set_principal (Claims_UserID claims) (Claims_Role claims) c) w1 = (a, w').
Proof.
  intros [(msg & -> & Hw)|(token & claims & w1 & Hb & Hp & Hk)]%Authenticate_inv.
  - left. exists msg. split; [done|]. destruct Hw as [->|(token & r & _ & _ & Hp)]; [by left|right].
    apply Parse_inv in Hp as (now & Hn & _). eauto.
  - right. apply Parse_inv in Hp as (now & Hn & Hp). symmetry in Hp.
    apply ParseWithClaims_sound in Hp as (method & key & Hk' & Hs & Ht).
    apply jwt_keyfunc_ok in Hk' as [[alg ->] ->]. by exists token, alg, claims, now, w1.
Qed.
End tokens.

(** ** Concrete runs *)
#[local] Instance demo_tokens : TokenManager (list Time) := jwt_tokens demo_manager.

Lemma token_lifetime_witness :
  ∃ tok, Generate 1 UserRoleCustomer [1000 * Second] = (Ok (tok, 4600 * Second), [])
    ∧ (∃ claims, Parse tok [4599 * Second] = (Ok claims, []) ∧ Claims_UserID claims = 1
                 ∧ Claims_Role claims = UserRoleCustomer)
    ∧ is_ok (Parse tok [4600 * Second]).1 = false.
Proof.
  assert (∃ tok, Generate 1 UserRoleCustomer [1000 * Second] = (Ok (tok, 4600 * Second), []))
    as [tok E] by (eexists; evaluate).
  exists tok. split; [done|].
  destruct (token_lifetime demo_manager 1 UserRoleCustomer [1000 * Second] tok (4600 * Second) [])
    as (now & _ & _ & _ & Hp).
  - done.
  - unfold ascii_string. cbn. repeat constructor.
  - exact E.
  - split; [apply (Hp [4599 * Second] (4599 * Second) []); done|].
    apply (Hp [4600 * Second] (4600 * Second) []); done.
Defined.

Definition demo_request (header : string) : Ctx :=
  mkCtx "GET" "/" (mkRequest header [] "" "") "" None None.
Definition who : Handler (list Time) := λ c,
  mret (JSON 200 (ErrorText (match UserID c with Some id => Itoa id | None => "" end))).
Definition demo_token : string :=
  match (Generate 7 UserRoleCustomer [1000 * Second]).1 with Ok (tok, _) => tok | Err _ => "" end.

(** Scheme in any case, blanks around the token. *)
Lemma Authenticate_admits_witness :
  ∃ alg claims, signed (SigningMethodHMAC alg) "s3cret" claims demo_token
    ∧ in_time (2000 * Second) claims
    ∧ Authenticate who (demo_request ("bEARER  " +:+ demo_token +:+ " ")) [2000 * Second]
      = (JSON 200 (ErrorText "7"), []).
Proof.
  assert (Authenticate who (demo_request ("bEARER  " +:+ demo_token +:+ " ")) [2000 * Second]
          = (JSON 200 (ErrorText "7"), [])) as E by evaluate.
  destruct (Authenticate_admits demo_manager who _ _ _ _ E)
    as [(msg & Hj & _)|(token & alg & claims & now & w1 & Hb & Hs & Hn & Ht & _)]; [done|].
  exists alg, claims. injection Hn as <- _.
  assert (token = demo_token) as Et.
  { assert (bearer_token (Request_Authorization (ctx_request
      (demo_request ("bEARER  " +:+ demo_token +:+ " ")))) = Some demo_token) as Hb' by evaluate.
    rewrite Hb in Hb'. exact (Some_inj _ _ Hb'). }
  rewrite Et in Hs. exact (conj Hs (conj Ht E)).
Defined.
