(* ===== verification/Routes.v ===== *)
(** * The routes ([internal/api/routes])

    The route table as the registration functions build it, group by group, and the state
    the handlers work on. The framework's router is modelled as far as the code uses it: a
    request runs the middleware of the group and then the handler of the route whose pattern
    matches; no two patterns of a method overlap. Its redirects of trailing slashes answer
    before any handler and are left out. [metrics] is the monitoring library's handler. *)

From Stdlib Require Import ZArith Lia Ascii.
From stdpp Require Import base tactics list gmap strings.
From S2P Require Import Prelude GoStd Errors Config Models OrderRepository Repositories.
From S2P Require Import Idempotency OrderService Notification Hub Auth ProductService.
From S2P Require Import UserService Http Handlers.

Open Scope Z_scope.

(** ** Groups and routes *)
Inductive segment : Type := Lit (s : string) | Param.   (* [Param] is [:id] *)

Record Route (W : Type) : Type := mkRoute {
  route_method : string;
  route_path : list segment;
  route_chain : list (Middleware W);
  route_handler : Handler W;
}.
Arguments mkRoute {W} route_method route_path route_chain route_handler.
Arguments route_method {W} r.
Arguments route_path {W} r.
Arguments route_chain {W} r.
Arguments route_handler {W} r.

Record RouterGroup (W : Type) : Type := mkRouterGroup {
  group_path : list segment;
  group_handlers : list (Middleware W);
}.
Arguments mkRouterGroup {W} group_path group_handlers.
Arguments group_path {W} r.
Arguments group_handlers {W} r.

Definition Group {W} (rg : RouterGroup W) (path : list segment) : RouterGroup W :=
  mkRouterGroup (group_path rg ++ path) (group_handlers rg).
Definition Use {W} (rg : RouterGroup W) (mws : list (Middleware W)) : RouterGroup W :=
  mkRouterGroup (group_path rg) (group_handlers rg ++ mws).
Definition Handle {W} (rg : RouterGroup W) (method : string) (path : list segment)
  (h : Handler W) : Route W :=
  mkRoute method (group_path rg ++ path) (group_handlers rg) h.

(** A chain of middleware around a handler, the first outermost. *)
Definition chained {W} (mws : list (Middleware W)) (h : Handler W) : Handler W :=
  foldr (λ mw h, mw h) h mws.

(** The value of [:id] when the pattern matches; parameters are not empty. *)
Fixpoint match_path (pattern : list segment) (path : list string) (id : string)
  : option string :=
  match pattern, path with
  | [], [] => Some id
  | Lit s :: pattern', p :: path' =>
      if bool_decide (s = p) then match_path pattern' path' id else None
  | Param :: pattern', p :: path' =>
      if bool_decide (p = "") then None else match_path pattern' path' p
  | _, _ => None
  end.

(** [registerFallbacks]: the framework calls the second handler only when its option
    [HandleMethodNotAllowed] is set, which [gin.New] leaves unset. *)
Definition NoRoute : Answer := JSON StatusNotFound (ErrorText "route not found").
Definition NoMethod : Answer := JSON 405 (ErrorText "method not allowed").
Definition HandleMethodNotAllowed : bool := false.

(** [c.FullPath()] of a route. *)
Fixpoint template (path : list segment) : string :=
  match path with
  | [] => ""
  | Lit s :: rest => "/" +:+ s +:+ template rest
  | Param :: rest => "/:id" +:+ template rest
  end.

Section routes.
Context `{OrderService W, ProductService W, UserService W, TokenManager W, SocketHub W}.
Context `{orderOwnerLookup W, notificationLister W, Clock W, Binder, MetricsSink W}.
Variable metrics : Handler W.
Variable uuid : string.

Definition registerAuthRoutes (rg : RouterGroup W) : list (Route W) :=
  let auth := Group rg [Lit "auth"] in
  [Handle auth "POST" [Lit "login"] UserHandler_Login].

Definition registerUserRoutes (rg : RouterGroup W) : list (Route W) :=
  let users := Group rg [Lit "users"] in
  [Handle users "POST" [] UserHandler_CreateUser;
   Handle users "GET" [Param] UserHandler_GetUser;
   Handle users "PUT" [Param] UserHandler_UpdateUser].

Definition registerProductRoutes (rg : RouterGroup W) : list (Route W) :=
  let products := Group rg [Lit "products"] in
  let admin := Use (Group rg [Lit "products"]) [Authenticate; RequireAdmin] in
  [Handle products "GET" [] ProductHandler_List;
   Handle products "GET" [Param] ProductHandler_Get;
   Handle products "GET" [Param; Lit "inventory"] ProductHandler_GetInventory;
   Handle admin "POST" [] ProductHandler_Create;
   Handle admin "PUT" [Param] ProductHandler_Update].

Definition registerOrderRoutes (rg : RouterGroup W) : list (Route W) :=
  let orders := Use (Group rg [Lit "orders"]) [Authenticate] in
  [Handle orders "POST" [] (OrderHandler_Create uuid)].

(** [NewRouter]: the route of the scraper is registered before the metrics middleware. *)
Definition NewRouter : list (Route W) :=
  let r0 := mkRouterGroup [] [] in
  let r := Use r0 [Metrics] in
  let v1 := Group r [Lit "api"; Lit "v1"] in
  Handle r0 "GET" [Lit "metrics"] metrics
  :: registerAuthRoutes v1 ++ registerUserRoutes v1 ++ registerProductRoutes v1
     ++ registerOrderRoutes v1
     ++ [Handle v1 "GET" [Lit "orders"; Param; Lit "subscribe"] WebSocketHandler_Connect].

(** The first route of the table that matches. *)
Fixpoint find_route (rs : list (Route W)) (method : string) (path : list string)
  : option (Route W * string) :=
  match rs with
  | [] => None
  | r :: rs' =>
      if bool_decide (route_method r = method) then
        match match_path (route_path r) path "" with
        | Some id => Some (r, id)
        | None => find_route rs' method path
        end
      else find_route rs' method path
  end.

Definition ServeHTTP (method : string) (path : list string) (req : Request) : M W Answer :=
  match find_route NewRouter method path with
  | Some (r, id) =>
      chained (route_chain r) (route_handler r)
        (mkCtx method (template (route_path r)) req id None None)
  | None =>
      let other := existsb (λ r, match match_path (route_path r) path "" with
                                 | Some _ => true | None => false end) NewRouter in
      chained [Metrics]
        (λ _, mret (if HandleMethodNotAllowed && other then NoMethod else NoRoute))
        (mkCtx method "" req "" None None)
  end.
End routes.

(** ** The state behind the handlers ([buildHandlers])

    The world of the order service, the clock the token manager reads, the hub, and the
    request metrics. *)
Record Site (D S P C H K : Type) : Type := mkSite {
  site_world : World D S P;
  site_clock : C;
  site_hub : H;
  site_metrics : K;
}.
Arguments mkSite {D S P C H K} site_world site_clock site_hub site_metrics.
Arguments site_world {D S P C H K} s.
Arguments site_clock {D S P C H K} s.
Arguments site_hub {D S P C H K} s.
Arguments site_metrics {D S P C H K} s.

Section site.
Context {D S P C H K : Type}.

Definition at_world {A} : M (World D S P) A → M (Site D S P C H K) A :=
  on site_world (λ x s, mkSite x (site_clock s) (site_hub s) (site_metrics s)).
Definition at_db {A} (m : M D A) : M (Site D S P C H K) A := at_world (on_db m).
Definition at_clock {A} : M C A → M (Site D S P C H K) A :=
  on site_clock (λ x s, mkSite (site_world s) x (site_hub s) (site_metrics s)).
Definition at_hub {A} : M H A → M (Site D S P C H K) A :=
  on site_hub (λ x s, mkSite (site_world s) (site_clock s) x (site_metrics s)).
Definition at_metrics {A} : M K A → M (Site D S P C H K) A :=
  on site_metrics (λ x s, mkSite (site_world s) (site_clock s) (site_hub s) x).

#[export] Instance site_orders `{OrderRepository D} : OrderRepository (Site D S P C H K) := {|
  repo_CreateOrder order payment := at_db (repo_CreateOrder order payment);
  GetPendingByOrderID id := at_db (GetPendingByOrderID id);
  GetOrderUserID id := at_db (GetOrderUserID id);
  MarkPaidAndConfirm payment txn := at_db (MarkPaidAndConfirm payment txn);
  FailCancelAndRestock payment := at_db (FailCancelAndRestock payment);
  ListStalePending now older limit := at_db (ListStalePending now older limit);
|}.

#[export] Instance site_products `{ProductRepository D}
  : ProductRepository (Site D S P C H K) := {|
  repo_ListProducts limit offset := at_db (repo_ListProducts limit offset);
  repo_GetProduct id := at_db (repo_GetProduct id);
  GetProductsByIDs ids := at_db (GetProductsByIDs ids);
  repo_CreateProduct p := at_db (repo_CreateProduct p);
  repo_UpdateProduct p := at_db (repo_UpdateProduct p);
  repo_GetInventory id := at_db (repo_GetInventory id);
|}.

#[export] Instance site_users `{UserRepository D} : UserRepository (Site D S P C H K) := {|
  repo_CreateUser u := at_db (repo_CreateUser u);
  repo_GetUser id := at_db (repo_GetUser id);
  GetUserByEmail email := at_db (GetUserByEmail email);
  repo_UpdateUser u := at_db (repo_UpdateUser u);
|}.

#[export] Instance site_notifications `{NotificationRepository D}
  : NotificationRepository (Site D S P C H K) := {|
  repo_CreateNotification n := at_db (repo_CreateNotification n);
  MarkSent id := at_db (MarkSent id);
  MarkFailed id := at_db (MarkFailed id);
  ListByOrder id := at_db (ListByOrder id);
|}.

#[export] Instance site_store `{Store S} : Store (Site D S P C H K) := {|
  Reserve key ttl := at_world (on_store (Reserve key ttl));
  Release key := at_world (on_store (Release key));
|}.

#[export] Instance site_processor `{OrderProcessor P} : OrderProcessor (Site D S P C H K) := {|
  Process id := at_world (on_queue (Process id));
|}.

#[export] Instance site_now `{Clock C} : Clock (Site D S P C H K) := {|
  Now := at_clock Now;
|}.

#[export] Instance site_sockets `{SocketHub H} : SocketHub (Site D S P C H K) := {|
  Upgrade u := at_hub (Upgrade u);
  Subscribe orderID := at_hub (Subscribe orderID);
  ClientSend client payload := at_hub (ClientSend client payload);
|}.

#[export] Instance site_sink `{MetricsSink K} : MetricsSink (Site D S P C H K) := {|
  httpRequestsTotal_Inc labels := at_metrics (httpRequestsTotal_Inc labels);
  httpRequestDuration_Observe labels x := at_metrics (httpRequestDuration_Observe labels x);
|}.
End site.

(** [buildHandlers]: the router over the four collaborators, each repository on the database,
    the order service on all of them, and the token manager the configuration describes. *)
Definition buildHandlers {D St Pr Ck Hb Ms : Type}
  `{OrderRepository D, ProductRepository D, UserRepository D, NotificationRepository D}
  `{Store St, OrderProcessor Pr, Clock Ck, SocketHub Hb, MetricsSink Ms, Binder, Jwt}
  (cfg : Config) (metrics : Handler (Site D St Pr Ck Hb Ms)) (uuid : string)
  : string → list string → Request → M (Site D St Pr Ck Hb Ms) Answer :=
  let tokenManager : TokenManager (Site D St Pr Ck Hb Ms) :=
    jwt_tokens (NewJWTManager (JWTConfig_Secret (Config_JWT cfg)) (JWTConfig_TTL (Config_JWT cfg))) in
  let userService : UserService (Site D St Pr Ck Hb Ms) := NewUserService in
  let productService : ProductService (Site D St Pr Ck Hb Ms) := NewProductService in
  let orderService : OrderService (Site D St Pr Ck Hb Ms) := NewOrderService in
  ServeHTTP metrics uuid.

(** The hub as the connect handler uses it, with the outcomes of the next upgrades. *)
Record Sockets : Type := mkSockets {
  sk_hub : Hub;
  sk_next : nat;
  sk_upgrades : list (result Z unit);
}.

#[export] Instance hub_sockets : SocketHub Sockets := {|
  Upgrade := λ _ s, (match sk_upgrades s with u :: _ => u | [] => Ok () end,
                   mkSockets (sk_hub s) (sk_next s) (tail (sk_upgrades s)));
  Subscribe := λ orderID s,
    (sk_next s,
     match hub_step (EvConnect (sk_next s) orderID) (sk_hub s) with
     | Ok (_, h) => mkSockets h (Datatypes.S (sk_next s)) (sk_upgrades s)
     | Err _ => s
     end);
  ClientSend := λ client payload s,
    match hub_step (EvSend client payload) (sk_hub s) with
    | Ok (_, h) => (true, mkSockets h (sk_next s) (sk_upgrades s))
    | Err _ => (false, s)
    end;
|}.

(** The counter as a list of the labels counted, the histogram as a list of observations. *)
Record Counters : Type := mkCounters {
  counted : list (string * string * string);
  observed : list (string * string * string * float64);
}.
#[export] Instance counters_sink : MetricsSink Counters := {|
  httpRequestsTotal_Inc := λ l k, ((), mkCounters (counted k ++ [l]) (observed k));
  httpRequestDuration_Observe := λ l x k, ((), mkCounters (counted k) (observed k ++ [(l, x)]));
|}.

(** ** Lemmas: one component at a time *)
Section site_lemmas.
Context {D S P C H K : Type}.
Implicit Types (s : Site D S P C H K).

Definition site_db s : D := world_db (site_world s).
Definition set_db (d : D) s : Site D S P C H K :=
  mkSite (mkWorld d (world_store (site_world s)) (world_queue (site_world s)))
    (site_clock s) (site_hub s) (site_metrics s).
Definition set_clock (c : C) s : Site D S P C H K :=
  mkSite (site_world s) c (site_hub s) (site_metrics s).
Definition set_hub (h : H) s : Site D S P C H K :=
  mkSite (site_world s) (site_clock s) h (site_metrics s).
Definition set_metrics (k : K) s : Site D S P C H K :=
  mkSite (site_world s) (site_clock s) (site_hub s) k.

Lemma at_db_inv {A} (m : M D A) s r s' :
  at_db m s = (r, s') → ∃ d', m (site_db s) = (r, d') ∧ s' = set_db d' s.
Proof.
  unfold at_db, at_world, on_db, on, site_db, set_db. destruct (m _) as [a d'].
  intros [= <- <-]. by exists d'.
Qed.

Lemma at_clock_inv {A} (m : M C A) s r s' :
  at_clock m s = (r, s') → ∃ c', m (site_clock s) = (r, c') ∧ s' = set_clock c' s.
Proof.
  unfold at_clock, on. destruct (m _) as [a c']. intros [= <- <-]. by exists c'.
Qed.

Lemma at_hub_inv {A} (m : M H A) s r s' :
  at_hub m s = (r, s') → ∃ h', m (site_hub s) = (r, h') ∧ s' = set_hub h' s.
Proof.
  unfold at_hub, on. destruct (m _) as [a h']. intros [= <- <-]. by exists h'.
Qed.

Lemma at_metrics_inv {A} (m : M K A) s r s' :
  at_metrics m s = (r, s') → ∃ k', m (site_metrics s) = (r, k') ∧ s' = set_metrics k' s.
Proof.
  unfold at_metrics, on. destruct (m _) as [a k']. intros [= <- <-]. by exists k'.
Qed.

Lemma site_Now_inv `{Clock C} s now s' :
  Now s = (now, s') → ∃ c', Now (site_clock s) = (now, c') ∧ s' = set_clock c' s.
Proof. apply at_clock_inv. Qed.
End site_lemmas.
