(* ===== verification/UserServiceSpec.v ===== *)
(** * Properties of accounts and login *)

From Stdlib Require Import ZArith Lia Ascii.
From stdpp Require Import base tactics list gmap strings.
From S2P Require Import Prelude GoStd Errors Models Database RefDb Repositories OrderService.
From S2P Require Import Auth UserService Routes.

Open Scope Z_scope.

(** The credentials are those of a stored account. *)
Definition account (T : Tables) (email password : string) (u : User) : Prop :=
  (∃ k, Tables_users T !! k = Some u) ∧ User_Email u = email ∧ User_Password u = password.

(** The identity column of [users] is an INTEGER. *)
Definition user_ids_fit (T : Tables) : Prop :=
  ∀ k u, Tables_users T !! k = Some u → in_int k = true.

Section login.
Context `{LawfulDb D} {St Pr Ck Hb Ms : Type} `{Clock Ck} `{LawfulJwt}.
Variable m : jwtManager.
#[local] Instance login_tokens : TokenManager (Site D St Pr Ck Hb Ms) := jwt_tokens m.
Implicit Types (s : Site D St Pr Ck Hb Ms).

Lemma user_row_ok T k u :
  consistent T → Tables_users T !! k = Some u → User_ID u = k ∧ ascii_string (User_Role u).
Proof.
  intros HT Hk. destruct (proj1 (HT _ users) k u Hk) as (Hid & Hok & _). split; [done|].
  cbn in Hok. apply orb_true_iff in Hok as [E|E]; bool_to_prop; rewrite E;
    unfold ascii_string; cbn; repeat constructor.
Qed.

Lemma GetUserByEmail_spec email s r s' :
  GetUserByEmail email s = (r, s') →
  ∃ d', s' = set_db d' s ∧ view d' = view (site_db s)
  ∧ match r with
    | Ok u => ∃ k, Tables_users (view (site_db s)) !! k = Some u ∧ User_Email u = email
    | Err e => opaque e = true
        ∨ (e = ErrRecordNotFound
           ∧ ∀ k u, Tables_users (view (site_db s)) !! k = Some u → User_Email u ≠ email)
    end.
Proof.
  intros (d' & Hf & ->)%at_db_inv. apply exec_sem in Hf as [Hv Hf].
  exists d'. split_and!; [done..|]. destruct r as [u|e].
  - destruct Hf as (k & Hk & Hw & _). bool_to_prop. eauto.
  - destruct Hf as [?|[-> Hz]]; [by left|right]. split; [done|]. intros k u Hk.
    rewrite countb_zero in Hz. specialize (Hz k u Hk). by bool_to_prop.
Qed.

(** At most one account has an email. *)
Lemma same_email T k1 k2 u1 u2 :
  consistent T → Tables_users T !! k1 = Some u1 → Tables_users T !! k2 = Some u2 →
  User_Email u1 = User_Email u2 → u1 = u2.
Proof.
  intros HT Hk1 Hk2 He. destruct (decide (k1 = k2)) as [->|Hne]; [congruence|].
  pose proof (proj2 (HT _ users) k1 k2 u1 u2 Hk1 Hk2 Hne) as Hu. cbn in Hu. by bool_to_prop.
Qed.

(** C34. Login checks both credentials and tells nothing else: the tables are not touched;
    success means that a stored account has this email and this password, and the token
    parses to that account's id and role until it expires; "invalid credentials" is the one
    answer to an unknown email and to a wrong password; every other error is opaque. *)
Theorem Login_authenticates req s r s' :
  let T := view (site_db s) in
  consistent T → user_ids_fit T →
  userService_Login req s = (r, s') →
  view (site_db s') = T
  ∧ match r with
    | Ok resp => ∃ u, account T (LoginRequest_Email req) (LoginRequest_Password req) u
        ∧ LoginResponse_TokenType resp = "Bearer"
        ∧ ∃ expiry claims, Claims_UserID claims = User_ID u ∧ Claims_Role claims = User_Role u
            ∧ ∀ now c, ParseWithClaims now (LoginResponse_AccessToken resp) (jwt_keyfunc m) = Ok c
                       ↔ c = claims ∧ now < expiry
    | Err e => (e = ErrInvalidCredentials
                ∧ ∀ u, ¬ account T (LoginRequest_Email req) (LoginRequest_Password req) u)
               ∨ opaque e = true
    end.
Proof.
  intros T HT Hids Hr. apply M_bind_inv in Hr as (found & s1 & Hg & Hr).
  apply GetUserByEmail_spec in Hg as (d1 & -> & Hv & Hg). fold T in Hg.
  destruct found as [u|e].
  2: { destruct Hg as [Ho|[-> Hno]].
       - rewrite opaque_not_Is in Hr by done. injection Hr as <- <-. auto.
       - injection Hr as <- <-. split; [done|]. left. split; [done|].
         intros u [[k Hk] [He _]]. by apply (Hno k u). }
  destruct Hg as (k & Hk & He). case_bool_decide as Hpw; cbn [negb] in Hr.
  2: { injection Hr as <- <-. split; [done|]. left. split; [done|].
       intros u' [[k' Hk'] [He' Hpw']]. apply Hpw.
       rewrite (same_email T k k' u u'); [done..|congruence]. }
  destruct (user_row_ok T k u HT Hk) as [Hid Hrole].
  apply try_inv in Hr as [([tok expiresAt] & s2 & Hgen & Hr)|(e & Hgen & ->)];
    apply Generate_inv in Hgen as (t0 & Hn & Hgen);
    apply site_Now_inv in Hn as (c1 & _ & ->); cbv zeta in Hgen;
    destruct (SignedString _ _ _) as [tok'|e'] eqn:Hs; try done.
  - injection Hgen as -> ->. apply M_bind_inv in Hr as (now & s3 & Hn & Hr).
    apply site_Now_inv in Hn as (c2 & _ & ->). injection Hr as <- <-.
    split; [done|]. exists u. split_and!; [by split_and!; [eexists|..]|done|].
    exists (NewNumericDate (t0 + jwt_ttl m)),
      (issued_claims (User_ID u) (User_Role u) t0 (t0 + jwt_ttl m)).
    split_and!; [done..|]. intros now' c. apply minted_parses; [|done..].
    rewrite Hid. by apply (Hids k u).
  - split; [done|]. right. injection Hgen as ->. by eapply SignedString_error.
Qed.
End login.

(** ** A concrete run *)
Definition demo_site : Site RefDb unit unit (list Time) unit unit :=
  mkSite (mkWorld demo () ()) [1000 * Second; 1001 * Second] () ().
#[local] Instance demo_tokens : TokenManager (Site RefDb unit unit (list Time) unit unit) :=
  jwt_tokens demo_manager.
Definition demo_login : LoginRequest := mkLoginRequest "ada@example.com" "secret-pw".

Lemma demo_ids_fit : user_ids_fit demo_tables.
Proof. intros k u Hk. cbn in Hk. by apply lookup_singleton_Some in Hk as [<- _]. Qed.

Lemma Login_authenticates_witness :
  ∃ resp s', userService_Login demo_login demo_site = (Ok resp, s')
    ∧ LoginResponse_ExpiresIn resp = 3599
    ∧ ∃ u, account demo_tables "ada@example.com" "secret-pw" u.
Proof.
  assert (∃ resp s', userService_Login demo_login demo_site = (Ok resp, s')
                     ∧ LoginResponse_ExpiresIn resp = 3599) as (resp & s' & E & Ht)
    by (eexists _, _; split; evaluate).
  exists resp, s'. split_and!; [exact E|exact Ht|].
  assert (consistent (view (site_db demo_site))) as HT by exact demo_consistent.
  assert (user_ids_fit (view (site_db demo_site))) as Hf by exact demo_ids_fit.
  destruct (Login_authenticates demo_manager demo_login demo_site (Ok resp) s' HT Hf E)
    as [_ (u & Hu & _)].
  exists u. exact Hu.
Defined.
