(* ===== verification/SiteDemo.v ===== *)
(** * A running site, for concrete requests

    The small shop behind all the routes: the reference database, Redis and token library, a
    processor that records, a clock with given readings, a running hub, counters, and a
    decoder that knows a few bodies. Runs of requests evaluate. *)

From Stdlib Require Import ZArith Lia Ascii SpecFloat.
From stdpp Require Import base tactics list gmap strings.
From S2P Require Import Prelude GoStd Errors Models Database RefDb OrderRepository Repositories.
From S2P Require Import Idempotency OrderService OrderServiceSpec Notification Hub Auth.
From S2P Require Import ProductService UserService Http Handlers Routes.

Open Scope Z_scope.

(** ** A decoder of a few bodies *)
Definition no_body : error := OtherError "EOF".

Definition demo_bodies {A} (s : shape A) : string → option A :=
  match s with
  | CreateOrderShape => λ b,
      if bool_decide (b = "order") then Some (mkCreateOrderRequest demo_cart)
      else if bool_decide (b = "too many")
      then Some (mkCreateOrderRequest [mkOrderItemRequest 20 9]) else None
  | CreateProductShape => λ _, None
  | UpdateProductShape => λ b,
      if bool_decide (b = "cheap lamp")
      then Some (mkUpdateProductRequest "lamp" None None (price_of 1) 5) else None
  | CreateUserShape => λ b,
      if bool_decide (b = "eve, admin")
      then Some (mkCreateUserRequest "eve" "eve@example.com" "password" UserRoleAdmin) else None
  | UpdateUserShape => λ _, None
  | LoginShape => λ b,
      if bool_decide (b = "eve") then Some (mkLoginRequest "eve@example.com" "password")
      else if bool_decide (b = "ada") then Some (mkLoginRequest "ada@example.com" "secret-pw")
      else None
  end.

#[export] Instance demo_binder : Binder := {|
  is_email := λ s, match Cut s "@" with Some _ => true | None => false end;
  ShouldBindJSON := λ A s body, match demo_bodies s body with
                                | Some x => Ok x | None => Err no_body end;
  ShouldBindQuery := λ _, Ok (mkListProductsRequest 0 0);
|}.

#[export] Instance demo_binder_lawful : LawfulBinder.
Proof.
  split. intros A s body x. cbn. destruct s; cbn; repeat case_bool_decide; try done;
    intros [= <-]; reflexivity.
Defined.

(** ** The site *)
Definition DemoSite : Type := Site RefDb RefRedis (list Z) (list Time) Sockets Counters.

#[export] Instance site_tokens : TokenManager DemoSite := jwt_tokens demo_manager.

(** A reading of the clock every second from 1000 s on. *)
Definition demo_readings : list Time := (λ i, (1000 + Z.of_nat i) * Second) <$> seq 0 60.

Definition running_hub : Hub := NewHub.

Definition demo_site : DemoSite :=
  mkSite (demo_world demo []) demo_readings (mkSockets running_hub 0 [])
    (mkCounters [] []).

Definition scraper : Handler DemoSite := λ _, mret (JSON 200 (ErrorText "# metrics")).

(** ** Requests *)
Definition request (authorization body : string) : Request :=
  mkRequest authorization [] "" body.
Definition send (method : string) (path : list string) (req : Request) (s : DemoSite)
  : Answer * DemoSite := ServeHTTP scraper "key-1" method path req s.

Definition login_token (a : Answer) : string :=
  match a with JSON _ (LoginBody r) => LoginResponse_AccessToken r | _ => "" end.
Definition status (a : Answer) : Z := Writer_Status a.

(** Ada logs in. *)
Definition ada_login : Answer * DemoSite :=
  send "POST" ["api"; "v1"; "auth"; "login"] (request "" "ada") demo_site.
Definition ada_bearer : string := "Bearer " +:+ login_token ada_login.1.
Definition ada_order (body : string) : Answer * DemoSite :=
  send "POST" ["api"; "v1"; "orders"] (request ada_bearer body) ada_login.2.
Definition ada_subscribes : Request := mkRequest "" ["access_token"; login_token ada_login.1] "" "".

(** Eve registers as an admin, logs in and makes the lamp cheap. *)
Definition eve_registered : Answer * DemoSite :=
  send "POST" ["api"; "v1"; "users"] (request "" "eve, admin") demo_site.
Definition eve_login : Answer * DemoSite :=
  send "POST" ["api"; "v1"; "auth"; "login"] (request "" "eve") eve_registered.2.
Definition eve_edit : Request := request ("Bearer " +:+ login_token eve_login.1) "cheap lamp".
Definition eve_edited : Answer * DemoSite :=
  send "PUT" ["api"; "v1"; "products"; "10"] eve_edit eve_login.2.
