(* ===== verification/HttpFrame.v ===== *)
(** * What requests do to the database, up to a relation

    [moves R c]: whatever computation [c] returns, it takes the state along [R]. The handlers
    are walked once, for any preorder on databases that their statements and transactions
    follow ([DbFrame]): that the products table is the same, that the change is a run of the
    pipeline ([SitePipeline]), that the books of the shop stay in order ([Books]). *)

From Stdlib Require Import ZArith Lia Ascii.
From stdpp Require Import base tactics list gmap strings.
From S2P Require Import Prelude GoStd Errors Models Database OrderRepository Repositories.
From S2P Require Import Frame Idempotency OrderService Notification Auth ProductService.
From S2P Require Import UserService Http Handlers Routes.

Open Scope Z_scope.

Definition moves {W A} (R : relation W) (c : M W A) : Prop :=
  ∀ w a w', c w = (a, w') → R w w'.

Section moves.
Context {W : Type} (R : relation W) `{!PreOrder R}.

Lemma moves_ret {A} (a : A) : moves R (mret a).
Proof. by intros w a' w' [= <- <-]. Qed.

Lemma moves_bind {A B} (c : M W A) (f : A → M W B) :
  moves R c → (∀ a, moves R (f a)) → moves R (c ≫= f).
Proof.
  intros Hc Hf w b w' (a & w1 & Hrun1 & Hrun2)%M_bind_inv.
  transitivity w1; [by eapply Hc|by eapply Hf].
Qed.

Lemma moves_try {A B} (c : M W (res A)) (f : A → M W (res B)) :
  moves R c → (∀ a, moves R (f a)) → moves R (try c f).
Proof.
  intros Hc Hf. unfold try. apply moves_bind; [done|]. intros [a|e]; [apply Hf|apply moves_ret].
Qed.
End moves.

(** ** Databases *)

(** What the statements and transactions of the unguarded routes do to the database. *)
Class DbFrame {D : Type} `{DbEngine D} (R : relation D) : Prop := {
  frame_preorder :: PreOrder R;
  frame_read : ∀ {B} (st : stmt B), writes st = None → moves R (exec st);
  frame_order : ∀ order payment,
    Order_Status order = OrderStatusPending → Payment_Status payment = PaymentStatusPending →
    Payment_Amount payment = Order_TotalPrice order →
    moves R (Transaction (CreateOrder_tx order payment));
  frame_create_user : ∀ u, moves R (autocommit (Create users u));
  frame_save_user : ∀ u, moves R (Transaction (save users u));
}.

Section instances.
Context `{LawfulDb D}.

Definition same_products (d d' : D) : Prop :=
  Tables_products (view d') = Tables_products (view d).
Definition keeps_schema (d d' : D) : Prop := consistent (view d) → consistent (view d').

Lemma same_products_tx {A} (p : db A) :
  avoids (table_tag products) p → moves same_products (Transaction p).
Proof. intros Hp d r d' Hr%Transaction_outcome. by apply (avoids_tx products) in Hr. Qed.

#[export] Instance same_products_frame : DbFrame same_products.
Proof.
  split.
  - split; [by intros d|]. intros d1 d2 d3. unfold same_products. congruence.
  - intros B st Hw d r d' Hr%exec_sem. apply (sem_frame products) in Hr; [done|]. by rewrite Hw.
  - intros order payment _ _ _. apply same_products_tx. unfold CreateOrder_tx, reserve_line, fail.
    solve_avoids.
  - intros u. apply same_products_tx. solve_avoids.
  - intros u. apply same_products_tx. solve_avoids.
Qed.

(** Every outcome of every transaction keeps the schema. *)
Lemma keeps_schema_tx {A} (p : db A) : moves keeps_schema (Transaction p).
Proof.
  intros d r d' Hr%Transaction_outcome HT.
  apply (tx_outcome_invariant p (λ T, consistent T) (view d) r); [|done|done].
  intros a T1 Hp. by apply (proj2 (runs_step _ _ _ _ Hp)).
Qed.

(** No constraint at all, for the parts a statement does not speak of. *)
Definition anything {A : Type} : relation A := λ _ _, True.
#[export] Instance anything_preorder {A : Type} : PreOrder (@anything A).
Proof. by split. Qed.
#[export] Instance anything_frame : DbFrame (@anything D).
Proof. split; [apply _|by intros ? ?|..]; by intros ?. Qed.
End instances.

(** ** Handlers *)
Section handlers.
Context `{LawfulDb D} {St Pr Ck Hb Ms : Type}.
Context `{Store St, OrderProcessor Pr, Clock Ck, SocketHub Hb, MetricsSink Ms, Binder, Jwt}.
Variable m : jwtManager.
#[local] Instance handler_tokens : TokenManager (Site D St Pr Ck Hb Ms) := jwt_tokens m.
Variables (R : relation D) (K : relation Ms).
Context `{!DbFrame R, !PreOrder K}.
Implicit Types (s : Site D St Pr Ck Hb Ms).

(** The database follows [R] and the metrics follow [K]. *)
Definition on_parts s s' : Prop :=
  R (site_db s) (site_db s') ∧ K (site_metrics s) (site_metrics s').

#[export] Instance on_parts_preorder : PreOrder on_parts.
Proof.
  split; [by intros s|]. intros s1 s2 s3 [HR1 HK1] [HR2 HK2].
  split; [by transitivity (site_db s2)|by transitivity (site_metrics s2)].
Qed.

Lemma moves_db {A} (c : M D A) : moves R c → moves on_parts (at_db c).
Proof. intros Hc s a s' (d' & Hr & ->)%at_db_inv. by apply Hc in Hr; split. Qed.
Lemma moves_clock {A} (c : M Ck A) : moves on_parts (at_clock c).
Proof. intros s a s' (c' & _ & ->)%at_clock_inv. by split. Qed.
Lemma moves_hub {A} (c : M Hb A) : moves on_parts (at_hub c).
Proof. intros s a s' (c' & _ & ->)%at_hub_inv. by split. Qed.
Lemma moves_store {A} (c : M St A) : moves on_parts (at_world (on_store c)).
Proof.
  intros s a s'. unfold at_world, on_store, on. destruct (c _). intros [= <- <-].
  by split.
Qed.
Lemma moves_queue {A} (c : M Pr A) : moves on_parts (at_world (on_queue c)).
Proof.
  intros s a s'. unfold at_world, on_queue, on. destruct (c _). intros [= <- <-].
  by split.
Qed.

Lemma moves_preload ps : moves R (preload_inventory ps).
Proof.
  unfold preload_inventory. destruct ps; [by apply moves_ret; apply frame_preorder|].
  apply moves_try; [apply _|by apply frame_read|]. intros. by apply moves_ret; apply frame_preorder.
Qed.

Ltac solve_moves :=
  repeat first
    [ match goal with Htx : ∀ A (p : db A), moves _ (Transaction p) |- _ => apply Htx end
    | apply moves_ret; apply _ | apply moves_clock | apply moves_hub
    | apply moves_store | apply moves_queue | apply moves_preload | apply moves_db
    | apply frame_read; done | apply frame_order; reflexivity | apply frame_create_user
    | apply frame_save_user
    | apply moves_bind; [apply _| |intros ?] | apply moves_try; [apply _| |intros ?]
    | progress cbv zeta | case_match ].

Lemma moves_replay client notes : moves on_parts (replay client notes).
Proof. induction notes as [|n notes IH]; cbn [replay]; solve_moves; apply IH. Qed.

Lemma moves_Connect c : moves on_parts (WebSocketHandler_Connect c).
Proof. unfold WebSocketHandler_Connect, subscribe. solve_moves; apply moves_replay. Qed.

Lemma moves_CreateOrder uuid c : moves on_parts (OrderHandler_Create uuid c).
Proof.
  unfold OrderHandler_Create. cbn [CreateOrder NewOrderService].
  unfold orderService_CreateOrder, orderService_release. solve_moves.
Qed.

Lemma moves_users c :
  moves on_parts (UserHandler_Login c) ∧ moves on_parts (UserHandler_CreateUser c)
  ∧ moves on_parts (UserHandler_GetUser c) ∧ moves on_parts (UserHandler_UpdateUser c).
Proof.
  unfold UserHandler_Login, UserHandler_CreateUser, UserHandler_GetUser, UserHandler_UpdateUser.
  cbn [Login CreateUser GetUser UpdateUser NewUserService].
  unfold userService_Login, userService_CreateUser, userService_GetUser, userService_UpdateUser.
  split_and!; solve_moves.
Qed.

Lemma moves_product_reads c :
  moves on_parts (ProductHandler_List c) ∧ moves on_parts (ProductHandler_Get c)
  ∧ moves on_parts (ProductHandler_GetInventory c).
Proof.
  unfold ProductHandler_List, ProductHandler_Get, ProductHandler_GetInventory.
  cbn [ListProducts GetProduct GetInventory NewProductService].
  unfold productService_ListProducts, productService_GetProduct, productService_GetInventory.
  split_and!; solve_moves.
Qed.

(** The two admin handlers, when their transactions follow the relation too. *)
Lemma moves_product_writes c :
  (∀ A (p : db A), moves R (Transaction p)) →
  moves on_parts (ProductHandler_Create c) ∧ moves on_parts (ProductHandler_Update c).
Proof.
  intros Htx. unfold ProductHandler_Create, ProductHandler_Update.
  cbn [CreateProduct UpdateProduct NewProductService].
  unfold productService_CreateProduct, productService_UpdateProduct. split; solve_moves.
Qed.

(** ** Middleware *)
Lemma moves_Metrics (h : Handler (Site D St Pr Ck Hb Ms)) c :
  (∀ A (f : M Ms A), moves K f) → moves on_parts (h c) → moves on_parts (Metrics h c).
Proof.
  intros HK Hh. assert (∀ A (f : M Ms A), moves on_parts (at_metrics f)) as Hms.
  { intros A f s a s' (k & Hr & ->)%at_metrics_inv. apply HK in Hr. by split. }
  unfold Metrics, record_request. solve_moves; first [done|apply Hms].
Qed.

Lemma moves_Authenticate (h : Handler (Site D St Pr Ck Hb Ms)) c :
  (∀ c, moves on_parts (h c)) → moves on_parts (Authenticate h c).
Proof. intros Hh. unfold Authenticate. solve_moves; apply Hh. Qed.

Lemma moves_RequireAdmin (h : Handler (Site D St Pr Ck Hb Ms)) c :
  moves on_parts (h c) → moves on_parts (RequireAdmin h c).
Proof. intros Hh. unfold RequireAdmin, RequireRole. solve_moves; done. Qed.

(** ** Routes *)

(** Every route but the scraper's is counted; what it runs inside follows the relations, or
    it is one of the two guarded writes. *)
Lemma route_cases metrics uuid r :
  r ∈ NewRouter (W := Site D St Pr Ck Hb Ms) metrics uuid →
  (route_method r, route_path r, route_chain r, route_handler r)
    = ("GET", [Lit "metrics"], [], metrics)
  ∨ ∃ rest, route_chain r = Metrics :: rest
      ∧ ((∀ c, moves on_parts (chained rest (route_handler r) c))
         ∨ rest = [Authenticate; RequireAdmin]
           ∧ (route_handler r = ProductHandler_Create ∨ route_handler r = ProductHandler_Update)).
Proof.
  unfold NewRouter, Handle, Use, Group. cbn. intros Ef.
  repeat (apply elem_of_cons in Ef as [->|Ef];
    [cbn [route_chain route_handler route_method route_path];
     first [ by left
           | right; eexists; split; [reflexivity|];
             first [ right; by auto
                   | left; intros c; cbn [chained foldr];
                     first [ apply moves_users | apply moves_product_reads | apply moves_Connect
                           | apply moves_Authenticate; apply moves_CreateOrder ] ] ]|]).
  by apply not_elem_of_nil in Ef.
Qed.
End handlers.

(** *** Matching *)

(** A path fits a pattern, segment by segment. *)
Definition fits : list segment → list string → Prop :=
  Forall2 (λ seg p, match seg with Lit s => s = p | Param => p ≠ "" end).

Lemma match_path_fits pattern path id0 :
  (∃ id, match_path pattern path id0 = Some id) ↔ fits pattern path.
Proof.
  unfold fits. revert path id0. induction pattern as [|seg pattern IH]; intros path id0.
  - destruct path as [|p path]; cbn; [split; [constructor|by exists id0]|].
    split; [by intros []|by inversion 1].
  - destruct path as [|p path]; [split; [by destruct seg; intros []|by inversion 1]|].
    rewrite Forall2_cons. destruct seg as [lit|]; cbn; case_bool_decide as E; rewrite ?IH;
      (split; [try by intros []|try by intros []]); by split.
Qed.

Section matching.
Context {W : Type}.
Implicit Types (rs : list (Route W)) (r : Route W).

Lemma find_route_Some rs method path r id :
  find_route rs method path = Some (r, id) →
  r ∈ rs ∧ route_method r = method ∧ fits (route_path r) path.
Proof.
  induction rs as [|r0 rs IH]; cbn; [done|]. case_bool_decide as Em.
  2: { intros (? & ? & ?)%IH. split_and!; [by right|done..]. }
  destruct (match_path _ _ _) as [id'|] eqn:Ep.
  - intros [= <- <-]. split_and!; [left|done|]. apply (match_path_fits _ _ ""). eauto.
  - intros (? & ? & ?)%IH. split_and!; [by right|done..].
Qed.

Lemma find_route_None rs method path r :
  find_route rs method path = None → r ∈ rs → route_method r = method →
  ¬ fits (route_path r) path.
Proof.
  intros Hf Hin Hm. revert Hf. induction Hin as [rs|r r0 rs Hin IH]; cbn.
  - rewrite bool_decide_true by done. rewrite <- (match_path_fits _ _ "").
    destruct (match_path _ _ _); [done|]. by intros _ [].
  - case_bool_decide; [destruct (match_path _ _ _); [done|]|]; intros Hf; by apply IH.
Qed.
End matching.

(** *** Requests *)
Section requests.
Context `{LawfulDb D} {St Pr Ck Hb Ms : Type}.
Context `{Store St, OrderProcessor Pr, Clock Ck, SocketHub Hb, MetricsSink Ms, Binder, Jwt}.
Variable m : jwtManager.
#[local] Instance request_tokens : TokenManager (Site D St Pr Ck Hb Ms) := jwt_tokens m.
Variable R : relation D.
Context `{!DbFrame R}.
Implicit Types (s : Site D St Pr Ck Hb Ms).

Definition on_dbs s s' : Prop := R (site_db s) (site_db s').

Lemma moves_dbs {A} (f : M (Site D St Pr Ck Hb Ms) A) :
  moves (on_parts R anything) f ↔ moves on_dbs f.
Proof.
  split; intros Hf s a s' Hr; apply Hf in Hr; [apply Hr|by split].
Qed.

(** A request follows the relation, or it is one of the two guarded writes. *)
Lemma ServeHTTP_cases metrics uuid method path req s a s' :
  (∀ c, moves on_dbs (metrics c)) →
  ServeHTTP metrics uuid method path req s = (a, s') →
  on_dbs s s' ∨ ∃ h c, (h = ProductHandler_Create ∨ h = ProductHandler_Update)
                  ∧ ctx_request c = req
                  ∧ chained [Metrics; Authenticate; RequireAdmin] h c s = (a, s').
Proof.
  intros Hm Hr. unfold ServeHTTP in Hr.
  assert (∀ h c, moves (on_parts R anything) (h c) → moves on_dbs (Metrics h c)) as HMetrics.
  { intros h c Hh. by apply moves_dbs, (moves_Metrics R anything). }
  destruct (find_route _ _ _) as [[r id]|] eqn:Ef.
  2: { left. revert Hr. apply HMetrics. by apply moves_ret; apply _. }
  apply find_route_Some in Ef as (Ef & _).
  apply (route_cases m R anything) in Ef as [E|(rest & E & Hh)].
  - left. injection E as _ _ Ec Eh. rewrite Ec, Eh in Hr. by apply Hm in Hr.
  - rewrite E in Hr. destruct Hh as [Hh|[-> Hh]].
    + left. revert Hr. apply (HMetrics (chained rest (route_handler r))). apply Hh.
    + right. by eexists _, _; split; [exact Hh|split; [|exact Hr]].
Qed.
End requests.
