(* ===== verification/HttpSpec.v ===== *)
(** * Properties of the HTTP interface

    Who may do what through the routes, and what an answer says about the state: the
    schema always holds, the catalogue changes only for admins, but anybody can register as
    one, and a 4xx answer to an order leaves nothing behind. *)

From Stdlib Require Import ZArith Lia Ascii.
From stdpp Require Import base tactics list gmap strings.
From S2P Require Import Prelude GoStd Errors Models Database RefDb OrderRepository Ledger.
From S2P Require Import Repositories Frame Idempotency OrderService OrderServiceSpec.
From S2P Require Import Notification Hub Auth ProductService UserService Http Handlers Routes.
From S2P Require Import SiteDemo HttpFrame.

Open Scope Z_scope.

(** ** Tokens of requests *)
Section requests.
Context `{LawfulDb D} {St Pr Ck Hb Ms : Type}.
Context `{Store St, OrderProcessor Pr, Clock Ck, SocketHub Hb, MetricsSink Ms, Binder}.
Context `{LawfulJwt}.
Variable m : jwtManager.
#[local] Instance request_tokens : TokenManager (Site D St Pr Ck Hb Ms) := jwt_tokens m.
Implicit Types (s : Site D St Pr Ck Hb Ms).

(** An unexpired token of ours, with such claims. *)
Definition trusted (token : string) s (such : Claims → Prop) : Prop :=
  ∃ alg claims now c', signed (SigningMethodHMAC alg) (jwt_secret m) claims token
    ∧ Now (site_clock s) = (now, c') ∧ in_time now claims ∧ such claims.
(** The request carries one in its header. *)
Definition bears (req : Request) s (such : Claims → Prop) : Prop :=
  ∃ token, bearer_token (Request_Authorization req) = Some token ∧ trusted token s such.

Lemma Parse_trusted token cl s s1 :
  Parse token s = (Ok cl, s1) → ∃ c', s1 = set_clock c' s ∧ trusted token s (λ c, c = cl).
Proof.
  intros Hp. apply Parse_inv in Hp as (now & Hn & Hp). symmetry in Hp.
  apply ParseWithClaims_sound in Hp as (method & key & Hk' & Hs & Ht).
  apply jwt_keyfunc_ok in Hk' as [[alg ->] ->]. apply site_Now_inv in Hn as (c' & Hn & ->).
  exists c'. split; [done|]. by exists alg, cl, now, c'.
Qed.

Lemma Parse_clock token r s s1 : Parse token s = (r, s1) → ∃ c', s1 = set_clock c' s.
Proof.
  intros (now & Hn & _)%Parse_inv. apply site_Now_inv in Hn as (c' & _ & ->). by exists c'.
Qed.

Lemma Parse_bears req token cl s s1 :
  bearer_token (Request_Authorization req) = Some token → Parse token s = (Ok cl, s1) →
  ∃ c', s1 = set_clock c' s ∧ bears req s (λ c, c = cl).
Proof.
  intros Hb1 (c' & -> & Ht)%Parse_trusted. exists c'. split; [done|]. by exists token.
Qed.

Lemma trusted_weaken token s (P Q : Claims → Prop) :
  trusted token s P → (∀ c, P c → Q c) → trusted token s Q.
Proof.
  intros (alg & cl & now & c' & ? & ? & ? & ?) HPQ. exists alg, cl, now, c'. split_and!; auto.
Qed.

Lemma bears_weaken req s (P Q : Claims → Prop) :
  bears req s P → (∀ c, P c → Q c) → bears req s Q.
Proof. intros (token & ? & ?) HPQ. exists token. eauto using trusted_weaken. Qed.

(** The state in which a route of the API checks tokens: the metrics middleware has read the
    clock once. *)
Definition started s : Site D St Pr Ck Hb Ms := set_clock (Now (site_clock s)).2 s.

Lemma record_request_inv labels start s u s' :
  record_request labels start s = (u, s') → ∃ k c, s' = set_metrics k (set_clock c s).
Proof.
  intros (u1 & s1 & (k1 & _ & ->)%at_metrics_inv & Hr)%M_bind_inv.
  apply M_bind_inv in Hr as (now & s2 & (c & _ & ->)%site_Now_inv & Hr).
  apply at_metrics_inv in Hr as (k & _ & ->). by exists k, c.
Qed.

Lemma Metrics_inv (h : Handler (Site D St Pr Ck Hb Ms)) c s a s' :
  Metrics h c s = (a, s') →
  ∃ s2, h c (started s) = (a, s2) ∧ site_world s' = site_world s2 ∧ site_hub s' = site_hub s2.
Proof.
  intros (start & s1 & Hn & Hr)%M_bind_inv. apply site_Now_inv in Hn as (c1 & Hn & ->).
  unfold started. rewrite Hn. apply M_bind_inv in Hr as (a1 & s2 & Hh & Hr).
  assert (∀ l, (_ ← record_request l start; mret a1) s2 = (a, s') →
            a1 = a ∧ site_world s' = site_world s2 ∧ site_hub s' = site_hub s2) as Hcount.
  { intros l (u & s3 & (k & c2 & ->)%record_request_inv & Hc)%M_bind_inv. by injection Hc as <- <-. }
  destruct a1 as [status body|[]|status].
  2: { injection Hr as <- <-. by exists s2. }
  all: apply Hcount in Hr as (<- & ? & ?); by exists s2.
Qed.

Definition is_admin (c : Claims) : Prop := Claims_Role c = UserRoleAdmin.

Lemma admin_chain_guards h c s a s' :
  chained [Metrics; Authenticate; RequireAdmin] h c s = (a, s') →
  site_world s' = site_world s ∨ bears (ctx_request c) (started s) is_admin.
Proof.
  intros (s2 & Hr & Hw & _)%Metrics_inv. rewrite Hw. apply Authenticate_inv in Hr
    as [(msg & _ & [->|(tok & r & _ & _ & Hp)])|(tok & cl & s1 & Hb1 & Hp & Hk)].
  - by left.
  - left. by apply Parse_clock in Hp as [c' ->].
  - apply (Parse_bears (ctx_request c)) in Hp as (c' & -> & Hbears); [|exact Hb1].
    apply RequireRole_inv in Hk as [[_ ->]|[Hrole _]]; [by left|right].
    cbn in Hrole. injection Hrole as Hrole. apply (bears_weaken _ _ _ _ Hbears). by intros cl' ->.
Qed.

(** C18. Only admins change the catalogue: whatever the method, path and body, a request after
    which the products table differs carried an unexpired token signed with our secret whose
    role is admin. *)
Theorem catalogue_admin_only metrics uuid method path req s a s' :
  (∀ c, moves (on_dbs same_products) (metrics c)) →
  ServeHTTP metrics uuid method path req s = (a, s') →
  Tables_products (view (site_db s')) ≠ Tables_products (view (site_db s)) →
  bears req (started s) is_admin.
Proof.
  intros Hm Hr Hne. apply (ServeHTTP_cases m same_products) in Hr as [Hr|(h & c & _ & <- & Hr)];
    [by destruct Hne|apply admin_chain_guards in Hr as [E|Hb']|done]; [|done].
  destruct Hne. unfold site_db. by rewrite E.
Qed.

(** The row a registration stores: the role is the one the body asks for. *)
Definition registered (T T' : Tables) (r : CreateUserRequest) (u : User) : Prop :=
  Tables_users T !! User_ID u = None
  ∧ T' = set_rows users (<[User_ID u := u]> (Tables_users T)) T
  ∧ User_Name u = CreateUserRequest_Name r ∧ User_Email u = CreateUserRequest_Email r
  ∧ User_Password u = CreateUserRequest_Password r
  ∧ User_Role u = (if bool_decide (CreateUserRequest_Role r = "") then UserRoleCustomer
                   else CreateUserRequest_Role r).

(** Registration is open and grants the role it is asked for: whoever sends it, with or
    without a token, a request to create a user stores the account of its body with the role
    of its body, admin included, in the clear, and answers 201 with it; an answer of 4xx or
    5xx came with no new row, unless only the acknowledgement of the commit was lost. *)
Theorem registration_grants_role metrics uuid req s a s' :
  consistent (view (site_db s)) →
  ServeHTTP metrics uuid "POST" ["api"; "v1"; "users"] req s = (a, s') →
  let T := view (site_db s) in let T' := view (site_db s') in
  match ShouldBindJSON CreateUserShape (Request_Body req) with
  | Err e => a = JSON 400 (ErrorOf e) ∧ T' = T
  | Ok r => (∃ u, a = JSON 201 (UserBody (toUserResponse u)) ∧ registered T T' r u)
            ∨ ∃ e, a = JSON 500 (ErrorOf e) ∧ (T' = T ∨ ∃ u, registered T T' r u)
  end.
Proof.
  intros HT Hr T T'.
  change (chained [Metrics] UserHandler_CreateUser (mkCtx "POST" "/api/v1/users" req "" None None) s
          = (a, s')) in Hr.
  apply Metrics_inv in Hr as (s2 & Hr & Hw & _). subst T'. unfold site_db. rewrite Hw.
  clear s' Hw. unfold UserHandler_CreateUser in Hr. cbn [ctx_request] in Hr.
  destruct (ShouldBindJSON _ _) as [r|e]; [|by injection Hr as <- <-].
  apply M_bind_inv in Hr as (res & s3 & Hc & Hr).
  assert (∀ now id, registered T (set_rows users (<[id := row_set_id users id
    (row_stamp_created users now (new_user r))]> (rows users T)) T) r
    (row_set_id users id (row_stamp_created users now (new_user r)))
    ∨ rows users T !! id ≠ None) as Hreg.
  { intros now id. destruct (rows users T !! id) eqn:E; [by right|left]. by split_and!. }
  apply try_inv in Hc as [(u & s4 & Hc & Hk)|(e & Hc & ->)];
    apply at_db_inv in Hc as (d' & Hc & ->); apply autocommit_create in Hc; [|done| |done].
  - injection Hk as <- <-. injection Hr as <- <-. left. exists u. split; [done|].
    destruct Hc as [(now & id & u' & _ & Hn & [= <-] & Hv & _ & Hu)|[? _]]; [|done].
    rewrite (Hu u eq_refl). unfold world_db in Hv. cbn. rewrite Hv. by destruct (Hreg now id).
  - injection Hr as <- <-. right. exists e. split; [done|].
    destruct Hc as [(now & id & u' & _ & Hn & [= <-] & Hv & _ & _)|[_ Hv]]; [right|by left].
    cbn. rewrite Hv. eexists. by destruct (Hreg now id).
Qed.
End requests.

(** ** Placing orders *)
Section ordering.
Context `{LawfulDb D} {St Pr Ck Hb Ms : Type}.
Context `{Store St, OrderProcessor Pr, Clock Ck, SocketHub Hb, MetricsSink Ms}.
Context `{LawfulBinder, LawfulJwt}.
Variable m : jwtManager.
#[local] Instance ordering_tokens : TokenManager (Site D St Pr Ck Hb Ms) := jwt_tokens m.
Implicit Types (s : Site D St Pr Ck Hb Ms).

(** The service works on the world inside the site. *)
Lemma CreateOrder_at_site uuid userID req s :
  CreateOrder uuid userID req s
  = at_world (orderService_CreateOrder uuid userID req) s.
Proof.
  cbn [CreateOrder NewOrderService]. unfold at_world, on. rewrite CreateOrder_unfold. cbv zeta.
  unfold orderService_CreateOrder, orderService_release, persist, try, product_ids.
  destruct s as [[d st q] c h k]. destruct (duplicate_line ∅ _); [done|].
  unfold mbind, M_bind, mret, M_ret. cbn. unfold at_db, at_world, on_store, on_db, on_queue, on. cbn.
  destruct (Reserve _ _ st) as [a s1]; cbn.
  destruct a as [[]|e0]; cbn; [|done|].
  all: destruct (productRepository_GetProductsByIDs _ d) as [[ps|e] d1]; cbn.
  2, 4: by destruct (Release _ s1).
  all: destruct (build_lines _ _ _) as [[l t]|e]; cbn.
  2, 4: by destruct (Release _ s1).
  all: destruct (Transaction _ d1) as [[[o p]|e] d2]; cbn.
  1, 3: by destruct (Process _ q).
  all: by destruct (Release _ s1).
Qed.

(** The complete order of a request, stored. *)
Definition stored_order (T T' : Tables) (uuid : string) (userID : Z)
  (items : list OrderItemRequest) (order' : Order) : Prop :=
  ∃ lines payment', Forall2 (priced_line T) items lines
    ∧ let total := lines_total lines f64_zero in
      placed T T' (new_order userID lines total) (new_payment uuid total) order' payment'.

(** A refused order: nothing queued, and the tables as before unless the error is opaque. *)
Lemma order_outcome uuid userID req (w w' : World D St Pr) r :
  consistent (view (world_db w)) →
  (∀ item, item ∈ CreateOrderRequest_Items req → 0 < OrderItemRequest_Quantity item) →
  orderService_CreateOrder uuid userID req w = (r, w') →
  let T := view (world_db w) in let T' := view (world_db w') in
  match r with
  | Ok resp => ∃ order', stored_order T T' uuid userID (CreateOrderRequest_Items req) order'
      ∧ resp = toOrderResponse order'
      ∧ world_queue w' = (Process (Order_ID order') (world_queue w)).2
  | Err e => world_queue w' = world_queue w
      ∧ ((opaque e = false ∧ T' = T ∧ (e = ErrDuplicateLineItem ∨ e = ErrDuplicateOrder
          ∨ e = ErrUserNotFound ∨ (∃ p, e = ProductNotFoundError p)
          ∨ ∃ p, e = InsufficientStockError p))
         ∨ (opaque e = true ∧ (T' = T ∨ ∃ order',
              stored_order T T' uuid userID (CreateOrderRequest_Items req) order')))
  end.
Proof.
  intros HT Hq Hr. rewrite CreateOrder_unfold in Hr. cbv zeta in Hr |- *.
  destruct (duplicate_line ∅ _) eqn:Hdup.
  { injection Hr as <- <-. split; [done|]. left. split_and!; auto. }
  apply duplicate_line_empty in Hdup. destruct (Reserve _ _ _) as [a st].
  destruct a as [[]|e0]; [|by injection Hr as <- <-; split; [|left; split_and!; auto]|].
  all: destruct (persist _ _ _ _) as [[[order' payment']|e] d] eqn:Hp; injection Hr as <- <-.
  1, 3: apply persist_ok in Hp as (lines & HF & Hpl & _); [|done];
    exists order'; split_and!; [by exists lines, payment'|done..].
  all: apply persist_err in Hp; [|done..]; (split; [done|]); unfold rejected in Hp; cbn [world_db];
    destruct Hp as [(p & -> & _ & _ & ->)|[(it & _ & -> & _ & ->)|[(-> & _ & ->)|(Ho & HT')]]];
    [left; split_and!; eauto 6 ..|right; split; [done|]; destruct HT' as [->|(l & o & p & ? & ?)]];
    [by left|right; exists o; by exists l, p].
Qed.

(** The order the body asks for, stored for the user. *)
Definition ordered (T T' : Tables) (uuid : string) (req : Request) (userID : Z)
  (order' : Order) : Prop :=
  ∃ r, ShouldBindJSON CreateOrderShape (Request_Body req) = Ok r
    ∧ stored_order T T' uuid userID (CreateOrderRequest_Items r) order'.

Lemma writeOrderError_recognised e :
  (e = ErrDuplicateLineItem ∨ e = ErrDuplicateOrder ∨ e = ErrUserNotFound
   ∨ (∃ p, e = ProductNotFoundError p) ∨ ∃ p, e = InsufficientStockError p) →
  ∃ status, writeOrderError e = JSON status (ErrorOf e) ∧ 400 ≤ status < 500.
Proof.
  intros [->|[->|[->|[[p ->]|[p ->]]]]]; eexists; (split; [reflexivity|]);
    unfold StatusBadRequest, StatusConflict, StatusNotFound; lia.
Qed.

Lemma writeOrderError_opaque e :
  opaque e = true → writeOrderError e = JSON 500 (ErrorOf e).
Proof.
  intros Ho. unfold writeOrderError.
  rewrite opaque_not_product, opaque_not_stock, !opaque_not_Is by done. done.
Qed.

Lemma stored_order_user T T' uuid userID items order' :
  stored_order T T' uuid userID items order' → Order_UserID order' = userID.
Proof. intros (lines & payment' & _ & Hp). apply (placed_result _ _ _ _ _ _ Hp). Qed.

(** The handler, for an authenticated user. *)
Lemma OrderHandler_outcome uuid userID c s a s' :
  consistent (view (site_db s)) → ctx_userID c = Some userID →
  OrderHandler_Create uuid c s = (a, s') →
  let T := view (site_db s) in let T' := view (site_db s') in
  let queue x := world_queue (site_world x) in
  (∃ order', a = JSON 201 (OrderBody (toOrderResponse order'))
     ∧ ordered T T' uuid (ctx_request c) userID order'
     ∧ queue s' = (Process (Order_ID order') (queue s)).2)
  ∨ ∃ status body, a = JSON status body ∧ queue s' = queue s
      ∧ ((400 ≤ status < 500 ∧ T' = T)
         ∨ (status = 500
            ∧ (T' = T ∨ ∃ order', ordered T T' uuid (ctx_request c) userID order'))).
Proof.
  intros HT Hu Hk T T' queue. unfold OrderHandler_Create, UserID in Hk. rewrite Hu in Hk.
  destruct (ShouldBindJSON _ _) as [r|e] eqn:Hbind.
  2: { injection Hk as <- <-. right. exists 400, (ErrorOf e). split_and!; [done..|].
       left. split; [lia|done]. }
  apply M_bind_inv in Hk as (r' & s2 & Hc & Hk). rewrite CreateOrder_at_site in Hc.
  unfold at_world, on in Hc. destruct (orderService_CreateOrder _ _ _ _) as [r0 w'] eqn:Ho.
  injection Hc as <- <-. apply order_outcome in Ho; [|done|].
  2: { intros it Hit. pose proof (bind_valid _ _ _ Hbind) as Hv. cbn in Hv.
       apply andb_true_iff in Hv as [_ Hv]. rewrite forallb_forall in Hv.
       apply list_elem_of_In, Hv in Hit. unfold order_item_valid in Hit. by bool_to_prop. }
  destruct r0 as [resp|e]; injection Hk as <- <-.
  - destruct Ho as (order' & Hst & -> & Hq). left. exists order'.
    split_and!; [done| |done]. by exists r.
  - destruct Ho as [Hq [(_ & HT' & He)|(He & HT')]]; right.
    + apply writeOrderError_recognised in He as (status & -> & Hs).
      exists status, (ErrorOf e). split_and!; [done..|by left].
    + rewrite writeOrderError_opaque by done. exists 500, (ErrorOf e).
      split_and!; [done..|right]. split; [done|].
      destruct HT' as [HT'|[order' Hst]]; [by left|right]. exists order'. by exists r.
Qed.

(** C17. What the answer to an order request says is true. 201 comes with the stored order of
    the user whose unexpired token the request carried, the order queued for fulfilment; any
    4xx means that no table changed and nothing was queued; only a 500 leaves open whether
    the complete order was stored, and nothing was queued then either. *)
Theorem order_answers metrics uuid req s a s' :
  consistent (view (site_db s)) →
  ServeHTTP metrics uuid "POST" ["api"; "v1"; "orders"] req s = (a, s') →
  let T := view (site_db s) in let T' := view (site_db s') in
  let queue x := world_queue (site_world x) in
  (∃ userID order', a = JSON 201 (OrderBody (toOrderResponse order'))
     ∧ Order_UserID order' = userID ∧ bears m req (started s) (λ c, Claims_UserID c = userID)
     ∧ ordered T T' uuid req userID order'
     ∧ queue s' = (Process (Order_ID order') (queue s)).2)
  ∨ ∃ status body, a = JSON status body ∧ queue s' = queue s
      ∧ ((400 ≤ status < 500 ∧ T' = T)
         ∨ (status = 500
            ∧ (T' = T ∨ ∃ userID order', bears m req (started s) (λ c, Claims_UserID c = userID)
                 ∧ ordered T T' uuid req userID order'))).
Proof.
  intros HT Hr T T' queue.
  change (chained [Metrics; Authenticate] (OrderHandler_Create uuid)
    (mkCtx "POST" "/api/v1/orders" req "" None None) s = (a, s')) in Hr.
  apply Metrics_inv in Hr as (s3 & Hr & Hw3 & _).
  subst T T' queue. cbv beta. unfold site_db in HT |- *. rewrite Hw3. clear s' Hw3.
  apply Authenticate_inv in Hr as [(msg & -> & Hw)|(tok & cl & s1 & Hb1 & Hp & Hk)].
  { right. exists 401, (ErrorText msg). split; [done|].
    assert (site_world s3 = site_world s) as ->.
    { destruct Hw as [->|(tok & r & _ & _ & Hp)]; [done|].
      by apply (Parse_clock m) in Hp as [c' ->]. }
    split; [done|]. left. split; [lia|done]. }
  apply (Parse_bears m req) in Hp as (c' & -> & Hbears); [|exact Hb1].
  apply (OrderHandler_outcome _ (Claims_UserID cl)) in Hk; [|done..].
  destruct Hk as [(order' & -> & Ho & Hq)|(status & body & -> & Hq & Ho)]; [left|right].
  - exists (Claims_UserID cl), order'. split_and!; [done| | |done..].
    + destruct Ho as (r & _ & Hst). by eapply stored_order_user.
    + apply (bears_weaken _ _ _ _ _ Hbears). by intros c ->.
  - exists status, body. split_and!; [done..|].
    destruct Ho as [?|(? & [?|(order' & ?)])]; [by left|right; by auto..|].
    right. split; [done|right]. exists (Claims_UserID cl), order'.
    split; [|done]. apply (bears_weaken _ _ _ _ _ Hbears). by intros c ->.
Qed.
End ordering.

(** ** Concrete runs *)
Lemma scraper_moves (R : relation RefDb) `{!DbFrame R} c : moves (on_dbs R) (scraper c).
Proof. intros s a s' [= <- <-]. by unfold on_dbs. Qed.

Lemma demo_site_consistent : consistent (view (site_db demo_site)).
Proof. exact demo_consistent. Qed.

Definition lamp_updated (products : gmap Z Product) : option Z :=
  Product_UpdatedAt <$> products !! 10.

Lemma catalogue_admin_only_witness :
  status eve_edited.1 = 200
  ∧ bears demo_manager eve_edit (started eve_login.2) is_admin.
Proof.
  split; [evaluate|].
  apply (catalogue_admin_only demo_manager scraper "key-1" "PUT" ["api"; "v1"; "products"; "10"]
    eve_edit eve_login.2 eve_edited.1 eve_edited.2).
  - intros c. apply scraper_moves, _.
  - exact (surjective_pairing _).
  - assert (lamp_updated (Tables_products (view (site_db eve_edited.2))) = Some 1001) as E1
      by evaluate.
    assert (lamp_updated (Tables_products (view (site_db eve_login.2))) = Some 100) as E2
      by evaluate.
    intros E. rewrite E, E2 in E1. discriminate E1.
Defined.

(** A stranger becomes an admin and edits the catalogue. *)
Lemma registration_grants_role_witness :
  ∃ u, registered demo_tables (view (site_db eve_registered.2))
         (mkCreateUserRequest "eve" "eve@example.com" "password" UserRoleAdmin) u
    ∧ User_Role u = UserRoleAdmin ∧ status eve_edited.1 = 200.
Proof.
  destruct (registration_grants_role demo_manager scraper "key-1" (request "" "eve, admin")
    demo_site eve_registered.1 eve_registered.2 demo_site_consistent (surjective_pairing _))
    as [(u & _ & Hu)|(e & Ha & _)].
  - exists u. split; [exact Hu|]. split; [apply Hu|evaluate].
  - assert (status eve_registered.1 = 201) as E by evaluate. rewrite Ha in E. discriminate E.
Defined.

Lemma order_answers_witness :
  (∃ userID order', (ada_order "order").1 = JSON 201 (OrderBody (toOrderResponse order'))
     ∧ ordered demo_tables (view (site_db (ada_order "order").2)) "key-1"
         (request ada_bearer "order") userID order'
     ∧ bears demo_manager (request ada_bearer "order") (started ada_login.2)
         (λ c, Claims_UserID c = userID))
  ∧ status (ada_order "too many").1 = 409
  ∧ view (site_db (ada_order "too many").2) = demo_tables.
Proof.
  assert (consistent (view (site_db ada_login.2))) as HT by (apply consistentb_sound; evaluate).
  assert (view (site_db ada_login.2) = demo_tables) as ET by evaluate.
  assert (status (ada_order "order").1 = 201) as E1 by evaluate.
  assert (status (ada_order "too many").1 = 409) as E2 by evaluate.
  split; [|split; [exact E2|]].
  - destruct (order_answers demo_manager scraper "key-1" (request ada_bearer "order") ada_login.2
      (ada_order "order").1 (ada_order "order").2 HT (surjective_pairing _))
      as [(userID & o & Ha & _ & Hb' & Ho & _)|(st & body & Ha & _ & Hs)].
    + exists userID, o. rewrite <- ET at 1. exact (conj Ha (conj Ho Hb')).
    + rewrite Ha in E1. cbn in E1. lia.
  - destruct (order_answers demo_manager scraper "key-1" (request ada_bearer "too many")
      ada_login.2 (ada_order "too many").1 (ada_order "too many").2 HT (surjective_pairing _))
      as [(userID & o & Ha & _)|(st & body & Ha & _ & [[_ Hs]|[Hs _]])].
    + rewrite Ha in E2. discriminate E2.
    + rewrite <- ET. exact Hs.
    + rewrite Ha in E2. cbn in E2. lia.
Defined.
