(* ===== verification/SubscribeSpec.v ===== *)
(** * Properties of subscriptions

    Who may watch an order, and what the new client finds queued. *)

From Stdlib Require Import ZArith Lia Ascii.
From stdpp Require Import base tactics list gmap strings.
From S2P Require Import Prelude GoStd Errors Models Database RefDb OrderRepository Repositories.
From S2P Require Import Idempotency OrderService Notification Hub Auth Http Handlers Routes.
From S2P Require Import OrderServiceSpec SiteDemo HttpSpec.

Open Scope Z_scope.

Section subscribing.
Context `{LawfulDb D} {St Pr Ck Ms : Type} `{Clock Ck, LawfulJwt}.
Variable m : jwtManager.
#[local] Instance subscribing_tokens : TokenManager (Site D St Pr Ck Sockets Ms) := jwt_tokens m.
Implicit Types (s : Site D St Pr Ck Sockets Ms).

Definition the_hub s : Hub := sk_hub (site_hub s).

(** The replay queues the events that fit, in order, and never panics on an open client. *)
Lemma replay_spec client cell notes s :
  h_conns (the_hub s) !! client = Some cell → c_closed cell = false →
  (length (c_buffer cell) ≤ sendBuffer)%nat →
  ∃ h, replay client notes s = (true, set_hub h s)
    ∧ h_clients (sk_hub h) = h_clients (the_hub s)
    ∧ h_conns (sk_hub h) !! client
      = Some (mkClient (c_orderID cell)
                (take sendBuffer (c_buffer cell ++ (event <$> notes))) false).
Proof.
  revert s cell. induction notes as [|n notes IH]; intros s cell Hc Hopen Hlen.
  - exists (site_hub s). destruct s as [w c h k], cell as [o b cl]. cbn in *. subst cl.
    rewrite app_nil_r, take_ge by done. done.
  - cbn [replay]. unfold mbind, M_bind. cbn [ClientSend site_sockets at_hub on hub_sockets hub_step].
    unfold at_hub, on. cbn. unfold send_or_default. fold (the_hub s). rewrite Hc, Hopen.
    destruct (length (c_buffer cell) <? sendBuffer)%nat eqn:El; cbn.
    + apply Nat.ltb_lt in El. set (s1 := mkSite _ _ _ _).
      destruct (IH s1 (mkClient (c_orderID cell) (c_buffer cell ++ [event n]) false))
        as (h & Hr & Hcl & Hb); [by apply lookup_insert_eq|done|cbn [c_buffer]; rewrite length_app; cbn; lia|].
      exists h. split_and!; [exact Hr|exact Hcl|]. rewrite Hb. cbn. by rewrite <- app_assoc.
    + apply Nat.ltb_ge in El. destruct (IH (mkSite (site_world s) (site_clock s)
        (mkSockets (the_hub s) (sk_next (site_hub s)) (sk_upgrades (site_hub s))) (site_metrics s)) cell)
        as (h & Hr & Hcl & Hb); [done..|].
      exists h. split_and!; [exact Hr|exact Hcl|]. rewrite Hb.
      unfold sendBuffer in *. rewrite !take_app_le by lia. done.
Qed.

Lemma EvConnect_spec id orderID h :
  ∃ h', hub_step (EvConnect id orderID) h = Ok (false, h')
    ∧ h_conns h' = <[id := NewClient orderID]> (h_conns h)
    ∧ (is_Some (h_clients h) → id ∈ subscribers orderID h').
Proof.
  cbn. unfold Hub_register. cbn. rewrite lookup_insert_eq. cbn.
  destruct (h_clients h) as [cs|] eqn:Ec; eexists; (split; [done|]);
    (split; [done|]); [|by intros []].
  intros _. unfold subscribers. cbn. rewrite lookup_insert_eq. cbn. set_solver.
Qed.

Lemma GetOrderUserID_spec orderID s r s' :
  consistent (view (site_db s)) → GetOrderUserID orderID s = (r, s') →
  ∃ d', s' = set_db d' s ∧ GetOrderUserID orderID (site_db s) = (r, d')
  ∧ view d' = view (site_db s)
  ∧ ∀ userID, r = Ok userID → ∃ o, Tables_orders (view (site_db s)) !! orderID = Some o
                                  ∧ Order_UserID o = userID.
Proof.
  intros HT (d' & Hr & ->)%at_db_inv. exists d'. split; [done|]. split; [exact Hr|].
  apply M_bind_inv in Hr as (rb & d1 & Hf & Hk). apply exec_sem in Hf as [Hv Hf].
  destruct rb as [o|e].
  - injection Hk as <- <-. split; [done|]. intros userID [= <-].
    destruct Hf as (k & Hk & Hw & _). bool_to_prop. exists o. split; [|done].
    destruct (proj1 (HT _ orders) k o Hk) as [E _]. cbn in E. subst k orderID. exact Hk.
  - destruct (errors_Is _ _); injection Hk as <- <-; by split.
Qed.

Lemma ListByOrder_spec orderID s r s' :
  ListByOrder orderID s = (r, s') →
  ∃ d', s' = set_db d' s ∧ ListByOrder orderID (site_db s) = (r, d')
  ∧ view d' = view (site_db s)
  ∧ ∀ notes, r = Ok notes →
      notes ≡ₚ matching (λ n, Notification_OrderID n =? orderID)
                 (Tables_notifications (view (site_db s)))
      ∧ weakly_by Notification_ID notes.
Proof.
  intros (d' & Hl & ->)%at_db_inv. exists d'. pose proof Hl as [Hv Hr]%exec_sem.
  split_and!; [done..|]. intros notes E. subst r. destruct Hr as (all & Hp & Hs & ->).
  split; [exact Hp|by apply Hs].
Qed.

(** What a subscriber of the order finds in its queue right after connecting, by what
    [ListByOrder] answered: the persisted notifications in id order, as far as they fit;
    nothing only when that call returned an error. *)
Definition replayed (T : Tables) (orderID : Z) (listed : res (list Notification))
  (buffer : list string) : Prop :=
  match listed with
  | Ok notes =>
      notes ≡ₚ matching (λ n, Notification_OrderID n =? orderID) (Tables_notifications T)
      ∧ weakly_by Notification_ID notes ∧ buffer = take sendBuffer (event <$> notes)
  | Err _ => buffer = []
  end.

(** The client the connect handler made: it watches the order and has its replay, read
    from the database [d] and leaving it as [d']. *)
Definition subscribed (d d' : D) (orderID : Z) (id : nat) (h h' : Hub) : Prop :=
  (is_Some (h_clients h) → id ∈ subscribers orderID h')
  ∧ ∃ listed buffer, ListByOrder orderID d = (listed, d')
      ∧ h_conns h' !! id = Some (mkClient orderID buffer false)
      ∧ replayed (view d) orderID listed buffer.

Lemma subscribe_spec orderID s a s' :
  subscribe orderID s = (a, s') →
  view (site_db s') = view (site_db s)
  ∧ (((∃ status, a = UpgradeFailed status) ∧ the_hub s' = the_hub s)
     ∨ (a = Upgraded false
        ∧ subscribed (site_db s) (site_db s') orderID (sk_next (site_hub s))
            (the_hub s) (the_hub s'))).
Proof.
  intros (up & s1 & (h1 & Hup & ->)%at_hub_inv & Hr)%M_bind_inv. injection Hup as <- <-.
  destruct (match sk_upgrades (site_hub s) with u :: _ => u | [] => Ok () end) as [u|status].
  2: { injection Hr as <- <-. eauto 6. }
  apply M_bind_inv in Hr as (client & s2 & (h2 & Hsub & ->)%at_hub_inv & Hr).
  cbn [Subscribe hub_sockets site_hub set_hub sk_next sk_hub] in Hsub.
  destruct (EvConnect_spec (sk_next (site_hub s)) orderID (the_hub s)) as (h & Hs & Hc & Hin).
  unfold the_hub in Hs. rewrite Hs in Hsub. injection Hsub as <- <-.
  apply M_bind_inv in Hr as (notes & s3 & (d' & -> & Hlist & Hv & Hn)%ListByOrder_spec & Hr).
  destruct notes as [notes|e].
  2: { injection Hr as <- <-. split; [done|]. right. split; [done|]. split; [done|].
       exists (Err e), []. cbn [set_db the_hub site_hub set_hub sk_hub]. split; [exact Hlist|].
       cbn. by rewrite Hc, lookup_insert_eq. }
  destruct (Hn notes eq_refl) as [Hp Hsort].
  apply M_bind_inv in Hr as (sent & s4 & Hrep & Hr). injection Hr as <- <-.
  set (s3 := set_db _ _) in Hrep.
  destruct (replay_spec (sk_next (site_hub s)) (NewClient orderID) notes s3)
    as (h4 & Hrep' & Hcl & Hb); [|done|cbn; unfold sendBuffer; lia|].
  { cbn. by rewrite Hc, lookup_insert_eq. }
  rewrite Hrep in Hrep'. injection Hrep' as -> ->. split; [done|]. right. split; [done|]. split.
  - intros Hrun. specialize (Hin Hrun). unfold subscribers in *.
    assert (h_clients (the_hub (set_hub h4 s3)) = h_clients h) as E by exact Hcl. by rewrite E.
  - exists (Ok notes). eexists. split; [exact Hlist|]. split; [exact Hb|]. by cbn.
Qed.

(** C20. A subscription belongs to the order's owner: the connection is upgraded and the hub
    touched only when the token offered next to the sentinel is an unexpired one of ours
    whose user owns the order in the path; the new client then watches exactly that order
    and finds its persisted notifications queued, oldest first, unless [ListByOrder]
    itself answered with an error. Every other request is answered before the upgrade and
    leaves the hub alone; the tables are only read. *)
Theorem Connect_owner_only c s a s' :
  let T := view (site_db s) in
  consistent T →
  WebSocketHandler_Connect c s = (a, s') →
  view (site_db s') = T
  ∧ ((∃ status body, a = JSON status body ∧ 400 ≤ status ∧ site_hub s' = site_hub s)
     ∨ ∃ orderID o, Atoi (ctx_id c) = Some orderID
         ∧ Tables_orders T !! orderID = Some o
         ∧ trusted m (tokenFromSubprotocols (Request_Subprotocols (ctx_request c))) s
             (λ cl, Claims_UserID cl = Order_UserID o)
         ∧ (((∃ status, a = UpgradeFailed status) ∧ the_hub s' = the_hub s)
            ∨ (a = Upgraded false
               ∧ ∃ d, GetOrderUserID orderID (site_db s) = (Ok (Order_UserID o), d)
                   ∧ view d = T
                   ∧ subscribed d (site_db s') orderID (sk_next (site_hub s))
                       (the_hub s) (the_hub s')))).
Proof.
  intros T HT Hr. unfold WebSocketHandler_Connect in Hr. cbv zeta in Hr.
  case_bool_decide as Htok.
  { injection Hr as <- <-. split; [done|]. left. by exists 401, (ErrorText "authentication required"). }
  apply M_bind_inv in Hr as (r & s1 & Hp & Hr).
  pose proof Hp as [c1 ->]%Parse_clock. destruct r as [cl|e].
  2: { injection Hr as <- <-. split; [done|]. left.
       by exists 401, (ErrorText "invalid or expired token"). }
  apply Parse_trusted in Hp as (c1' & _ & Ht).
  destruct (Atoi (ctx_id c)) as [orderID|].
  2: { injection Hr as <- <-. split; [done|]. left. by exists 400, (ErrorText "invalid order id"). }
  destruct (orderID <=? 0).
  { injection Hr as <- <-. split; [done|]. left. by exists 400, (ErrorText "invalid order id"). }
  apply M_bind_inv in Hr as (owner & s2 & Ho & Hr).
  apply GetOrderUserID_spec in Ho as (d2 & -> & Hown & Hv & Ho); [|exact HT]. destruct owner as [owner|e].
  2: { destruct (errors_Is e _); injection Hr as <- <-; (split; [done|]); left;
       [by exists 404, (ErrorText "order not found")|by exists 500, (ErrorText "could not load order")]. }
  destruct (Ho owner eq_refl) as (o & Hrow & <-).
  destruct (Order_UserID o =? Claims_UserID cl) eqn:E; cbn [negb] in Hr.
  2: { injection Hr as <- <-. split; [done|]. left. by exists 403, (ErrorText "not your order"). }
  bool_to_prop. apply subscribe_spec in Hr as [Hv' Hr].
  assert (view (site_db (set_db d2 (set_clock c1 s))) = T) as ET by exact Hv.
  rewrite ET in Hv'. split; [done|].
  right. exists orderID, o. split_and!; [done..| |].
  - apply (trusted_weaken _ _ _ _ _ Ht). intros c0 ->. done.
  - destruct Hr as [Hr|[-> Hr]]; [by left|right]. split; [done|]. exists d2.
    split_and!; [exact Hown|exact Hv|exact Hr].
Qed.
End subscribing.

(** ** A concrete run: Ada watches her order, whose outcome is already stored *)
Definition ada_noted : DemoSite :=
  set_db (repo_CreateNotification
            (mkNotification 0 100 "order confirmed" NotificationStatusPending 0 None)
            (site_db (ada_order "order").2)).2 (ada_order "order").2.
Definition ada_context : Ctx :=
  mkCtx "GET" "/api/v1/orders/:id/subscribe" ada_subscribes "100" None None.
Definition ada_watch : Answer * DemoSite := WebSocketHandler_Connect ada_context ada_noted.

Lemma Connect_owner_only_witness :
  ada_watch.1 = Upgraded false
  ∧ (∃ o, Tables_orders (view (site_db ada_noted)) !! 100 = Some o
      ∧ trusted demo_manager (tokenFromSubprotocols (Request_Subprotocols ada_subscribes))
          ada_noted (λ cl, Claims_UserID cl = Order_UserID o)
      ∧ ∃ d, subscribed d (site_db ada_watch.2) 100 0 (the_hub ada_noted) (the_hub ada_watch.2))
  ∧ subscribers 100 (the_hub ada_watch.2) = {[ 0%nat ]}
  ∧ length ∘ c_buffer <$> h_conns (the_hub ada_watch.2) !! 0%nat = Some 1%nat.
Proof.
  assert (ada_watch.1 = Upgraded false) as Hu by evaluate.
  assert (consistent (view (site_db ada_noted))) as HT by (apply consistentb_sound; evaluate).
  split; [exact Hu|]. split; [|split; evaluate].
  destruct (Connect_owner_only demo_manager ada_context ada_noted ada_watch.1 ada_watch.2 HT
    (surjective_pairing _))
    as [_ [(st & body & Ha & _)|(id & o & Hid & Ho & Ht & Hs)]].
  - rewrite Ha in Hu. discriminate Hu.
  - assert (Some id = Some 100) as Eid by exact (eq_sym Hid).
    exists o. rewrite <- (Some_inj _ _ Eid). split; [exact Ho|]. split; [exact Ht|].
    destruct Hs as [[[st Ha] _]|[_ (d & _ & _ & Hs)]].
    + rewrite Ha in Hu. discriminate Hu.
    + exists d. exact Hs.
Defined.
