(* ===== verification/Delivery.v ===== *)
(** * Notifications on their way ([internal/services/notification.go],
    [internal/api/handlers/ws_handler.go], concurrently)

    [Send] and [Connect] cut at their calls: a worker that announces an outcome records the
    row, notifies the hub and marks the row, while a connect handler registers its client,
    reads the persisted rows and sends them one by one; between two calls of one, any other
    may make its own. [board_step] interleaves any number of both with the pumps, the stop of
    the hub (which can make [Notify] return false for a payload that was delivered), and
    whatever else happens to the database. *)

From Stdlib Require Import ZArith Lia.
From stdpp Require Import base tactics list gmap strings relations.
From S2P Require Import Prelude GoStd Errors Models Database Repositories Notification.
From S2P Require Import NotificationSpec Hub HubSpec Pumps PumpsSpec Auth Http Handlers.

Open Scope Z_scope.

(** ** [notificationService.Send], call by call *)
Inductive Sending : Type :=
| Recording (orderID : Z) (message : string)
| Announcing (orderID : Z) (n : Notification)
| Marking (n : Notification) (delivered : bool)
| Sent (n : option Notification).        (* returned, with the row it announced *)

Section sending.
Context `{NotificationStore W, Notifier W}.

Definition send_call (p : Sending) : M W Sending :=
  match p with
  | Recording orderID message =>
      let n := mkNotification 0 orderID message NotificationStatusPending 0 None in
      created ← NotificationStore_Create n;
      mret match created with Err _ => Sent None | Ok n => Announcing orderID n end
  | Announcing orderID n =>
      delivered ← Notify orderID (event n); mret (Marking n delivered)
  | Marking n delivered =>
      _ ← (if delivered : bool then NotificationStore_MarkSent (Notification_ID n)
           else NotificationStore_MarkFailed (Notification_ID n));
      mret (Sent (Some n))
  | Sent n => mret (Sent n)
  end.

Fixpoint send_calls (n : nat) (p : Sending) : M W Sending :=
  match n with
  | O => mret p
  | S n => p ← send_call p; send_calls n p
  end.

(** The cut is faithful: three calls in a row are [Send]. *)
Lemma send_calls_Send orderID message w :
  ∃ n, send_calls 3 (Recording orderID message) w
       = (Sent n, (notificationService_Send orderID message w).2).
Proof.
  unfold notificationService_Send. cbn. unfold mbind, M_bind, mret, M_ret.
  destruct (NotificationStore_Create _ w) as [[n|e] w1]; [|by eexists]. exists (Some n). cbn.
  unfold mbind, M_bind. destruct (Notify _ _ w1) as [[] w2]; cbn; unfold mbind, M_bind.
  - by destruct (NotificationStore_MarkSent _ w2).
  - by destruct (NotificationStore_MarkFailed _ w2).
Qed.
End sending.

(** ** [WebSocketHandler.Connect] from the upgrade on, call by call *)
Inductive Connecting : Type :=
| Upgrading (orderID : Z)
| Joining (orderID : Z)
| Listing (client : nat) (orderID : Z)
| Replaying (client : nat) (orderID : Z) (notes : list Notification)
| Watching (client : nat) (orderID : Z)  (* returned, everything replayed *)
| Ended (a : Answer).                    (* returned early: refused, unread or panicked *)

Definition connect_answer (p : Connecting) : option Answer :=
  match p with
  | Watching _ _ => Some (Upgraded false)
  | Ended a => Some a
  | _ => None
  end.

Section connecting.
Context `{notificationLister W, SocketHub W}.

Definition connect_call (p : Connecting) : M W Connecting :=
  match p with
  | Upgrading orderID =>
      upgraded ← Upgrade wsUpgrader;
      mret match upgraded with Err status => Ended (UpgradeFailed status) | Ok _ => Joining orderID end
  | Joining orderID => client ← Subscribe orderID; mret (Listing client orderID)
  | Listing client orderID =>
      notes ← lister_ListByOrder orderID;
      mret match notes with
           | Err _ => Ended (Upgraded false)
           | Ok notes => Replaying client orderID notes
           end
  | Replaying client orderID (n :: rest) =>
      sent ← ClientSend client (event n);
      mret (if sent : bool then Replaying client orderID rest else Ended (Upgraded true))
  | Replaying client orderID [] => mret (Watching client orderID)
  | Watching _ _ | Ended _ => mret p
  end.

Fixpoint connect_calls (n : nat) (p : Connecting) : M W Connecting :=
  match n with
  | O => mret p
  | S n => p ← connect_call p; connect_calls n p
  end.

Lemma connect_calls_replay client orderID notes w :
  ∃ n p, connect_calls n (Replaying client orderID notes) w = (p, (replay client notes w).2)
    ∧ connect_answer p = Some (Upgraded (negb (replay client notes w).1)).
Proof.
  revert w. induction notes as [|note rest IH]; intros w; [by exists 1%nat, (Watching client orderID)|].
  cbn [replay]. unfold mbind, M_bind. destruct (ClientSend client (event note) w) as [b w1] eqn:E.
  assert (∀ n, connect_calls (S n) (Replaying client orderID (note :: rest)) w
               = connect_calls n (if b then Replaying client orderID rest else Ended (Upgraded true)) w1)
    as Hn by (intros n; cbn; unfold mbind, M_bind; by rewrite E).
  destruct b; [|by exists 1%nat, (Ended (Upgraded true)); rewrite Hn].
  destruct (IH w1) as (n & p & Hp & Ha). exists (S n), p. by rewrite Hn.
Qed.

Lemma connect_calls_read n orderID w :
  connect_calls (3 + n) (Upgrading orderID) w
  = let '(upgraded, w) := Upgrade wsUpgrader w in
    match upgraded with
    | Err status => (Ended (UpgradeFailed status), w)
    | Ok _ =>
        let '(client, w) := Subscribe orderID w in
        let '(notes, w) := lister_ListByOrder orderID w in
        match notes with
        | Err _ => connect_calls n (Ended (Upgraded false)) w
        | Ok notes => connect_calls n (Replaying client orderID notes) w
        end
    end.
Proof.
  assert (∀ m a w0, connect_calls m (Ended a) w0 = (Ended a, w0)) as Hend.
  { intros m a w0. induction m as [|m IH]; [done|exact IH]. }
  cbn. unfold mbind, M_bind, mret, M_ret. destruct (Upgrade _ w) as [[u|status] w1]; [|apply (Hend (S (S n)))].
  cbn. unfold mbind, M_bind, mret, M_ret. destruct (Subscribe orderID w1) as [client w2].
  cbn. unfold mbind, M_bind, mret, M_ret. by destruct (lister_ListByOrder orderID w2) as [[notes|e] w3].
Qed.

(** The cut is faithful: enough calls in a row are the handler. *)
Lemma connect_calls_subscribe orderID w :
  ∃ n p, connect_calls n (Upgrading orderID) w = (p, (subscribe orderID w).2)
    ∧ connect_answer p = Some (subscribe orderID w).1.
Proof.
  pose proof (λ n, connect_calls_read n orderID w) as Hread. revert Hread.
  unfold subscribe. unfold mbind, M_bind, mret, M_ret.
  destruct (Upgrade wsUpgrader w) as [[u|status] w1].
  2: { intros Hread. exists 3%nat, (Ended (UpgradeFailed status)). split; [exact (Hread O)|done]. }
  destruct (Subscribe orderID w1) as [client w2].
  destruct (lister_ListByOrder orderID w2) as [[notes|e] w3]; intros Hread.
  2: { exists 3%nat, (Ended (Upgraded false)). split; [exact (Hread O)|done]. }
  destruct (connect_calls_replay client orderID notes w3) as (n & p & Hp & Ha).
  exists (3 + n)%nat, p. rewrite (Hread n). by destruct (replay client notes w3).
Qed.
End connecting.

(** ** The hub and its pumps, as these two use them

    [range] is the order a map iteration takes, [up] the library's verdict on the upgrade,
    [id] the pointer of the new client. *)
Definition put_hub (h : Hub) (ps : gmap nat Pump) (l : Live) : Live :=
  mkLive h ps (enqueued (lv_hub l) h (lv_queued l)).

Definition live_notifier (range : list nat) : Notifier Live := {|
  Notify := λ orderID payload l,
    match hub_step (EvNotify orderID payload range) (lv_hub l) with
    | Ok (delivered, h) => (delivered, put_hub h (lv_pumps l) l)
    | Err _ => (false, l)
    end;
|}.

Definition live_sockets (up : result Z unit) (id : nat) : SocketHub Live := {|
  Upgrade := λ _ l, (up, l);
  Subscribe := λ orderID l,
    (id, match hub_step (EvConnect id orderID) (lv_hub l) with
         | Ok (_, h) => put_hub h (<[id := new_pump]> (lv_pumps l)) l
         | Err _ => l
         end);
  ClientSend := λ client payload l,
    match hub_step (EvSend client payload) (lv_hub l) with
    | Ok (_, h) => (true, put_hub h (lv_pumps l) l)
    | Err _ => (false, l)
    end;
|}.

(** ** Many of both *)
Record Board (D : Type) : Type := mkBoard {
  bd_db : D;
  bd_live : Live;
  bd_sends : list Sending;
  bd_connects : list Connecting;
}.
Arguments mkBoard {D}.
Arguments bd_db {D}.
Arguments bd_live {D}.
Arguments bd_sends {D}.
Arguments bd_connects {D}.

Section board.
Context `{DbEngine D}.

Definition announce (range : list nat) (p : Sending) : M (D * Live) Sending :=
  let _ := live_notifier range in send_call p.

#[local] Instance board_sockets `{SocketHub Live} : SocketHub (D * Live) := {|
  Upgrade := λ u, note_live (Upgrade u);
  Subscribe := λ orderID, note_live (Subscribe orderID);
  ClientSend := λ client payload, note_live (ClientSend client payload);
|}.
Definition attach (up : result Z unit) (id : nat) (p : Connecting) : M (D * Live) Connecting :=
  let _ := live_sockets up id in connect_call p.

(** The audience a notification is about to visit. *)
Definition visits (p : Sending) (range : list nat) (h : Hub) : Prop :=
  match p with
  | Announcing orderID _ => range ≡ₚ elements (subscribers orderID h)
  | _ => True
  end.

(** Rows of the notifications table keep what they say. *)
Definition keeps_notes (T T' : Tables) : Prop :=
  consistent T' ∧ ∀ id row, Tables_notifications T !! id = Some row →
    ∃ row', Tables_notifications T' !! id = Some row'
            ∧ NewNotificationEvent row' = NewNotificationEvent row.

Inductive board_step : Board D → Board D → Prop :=
(** A worker announces an outcome; a customer's connection is admitted. *)
| board_outcome d l ss cs orderID message :
    board_step (mkBoard d l ss cs) (mkBoard d l (ss ++ [Recording orderID message]) cs)
| board_visitor d l ss cs orderID :
    board_step (mkBoard d l ss cs) (mkBoard d l ss (cs ++ [Upgrading orderID]))
(** One of them makes its next call. *)
| board_send d l ss cs i p range p' d' l' :
    ss !! i = Some p → visits p range (lv_hub l) → announce range p (d, l) = (p', (d', l')) →
    board_step (mkBoard d l ss cs) (mkBoard d' l' (<[i := p']> ss) cs)
| board_connect d l ss cs i p up id p' d' l' :
    cs !! i = Some p → h_conns (lv_hub l) !! id = None →
    attach up id p (d, l) = (p', (d', l')) →
    board_step (mkBoard d l ss cs) (mkBoard d' l' ss (<[i := p']> cs))
(** [Notify]'s caller finds both its result and [done] ready, and takes [done]. *)
| board_done d l ss cs i n delivered returned :
    ss !! i = Some (Marking n delivered) → Notify_returns delivered (lv_hub l) returned →
    board_step (mkBoard d l ss cs) (mkBoard d l (<[i := Marking n returned]> ss) cs)
(** Anything else that happens to the sockets, or to the database. *)
| board_live d l ss cs l' :
    live_step l l' → board_step (mkBoard d l ss cs) (mkBoard d l' ss cs)
| board_others d l ss cs d' :
    keeps_notes (view d) (view d') → board_step (mkBoard d l ss cs) (mkBoard d' l ss cs).

(** A schedule to execute. *)
Inductive board_turn : Type :=
| BOutcome (orderID : Z) (message : string)
| BVisitor (orderID : Z)
| BSend (i : nat)
| BConnect (i : nat)
| BLive (t : live_turn).

Definition audience (p : Sending) (h : Hub) : list nat :=
  match p with Announcing orderID _ => elements (subscribers orderID h) | _ => [] end.
Definition fresh_client (h : Hub) : nat := fresh (dom (h_conns h) : gset nat).

Definition board_play (t : board_turn) (b : Board D) : Board D :=
  let '(mkBoard d l ss cs) := b in
  match t with
  | BOutcome orderID message => mkBoard d l (ss ++ [Recording orderID message]) cs
  | BVisitor orderID => mkBoard d l ss (cs ++ [Upgrading orderID])
  | BSend i =>
      match ss !! i with
      | Some p => let '(p', (d', l')) := announce (audience p (lv_hub l)) p (d, l) in
                  mkBoard d' l' (<[i := p']> ss) cs
      | None => b
      end
  | BConnect i =>
      match cs !! i with
      | Some p => let '(p', (d', l')) := attach (Ok ()) (fresh_client (lv_hub l)) p (d, l) in
                  mkBoard d' l' ss (<[i := p']> cs)
      | None => b
      end
  | BLive t => mkBoard d (live_play t l) ss cs
  end.

Lemma board_play_step t b : board_play t b = b ∨ board_step b (board_play t b).
Proof.
  destruct b as [d l ss cs], t as [orderID message|orderID|i|i|t]; cbn [board_play].
  - right. constructor.
  - right. constructor.
  - destruct (ss !! i) as [p|] eqn:Hi; [right|by left].
    destruct (announce _ p (d, l)) as [p' [d' l']] eqn:Hc.
    refine (board_send d l ss cs i p (audience p (lv_hub l)) p' d' l' Hi _ Hc).
    by destruct p; cbn.
  - destruct (cs !! i) as [p|] eqn:Hi; [right|by left].
    destruct (attach _ _ p (d, l)) as [p' [d' l']] eqn:Hc.
    refine (board_connect d l ss cs i p (Ok ()) (fresh_client (lv_hub l)) p' d' l' Hi _ Hc).
    apply (not_elem_of_dom (D := gset nat)). unfold fresh_client. apply is_fresh.
  - destruct (live_play_step t l) as [->|Hst]; [by left|right]. by constructor.
Qed.

Definition board_plays (ts : list board_turn) (b : Board D) : Board D :=
  foldl (λ b t, board_play t b) b ts.

Lemma board_plays_steps ts b : rtc board_step b (board_plays ts b).
Proof.
  unfold board_plays. revert b. induction ts as [|t ts IH]; intros b; [apply rtc_refl|]. cbn.
  destruct (board_play_step t b) as [->|Hst]; [apply IH|]. by eapply rtc_l.
Qed.
End board.
