(* ===== verification/DeliverySpec.v ===== *)
(** * Properties of notifications on their way

    Recording before notifying, and registering before reading, leave no gap: whatever the
    interleaving, a connected subscriber is told. *)

From Stdlib Require Import ZArith Lia.
From stdpp Require Import base tactics list gmap strings relations.
From S2P Require Import Prelude GoStd Errors Models Database RefDb Repositories.
From S2P Require Import Notification NotificationSpec Hub HubSpec Pumps PumpsSpec Auth Http.
From S2P Require Import Handlers Delivery Ledger LedgerSpec.

Open Scope Z_scope.

(** ** What the sockets keep *)

(** Queues only grow; a closed channel and a stopped hub stay so. *)
Record onward (l l' : Live) : Prop := {
  on_queued : ∀ id, lv_queued l id `prefix_of` lv_queued l' id;
  on_closed : ∀ id, closed_in (lv_hub l) id → closed_in (lv_hub l') id;
  on_stopped : h_clients (lv_hub l) = None → h_clients (lv_hub l') = None;
  on_conns : ∀ id c, h_conns (lv_hub l) !! id = Some c →
    ∃ c', h_conns (lv_hub l') !! id = Some c' ∧ c_orderID c' = c_orderID c;
}.

Lemma onward_refl l : onward l l.
Proof. split; eauto. Qed.

Lemma onward_put h ps q h' ps' :
  (∀ id, kept h h' id) → (h_clients h = None → h_clients h' = None) →
  onward (mkLive h ps q) (mkLive h' ps' (enqueued h h' q)).
Proof.
  intros Hk Hs. split; cbn [lv_hub lv_queued].
  - intros id. by eexists.
  - intros id. by apply kept_closed.
  - done.
  - intros id c Hc. destruct (Hk id c Hc) as (c' & Hc' & E & _). eauto.
Qed.

Lemma live_step_onward l l' : live_ok l → live_step l l' → onward l l'.
Proof.
  intros Hok Hst. pose proof (lo_hub _ Hok) as Hhub. pose proof (lo_listed _ Hok) as Hlist.
  destruct Hst as [h ps q id orderID b h' Hno Hs|h ps q e b h' Ho He Hs
    |h ps q id p written i Hp Hr Hof|h ps q id p written Hp Hr|h ps q id p b h' Hp Hr Hg Hs];
    cbn [lv_hub] in *.
  - destruct (connect_listed id orderID h b h' Hhub Hlist Hno Hs) as (_ & _ & Hconns).
    apply onward_put; [|intros E; by eapply hub_stays_stopped].
    intros j c Hc. rewrite Hconns, lookup_insert_ne by congruence. by exists c.
  - destruct (outer_listed e h b h' Hhub Hlist Ho He Hs) as (_ & _ & Hg).
    apply onward_put; [exact (grows_kept _ _ Hg)|intros E; by eapply hub_stays_stopped].
  - split; cbn [lv_hub lv_queued]; [done| | |].
    + intros j (c & Hc & Hcl). unfold receive. destruct (h_conns h !! id) as [d|] eqn:Hd; [|by exists c].
      exists (if decide (j = id) then mkClient (c_orderID d) (tail (c_buffer d)) (c_closed d) else c).
      cbn. case_decide as E; [subst j|by rewrite lookup_insert_ne].
      rewrite lookup_insert_eq. split; [done|]. cbn. congruence.
    + intros E. by apply (hub_stays_stopped (EvReceive id) h false).
    + intros j c Hc. unfold receive. destruct (h_conns h !! id) as [d|] eqn:Hd; [|by exists c].
      cbn. destruct (decide (j = id)) as [->|Hne].
      * rewrite lookup_insert_eq. eexists. split; [done|]. cbn. congruence.
      * rewrite lookup_insert_ne by done. by exists c.
  - split; cbn [lv_hub lv_queued]; eauto.
  - pose proof Hs as Hs'. cbn in Hs. destruct (Hub_remove id h) as [h1|] eqn:Hrm; [|done].
    injection Hs as _ <-. apply remove_grows in Hrm.
    apply onward_put; [exact (grows_kept _ _ Hrm)|intros E; by eapply hub_stays_stopped].
Qed.

(** ** What a client has, or why it may not *)
Definition lost (l : Live) (id : nat) : Prop :=
  closed_in (lv_hub l) id ∨ h_clients (lv_hub l) = None
  ∨ (sendBuffer ≤ length (lv_queued l id))%nat.
Definition has (l : Live) (id : nat) (e : NotificationEvent) : Prop :=
  NotificationEvent_JSON e ∈ lv_queued l id ∨ lost l id.

Lemma has_onward l l' id e : onward l l' → has l id e → has l' id e.
Proof.
  intros [Hq Hc Hs _] [Hin|[Hcl|[Hst|Hlen]]]; unfold has, lost.
  - left. destruct (Hq id) as [more ->]. apply elem_of_app. by left.
  - eauto.
  - eauto.
  - right. right. right. destruct (Hq id) as [more ->]. rewrite length_app. lia.
Qed.

Lemma full_lost l id c :
  live_ok l → h_conns (lv_hub l) !! id = Some c → (sendBuffer ≤ length (c_buffer c))%nat →
  lost l id.
Proof.
  intros Hok Hc Hlen. right. right. assert (is_Some (lv_pumps l !! id)) as [p Hp].
  { apply not_eq_None_Some. rewrite (lo_pumps _ Hok). congruence. }
  rewrite <- (lo_fifo _ Hok id p Hp), length_app. unfold buffer_of. rewrite Hc. lia.
Qed.

Lemma queued_push h ps q h' ps' id c payload :
  h_conns h !! id = Some c → h_conns h' !! id = Some (push payload c) →
  payload ∈ lv_queued (put_hub h' ps' (mkLive h ps q)) id.
Proof.
  intros Hc Hc'. cbn [put_hub lv_queued lv_hub]. rewrite (enqueued_more h h' q id [payload]).
  - apply elem_of_app. right. by left.
  - unfold buffer_of. by rewrite Hc, Hc'.
Qed.

(** A notification is a step of the sockets, and every client of the order has it then. *)
Lemma Notify_reaches range orderID payload l b l' :
  live_ok l → range ≡ₚ elements (subscribers orderID (lv_hub l)) →
  @Notify _ (live_notifier range) orderID payload l = (b, l') →
  (l' = l ∨ live_step l l')
  ∧ ∀ id c', h_conns (lv_hub l') !! id = Some c' → c_orderID c' = orderID →
      payload ∈ lv_queued l' id ∨ lost l' id.
Proof.
  intros Hok Hr Hn. destruct l as [h ps q]. pose proof (lo_hub _ Hok) as Hhub.
  cbn [Notify live_notifier lv_hub lv_pumps] in *.
  destruct (hub_step_ok (EvNotify orderID payload range) h Hhub Hr I) as (b1 & h1 & Hs & _).
  rewrite Hs in Hn. injection Hn as <- <-.
  assert (live_step (mkLive h ps q) (put_hub h1 ps (mkLive h ps q))) as Hst.
  { exact (live_outer h ps q (EvNotify orderID payload range) b1 h1 I Hr Hs). }
  split; [by right|]. intros id c' Hc' Ho. pose proof (live_step_onward _ _ Hok Hst) as Hon.
  destruct (outer_listed (EvNotify orderID payload range) h b1 h1 Hhub (lo_listed _ Hok) I Hr Hs)
    as (_ & _ & Hg).
  destruct (h_conns h !! id) as [c|] eqn:Hc; [|apply (grows_dom h h1 id Hg) in Hc; cbn in Hc'; congruence].
  assert (c_orderID c = orderID) as Hco.
  { destruct (on_conns _ _ Hon id c Hc) as (c2 & Hc2 & E). congruence. }
  cbn in Hs. destruct (h_clients h) as [m|] eqn:Hm.
  2: { right. right. left. by apply (on_stopped _ _ Hon). }
  destruct (c_closed c) eqn:Hcl.
  { right. left. apply (on_closed _ _ Hon). by exists c. }
  destruct (deliver_spec range orderID payload false h Hhub) as (h2 & Hd & _ & _ & Hconns & _).
  - rewrite Hr. apply NoDup_elements.
  - intros j. rewrite Hr. apply elem_of_elements.
  - by rewrite Hm.
  - rewrite Hd in Hs. injection Hs as _ ->. assert (id ∈ range) as Hin.
    { rewrite Hr. apply elem_of_elements. rewrite <- Hco. apply (lo_listed _ Hok); [|done|done].
      cbn. by rewrite Hm. }
    specialize (Hconns id). rewrite decide_True, Hc in Hconns by done. cbn in Hconns.
    unfold served in Hconns. destruct (room c).
    + left. by eapply queued_push.
    + right. left. by exists (shut c).
Qed.

(** One send of a replay: on an open channel it is a step that queues the message. *)
Lemma ClientSend_reaches up fid id payload l l' c :
  live_ok l → h_conns (lv_hub l) !! id = Some c →
  @ClientSend _ (live_sockets up fid) id payload l = (true, l') →
  live_step l l' ∧ (payload ∈ lv_queued l' id ∨ lost l' id).
Proof.
  intros Hok Hc Hs. destruct l as [h ps q]. cbn [ClientSend live_sockets lv_hub lv_pumps] in *.
  destruct (hub_step (EvSend id payload) h) as [[b h1]|] eqn:He; [|done]. injection Hs as <-.
  assert (live_step (mkLive h ps q) (put_hub h1 ps (mkLive h ps q))) as Hst.
  { refine (live_outer h ps q (EvSend id payload) b h1 I _ He). by eexists. }
  split; [exact Hst|]. pose proof (live_step_ok _ _ Hok Hst) as Hok'.
  cbn in He. unfold send_or_default in He. rewrite Hc in He.
  destruct (c_closed c) eqn:Hcl; [done|]. destruct (_ <? _)%nat eqn:Hroom; injection He as _ <-.
  - left. eapply queued_push; [done|]. cbn. rewrite lookup_insert_eq. unfold push. by rewrite Hcl.
  - right. apply Nat.ltb_ge in Hroom. by eapply full_lost.
Qed.

Lemma ClientSend_panics up fid id payload l l' :
  @ClientSend _ (live_sockets up fid) id payload l = (false, l') → l' = l.
Proof. cbn. destruct (send_or_default _ _ _) as [[b h]|]; [done|]. by intros [= <-]. Qed.

Lemma Subscribe_joins up id orderID l fid l' :
  live_ok l → h_conns (lv_hub l) !! id = None →
  @Subscribe _ (live_sockets up id) orderID l = (fid, l') →
  fid = id ∧ live_step l l' ∧ h_conns (lv_hub l') !! id = Some (NewClient orderID).
Proof.
  intros Hok Hno Hs. destruct l as [h ps q]. cbn [Subscribe live_sockets lv_hub lv_pumps] in *.
  destruct (hub_step_ok (EvConnect id orderID) h (lo_hub _ Hok) Hno I) as (b & h1 & He & _).
  rewrite He in Hs. injection Hs as <- <-. split; [done|].
  split; [by eapply live_connect|]. cbn [put_hub lv_hub].
  destruct (connect_listed id orderID h b h1 (lo_hub _ Hok) (lo_listed _ Hok) Hno He) as (_ & _ & ->).
  apply lookup_insert_eq.
Qed.

(** ** What the notifications table says *)
Definition in_table (T : Tables) (e : NotificationEvent) : Prop :=
  ∃ row, Tables_notifications T !! NotificationEvent_ID e = Some row ∧ NewNotificationEvent row = e.

Lemma keeps_notes_refl T : consistent T → keeps_notes T T.
Proof. intros HT. split; [done|]. intros id row Hr. by exists row. Qed.

Lemma keeps_in_table T T' e : keeps_notes T T' → in_table T e → in_table T' e.
Proof.
  intros [_ Hk] (row & Hr & E). destruct (Hk _ row Hr) as (row' & Hr' & E').
  exists row'. split; [done|congruence].
Qed.

Section rows.
Context `{LawfulDb D}.

Lemma create_note orderID message d r d' :
  consistent (view d) →
  repo_CreateNotification (mkNotification 0 orderID message NotificationStatusPending 0 None) d
    = (r, d') →
  keeps_notes (view d) (view d')
  ∧ ∀ n, r = Ok n → Notification_OrderID n = orderID ∧ in_table (view d') (NewNotificationEvent n).
Proof.
  intros HT Hr. apply autocommit_create in Hr as [Hr|[Hf Hv]]; [| |done].
  2: { rewrite Hv. split; [by apply keeps_notes_refl|]. intros n ->. done. }
  destruct Hr as (now & id & row & Hpos & Hfresh & Hst & Hv & Hc & Hok).
  injection Hst as Hrow. apply (f_equal (rows notifications)) in Hv. rewrite rows_set_rows in Hv.
  cbn [rows] in Hfresh, Hv. split.
  - split; [done|]. intros j r0 Hj. exists r0. split; [|done].
    rewrite Hv, lookup_insert_ne; [done|congruence].
  - intros n E. rewrite (Hok n E). split; [done|]. exists row. rewrite Hv. split; [apply lookup_insert_eq|].
    by subst row.
Qed.

Lemma mark_note (b : bool) n d rb d' :
  consistent (view d) → in_table (view d) (NewNotificationEvent n) →
  (if b then MarkSent else MarkFailed) (Notification_ID n) d = (rb, d') →
  keeps_notes (view d) (view d').
Proof.
  intros HT (row & Hr & E) Hm. cbn in Hr. split.
  - destruct b; apply try_inv in Hm as [(k & d1 & Ha & [= <- <-])|(e & Ha & ->)];
      apply Transaction_outcome in Ha; revert Ha; apply tx_outcome_invariant; try done;
      intros a T1 Hs%runs_step; by apply Hs.
  - apply (mark_spec b (view d) d _ row) in Hm as (row' & Hv & Hid & Ho & Hmsg & _);
      [|done|by destruct (view d); cbn in *; rewrite insert_id].
    apply (f_equal (rows notifications)) in Hv. rewrite rows_set_rows in Hv. cbn [rows] in Hv.
    intros id r Hj. rewrite Hv. destruct (decide (id = Notification_ID n)) as [->|Hne].
    + rewrite lookup_insert_eq. exists row'. split; [done|]. replace r with row by congruence.
      unfold NewNotificationEvent. congruence.
    + rewrite lookup_insert_ne by done. by exists r.
Qed.

Lemma list_notes orderID (d : D) r d' :
  ListByOrder orderID d = (r, d') →
  view d' = view d
  ∧ ∀ notes e, r = Ok notes → in_table (view d) e → NotificationEvent_OrderID e = orderID →
      e ∈ NewNotificationEvent <$> notes.
Proof.
  intros Hr. apply exec_sem in Hr as [Hv Hr]. split; [done|]. intros notes e -> (row & Hrow & <-) Ho.
  destruct Hr as (all & Hp & _ & ->). apply list_elem_of_fmap. exists row. split; [done|].
  cbn. rewrite Hp. apply elem_of_matching. split; [by apply Z.eqb_eq|by eexists].
Qed.

(** ** The invariant *)

(** The event a worker has recorded; and those it has notified the hub of. *)
Definition recorded_event (p : Sending) : option NotificationEvent :=
  match p with
  | Announcing _ n | Marking n _ | Sent (Some n) => Some (NewNotificationEvent n)
  | Recording _ _ | Sent None => None
  end.
Definition notified_event (p : Sending) : option NotificationEvent :=
  match p with Announcing _ _ => None | _ => recorded_event p end.

(** What subscribers have been told of, live or before they came. *)
Definition told (T0 : Tables) (ss : list Sending) (e : NotificationEvent) : Prop :=
  in_table T0 e ∨ ∃ i p, ss !! i = Some p ∧ notified_event p = Some e.

Definition served_by (p : Connecting) : option (nat * Z) :=
  match p with
  | Listing client orderID | Replaying client orderID _ | Watching client orderID =>
      Some (client, orderID)
  | Upgrading _ | Joining _ | Ended _ => None
  end.

(** How far a handler is with an event of its order. *)
Definition reached (l : Live) (p : Connecting) (e : NotificationEvent) : Prop :=
  match p with
  | Replaying client _ notes => has l client e ∨ e ∈ NewNotificationEvent <$> notes
  | Watching client _ => has l client e
  | _ => True
  end.

Record board_ok (T0 : Tables) (b : Board D) : Prop := {
  bo_db : consistent (view (bd_db b));
  bo_live : live_ok (bd_live b);
  bo_old : ∀ e, in_table T0 e → in_table (view (bd_db b)) e;
  bo_rows : ∀ i p e, bd_sends b !! i = Some p → recorded_event p = Some e →
    in_table (view (bd_db b)) e;
  bo_order : ∀ i orderID n, bd_sends b !! i = Some (Announcing orderID n) →
    Notification_OrderID n = orderID;
  bo_clients : ∀ j p id orderID, bd_connects b !! j = Some p → served_by p = Some (id, orderID) →
    ∃ c, h_conns (lv_hub (bd_live b)) !! id = Some c ∧ c_orderID c = orderID;
  bo_reached : ∀ j p id orderID e, bd_connects b !! j = Some p →
    served_by p = Some (id, orderID) → NotificationEvent_OrderID e = orderID →
    told T0 (bd_sends b) e → reached (bd_live b) p e;
}.

Lemma board_start_ok d : consistent (view d) → board_ok (view d) (mkBoard d live_start [] []).
Proof. intros HT. split; cbn; try done. apply live_start_ok. Qed.

Lemma reached_onward l l' p e : onward l l' → reached l p e → reached l' p e.
Proof.
  intros Hon. destruct p as [| | |client orderID notes|client orderID|]; cbn; try done.
  - intros [Hh|Hin]; [left; by eapply has_onward|by right].
  - by apply has_onward.
Qed.

(** The sockets move on and the rows stay. *)
Lemma board_ok_moves T0 d l ss cs d' l' :
  board_ok T0 (mkBoard d l ss cs) → keeps_notes (view d) (view d') → l' = l ∨ live_step l l' →
  board_ok T0 (mkBoard d' l' ss cs).
Proof.
  intros [Hdb Hl Hold Hrows Hord Hcl Hre] Hk Hst. cbn [bd_db bd_live bd_sends bd_connects] in *.
  assert (live_ok l' ∧ onward l l') as [Hl' Hon].
  { destruct Hst as [->|Hst]; [by split; [|apply onward_refl]|].
    split; [by eapply live_step_ok|by apply live_step_onward]. }
  split; cbn [bd_db bd_live bd_sends bd_connects]; [apply Hk|done| | |done| |].
  - intros e He. eapply keeps_in_table; eauto.
  - intros i p e Hi He. eapply keeps_in_table; eauto.
  - intros j p id orderID Hj Hs. destruct (Hcl j p id orderID Hj Hs) as (c & Hc & E).
    destruct (on_conns _ _ Hon id c Hc) as (c' & Hc' & E'). exists c'. split; [done|congruence].
  - intros j p id orderID e Hj Hs Ho Ht. eapply reached_onward; [done|by eapply Hre].
Qed.

(** A worker's phase changes; what it has newly notified, every handler's client has. *)
Lemma board_ok_sends T0 d l ss cs i p p' :
  board_ok T0 (mkBoard d l ss cs) → ss !! i = Some p →
  (∀ e, recorded_event p' = Some e → in_table (view d) e) →
  (∀ orderID n, p' = Announcing orderID n → Notification_OrderID n = orderID) →
  (∀ e, notified_event p' = Some e → notified_event p = Some e ∨
     ∀ id c, h_conns (lv_hub l) !! id = Some c → c_orderID c = NotificationEvent_OrderID e →
       has l id e) →
  board_ok T0 (mkBoard d l (<[i := p']> ss) cs).
Proof.
  intros [Hdb Hl Hold Hrows Hord Hcl Hre] Hi Hrec Hann Hnew.
  cbn [bd_db bd_live bd_sends bd_connects] in *.
  split; cbn [bd_db bd_live bd_sends bd_connects]; [done..| | |done|].
  - intros j q e [(<- & <- & _)|[_ Hj]]%list_lookup_insert_Some; [apply Hrec|by apply (Hrows j q)].
  - intros j orderID n [(<- & E & _)|[_ Hj]]%list_lookup_insert_Some; [by apply Hann|by eapply Hord].
  - intros j q id orderID e Hj Hs Ho Ht.
    assert (told T0 ss e ∨ has l id e) as [Ht'|Hh]; [|by eapply Hre|].
    { destruct Ht as [Ht|(k & r & Hk & He)]; [by left; left|].
      apply list_lookup_insert_Some in Hk as [(<- & <- & _)|[_ Hk]]; [|left; right; eauto].
      destruct (Hnew e He) as [Hn|Hn]; [left; right; eauto|right].
      destruct (Hcl j q id orderID Hj Hs) as (c & Hc & E). apply (Hn id c Hc). congruence. }
    destruct q; cbn in *; simplify_eq; eauto.
Qed.

Lemma board_ok_connects T0 d l ss cs j p p' :
  board_ok T0 (mkBoard d l ss cs) → cs !! j = Some p →
  (∀ id orderID, served_by p' = Some (id, orderID) →
     (∃ c, h_conns (lv_hub l) !! id = Some c ∧ c_orderID c = orderID)
     ∧ ∀ e, NotificationEvent_OrderID e = orderID → told T0 ss e → reached l p' e) →
  board_ok T0 (mkBoard d l ss (<[j := p']> cs)).
Proof.
  intros [Hdb Hl Hold Hrows Hord Hcl Hre] Hj Hnew. cbn [bd_db bd_live bd_sends bd_connects] in *.
  split; cbn [bd_db bd_live bd_sends bd_connects]; [done..| |].
  - intros k q id orderID [(<- & <- & _)|[_ Hk]]%list_lookup_insert_Some Hs;
      [by apply Hnew|by eapply Hcl].
  - intros k q id orderID e [(<- & <- & _)|[_ Hk]]%list_lookup_insert_Some Hs Ho Ht;
      [by eapply Hnew|by eapply Hre].
Qed.

Lemma told_in_table T0 b e : board_ok T0 b → told T0 (bd_sends b) e → in_table (view (bd_db b)) e.
Proof.
  intros Hok [He|(i & p & Hi & He)]; [by apply (bo_old _ _ Hok)|].
  apply (bo_rows _ _ Hok i p); [done|]. by destruct p.
Qed.

(** ** Every call keeps it *)
Lemma board_send_ok T0 d l ss cs i p range p' d' l' :
  board_ok T0 (mkBoard d l ss cs) → ss !! i = Some p → visits p range (lv_hub l) →
  announce range p (d, l) = (p', (d', l')) → board_ok T0 (mkBoard d' l' (<[i := p']> ss) cs).
Proof.
  intros Hok Hi Hv Hc. pose proof (bo_db _ _ Hok) as HT. cbn [bd_db] in HT.
  destruct p as [orderID message|orderID n|n b|n].
  - apply M_bind_inv in Hc as (r & [d1 l1] & (Hr & ->)%note_db_inv & [= <- <- <-]).
    apply create_note in Hr as [Hk Hn]; [|done].
    eapply board_ok_sends; [apply (board_ok_moves _ _ _ _ _ _ l Hok Hk); by left|done|..].
    + destruct r as [n|e0]; [|done]. intros e [= <-]. by apply Hn.
    + destruct r as [n|e0]; [|done]. intros o n' [= <- <-]. by apply Hn.
    + by destruct r.
  - apply M_bind_inv in Hc as (b & [d1 l1] & (Hn & ->)%note_live_inv & [= <- <- <-]).
    apply Notify_reaches in Hn as [Hst Hn]; [|apply (bo_live _ _ Hok)|done].
    pose proof (bo_order _ _ Hok i orderID n Hi) as Ho.
    eapply board_ok_sends;
      [apply (board_ok_moves _ _ _ _ _ _ _ Hok (keeps_notes_refl _ HT) Hst)|done|..|done|].
    + intros e He. by apply (bo_rows _ _ Hok i (Announcing orderID n)).
    + intros e [= <-]. right. intros id c Hconn Hco. apply (Hn id c); [done|]. by rewrite Hco.
  - apply M_bind_inv in Hc as (rb & [d1 l1] & Hm & [= <- <- <-]).
    assert (l1 = l ∧ (if b then MarkSent else MarkFailed) (Notification_ID n) d = (rb, d1)) as [-> Hmark]
      by (destruct b; by apply note_db_inv in Hm as [? ->]).
    pose proof (bo_rows _ _ Hok i (Marking n b) _ Hi eq_refl) as Hrow. cbn [bd_db] in Hrow.
    apply mark_note in Hmark as Hk; [|done..].
    eapply board_ok_sends; [apply (board_ok_moves _ _ _ _ _ _ l Hok Hk); by left|done|..|done|].
    + intros e [= <-]. by eapply keeps_in_table.
    + intros e He. by left.
  - injection Hc as <- <- <-. by rewrite list_insert_id.
Qed.

Lemma board_connect_ok T0 d l ss cs j p up id p' d' l' :
  board_ok T0 (mkBoard d l ss cs) → cs !! j = Some p → h_conns (lv_hub l) !! id = None →
  attach up id p (d, l) = (p', (d', l')) → board_ok T0 (mkBoard d' l' ss (<[j := p']> cs)).
Proof.
  intros Hok Hj Hno Hc. pose proof (bo_live _ _ Hok) as Hl. cbn [bd_live] in Hl.
  assert (∀ l2, l2 = l ∨ live_step l l2 → board_ok T0 (mkBoard d l2 ss cs)) as Hmove.
  { intros l2. exact (board_ok_moves T0 d l ss cs d l2 Hok (keeps_notes_refl _ (bo_db _ _ Hok))). }
  destruct p as [orderID|orderID|client orderID|client orderID [|n rest]|client orderID|a];
    unfold attach in Hc; cbn [connect_call] in Hc.
  - apply M_bind_inv in Hc as (r & [d1 l1] & (Hr & ->)%note_live_inv & [= <- <- <-]).
    injection Hr as <- <-. apply (board_ok_connects _ _ _ _ _ _ _ _ Hok Hj). by destruct up.
  - apply M_bind_inv in Hc as (client & [d1 l1] & (Hs & ->)%note_live_inv & [= <- <- <-]).
    apply Subscribe_joins in Hs as (-> & Hst & Hconn); [|done..].
    eapply board_ok_connects; [apply Hmove; by right|done|]. intros id' o [= <- <-].
    split; [by eexists|done].
  - apply M_bind_inv in Hc as (r & [d1 l1] & (Hr & ->)%note_db_inv & [= <- <- <-]).
    apply list_notes in Hr as [Hv Hn].
    assert (board_ok T0 (mkBoard d1 l ss cs)) as Hok1.
    { apply (board_ok_moves _ _ _ _ _ _ l Hok); [|by left]. rewrite Hv.
      exact (keeps_notes_refl _ (bo_db _ _ Hok)). }
    apply (board_ok_connects _ _ _ _ _ _ _ _ Hok1 Hj).
    destruct r as [notes|e0]; [|done]. intros client' o [= <- <-]. split.
    + by apply (bo_clients _ _ Hok j (Listing client orderID)).
    + intros e Ho He. right. apply Hn; [done| |done]. by apply (told_in_table T0 _ _ Hok).
  - injection Hc as <- <- <-. apply (board_ok_connects _ _ _ _ _ _ _ _ Hok Hj).
    intros client' o [= <- <-]. split; [by apply (bo_clients _ _ Hok j (Replaying client orderID []))|].
    intros e Ho He.
    destruct (bo_reached _ _ Hok j (Replaying client orderID []) client orderID e Hj eq_refl Ho He)
      as [Hh|[]%not_elem_of_nil]. exact Hh.
  - apply M_bind_inv in Hc as (b & [d1 l1] & (Hs & ->)%note_live_inv & [= <- <- <-]).
    destruct (bo_clients _ _ Hok j (Replaying client orderID (n :: rest)) client orderID Hj eq_refl)
      as (c & Hconn & Hco). destruct b.
    + apply (ClientSend_reaches _ _ _ _ _ _ c) in Hs as [Hst Hin]; [|done..].
      pose proof (Hmove l1 (or_intror Hst)) as Hok1.
      apply (board_ok_connects _ _ _ _ _ _ _ _ Hok1 Hj). intros client' o [= <- <-].
      split; [by apply (bo_clients _ _ Hok1 j (Replaying client orderID (n :: rest)))|].
      intros e Ho He. destruct (bo_reached _ _ Hok1 j _ client orderID e Hj eq_refl Ho He)
        as [Hh|[->|Hr]%elem_of_cons]; [by left|by left|by right].
    + apply ClientSend_panics in Hs as ->. by apply (board_ok_connects _ _ _ _ _ _ _ _ Hok Hj).
  - injection Hc as <- <- <-. by rewrite list_insert_id.
  - injection Hc as <- <- <-. by rewrite list_insert_id.
Qed.

Lemma board_steps_ok T0 b b' : board_ok T0 b → rtc board_step b b' → board_ok T0 b'.
Proof.
  intros Hok Hst. revert Hok. induction Hst as [b|b1 b2 b3 Hst _ IH]; intros Hok; [done|].
  apply IH. clear IH. destruct Hst as [d l ss cs orderID message|d l ss cs orderID
    |d l ss cs i p range p' d' l' Hi Hv Hc|d l ss cs i p up id p' d' l' Hi Hno Hc
    |d l ss cs i n delivered returned Hi _|d l ss cs l' Hst|d l ss cs d' Hk].
  - destruct Hok as [Hdb Hl Hold Hrows Hord Hcl Hre]. cbn [bd_db bd_live bd_sends bd_connects] in *.
    assert (∀ i p, (ss ++ [Recording orderID message]) !! i = Some p →
              ss !! i = Some p ∨ p = Recording orderID message) as Hback.
    { intros i p [Hi|[_ Hi]]%lookup_app_Some; [by left|right].
      by apply list_lookup_singleton_Some in Hi as [_ <-]. }
    split; cbn [bd_db bd_live bd_sends bd_connects]; [done..| | |done|].
    + intros i p e [Hi| ->]%Hback; [by apply (Hrows i p)|done].
    + intros i o n [Hi|[=]]%Hback. by eapply Hord.
    + intros j p id o e Hj Hs Ho [Ht|(i & q & [Hi| ->]%Hback & He)]; [| |done];
        apply (Hre j p id o e Hj Hs Ho); [by left|by right; eauto].
  - destruct Hok as [Hdb Hl Hold Hrows Hord Hcl Hre]. cbn [bd_db bd_live bd_sends bd_connects] in *.
    assert (∀ j p, (cs ++ [Upgrading orderID]) !! j = Some p →
              cs !! j = Some p ∨ p = Upgrading orderID) as Hback.
    { intros j p [Hj|[_ Hj]]%lookup_app_Some; [by left|right].
      by apply list_lookup_singleton_Some in Hj as [_ <-]. }
    split; cbn [bd_db bd_live bd_sends bd_connects]; [done..| |].
    + intros j p id o [Hj| ->]%Hback Hs; [by apply (Hcl j p)|done].
    + intros j p id o e [Hj| ->]%Hback; [by apply (Hre j)|done].
  - by eapply board_send_ok.
  - by eapply board_connect_ok.
  - eapply board_ok_sends; [exact Hok|exact Hi| |done|].
    + intros e He. by apply (bo_rows _ _ Hok i (Marking n delivered)).
    + intros e He. by left.
  - apply (board_ok_moves T0 d l ss cs d l' Hok); [|by right]. exact (keeps_notes_refl _ (bo_db _ _ Hok)).
  - apply (board_ok_moves T0 d l ss cs d' l Hok Hk). by left.
Qed.

(** C21. No gap between the replay and the live pushes. Whatever the interleaving of workers
    that record and then notify with connect handlers that register and then read, of the
    pumps, disconnections and the rest of the program: an event a worker has notified the hub
    of is in the table, and every client of the order whose handler has returned from its
    replay has had it written to its socket or has it waiting in its channel, as it has every
    event from before it came. The exceptions are the ones the code makes: the hub closed the
    client or has been stopped, or [sendBuffer] messages had already been queued for it. *)
Theorem outcome_never_missed d b j id e :
  let hub := lv_hub (bd_live b) in
  consistent (view d) → rtc board_step (mkBoard d live_start [] []) b →
  told (view d) (bd_sends b) e →
  in_table (view (bd_db b)) e
  ∧ (bd_connects b !! j = Some (Watching id (NotificationEvent_OrderID e)) →
       closed_in hub id ∨ h_clients hub = None
       ∨ (sendBuffer ≤ length (lv_queued (bd_live b) id))%nat
       ∨ ∃ p, lv_pumps (bd_live b) !! id = Some p
              ∧ NotificationEvent_JSON e ∈ texts (pm_frames p) ++ buffer_of hub id).
Proof.
  intros hub HT Hst He. pose proof (board_steps_ok _ _ _ (board_start_ok d HT) Hst) as Hok.
  split; [by eapply told_in_table|]. intros Hj. pose proof (bo_live _ _ Hok) as Hl.
  destruct (bo_reached _ _ Hok j _ id _ e Hj eq_refl eq_refl He) as [Hin|[?|[?|?]]]; auto.
  right. right. right. destruct (bo_clients _ _ Hok j _ id _ Hj eq_refl) as (c & Hc & _).
  assert (is_Some (lv_pumps (bd_live b) !! id)) as [p Hp].
  { apply not_eq_None_Some. rewrite (lo_pumps _ Hl). congruence. }
  exists p. split; [done|]. unfold hub. by rewrite (lo_fifo _ Hl id p Hp).
Qed.
End rows.

(** ** A concrete run: the replay and the live push overlap

    The client registers, the worker records, the handler reads, and only then does the worker
    notify: the event comes twice, with one id. *)
Definition demo_announcement : string := "Order #1 is confirmed.".
Definition demo_crossing : list board_turn :=
  [BVisitor (Payment_OrderID demo_row); BConnect 0; BConnect 0;
   BOutcome (Payment_OrderID demo_row) demo_announcement; BSend 0; BConnect 0; BSend 0; BSend 0;
   BConnect 0; BConnect 0; BLive (LReceive 0 true)].
Definition demo_board : Board RefDb :=
  board_plays demo_crossing (mkBoard demo_created.2 live_start [] []).
Definition demo_note : option Notification :=
  match bd_sends demo_board !! 0%nat with Some (Sent n) => n | _ => None end.
Definition demo_event : NotificationEvent :=
  default (mkNotificationEvent 0 0 "") (NewNotificationEvent <$> demo_note).

Lemma outcome_never_missed_witness :
  lv_queued (bd_live demo_board) 0 = [NotificationEvent_JSON demo_event; NotificationEvent_JSON demo_event]
  ∧ in_table (view (bd_db demo_board)) demo_event
  ∧ ∃ p, lv_pumps (bd_live demo_board) !! 0%nat = Some p
      ∧ NotificationEvent_JSON demo_event
        ∈ texts (pm_frames p) ++ buffer_of (lv_hub (bd_live demo_board)) 0.
Proof.
  assert (lv_queued (bd_live demo_board) 0
          = [NotificationEvent_JSON demo_event; NotificationEvent_JSON demo_event]) as E by evaluate.
  assert (c_closed <$> h_conns (lv_hub (bd_live demo_board)) !! 0%nat = Some false) as Hopen
    by evaluate.
  assert (option_map (λ _, tt) (h_clients (lv_hub (bd_live demo_board))) = Some tt) as Hrun
    by evaluate.
  split; [exact E|].
  destruct (outcome_never_missed demo_created.2 demo_board 0 0 demo_event
    (ok_consistent _ (proj1 demo_created_ok)) (board_plays_steps _ _)) as [Ht Hw].
  - right. exists 0%nat, (Sent demo_note). split; evaluate.
  - split; [exact Ht|]. destruct Hw as [(c & Hc & Hcl)|[Hs|[Hlen|Hp]]].
    + evaluate.
    + rewrite Hc in Hopen. injection Hopen as Hopen. rewrite Hcl in Hopen. discriminate Hopen.
    + rewrite Hs in Hrun. discriminate Hrun.
    + rewrite E in Hlen. unfold sendBuffer in Hlen. cbn [length] in Hlen. lia.
    + exact Hp.
Defined.
