(* ===== verification/MetricsSpec.v ===== *)
(** * Properties of the request metrics

    Every request the API answers is counted once, under the template of the endpoint it
    reached and the status it got; the endpoints are listed here once more, flat. *)

From Stdlib Require Import ZArith Lia Ascii.
From stdpp Require Import base tactics list gmap strings.
From S2P Require Import Prelude GoStd Errors Models Database RefDb OrderRepository Repositories.
From S2P Require Import Idempotency OrderService Notification Hub Auth ProductService.
From S2P Require Import UserService Http Handlers Routes OrderServiceSpec SiteDemo HttpFrame.

Open Scope Z_scope.

Definition endpoints : list (string * list segment) :=
  let api rest := Lit "api" :: Lit "v1" :: rest in
  [("POST", api [Lit "auth"; Lit "login"]);
   ("POST", api [Lit "users"]);
   ("GET", api [Lit "users"; Param]);
   ("PUT", api [Lit "users"; Param]);
   ("GET", api [Lit "products"]);
   ("GET", api [Lit "products"; Param]);
   ("GET", api [Lit "products"; Param; Lit "inventory"]);
   ("POST", api [Lit "products"]);
   ("PUT", api [Lit "products"; Param]);
   ("POST", api [Lit "orders"]);
   ("GET", api [Lit "orders"; Param; Lit "subscribe"])].

(** The endpoint a request is for. *)
Definition reaches (method : string) (path : list string) (pattern : list segment) : Prop :=
  (method, pattern) ∈ endpoints ∧ fits pattern path.

Section counted.
Context `{LawfulDb D} {St Pr Ck Hb : Type}.
Context `{Store St, OrderProcessor Pr, Clock Ck, SocketHub Hb, Binder, Jwt}.
Variable m : jwtManager.
#[local] Instance counted_tokens : TokenManager (Site D St Pr Ck Hb Counters) := jwt_tokens m.
Implicit Types (s : Site D St Pr Ck Hb Counters).

Lemma NewRouter_endpoints (metrics : Handler (Site D St Pr Ck Hb Counters)) uuid :
  (λ r, (route_method r, route_path r)) <$> NewRouter metrics uuid
  = ("GET", [Lit "metrics"]) :: endpoints.
Proof. reflexivity. Qed.

Lemma template_nonempty method pattern :
  (method, pattern) ∈ endpoints → template pattern ≠ "".
Proof.
  unfold endpoints. intros He.
  repeat (apply elem_of_cons in He as [[= -> ->]|He]; [done|]). by apply not_elem_of_nil in He.
Qed.

Lemma scraper_no_endpoint : ("GET", [Lit "metrics"]) ∉ endpoints.
Proof.
  unfold endpoints. intros He.
  repeat (apply elem_of_cons in He as [He|He]; [done|]). by apply not_elem_of_nil in He.
Qed.

(** What the counters gain: one count and one observation, in seconds since the start. *)
Definition counted_once (labels : string * string * string) s s' : Prop :=
  counted (site_metrics s') = counted (site_metrics s) ++ [labels]
  ∧ ∃ start c0 now c c', Now (site_clock s) = (start, c0) ∧ Now c = (now, c')
      ∧ observed (site_metrics s')
        = observed (site_metrics s) ++ [(labels, Duration_Seconds (Time_Sub now start))].

(** The middleware around a handler that leaves the metrics alone. *)
Lemma Metrics_counts (h : Handler (Site D St Pr Ck Hb Counters)) c s a s' :
  moves (on_parts anything (=)) (h c) → Metrics h c s = (a, s') → a ≠ Upgraded true →
  counted_once (metric_labels c a) s s' ∧ ∃ s1 s2, h c s1 = (a, s2)
    ∧ site_db s1 = site_db s ∧ site_db s' = site_db s2.
Proof.
  intros Hh (start & s1 & Hn & Hr)%M_bind_inv Ha. apply site_Now_inv in Hn as (c0 & Hn & ->).
  apply M_bind_inv in Hr as (a1 & s2 & Hc & Hr). pose proof (Hh _ _ _ Hc) as [_ Hk].
  assert (∀ l, (_ ← record_request l start; mret a1) s2 = (a, s') →
            a1 = a ∧ counted_once l s s' ∧ site_db s' = site_db s2) as Hcount.
  { intros l (u & s3 & (u1 & s4 & (k1 & [= <- <-] & ->)%at_metrics_inv & Hr')%M_bind_inv & Hm)%M_bind_inv.
    apply M_bind_inv in Hr' as (now & s5 & (c1 & Hn1 & ->)%site_Now_inv & Hr').
    apply at_metrics_inv in Hr' as (k2 & [= <- <-] & ->). injection Hm as <- <-.
    split; [done|]. split; [|done]. cbn in Hk. unfold counted_once. cbn. rewrite <- Hk.
    split; [done|]. by eexists _, _, _, _, _. }
  assert (a1 = a) as ->.
  { destruct a1 as [?|[]|?]; [|by injection Hr as <- <-|..]; by apply Hcount in Hr as [-> _]. }
  destruct a as [?|[]|?]; [|by destruct Ha|..]; apply Hcount in Hr as (_ & ? & ?);
    (split; [done|]); by eexists _, _.
Qed.

(** Every request is counted once, where it belongs: whatever is asked for, except the
    scraper's own page, and whatever the answer, unless the handler panicked, the counter
    gains exactly one count and the histogram one duration, labelled with the method, the
    status of the answer and the template of the endpoint the path fits; a request that fits
    none is answered 404 and counted as unmatched. *)
Theorem requests_counted metrics uuid method path req s a s' :
  (method, path) ≠ ("GET", ["metrics"]) →
  ServeHTTP metrics uuid method path req s = (a, s') → a ≠ Upgraded true →
  ∃ label, counted_once (method, label, Itoa (Writer_Status a)) s s'
    ∧ ((∃ pattern, reaches method path pattern ∧ label = template pattern)
       ∨ ((∀ pattern, ¬ reaches method path pattern) ∧ label = "unmatched"
          ∧ a = JSON 404 (ErrorText "route not found") ∧ site_db s' = site_db s)).
Proof.
  intros Hne Hr Ha. unfold ServeHTTP in Hr. destruct (find_route _ _ _) as [[r id]|] eqn:Ef.
  - apply find_route_Some in Ef as (Hin & <- & Hfit).
    assert ((route_method r, route_path r) ∈ ("GET", [Lit "metrics"]) :: endpoints) as He.
    { rewrite <- (NewRouter_endpoints metrics uuid). apply list_elem_of_fmap. by exists r. }
    apply elem_of_cons in He as [[= Em Ep]|He].
    { destruct Hne. rewrite Em. f_equal. rewrite Ep in Hfit. unfold fits in Hfit.
      inversion Hfit as [|? ? ? ? E Hrest]; subst. by inversion Hrest. }
    apply (route_cases m anything (=)) in Hin as [E|(rest & E & Hh)].
    { injection E as Em Ep _ _. rewrite Em, Ep in He. by apply scraper_no_endpoint in He. }
    rewrite E in Hr. apply (Metrics_counts (chained rest (route_handler r))) in Hr as [Hc _];
      [|destruct Hh as [Hh|[-> Hh]]; [apply Hh|]|done].
    + exists (template (route_path r)). unfold metric_labels, path_label in Hc. cbn in Hc.
      rewrite bool_decide_false in Hc by by eapply template_nonempty.
      split; [done|]. left. by exists (route_path r).
    + apply (moves_Authenticate m anything (=)). intros c.
      apply (moves_RequireAdmin anything (=)).
      destruct (moves_product_writes (St := St) (Pr := Pr) (Ck := Ck) (Hb := Hb)
          (Ms := Counters) anything (=) c)
        as [Hc Hu]; [by intros A p ?|]. by destruct Hh as [->| ->].
  - assert (∀ pattern, ¬ reaches method path pattern) as Hno.
    { intros pattern [He Hfit]. assert (He' := He).
      apply (list_elem_of_further _ ("GET", [Lit "metrics"])) in He'.
      rewrite <- (NewRouter_endpoints metrics uuid) in He'.
      apply list_elem_of_fmap in He' as (r & [= Em Ep] & Hin). rewrite Ep in Hfit.
      by apply (find_route_None _ _ _ r Ef Hin). }
    change (Metrics (λ _, mret NoRoute) (mkCtx method "" req "" None None) s = (a, s')) in Hr.
    apply Metrics_counts in Hr as (Hc & s1 & s2 & [= <- <-] & E1 & E2); [|apply moves_ret, _|done].
    exists "unmatched". split; [done|]. right. split_and!; [done..|]. congruence.
Qed.
End counted.

(** ** Concrete runs: an endpoint with a parameter, and a page that is not there *)
Definition demo_get (path : list string) : Answer * DemoSite :=
  send "GET" path (request "" "") demo_site.

Lemma requests_counted_witness :
  (∃ pattern, reaches "GET" ["api"; "v1"; "products"; "10"] pattern
     ∧ template pattern = "/api/v1/products/:id"
     ∧ counted_once ("GET", template pattern, "200") demo_site
         (demo_get ["api"; "v1"; "products"; "10"]).2)
  ∧ counted_once ("GET", "unmatched", "404") demo_site (demo_get ["api"; "v2"]).2.
Proof.
  split.
  - destruct (requests_counted demo_manager scraper "key-1" "GET" ["api"; "v1"; "products"; "10"]
      (request "" "") demo_site (demo_get ["api"; "v1"; "products"; "10"]).1
      (demo_get ["api"; "v1"; "products"; "10"]).2)
      as (label & Hc & Hl); [done|exact (surjective_pairing _)|by vm_compute|].
    assert (Itoa (Writer_Status (demo_get ["api"; "v1"; "products"; "10"]).1) = "200") as E
      by evaluate.
    rewrite E in Hc. assert (counted (site_metrics (demo_get ["api"; "v1"; "products"; "10"]).2)
      = [("GET", "/api/v1/products/:id", "200")]) as Ek by evaluate.
    destruct Hl as [(pattern & Hp & ->)|(Hno & _)].
    + exists pattern. split; [exact Hp|]. split; [|exact Hc].
      pose proof (proj1 Hc) as Hk. rewrite Ek in Hk. by injection Hk.
    + destruct (Hno [Lit "api"; Lit "v1"; Lit "products"; Param]).
      split; [repeat constructor|by repeat constructor].
  - destruct (requests_counted demo_manager scraper "key-1" "GET" ["api"; "v2"]
      (request "" "") demo_site (demo_get ["api"; "v2"]).1 (demo_get ["api"; "v2"]).2)
      as (label & Hc & Hl); [done|exact (surjective_pairing _)|by vm_compute|].
    assert (counted (site_metrics (demo_get ["api"; "v2"]).2) = [("GET", "unmatched", "404")]) as Ek
      by evaluate.
    assert (Itoa (Writer_Status (demo_get ["api"; "v2"]).1) = "404") as E by evaluate.
    rewrite E in Hc. pose proof (proj1 Hc) as Hk. rewrite Ek in Hk. injection Hk as El.
    rewrite <- El in Hc. exact Hc.
Defined.
