(* ===== verification/SitePipeline.v ===== *)
(** * The HTTP interface as a client of the order pipeline

    What a request does to the tables is a run of the pipeline of [Pipeline]: requests,
    workers, sweeper and shop edits share one transition system, and what is proved of its
    interleavings holds of the site. *)

From Stdlib Require Import ZArith Lia Ascii.
From stdpp Require Import base tactics list gmap strings relations.
From S2P Require Import Prelude GoStd Errors Models Database RefDb OrderRepository Repositories.
From S2P Require Import Frame Ledger Config Pipeline Idempotency OrderService Notification Hub.
From S2P Require Import Auth ProductService ProductServiceSpec UserService Http Handlers Routes.
From S2P Require Import OrderServiceSpec SiteDemo HttpFrame HttpSpec.

Open Scope Z_scope.

Section relation.
Context `{LawfulDb D}.
Variable cfg : WorkerConfig.

(** The tables went along the pipeline, with nothing else of it moving; [adj'] are the shop's
    adjustments afterwards. *)
Definition pipeline_run (T T' : Tables) (adj' : (Z → Z) → Z → Z) : Prop :=
  ∀ m ws sent adj, steps cfg (mkSys T m ws sent adj) (mkSys T' m ws sent (adj' adj)).

(** ... and the shop adjusted no stock. *)
Definition pipelined (d d' : D) : Prop :=
  ∃ adj', (∀ adj p, adj' adj p = adj p) ∧ pipeline_run (view d) (view d') adj'.

Lemma pipelined_same d d' : view d' = view d → pipelined d d'.
Proof. intros E. exists id. split; [done|]. intros m ws sent adj. rewrite E. apply rtc_refl. Qed.

#[export] Instance pipelined_preorder : PreOrder pipelined.
Proof.
  split; [intros d; by apply pipelined_same|].
  intros d1 d2 d3 (f & Hf & Hr1) (g & Hg & Hr2). exists (λ adj, g (f adj)). split.
  - intros adj p. by rewrite Hg, Hf.
  - intros m ws sent adj. etrans; [apply Hr1|apply Hr2].
Qed.

(** An edit that leaves the orders alone is a step; without a change of stock it adjusts
    nothing. *)
Lemma elsewhere_run T T' :
  elsewhere T T' → pipeline_run T T' (λ adj p, adj p + (stock T' p - stock T p)).
Proof. intros He m ws sent adj. apply rtc_once. by apply step_edit. Qed.

Lemma elsewhere_pipelined d d' :
  elsewhere (view d) (view d') → Tables_inventory (view d') = Tables_inventory (view d) →
  pipelined d d'.
Proof.
  intros He Hi. eexists. split; [|by apply elsewhere_run].
  intros adj p. unfold stock. rewrite Hi. lia.
Qed.

(** A transaction on the users is such an edit. *)
Lemma users_elsewhere {A} (p : db A) d r d' :
  avoids (table_tag orders) p → avoids (table_tag order_items) p →
  avoids (table_tag payments) p → avoids (table_tag inventory) p →
  Transaction p d = (r, d') →
  elsewhere (view d) (view d') ∧ Tables_inventory (view d') = Tables_inventory (view d).
Proof.
  intros Ho Hoi Hp Hi Hr. pose proof (keeps_schema_tx p _ _ _ Hr) as Hc.
  apply Transaction_outcome in Hr.
  pose proof (avoids_tx orders _ _ _ _ Ho Hr) as Eo.
  pose proof (avoids_tx order_items _ _ _ _ Hoi Hr) as Eoi.
  pose proof (avoids_tx payments _ _ _ _ Hp Hr) as Ep.
  pose proof (avoids_tx inventory _ _ _ _ Hi Hr) as Ei.
  split; [|exact Ei]. split; [done..| |done].
  intros k i Hk. exists i. cbn in Ei. by rewrite Ei.
Qed.

Lemma users_pipelined {A} (p : db A) :
  avoids (table_tag orders) p → avoids (table_tag order_items) p →
  avoids (table_tag payments) p → avoids (table_tag inventory) p →
  moves pipelined (Transaction p).
Proof.
  intros Ho Hoi Hp Hi d r d' Hr.
  destruct (users_elsewhere p d r d' Ho Hoi Hp Hi Hr). by apply elsewhere_pipelined.
Qed.

#[export] Instance pipelined_frame : DbFrame pipelined.
Proof.
  split.
  - apply _.
  - intros B st Hw d r d' Hr%exec_sem. apply pipelined_same.
    destruct st; try discriminate Hw; apply Hr.
  - intros order payment Ho Hp _ d r d' Hr%Transaction_outcome. exists id. split; [done|].
    intros m ws sent adj. apply rtc_once. by eapply step_order.
  - intros u. apply users_pipelined; solve_avoids.
  - intros u. apply users_pipelined; solve_avoids.
Qed.

(** A product edit is one too, and it may adjust stock. *)
Definition some_run (d d' : D) : Prop := ∃ adj', pipeline_run (view d) (view d') adj'.

Lemma same_run d d' : view d' = view d → some_run d d'.
Proof. intros E. destruct (pipelined_same _ _ E) as (adj' & _ & ?). by exists adj'. Qed.

Lemma edit_run d d' id name image description price q :
  view d' = view d ∨ (consistent (view d')
    ∧ product_set (view d) (view d') id name image description price q) →
  some_run d d'.
Proof.
  intros [E|(Hc & _ & _ & (_ & ? & ? & ? & _) & ?)].
  - by apply same_run.
  - eexists. apply elsewhere_run. by split.
Qed.
End relation.

Section site.
Context `{LawfulDb D} {St Pr Ck Hb Ms : Type}.
Context `{Store St, OrderProcessor Pr, Clock Ck, SocketHub Hb, MetricsSink Ms, Binder}.
Context `{LawfulJwt}.
Variables (m : jwtManager) (cfg : WorkerConfig).
#[local] Instance piped_tokens : TokenManager (Site D St Pr Ck Hb Ms) := jwt_tokens m.
Implicit Types (s : Site D St Pr Ck Hb Ms).

Lemma UpdateProduct_at_site id req s :
  UpdateProduct id req s = at_db (productService_UpdateProduct id req) s.
Proof.
  cbn [UpdateProduct NewProductService].
  unfold productService_UpdateProduct, try, mbind, M_bind, mret, M_ret. cbn.
  unfold at_db, at_world, on_db, on. destruct s as [[d st q] c h k]. cbn.
  destruct (productRepository_GetProduct id d) as [[p|e] d1]; cbn; [|done].
  by destruct (Transaction _ d1) as [[p'|e] d2].
Qed.

Lemma CreateProduct_at_site req s :
  CreateProduct req s = at_db (productService_CreateProduct req) s.
Proof.
  cbn [CreateProduct NewProductService].
  unfold productService_CreateProduct, try, mbind, M_bind, mret, M_ret. cbn.
  unfold at_db, at_world, on_db, on. destruct s as [[d st q] c h k]. cbn.
  by destruct (Transaction _ d) as [[p'|e] d2].
Qed.

(** The two guarded writes. *)
Lemma product_writes_run h c s a s' :
  h = ProductHandler_Create ∨ h = ProductHandler_Update →
  consistent (view (site_db s)) → identities (view (site_db s)) →
  h c s = (a, s') → some_run cfg (site_db s) (site_db s').
Proof.
  intros Hh HT Hids Hr.
  pose proof (same_run cfg (site_db s) (site_db s) eq_refl) as Hsame.
  destruct Hh as [->| ->]; [unfold ProductHandler_Create in Hr|unfold ProductHandler_Update in Hr].
  - destruct (ShouldBindJSON _ _) as [req|e]; [|by injection Hr as _ <-].
    apply M_bind_inv in Hr as (r & s1 & Hc & Hr). rewrite CreateProduct_at_site in Hc.
    assert (s' = s1) as -> by (by destruct r; injection Hr as _ <-).
    apply at_db_inv in Hc as (d' & Hc & ->). apply CreateProduct_edits in Hc; [|done].
    destruct Hc as [E|(Hc & id & Hset)]; [by apply same_run|].
    eapply edit_run. right. by split.
  - destruct (Atoi _) as [id|]; [|by injection Hr as _ <-].
    destruct (ShouldBindJSON _ _) as [req|e]; [|by injection Hr as _ <-].
    apply M_bind_inv in Hr as (r & s1 & Hc & Hr). rewrite UpdateProduct_at_site in Hc.
    assert (s' = s1) as -> by (by destruct r; injection Hr as _ <-).
    apply at_db_inv in Hc as (d' & Hc & ->). apply UpdateProduct_edits in Hc; [|done..].
    by eapply edit_run.
Qed.

(** What the chain of a guarded write does: nothing to the database, or the write, for an
    admin. *)
Lemma admin_chain_db h c s a s' :
  chained [Metrics; Authenticate; RequireAdmin] h c s = (a, s') →
  site_db s' = site_db s
  ∨ bears m (ctx_request c) (started s) is_admin
    ∧ ∃ c1 s1 s2, site_db s1 = site_db s ∧ h c1 s1 = (a, s2) ∧ site_db s' = site_db s2.
Proof.
  intros Hr. destruct (admin_chain_guards m h c s a s' Hr) as [E|Hb'];
    [left; unfold site_db; by rewrite E|].
  apply Metrics_inv in Hr as (s2 & Hr & Hw & _). unfold site_db. rewrite Hw.
  apply Authenticate_inv in Hr
    as [(msg & _ & [->|(tok & r & _ & _ & Hp)])|(tok & cl & s1 & _ & Hp & Hk)].
  - by left.
  - left. by apply (Parse_clock m) in Hp as [c' ->].
  - apply (Parse_clock m) in Hp as [c' ->].
    apply RequireRole_inv in Hk as [[_ ->]|[_ Hk]]; [by left|right].
    split; [done|]. eexists _, _, s2. by split; [|split; [exact Hk|]].
Qed.

(** C16. Requests are runs of the pipeline. Whatever the method, path and body, what a request
    does to the tables is a run of the concurrent pipeline with the workers, the charges and
    the announcements untouched, so what holds in every interleaving of the pipeline holds of
    the site; and only a request that carried an admin's token is a run in which the shop
    adjusted stock. *)
Theorem ServeHTTP_refines metrics uuid method path req s a s' :
  (∀ c, moves (on_dbs (pipelined cfg)) (metrics c)) →
  consistent (view (site_db s)) → identities (view (site_db s)) →
  ServeHTTP metrics uuid method path req s = (a, s') →
  ∃ adj', (∀ charges ws sent adj,
      steps cfg (mkSys (view (site_db s)) charges ws sent adj)
        (mkSys (view (site_db s')) charges ws sent (adj' adj)))
    ∧ ((∀ adj p, adj' adj p = adj p) ∨ bears m req (started s) is_admin).
Proof.
  intros Hm HT Hids Hr.
  apply (ServeHTTP_cases m (pipelined cfg)) in Hr as [Hr|(h & c & Hh & <- & Hr)]; [| |done].
  - destruct Hr as (adj' & Hadj & Hrun). exists adj'. by split; [|left].
  - apply admin_chain_db in Hr as [E|(Hb' & c1 & s1 & s2 & E1 & Hk & E2)].
    + rewrite E. exists id. split; [intros ? ? ? ?; apply rtc_refl|by left].
    + apply (product_writes_run h) in Hk as [adj' Hrun]; [|done|by rewrite E1..].
      rewrite E1 in Hrun. rewrite E2. exists adj'. split; [exact Hrun|by right].
Qed.
End site.

(** ** A concrete run: Ada's order *)
Lemma ServeHTTP_refines_witness :
  ∃ adj, steps default_worker (mkSys demo_tables ∅ (λ _, Idle) [] (λ _, 0))
           (mkSys (view (site_db (ada_order "order").2)) ∅ (λ _, Idle) [] adj).
Proof.
  assert (view (site_db ada_login.2) = demo_tables) as ET by evaluate.
  destruct (ServeHTTP_refines demo_manager default_worker scraper "key-1" "POST"
    ["api"; "v1"; "orders"] (request ada_bearer "order") ada_login.2 (ada_order "order").1
    (ada_order "order").2) as (adj' & Hrun & _).
  - intros c. apply scraper_moves, _.
  - rewrite ET. exact demo_consistent.
  - rewrite ET. exact demo_identities.
  - exact (surjective_pairing _).
  - rewrite ET in Hrun. exists (adj' (λ _, 0)). exact (Hrun ∅ (λ _, Idle) [] (λ _, 0)).
Defined.
