(* ===== verification/Books.v ===== *)
(** * The books of the running shop

    What every stored order looks like, whatever HTTP requests and fulfilments have run: one
    payment for exactly its total, in step with its status. Proved along the walk over the
    handlers ([HttpFrame]) and along [Fulfill]. *)

From Stdlib Require Import ZArith Lia Ascii.
From stdpp Require Import base tactics list gmap strings relations.
From S2P Require Import Prelude GoStd Errors Models Database RefDb OrderRepository Repositories.
From S2P Require Import Frame Ledger LedgerSpec Config Gateway Notification Fulfillment.
From S2P Require Import FulfillmentSpec Pipeline PipelineSpec Idempotency OrderService Hub Auth.
From S2P Require Import ProductService ProductServiceSpec UserService Http Handlers Routes.
From S2P Require Import OrderServiceSpec SiteDemo HttpFrame HttpSpec SitePipeline.

Open Scope Z_scope.

(** ** The invariant *)
Definition billed (T : Tables) : Prop :=
  ∀ k p o, Tables_payments T !! k = Some p → Tables_orders T !! Payment_OrderID p = Some o →
    Payment_Amount p = Order_TotalPrice o.

Record books_ok (T : Tables) : Prop := {
  books_ledger : ledger_ok T;
  books_billed : billed T;
}.

Lemma elsewhere_books T T' : elsewhere T T' → books_ok T → books_ok T'.
Proof.
  intros He [Hl Hb]. split; [by eapply elsewhere_ledger|]. intros k p o.
  rewrite (else_payments _ _ He), (else_orders _ _ He). apply Hb.
Qed.

Lemma settled_billed T T' pay charge : settled_as T T' pay charge → billed T → billed T'.
Proof.
  intros Hs Hb.
  assert (∃ ps ta na os no p o, Tables_payments T !! Payment_ID pay = Some p
    ∧ Tables_payments T' = <[Payment_ID pay := Payment_set_Status ps ta na p]> (Tables_payments T)
    ∧ Tables_orders T !! Payment_OrderID pay = Some o
    ∧ Tables_orders T' = <[Payment_OrderID pay := Order_set_Status os no o]> (Tables_orders T))
    as (ps & ta & na & os & no & p & o & Hp & HP & Ho & HO).
  { destruct charge; destruct (settled_payment _ _ _ _ _ _ _ Hs) as (p & na & Hp & _ & HP);
      destruct (settled_order _ _ _ _ _ _ _ Hs) as (o & no & Ho & _ & HO); by repeat eexists. }
  intros k p' o'. rewrite HP, HO. intros Hk Hoid.
  assert (∃ q, Tables_payments T !! k = Some q ∧ Payment_OrderID q = Payment_OrderID p'
            ∧ Payment_Amount q = Payment_Amount p') as (q & Hq & Eq & <-).
  { apply lookup_insert_Some in Hk as [[<- <-]|[_ Hk]]; [by exists p|by exists p']. }
  assert (∃ v, Tables_orders T !! Payment_OrderID q = Some v
            ∧ Order_TotalPrice v = Order_TotalPrice o') as (v & Hv & <-).
  { rewrite Eq. apply lookup_insert_Some in Hoid as [[<- <-]|[_ Hoid]]; [by exists o|by exists o']. }
  by apply (Hb k q v).
Qed.

Section steps.
Context `{LawfulDb D}.
Implicit Types (d : D) (T : Tables).

(** A new order with a payment for its total. *)
Lemma placed_billed T T' order payment order' payment' :
  placed T T' order payment order' payment' → Payment_Amount payment = Order_TotalPrice order →
  ledger_ok T → billed T → billed T'.
Proof.
  intros Hp Ha Hl Hb.
  destruct (placed_order _ _ _ _ _ _ Hp) as (so & HO & _ & _ & _ & Ht).
  destruct (placed_payment _ _ _ _ _ _ Hp) as (sp & _ & HP & _ & Hoid & _ & _ & Hamt & _).
  intros k p o. rewrite HP, HO. intros [[<- <-]|[_ Hk]]%lookup_insert_Some Ho.
  - rewrite Hoid, lookup_insert_eq in Ho. injection Ho as <-. rewrite Ha in Hamt. congruence.
  - rewrite lookup_insert_ne in Ho; [by apply (Hb k)|].
    intros E. by apply (old_payment_other Hp Hl k p Hk).
Qed.

Definition keeps_books d d' : Prop := books_ok (view d) → books_ok (view d').

Lemma users_books {A} (p : db A) :
  avoids (table_tag orders) p → avoids (table_tag order_items) p →
  avoids (table_tag payments) p → avoids (table_tag inventory) p →
  moves keeps_books (Transaction p).
Proof.
  intros Ho Hoi Hp Hi d r d' Hr. refine (elsewhere_books (view d) (view d') _).
  by apply (users_elsewhere p d r d' Ho Hoi Hp Hi Hr).
Qed.

#[export] Instance books_frame : DbFrame keeps_books.
Proof.
  split.
  - split; [by intros d ?|]. unfold keeps_books. intros d1 d2 d3. auto.
  - intros B st Hw d r d' Hr%exec_sem. assert (view d' = view d) as E.
    { destruct st; try discriminate Hw; apply Hr. }
    unfold keeps_books. by rewrite E.
  - intros order payment Ho Hp Ha d r d' Hr%Transaction_outcome [Hl Hb].
    apply order_step_tables in Hr as [Hl' Hr]; [|done..]. split; [done|].
    destruct Hr as [->|(o & p & Hpl)]; [done|by eapply placed_billed].
  - intros u. apply users_books; solve_avoids.
  - intros u. apply users_books; solve_avoids.
Qed.

(** Saving a loaded stock row keeps every row on its product. *)
Lemma save_shelves T T' (i : Inventory) r :
  runs (save inventory i) T r T' →
  (Inventory_ID i ≠ 0 → ∀ row, Tables_inventory T !! Inventory_ID i = Some row →
     Inventory_ProductID row = Inventory_ProductID i) →
  shelves_kept T T'.
Proof.
  intros Hr Hi. unfold save in Hr. cbn in Hr.
  assert (shelves_kept T T) as Hsame by (intros k s Hk; by exists s).
  destruct (Inventory_ID i =? 0) eqn:E0; apply runs_perform in Hr; destruct r as [row|e].
  - apply sem_create_ok in Hr as (now & k & stored & _ & _ & Hf & _ & Hst & -> & _).
    intros j s Hj. exists s. split; [|done]. destruct T; cbn in *.
    by rewrite lookup_insert_ne by congruence.
  - by destruct Hr as [-> _].
  - destruct Hr as (now & stored & Hrow & Hst & -> & _). injection Hst as <-.
    assert (Inventory_ProductID row = Inventory_ProductID i) as Hpid
      by (rewrite Hrow; by destruct (exists_row _ _ _)).
    intros j s Hj. destruct (decide (j = Inventory_ID i)) as [->|Hne].
    + exists row. destruct T; cbn in *. rewrite lookup_insert_eq, Hpid. split; [done|].
      symmetry. apply Hi; [by apply Z.eqb_neq|exact Hj].
    + exists s. destruct T; cbn in *. by rewrite lookup_insert_ne.
  - by destruct Hr as [-> _].
Qed.

Lemma UpdateProduct_tx_shelves T T' product r :
  (∀ i row, Product_Inventory product = Some i → Inventory_ID i ≠ 0 →
     Tables_inventory T !! Inventory_ID i = Some row →
     Inventory_ProductID row = Inventory_ProductID i) →
  runs (UpdateProduct_tx product) T (Ok r) T' → shelves_kept T T'.
Proof.
  intros Hi Hr. unfold UpdateProduct_tx in Hr. step_runs Hr.
  destruct Hr as [(p & T1 & Hs & Hr)|(e & _ & [=])].
  apply (avoids_runs inventory) in Hs; [|by apply avoids_save]. cbn in Hs.
  destruct (Product_Inventory product) as [i|] eqn:Ei.
  - step_runs Hr. destruct Hr as [(i' & T2 & Hs2 & Hr)|(e & _ & [=])].
    step_runs Hr. destruct Hr as [_ ->]. apply save_shelves in Hs2.
    + intros k row Hk. apply Hs2. by rewrite Hs.
    + intros Hne row. rewrite Hs. by apply Hi.
  - step_runs Hr. destruct Hr as [_ ->]. intros k row Hk. exists row. by rewrite Hs.
Qed.

Lemma UpdateProduct_books id req d r d' :
  productService_UpdateProduct id req d = (r, d') → keeps_books d d'.
Proof.
  intros Hr Hok. pose proof (ok_consistent _ (books_ledger _ Hok)) as HT.
  apply try_inv in Hr as [(p' & d1 & Hg & Hr)|(e & Hg & _)];
    apply GetProduct_spec in Hg as [Hv Hg]; [|done|by rewrite Hv|done].
  destruct Hg as (p & _ & _ & oi & -> & _ & Hoi). rewrite <- Hv in *.
  assert (∃ rb, Transaction (UpdateProduct_tx (edited_product id req
    (Product_set_Inventory oi p))) d1 = (rb, d')) as [rb Ht].
  { by apply try_inv in Hr as [(row & d2 & Hu & [= _ <-])|(e & Hu & _)]; eexists. }
  apply (elsewhere_books (view d1)); [|done]. pose proof (keeps_schema_tx _ _ _ _ Ht) as Hc.
  apply Transaction_outcome in Ht. split; [..|done].
  - apply (avoids_tx orders _ _ _ _) in Ht; [done|unfold UpdateProduct_tx; solve_avoids].
  - apply (avoids_tx order_items _ _ _ _) in Ht; [done|unfold UpdateProduct_tx; solve_avoids].
  - apply (avoids_tx payments _ _ _ _) in Ht; [done|unfold UpdateProduct_tx; solve_avoids].
  - assert (∀ row, runs (UpdateProduct_tx (edited_product id req (Product_set_Inventory oi p)))
      (view d1) (Ok row) (view d') → shelves_kept (view d1) (view d')) as Hok'.
    { intros row. apply UpdateProduct_tx_shelves. intros i s [= <-] Hne Hs.
      destruct oi as [i|]; cbn in Hs, Hne |- *; [destruct Hoi; congruence|done]. }
    destruct rb as [row|e]; [by eapply Hok'|].
    destruct Ht as [[-> _]|[_ [row Ht]]]; [intros k s Hk; by exists s|by eapply Hok'].
Qed.
End steps.

(** ** Fulfilment *)
Section fulfilment.
Context `{LawfulDb D} {G N R : Type} `{LawfulGateway G} `{Notifier N} `{Runtime R}.
Variable cfg : WorkerConfig.

(** [Fulfill] settles the order of the payment it loaded, or leaves the books alone. *)
Lemma Fulfill_books orderID (w : FWorld D G N R) u w' :
  Fulfiller_Fulfill cfg orderID w = (u, w') → keeps_books (f_db w) (f_db w').
Proof.
  intros (rp & w1 & Hl & Hr)%M_bind_inv [HT Hb]. apply in_db_inv in Hl as (Hl & _ & _).
  apply GetPendingByOrderID_spec in Hl as [Hv Hp].
  destruct rp as [pay|e]; [|injection Hr as <- <-; by rewrite Hv].
  destruct Hp as (k & Hk & _ & Hst). apply M_bind_inv in Hr as (charge & w2 & Hc & Hf).
  destruct (proj1 (ok_consistent _ HT _ payments) k pay Hk) as [E _]. cbn in E. subst k.
  apply charge_loop_spec in Hc as (D2 & _ & _).
  apply finalize_inv in Hf as (r & w3 & Ht & Hr). apply in_db_inv in Ht as (Ht & _ & _).
  rewrite <- Hv, <- D2 in *. apply Transaction_outcome in Ht.
  assert (books_ok (view (f_db w3))) as Hok3.
  { apply finalize_tables in Ht as [HT' Hs]; [|done|by exists pay]. split; [done|].
    destruct Hs as [[-> _]|Hs]; [done|by eapply settled_billed]. }
  destruct r as [[]|e]; [|by subst w'..].
  apply Send_notes in Hr as [Hn _]. apply only_notifications_elsewhere in Hn as [HE _].
  by apply (elsewhere_books (view (f_db w3))).
Qed.
End fulfilment.

(** ** Requests *)
Section site.
Context `{LawfulDb D} {St Pr Ck Hb Ms G N R : Type}.
Context `{Store St, OrderProcessor Pr, Clock Ck, SocketHub Hb, MetricsSink Ms, Binder}.
Context `{LawfulJwt, LawfulGateway G, Notifier N, Runtime R}.
Variables (m : jwtManager) (cfg : WorkerConfig).
#[local] Instance booked_tokens : TokenManager (Site D St Pr Ck Hb Ms) := jwt_tokens m.
Implicit Types (s : Site D St Pr Ck Hb Ms).

Lemma product_writes_books h c s a s' :
  h = ProductHandler_Create ∨ h = ProductHandler_Update → h c s = (a, s') →
  keeps_books (site_db s) (site_db s').
Proof.
  intros Hh Hr. assert (keeps_books (site_db s) (site_db s)) as Hsame by by intros ?.
  destruct Hh as [->| ->]; [unfold ProductHandler_Create in Hr|unfold ProductHandler_Update in Hr].
  - destruct (ShouldBindJSON _ _) as [req|e]; [|by injection Hr as _ <-].
    apply M_bind_inv in Hr as (r & s1 & Hc & Hr). rewrite CreateProduct_at_site in Hc.
    assert (s' = s1) as -> by (by destruct r; injection Hr as _ <-).
    apply at_db_inv in Hc as (d' & Hc & ->). intros Hok.
    apply CreateProduct_edits in Hc; [|apply Hok].
    destruct Hc as [E|(Hc & id & _ & _ & (_ & ? & ? & ? & _) & ?)].
    + unfold site_db in *. cbn. by rewrite E.
    + apply (elsewhere_books (view (site_db s))); [|done]. by split.
  - destruct (Atoi _) as [id|]; [|by injection Hr as _ <-].
    destruct (ShouldBindJSON _ _) as [req|e]; [|by injection Hr as _ <-].
    apply M_bind_inv in Hr as (r & s1 & Hc & Hr). rewrite UpdateProduct_at_site in Hc.
    assert (s' = s1) as -> by (by destruct r; injection Hr as _ <-).
    apply at_db_inv in Hc as (d' & Hc & ->). by apply UpdateProduct_books in Hc.
Qed.

Lemma ServeHTTP_books metrics uuid method path req s a s' :
  (∀ c, moves (on_dbs keeps_books) (metrics c)) →
  ServeHTTP metrics uuid method path req s = (a, s') →
  keeps_books (site_db s) (site_db s').
Proof.
  intros Hm Hr. apply (ServeHTTP_cases m keeps_books) in Hr as [Hr|(h & c & Hh & _ & Hr)];
    [exact Hr| |done].
  apply admin_chain_db in Hr as [E|(_ & c1 & s1 & s2 & E1 & Hk & E2)].
  - unfold keeps_books. by rewrite E.
  - apply (product_writes_books h) in Hk; [|done]. by rewrite E1, <- E2 in Hk.
Qed.

(** What happens to the shop: a request arrives, or a worker fulfils an order, whatever the
    gateway, the hub and the clock are doing by then. *)
Inductive shop_event : Type :=
| Serve (uuid method : string) (path : list string) (req : Request)
| Work (orderID : Z) (gateway : G) (notifier : N) (runtime : R).

Definition shop_step (metrics : Handler (Site D St Pr Ck Hb Ms)) s (e : shop_event)
  : Site D St Pr Ck Hb Ms :=
  match e with
  | Serve uuid method path req => (ServeHTTP metrics uuid method path req s).2
  | Work orderID g n r =>
      set_db (f_db (Fulfiller_Fulfill cfg orderID (mkFWorld (site_db s) g n r)).2) s
  end.

(** C35. The books balance. Whatever requests arrive, with whatever paths, bodies, tokens and
    outcomes, and whatever fulfilments run between them: every stored order has exactly one
    payment, of exactly the order's total, and the two are in step (pending with pending,
    confirmed with paid, cancelled with failed); every payment belongs to a stored order,
    every stored line's product has a shelf to return its units to, and every row satisfies
    its column types and its CHECK, UNIQUE and REFERENCES constraints. *)
Theorem books_balance metrics events s :
  (∀ c, moves (on_dbs keeps_books) (metrics c)) →
  books_ok (view (site_db s)) →
  let T := view (site_db (foldl (shop_step metrics) s events)) in
  (∀ id o, Tables_orders T !! id = Some o →
     ∃ k p, Tables_payments T !! k = Some p ∧ Payment_OrderID p = id
       ∧ Payment_Amount p = Order_TotalPrice o
       ∧ in_step (Order_Status o) (Payment_Status p) = true
       ∧ ∀ k' p', Tables_payments T !! k' = Some p' → Payment_OrderID p' = id → k' = k)
  ∧ books_ok T.
Proof.
  intros Hm Hok T. assert (books_ok T) as [HT Hb'].
  { subst T. revert s Hok. induction events as [|e events IH]; intros s Hok; [done|].
    cbn [foldl]. apply IH. destruct e as [uuid method path req|orderID g n r]; cbn [shop_step].
    - destruct (ServeHTTP _ _ _ _ _ s) as [a s'] eqn:Hr. revert Hok.
      by apply (ServeHTTP_books metrics) in Hr.
    - destruct (Fulfiller_Fulfill _ _ _) as [u w'] eqn:Hr. revert Hok.
      apply Fulfill_books in Hr. exact Hr. }
  split; [|done]. intros id o Ho.
  destruct (ok_paid_for _ HT id o Ho) as (k & p & Hk & Hp). exists k, p.
  destruct (ok_in_step _ HT k p Hk) as (o' & Ho' & Hs).
  assert (o' = o) as -> by (rewrite Hp in Ho'; congruence).
  split_and!; [done|done| |done|].
  - by apply (Hb' k).
  - intros k' p' Hk' Hp'. apply (ok_one_payment _ HT k' k p' p); congruence.
Qed.
End site.

(** ** A concrete run: Ada orders, a worker fulfils, Ada orders too much *)
Definition ada_day : list (shop_event (G := fakeGateway) (N := unit) (R := RefRuntime)) :=
  [Serve "key-1" "POST" ["api"; "v1"; "orders"] (request ada_bearer "order");
   Work 100 (f_gateway (demo_fworld demo 1)) () (f_runtime (demo_fworld demo 1));
   Serve "key-2" "POST" ["api"; "v1"; "orders"] (request ada_bearer "too many")].
Definition ada_evening : DemoSite :=
  foldl (shop_step (G := fakeGateway) (N := unit) (R := RefRuntime) demo_manager default_worker
           scraper) ada_login.2 ada_day.

Lemma demo_books : books_ok demo_tables.
Proof. split; [exact demo_ledger_ok|]. intros k p o. cbn. by rewrite lookup_empty. Qed.

Lemma books_balance_witness :
  Order_Status <$> Tables_orders (view (site_db ada_evening)) !! 100 = Some OrderStatusConfirmed
  ∧ ∃ k p, Tables_payments (view (site_db ada_evening)) !! k = Some p
      ∧ Payment_OrderID p = 100 ∧ Some (Payment_Amount p)
        = Order_TotalPrice <$> Tables_orders (view (site_db ada_evening)) !! 100.
Proof.
  assert (view (site_db ada_login.2) = demo_tables) as ET by evaluate.
  assert (Order_Status <$> Tables_orders (view (site_db ada_evening)) !! 100
          = Some OrderStatusConfirmed) as Es by evaluate.
  split; [exact Es|].
  destruct (books_balance (G := fakeGateway) (N := unit) (R := RefRuntime) demo_manager
    default_worker scraper ada_day ada_login.2) as [Hall _].
  - intros c. apply scraper_moves, _.
  - rewrite ET. exact demo_books.
  - change (foldl _ ada_login.2 ada_day) with ada_evening in Hall.
    destruct (Tables_orders (view (site_db ada_evening)) !! 100) as [o|] eqn:Eo;
      [|discriminate Es].
    destruct (Hall 100 o Eo) as (k & p & Hk & Hp & Ha & _). exists k, p.
    split; [exact Hk|]. split; [exact Hp|]. cbn. by rewrite Ha.
Defined.
